(* ===== verification/_CoqProject ===== *)
-Q . S2P
Prelude.v
Float64.v
FloatTheory.v
GoTime.v
Proto.v
CtrlWriter.v
Strs.v
Codec.v
Scanner.v
Netip.v
IPPool.v
DirectPath.v
AdminAPI.v
RateLimit.v
Session.v
LB.v
UserStore.v
SqlUsers.v
QoS.v
History.v
SqlHistory.v
Events.v
PwHash.v
AdminStore.v
SqlAdmins.v
AdminServer.v
Sse.v
Conf.v
Flags.v
Logx.v
TurnCred.v
Oidc.v
Socks.v
SocksServer.v
Quicx.v
Pki.v
Explain.v
Shutdown.v
Tunnel.v
Ice.v
Pion.v
Netcfg.v
NetLinux.v
NetDarwin.v
NetWindows.v
NetOther.v
Broker.v
BrokerSys.v
BrokerProps.v
BrokerMain.v
BrokerRun.v
Telemetry.v
Sysstat.v
Exit.v
ExitProps.v
ExitMain.v
Client.v
ClientMain.v
ClientRun.v
HostStats.v
EndToEnd.v
Direct.v
