(* ===== verification/Prelude.v ===== *)
(** * A verification library for Revquic

    Revquic is a VPN whose traffic leaves through exit nodes behind NAT.  Three programs take part:

      - the broker (src/cmd/revquic-broker) accepts QUIC connections of exits and clients,
        authenticates them, assigns each client an exit and a VPN address, relays datagrams between the
        two connections of a session, keeps the session of a client that dropped for a while so that it
        can resume, and serves an admin API;
      - the exit (src/cmd/revquic-exit) registers with the broker, opens a session for each client the
        broker sends it, checks the source address of each packet and moves packets between its TUN
        device and the sessions;
      - the client (src/cmd/revquic-client) connects, moves packets between its TUN device and the
        session, and tries to replace the relay by a direct path to the exit (ICE and QUIC).

    This library is a shallow embedding of the Go source: data are records and inductive types with the
    source's fields, operations are executable functions on explicit state with the source's names, and
    errors are values of [result] (below) or of an option.  Pointers that are shared are locations of a
    heap (a finite map).  What runs concurrently is cut at its locks or atomic operations, and a step
    relation interleaves the pieces.  Integers are [Z] with their width written out where it matters;
    [float64] is the Standard Library's binary64, bit for bit ([Float64]).

    ** Files and the code they model (paths under src/)

    Shared: this file (results, record updates [r <| f := v |>], automation, lists); [Float64],
    [FloatTheory] (float64); [GoTime] (package time); [Strs] (package strings and numbers as text);
    [Codec] (base64 and hex); [Scanner] (bufio.Scanner); [Netip] (net/netip).

    - [Proto]: internal/proto - control messages, their framing on a stream, the datagram header;
      [CtrlWriter]: the goroutines of a program that share a control stream through a mutex.
    - [IPPool]: internal/ippool - Allocate, Release and their like.
    - [DirectPath], [Session]: internal/directpath, internal/session - the decision for a direct path,
      the path's state machine, and a session's data path with its migrations and counters.
    - [RateLimit]: internal/ratelimit.  [LB]: internal/lb.  [AdminAPI]: internal/adminapi.
    - [UserStore], [SqlUsers]: internal/userstore, the table with its file and the SQLite store.
    - [QoS], [History], [SqlHistory]: internal/qos - the tracker, the queue before the disk, and the
      file and SQLite backends.
    - [Events]: internal/events.  [PwHash]: internal/pwhash.
    - [AdminStore], [SqlAdmins]: internal/adminstore.  [AdminServer]: internal/auth, internal/adminserver;
      [Sse]: its stream of events.
    - [Conf], [Flags]: internal/conf and package flag.  [Logx]: internal/logx.
      [TurnCred]: internal/turncred.  [Oidc]: internal/oidc.
    - [Socks], [SocksServer]: internal/socks - the handshake; the server, its sockets and the splice.
    - [Quicx], [Explain]: internal/quicx (configurations and the check of chains; texts for the user).
      [Pki]: internal/pki, cmd/revquic-certgen.
    - [Shutdown]: internal/shutdown.  [Sysstat]: internal/sysstat on Linux; [HostStats]: the samplers of
      all systems and what client and exit do with their numbers.  [Tunnel]: internal/tunnel.
    - [Ice]: internal/ice (interface), internal/icewire, internal/directlink - the negotiation;
      [Pion]: its agent over the pion library; [Direct]: an attempt at a direct path by either program.
    - [Netcfg], [NetLinux], [NetDarwin], [NetWindows], [NetOther]: internal/netcfg.
    - [Broker]: cmd/revquic-broker, handlers and timers as blocks; [BrokerSys]: their interleaving and
      its invariant; [BrokerProps]: the theorems; [BrokerMain]: main, from its options to a broker that
      serves; [BrokerRun]: the command line, the accept loops and signals.  [Telemetry]: internal/telemetry.
    - [Exit], [ExitProps]: cmd/revquic-exit, sessions and packets, status; [ExitMain]: its startup,
      registration and reconnect loop.  [Client]: cmd/revquic-client, connections and packets;
      [ClientMain]: its command line, the list of exits and the cleanup supervisor; [ClientRun]: what main and
      runConnection do around a connection.
    - [EndToEnd]: client, broker and exit composed.

    ** Interfaces

    Where the code uses an interface, so does the library: [AddressPool] (what the broker needs of a
    pool, given by [IPPool]), [UserRegistry] (by [UserStore], and by either store in [BrokerMain]),
    [AdminRegistry] (by [AdminStore] and by [SqlAdmins]), [HistoryStore], [Writer], [Agent] (by
    [Pion]), [ResponseWriter], [backend] (a TUN device) and [HostSampler] (the samplers of Linux and of
    the other systems).  Theorems about the client of an interface are proved against the class, or for
    each of its instances.

    Code outside the repository is a parameter: HMAC, SHA-256 and RSA, JSON codecs, random bytes, the
    clock, the file system ([os_env], [fs_env]), crypto/x509 ([x509], [Crypto]), QUIC ([quic_env]), and the
    classes [UserDB], [AdminDB] and [EventDB] (statements of SQLite), [IpHost] and [RouteHost] (ip,
    iptables and route), [Pion] with [PionLaws] (the pion library).  Their laws are what the documentation
    of that code says, of commands and statements that may fail only what they do when they succeed; an
    instance of each that a property uses is built in its file and used by the property's witness.

    ** What the theorems show

    The properties carry an id (C1 to C40) in their comments.

      - Sessions in the broker, over every interleaving of handlers, timers and relay, from any settings
        ([BrokerProps]): [addresses_never_shared], [active_is_attached], [tables_well_formed],
        [parked_sessions_expire], [resume_restores], [selected_exit_fits].
      - Control streams: [CtrlWriter.control_writers_are_serialized] for their writers,
        [Proto.broken_stream_is_an_error] for a reader whose stream is cut.
      - Packets: [EndToEnd.packets_cross_the_relay] through all three programs,
        [ExitProps.no_spoofed_source] and [replies_reach_their_client] at the exit,
        [Tunnel.wintun_handles_are_live] for the device on Windows.
      - Direct paths: [Pion.peers_meet_over_pion] for the negotiation, under any schedule of the signals, [Direct.direct_attempt_is_safe] for
        an attempt from its settings to the session, [Session.migration_keeps_a_path] and
        [Client.client_keeps_a_path] while a path is replaced.
      - Access: [UserStore.authenticate_sound], [revocation_is_immediate] and [restart_preserves];
        [SqlUsers.sqlite_refines_table]; [AdminServer.api_is_guarded] and [session_lasts_eight_hours];
        [Oidc.verify_exactly]; [PwHash.hash_verifies]; [Pki.certgen_deployment_works] for the certificates.
      - Starting and stopping: [BrokerMain.first_start_is_usable], [ExitMain.exit_isolates_clients],
        [ClientMain.supervisor_restores_routes], [Conf.config_file_applies].
      - The proxy: [SocksServer.proxy_sockets_are_bound] and [proxied_connection].
      - Resources: [IPPool.allocate_sound_complete], [RateLimit.bucket_bounded] in floating point.
      - Observation: [QoS.event_log_replays]; [History.queue_is_faithful], [close_terminates] and
        [history_survives_restart]; [SqlHistory.sqlite_keeps_the_newest]; [Sse.feed_is_whole];
        [HostStats.reported_host_use].

    Theorems without an id state smaller facts and the behaviours where the code does not do what it
    means to (for instance [BrokerProps.stale_exit_unregisters], [ExitMain.rejected_exit_serves],
    [ClientMain.interrupt_loses_default_route], [Session.close_upgrade_race],
    [Tunnel.close_frees_a_packet_in_use] and [close_takes_the_event_in_use],
    [SocksServer.ipv6_leaves_tunnel] and [half_close_truncates]).

    ** Fuel and bounds

    All functions are total.  [IPPool.alloc_loop] takes fuel: [sweep_fuel] is the loop's own bound plus
    two, and [allocate_sound_complete] holds with it.  The other loops recurse on their input; the loops
    that run forever in Go are step relations or functions of the list of what arrives.

    ** Not modelled, and why

      - The text of JSON documents (encoding/json is a parameter), the HTML of the exit's status page and
        the static pages of the admin server: they are data, not operations.
      - What lies behind the interfaces named above: QUIC, TLS, SQLite, pion, wintun.dll, water, the
        kernel's sockets and the host's commands.
      - Most texts that are logged or written to the terminal, and accessors without a decision of
        their own. *)

From stdpp Require Export base gmap strings list fin_maps numbers option pretty sorting.
From Stdlib Require Export ZArith Lia.
From Stdlib Require Export Init.Byte Strings.Byte.

(** ** Results: Go's [(T, error)] pairs as a sum *)

Inductive result (E A : Type) : Type :=
| Ok (a : A)
| Err (e : E).
Arguments Ok {E A} a.
Arguments Err {E A} e.

Definition rbind {E A B} (r : result E A) (k : A → result E B) : result E B :=
  match r with
  | Ok a => k a
  | Err e => Err e
  end.

Definition is_ok {E A} (r : result E A) : bool :=
  match r with Ok _ => true | Err _ => false end.

Declare Scope go_scope.
Delimit Scope go_scope with go.
Notation "'let?' x := e 'in' k" := (rbind e (λ x, k))
  (at level 10, x binder, e at level 100, k at level 200) : go_scope.
Open Scope go_scope.

(** ** Automation *)

Create HintDb revquic discriminated.

(** Split every conjunction, existential and pair equation of the context. *)
Ltac unpack :=
  repeat match goal with
  | H : _ ∧ _ |- _ => destruct H
  | H : ∃ _, _ |- _ => destruct H
  | H : (_, _) = (_, _) |- _ => injection H as; subst
  | H : Ok _ = Ok _ |- _ => injection H as; subst
  | H : Err _ = Err _ |- _ => injection H as; subst
  | H : Ok _ = Err _ |- _ => discriminate H
  | H : Err _ = Ok _ |- _ => discriminate H
  end.

(** Case analysis on the scrutinee of a match in hypothesis [H], keeping the equation. *)
Ltac case_in H :=
  match type of H with
  | context [match ?x with _ => _ end] => destruct x eqn:?
  end; simplify_eq/=.

(** ** Record update

    [r <| f := v |>] is the record [r] with field [f] replaced; [r <| f ::= k |>] applies [k] to the
    field.  A record opts in with an [Eta] instance, its own eta expansion; the setter of a field is
    found by abstracting the field's projection in it. *)

Class Eta (R : Type) := eta_of : R → R.
Class Setter {R T : Type} (f : R → T) := upd : (T → T) → R → R.
Arguments upd {R T} f {_} / _ _.

Ltac find_setter :=
  match goal with
  | |- @Setter ?R _ ?f =>
      let i := constr:(_ : Eta R) in
      let e := (eval hnf in i) in
      match (eval pattern f in e) with
      | ?h _ => exact (λ k, h (λ r, k (f r)))
      end
  end.
#[export] Hint Extern 1 (Setter _) => find_setter : typeclass_instances.

Notation "r <| f := v |>" := (upd f (λ _, v) r)
  (at level 8, left associativity, f at level 98, v at level 99, format "r  <| f  :=  v |>") : go_scope.
Notation "r <| f ::= k |>" := (upd f k r)
  (at level 8, left associativity, f at level 98, k at level 99, format "r  <| f  ::=  k |>") : go_scope.

(** A statement [if b { s }] that updates a record, and the fields it leaves alone. *)
Definition when {A} (b : bool) (f : A → A) (a : A) : A := if b then f a else a.

Lemma when_proj {A B} (p : A → B) b (f : A → A) a : (∀ a, p (f a) = p a) → p (when b f a) = p a.
Proof. unfold when. destruct b; auto. Qed.

(** ** Bytes *)

#[export] Instance byte_eq_dec : EqDecision byte := Byte.byte_eq_dec.

Definition b2z (b : byte) : Z := Z.of_N (Byte.to_N b).
Definition z2b (z : Z) : byte := default x00 (Byte.of_N (Z.to_N (z mod 256))).

Lemma b2z_range b : (0 ≤ b2z b < 256)%Z.
Proof. unfold b2z. pose proof (Byte.to_N_bounded b). lia. Qed.

Lemma b2z_z2b z : b2z (z2b z) = (z mod 256)%Z.
Proof.
  unfold b2z, z2b.
  assert (0 ≤ z mod 256 < 256)%Z as Hr by (apply Z.mod_pos_bound; lia).
  destruct (Byte.of_N (Z.to_N (z mod 256))) as [b|] eqn:E; simpl.
  - apply Byte.to_of_N in E. rewrite E. lia.
  - apply Byte.of_N_None_iff in E. lia.
Qed.

Lemma z2b_b2z b : z2b (b2z b) = b.
Proof.
  unfold z2b. pose proof (b2z_range b). rewrite Z.mod_small by lia.
  unfold b2z. rewrite N2Z.id, Byte.of_to_N. done.
Qed.

Lemma b2z_inj b1 b2 : b2z b1 = b2z b2 → b1 = b2.
Proof. intros H. by rewrite <- (z2b_b2z b1), H, z2b_b2z. Qed.

(** ** Big-endian integers ([encoding/binary].BigEndian) *)

Fixpoint be_encode (n : nat) (z : Z) : list byte :=
  match n with
  | O => []
  | S n => be_encode n (z / 256) ++ [z2b z]
  end.

Definition be_decode (l : list byte) : Z :=
  foldl (λ acc b, acc * 256 + b2z b)%Z 0%Z l.

Lemma length_be_encode n z : length (be_encode n z) = n.
Proof. revert z. induction n as [|n IH]; intros z; simpl; [done|]. rewrite length_app, IH; simpl; lia. Qed.

Lemma be_decode_snoc l b : be_decode (l ++ [b]) = (be_decode l * 256 + b2z b)%Z.
Proof. unfold be_decode. by rewrite foldl_snoc. Qed.

Lemma be_decode_range l : (0 ≤ be_decode l < 256 ^ Z.of_nat (length l))%Z.
Proof.
  induction l as [|b l IH] using rev_ind; [done|].
  rewrite be_decode_snoc, length_app, Nat.add_comm. simpl length.
  rewrite Nat2Z.inj_succ, Z.pow_succ_r by lia. pose proof (b2z_range b). lia.
Qed.

Lemma be_decode_encode n z : be_decode (be_encode n z) = (z mod 256 ^ Z.of_nat n)%Z.
Proof.
  revert z. induction n as [|n IH]; intros z; simpl be_encode.
  - by rewrite Z.mod_1_r.
  - rewrite be_decode_snoc, IH, b2z_z2b, Nat2Z.inj_succ, Z.pow_succ_r by lia.
    rewrite Z.rem_mul_r by lia. lia.
Qed.

Lemma be_encode_decode l : be_encode (length l) (be_decode l) = l.
Proof.
  induction l as [|b l IH] using rev_ind; [done|].
  rewrite length_app, Nat.add_comm. simpl.
  rewrite be_decode_snoc. pose proof (b2z_range b).
  rewrite Z.div_add_l, Z.div_small, Z.add_0_r, IH by lia.
  f_equal. f_equal. apply b2z_inj. rewrite b2z_z2b, Z.add_comm, Z_mod_plus_full, Z.mod_small; lia.
Qed.

(** ** Machine integers *)

Definition u8 (z : Z) : Z := (z mod 2 ^ 8)%Z.
Definition u16 (z : Z) : Z := (z mod 2 ^ 16)%Z.
Definition u32 (z : Z) : Z := (z mod 2 ^ 32)%Z.
Definition u64 (z : Z) : Z := (z mod 2 ^ 64)%Z.
Definition i64 (z : Z) : Z := ((z + 2 ^ 63) mod 2 ^ 64 - 2 ^ 63)%Z.
