(* ===== verification/Float64.v ===== *)
(** * IEEE-754 binary64, Go's [float64]

    Values and operations are those of the Standard Library's [SpecFloat] at precision 53 and
    exponent bound 1024: a bit-exact, executable account of [float64] with round-to-nearest-even. *)
From S2P Require Import Prelude.
From Stdlib Require Import Floats.SpecFloat.

Open Scope Z_scope.

Notation f64 := spec_float.

Definition f64_valid (x : f64) : bool := valid_binary 53 1024 x.

Definition fadd : f64 → f64 → f64 := SFadd 53 1024.
Definition fsub : f64 → f64 → f64 := SFsub 53 1024.
Definition fmul : f64 → f64 → f64 := SFmul 53 1024.
Definition fdiv : f64 → f64 → f64 := SFdiv 53 1024.

(** [x < y], [x <= y] and [x == y] of Go: false as soon as an operand is NaN. *)
Definition fltb : f64 → f64 → bool := SFltb.
Definition fleb : f64 → f64 → bool := SFleb.
Definition feqb : f64 → f64 → bool := SFeqb.
Definition fgtb (x y : f64) : bool := fltb y x.
Definition fgeb (x y : f64) : bool := fleb y x.

(** [float64(z)] for an integer [z]: correctly rounded. *)
Definition f64_of_Z (z : Z) : f64 := binary_normalize 53 1024 z 0 false.

Definition f64_zero : f64 := S754_zero false.

(** [int64(x)] for a finite [x] in range: truncation towards zero. *)
Definition f64_trunc (x : f64) : Z :=
  match x with
  | S754_finite s m e =>
      let a := if (0 <=? e)%Z then (Z.pos m * 2 ^ e)%Z else (Z.pos m / 2 ^ (- e))%Z in
      if s then (- a)%Z else a
  | _ => 0%Z
  end.

(** ** Order facts *)

Definition f64_nan (x : f64) : bool := match x with S754_nan => true | _ => false end.

Lemma SFcompare_refl x : f64_nan x = false → SFcompare x x = Some Eq.
Proof.
  destruct x as [s|s| |s m e]; simpl; try done; destruct s; try done; intros _;
    rewrite Z.compare_refl; change (Pos.compare_cont Eq m m) with (Pos.compare m m);
    by rewrite Pos.compare_refl.
Qed.

Lemma SFcompare_swap x y : SFcompare y x = CompOpp <$> SFcompare x y.
Proof.
  destruct x as [s1|s1| |s1 m1 e1], y as [s2|s2| |s2 m2 e2]; simpl;
    try (destruct s1; done); try (destruct s2; done); try (destruct s1, s2; done); try done.
  f_equal. change (Pos.compare_cont Eq m1 m2) with (Pos.compare m1 m2).
  change (Pos.compare_cont Eq m2 m1) with (Pos.compare m2 m1).
  rewrite (Pos.compare_antisym m1 m2), (Z.compare_antisym e1 e2).
  destruct s1, s2; try done; destruct (Z.compare e1 e2); simpl; try done.
Qed.

Lemma fltb_irrefl x : fltb x x = false.
Proof.
  unfold fltb, SFltb. destruct (f64_nan x) eqn:E; [by destruct x|]. by rewrite SFcompare_refl.
Qed.

(** On numbers, [<] is the negation of the converse [<=]. *)
Lemma fltb_fgeb x y : f64_nan x = false → f64_nan y = false → fltb x y = negb (fleb y x).
Proof.
  intros Hx Hy. unfold fltb, fleb, SFltb, SFleb. rewrite (SFcompare_swap x y).
  destruct (SFcompare x y) as [c|] eqn:E; [by destruct c|].
  destruct x as [s1|s1| |s1 m1 e1], y as [s2|s2| |s2 m2 e2]; simpl in *; done.
Qed.
