(* ===== verification/FloatTheory.v ===== *)
(** * Theory of binary64

    What the operations of [Float64] guarantee: every result is a binary64 ([*_valid]), comparison is
    comparison of values ([fleb_fval], [fltb_fval]), nearest rounding never crosses a representable
    number ([fsub_below]), and arithmetic on integers of at most 53 bits is exact ([f64_of_Z_exact],
    [fsub_exact]).  The clients are the token bucket of [RateLimit] and the samples of [QoS]. *)
From S2P Require Import Prelude Float64.
From Stdlib Require Import Floats.SpecFloat.

Open Scope Z_scope.

(** ** Values

    Every finite binary64 is a multiple of [2^-1074]; [fval] is that multiple. *)

Definition finite (x : f64) : bool :=
  match x with S754_zero _ | S754_finite _ _ _ => true | _ => false end.

Definition fval (x : f64) : Z :=
  match x with
  | S754_finite s m e => (if s then -1 else 1) * (Z.pos m * 2 ^ (e + 1074))
  | _ => 0
  end.

Lemma digits2_pos_bounds m : 2 ^ (Z.pos (digits2_pos m) - 1) ≤ Z.pos m < 2 ^ Z.pos (digits2_pos m).
Proof.
  induction m as [m IH|m IH|]; simpl digits2_pos; [| |done];
    rewrite Pos2Z.inj_succ; unfold Z.succ;
    replace (2 ^ (Z.pos (digits2_pos m) + 1)) with (2 * 2 ^ Z.pos (digits2_pos m))
      by (rewrite Z.pow_add_r; lia);
    replace (2 ^ (Z.pos (digits2_pos m) + 1 - 1)) with (2 * 2 ^ (Z.pos (digits2_pos m) - 1))
      by (rewrite <- Z.pow_succ_r by lia; f_equal; lia); lia.
Qed.

(** The digit count is determined by the power-of-two interval. *)
Lemma digits2_pos_unique m d :
  2 ^ (d - 1) ≤ Z.pos m < 2 ^ d → 0 < d → Z.pos (digits2_pos m) = d.
Proof.
  intros [Hl Hu] Hd. pose proof (digits2_pos_bounds m) as [Bl Bu].
  assert (2 ^ (Z.pos (digits2_pos m) - 1) < 2 ^ d) as H1 by lia.
  assert (2 ^ (d - 1) < 2 ^ Z.pos (digits2_pos m)) as H2 by lia.
  apply Z.pow_lt_mono_r_iff in H1; [|lia..]. apply Z.pow_lt_mono_r_iff in H2; [|lia..]. lia.
Qed.

Notation fexp64 := (fexp 53 1024).

Lemma fexp64_eq x : fexp64 x = Z.max (x - 53) (-1074).
Proof. done. Qed.

Lemma bounded_iff m e :
  bounded 53 1024 m e = true ↔
  -1074 ≤ e ≤ 971 ∧ Z.pos m < 2 ^ 53 ∧ (e = -1074 ∨ 2 ^ 52 ≤ Z.pos m).
Proof.
  unfold bounded, canonical_mantissa. rewrite andb_true_iff, Z.eqb_eq, Z.leb_le, fexp64_eq.
  change (1024 - 53) with 971.
  pose proof (digits2_pos_bounds m) as [Bl Bu]. set (d := Z.pos (digits2_pos m)) in *.
  split.
  - intros [He Hm]. assert (d ≤ 53) by lia. split; [lia|]. split.
    + eapply Z.lt_le_trans; [apply Bu|]. apply Z.pow_le_mono_r; lia.
    + destruct (decide (e = -1074)); [by left|right]. assert (d = 53) as E by lia.
      rewrite E in Bl. exact Bl.
  - intros (He & Hm & Hor). split; [|lia].
    assert (d ≤ 53) as Hd.
    { assert (2 ^ (d - 1) < 2 ^ 53) as H by lia. apply Z.pow_lt_mono_r_iff in H; lia. }
    destruct Hor as [->|Hl]; [lia|].
    assert (2 ^ 52 < 2 ^ d) as H by lia. apply Z.pow_lt_mono_r_iff in H; lia.
Qed.

(** ** Comparison is comparison of values *)

Lemma mantissa_exponent_lt m1 e1 m2 e2 :
  bounded 53 1024 m1 e1 = true → bounded 53 1024 m2 e2 = true → e1 < e2 →
  Z.pos m1 * 2 ^ (e1 + 1074) < Z.pos m2 * 2 ^ (e2 + 1074).
Proof.
  rewrite !bounded_iff. intros (He1 & Hm1 & _) (He2 & _ & [->|Hm2]) Hlt; [lia|].
  replace (e2 + 1074) with ((e2 - e1 - 1) + (1 + (e1 + 1074))) by lia.
  remember (e1 + 1074) as E eqn:HE. rewrite !Z.pow_add_r by lia. set (P := 2 ^ E).
  assert (0 < P) by (apply Z.pow_pos_nonneg; lia).
  assert (1 ≤ 2 ^ (e2 - e1 - 1)) by (pose proof (Z.pow_pos_nonneg 2 (e2 - e1 - 1)); lia).
  clearbody P. generalize dependent (2 ^ (e2 - e1 - 1)). intros Q HQ. change (2 ^ 1) with 2.
  apply Z.lt_le_trans with (2 ^ 53 * P); [by apply Z.mul_lt_mono_pos_r|].
  replace (Z.pos m2 * (Q * (2 * P))) with ((Z.pos m2 * 2 * Q) * P) by ring.
  apply Z.mul_le_mono_nonneg_r; [lia|]. change (2 ^ 53) with (2 ^ 52 * 2). nia.
Qed.

Arguments fval : simpl never.

Lemma magnitude_pos m e : bounded 53 1024 m e = true → 0 < Z.pos m * 2 ^ (e + 1074).
Proof.
  intros (He & _)%bounded_iff. apply Z.mul_pos_pos; [lia|]. apply Z.pow_pos_nonneg; lia.
Qed.

Lemma magnitude_compare m1 e1 m2 e2 :
  bounded 53 1024 m1 e1 = true → bounded 53 1024 m2 e2 = true →
  match e1 ?= e2 with Lt => Lt | Gt => Gt | Eq => Pos.compare_cont Eq m1 m2 end
  = (Z.pos m1 * 2 ^ (e1 + 1074) ?= Z.pos m2 * 2 ^ (e2 + 1074)).
Proof.
  intros V1 V2. destruct (Z.compare_spec e1 e2) as [->|Hlt|Hgt].
  - change (Pos.compare_cont Eq m1 m2) with (Z.pos m1 ?= Z.pos m2).
    apply Zmult_compare_compat_r, Z.lt_gt. apply bounded_iff in V2 as (? & _).
    apply Z.pow_pos_nonneg; lia.
  - symmetry. apply Z.compare_lt_iff. by apply mantissa_exponent_lt.
  - symmetry. apply Z.compare_gt_iff. by apply mantissa_exponent_lt.
Qed.

Lemma SFcompare_fval x y :
  finite x = true → finite y = true → f64_valid x = true → f64_valid y = true →
  SFcompare x y = Some (Z.compare (fval x) (fval y)).
Proof.
  unfold f64_valid.
  destruct x as [s1|s1| |s1 m1 e1], y as [s2|s2| |s2 m2 e2];
    cbn [SFcompare finite valid_binary]; try done; intros _ _ V1 V2; f_equal.
  - pose proof (magnitude_pos _ _ V2). symmetry.
    destruct s2; [apply Z.compare_gt_iff|apply Z.compare_lt_iff]; unfold fval; lia.
  - pose proof (magnitude_pos _ _ V1). symmetry.
    destruct s1; [apply Z.compare_lt_iff|apply Z.compare_gt_iff]; unfold fval; lia.
  - pose proof (magnitude_pos _ _ V1). pose proof (magnitude_pos _ _ V2).
    pose proof (magnitude_compare m1 e1 m2 e2 V1 V2) as Hpos. unfold fval. destruct s1, s2.
    + transitivity (CompOpp (Z.pos m1 * 2 ^ (e1 + 1074) ?= Z.pos m2 * 2 ^ (e2 + 1074))).
      * rewrite <- Hpos. by destruct (e1 ?= e2).
      * rewrite <- Z.compare_antisym, <- Z.compare_opp. f_equal; lia.
    + symmetry. apply Z.compare_lt_iff. lia.
    + symmetry. apply Z.compare_gt_iff. lia.
    + rewrite Hpos. f_equal; lia.
Qed.

Lemma fleb_fval x y :
  finite x = true → finite y = true → f64_valid x = true → f64_valid y = true →
  fleb x y = (fval x <=? fval y).
Proof.
  intros. unfold fleb, SFleb, Z.leb. rewrite SFcompare_fval by done. by destruct (_ ?= _).
Qed.

Lemma fltb_fval x y :
  finite x = true → finite y = true → f64_valid x = true → f64_valid y = true →
  fltb x y = (fval x <? fval y).
Proof.
  intros. unfold fltb, SFltb, Z.ltb. rewrite SFcompare_fval by done. by destruct (_ ?= _).
Qed.

(** ** Shifting with a sticky location *)

Lemma shr_1_spec r :
  0 ≤ shr_m r →
  shr_m (shr_1 r) = shr_m r / 2 ∧
  (shr_r (shr_1 r) || shr_s (shr_1 r) = negb (shr_m r mod 2 =? 0) || (shr_r r || shr_s r)).
Proof.
  destruct r as [m b s]; simpl. destruct m as [|[p|p|]|p]; simpl; try lia; intros _; split;
    try done; try (by rewrite ?orb_false_l).
  - rewrite Pos2Z.inj_xI. rewrite Z.add_comm, Z.mul_comm, Z.div_add by lia. done.
  - rewrite Pos2Z.inj_xI. rewrite Z.add_comm, Z.mul_comm, Z.mod_add by lia. done.
  - rewrite Pos2Z.inj_xO. by rewrite Z.mul_comm, Z.div_mul by lia.
  - rewrite Pos2Z.inj_xO. by rewrite Z.mul_comm, Z.mod_mul by lia.
Qed.

Fixpoint iter_nat (n : nat) (r : shr_record) : shr_record :=
  match n with O => r | S n => iter_nat n (shr_1 r) end.

Lemma iter_nat_add a b r : iter_nat (a + b) r = iter_nat b (iter_nat a r).
Proof. revert r. induction a as [|a IH]; intros r; simpl; [done|]. apply IH. Qed.

Lemma iter_pos_nat p r : iter_pos shr_1 p r = iter_nat (Pos.to_nat p) r.
Proof.
  revert r. induction p as [p IH|p IH|]; intros r; cbn [iter_pos]; [| |done].
  - rewrite !IH, Pos2Nat.inj_xI. cbn [iter_nat]. rewrite <- iter_nat_add. f_equal. lia.
  - rewrite !IH, Pos2Nat.inj_xO, <- iter_nat_add. f_equal. lia.
Qed.

Lemma iter_nat_spec n r :
  0 ≤ shr_m r →
  shr_m (iter_nat n r) = shr_m r / 2 ^ Z.of_nat n ∧
  (shr_r (iter_nat n r) || shr_s (iter_nat n r)
   = negb (shr_m r mod 2 ^ Z.of_nat n =? 0) || (shr_r r || shr_s r)).
Proof.
  revert r. induction n as [|n IH]; intros r Hr.
  - simpl. by rewrite Z.div_1_r, Z.mod_1_r.
  - cbn [iter_nat]. destruct (shr_1_spec r Hr) as [Hm Hs].
    assert (0 ≤ shr_m (shr_1 r)) as H1 by (rewrite Hm; apply Z.div_pos; lia).
    destruct (IH _ H1) as [-> ->]. rewrite Hm, Hs, Nat2Z.inj_succ, Z.pow_succ_r by lia.
    rewrite Z.div_div by lia. split; [done|].
    rewrite (Z.rem_mul_r (shr_m r) 2) by lia.
    pose proof (Z.mod_pos_bound (shr_m r) 2). pose proof (Z.mod_pos_bound (shr_m r / 2) (2 ^ Z.of_nat n)).
    set (A := shr_m r mod 2) in *. set (B := (shr_m r / 2) mod 2 ^ Z.of_nat n) in *.
    destruct (A =? 0) eqn:EA, (B =? 0) eqn:EB, (A + 2 * B =? 0) eqn:EC; simpl; try done; lia.
Qed.

(** What a right shift by [n] leaves: the quotient, and whether something non-zero was lost. *)
Lemma shr_spec m l e n :
  0 ≤ m → 0 ≤ n →
  ∃ r, shr (shr_record_of_loc m l) e n = (r, e + n) ∧ shr_m r = m / 2 ^ n ∧
       (loc_of_shr_record r = loc_Exact ↔ m mod 2 ^ n = 0 ∧ l = loc_Exact).
Proof.
  intros Hm Hn. set (r0 := shr_record_of_loc m l).
  assert (shr_m r0 = m) as E0 by (by destruct l as [|[]]).
  assert (shr_r r0 || shr_s r0 = false ↔ l = loc_Exact) as L0 by (destruct l as [|[]]; naive_solver).
  exists (iter_nat (Z.to_nat n) r0). destruct (iter_nat_spec (Z.to_nat n) r0) as [Hq Hs]; [lia|].
  rewrite Z2Nat.id, E0 in Hq, Hs by lia. split; [|split; [done|]].
  { unfold shr. destruct n as [|p|p]; [by rewrite Z.add_0_r| |lia]. by rewrite iter_pos_nat. }
  transitivity (shr_r (iter_nat (Z.to_nat n) r0) || shr_s (iter_nat (Z.to_nat n) r0) = false).
  { by destruct (iter_nat _ r0) as [? [] []]. }
  rewrite Hs, orb_false_iff, L0, negb_false_iff, Z.eqb_eq. done.
Qed.

(** ** Rounding *)

Lemma round_even_cases q l :
  round_nearest_even q l = q ∨ (round_nearest_even q l = q + 1 ∧ l ≠ loc_Exact).
Proof. destruct l as [|[]]; simpl; auto. destruct (Z.even q); auto. Qed.

(** The second normalisation of a rounded mantissa: nothing happens, except that [2^53] becomes
    [2^52] one exponent higher. *)
Lemma renormalize p f R :
  Z.pos p ≤ 2 ^ 53 → -1074 ≤ f → f = -1074 ∨ 2 ^ 52 ≤ Z.pos p →
  R = (let '(mrs, e) := shr_fexp 53 1024 (Z.pos p) f loc_Exact in
       match shr_m mrs with
       | 0 => S754_zero false
       | Z.pos m => if e <=? 1024 - 53 then S754_finite false m e else S754_infinity false
       | Z.neg _ => S754_nan
       end) →
  ∃ m e, f ≤ e ∧ Z.pos m * 2 ^ (e - f) = Z.pos p ∧
    ((e ≤ 971 ∧ R = S754_finite false m e ∧ bounded 53 1024 m e = true) ∨
     (971 < e ∧ 2 ^ 52 ≤ Z.pos m ∧ R = S754_infinity false)).
Proof.
  intros Hp Hf Hn HR. unfold shr_fexp in HR. cbn [Zdigits2] in HR.
  change (1024 - 53) with 971 in HR.
  destruct (decide (Z.pos p = 2 ^ 53)) as [E53|Hne].
  - assert (Z.pos (digits2_pos p) = 54) as E54 by (apply digits2_pos_unique; rewrite ?E53; lia).
    assert (fexp64 (54 + f) - f = 1) as E1 by (rewrite fexp64_eq; lia). rewrite E54, E1 in HR.
    destruct (shr_spec (Z.pos p) loc_Exact f 1) as (r & Hr & Hm & _); [lia..|].
    rewrite Hr, Hm, E53 in HR. change (2 ^ 53 / 2 ^ 1) with (Z.pos (2 ^ 52)) in HR. cbv iota beta in HR.
    exists (2 ^ 52)%positive, (f + 1). split; [lia|]. split.
    { replace (f + 1 - f) with 1 by lia. by rewrite E53. }
    destruct (f + 1 <=? 971) eqn:El.
    + left. split; [lia|]. split; [done|]. apply bounded_iff. lia.
    + right. split; [lia|]. split; [lia|done].
  - assert (fexp64 (Z.pos (digits2_pos p) + f) - f = 0) as E0.
    { pose proof (digits2_pos_bounds p) as [Bl Bu]. rewrite fexp64_eq.
      set (dp := Z.pos (digits2_pos p)) in *.
      assert (dp ≤ 53).
      { assert (2 ^ (dp - 1) < 2 ^ 53) as H by lia. apply Z.pow_lt_mono_r_iff in H; lia. }
      destruct Hn as [->|H52]; [lia|].
      assert (2 ^ 52 < 2 ^ dp) as Hlt by lia. apply Z.pow_lt_mono_r_iff in Hlt; lia. }
    rewrite E0 in HR. cbn [shr shr_m shr_record_of_loc] in HR.
    exists p, f. split; [lia|]. split; [rewrite Z.sub_diag; lia|]. destruct (f <=? 971) eqn:El.
    + left. split; [lia|]. split; [done|]. apply bounded_iff. lia.
    + right. split; [lia|]. split; [lia|done].
Qed.

(** Bounds on the digits of a non-negative integer. *)
Lemma Zdigits2_bounds m :
  0 ≤ m → m < 2 ^ Zdigits2 m ∧ (0 < m → 2 ^ (Zdigits2 m - 1) ≤ m) ∧ 0 ≤ Zdigits2 m.
Proof.
  destruct m as [|p|p]; [done| |lia]. pose proof (digits2_pos_bounds p). simpl Zdigits2. lia.
Qed.

(** What rounding to [q'] at exponent [f] returns. *)
Definition rounds_to (q' f : Z) (R : f64) : Prop :=
  (q' = 0 ∧ R = S754_zero false) ∨
  ∃ m e, f ≤ e ∧ Z.pos m * 2 ^ (e - f) = q' ∧
    ((e ≤ 971 ∧ R = S754_finite false m e ∧ bounded 53 1024 m e = true) ∨
     (971 < e ∧ 2 ^ 52 ≤ Z.pos m ∧ R = S754_infinity false)).

(** The result of rounding a non-negative magnitude that is not coarser than the format: the
    quotient at the format's exponent [f], or its successor when bits were lost. *)
Lemma round_aux_spec m e l :
  let f := fexp64 (Zdigits2 m + e) in
  0 ≤ m → e ≤ f →
  ∃ q', (q' = m / 2 ^ (f - e) ∨
         (q' = m / 2 ^ (f - e) + 1 ∧ ¬ (m mod 2 ^ (f - e) = 0 ∧ l = loc_Exact))) ∧
        rounds_to q' f (binary_round_aux 53 1024 false m e l).
Proof.
  intros f Hm0 Hf. destruct (Zdigits2_bounds m Hm0) as (Bu & Bl & Bd).
  remember (binary_round_aux 53 1024 false m e l) as R eqn:HR.
  unfold binary_round_aux in HR. unfold shr_fexp at 1 in HR. fold f in HR.
  remember (Zdigits2 m) as d eqn:Hd. assert (f = Z.max (d + e - 53) (-1074)) as Ef by done. clearbody f.
  destruct (shr_spec m l e (f - e)) as (r & Hr & Hq & Hl); [lia..|].
  rewrite Hr in HR. replace (e + (f - e)) with f in HR by lia.
  remember (m / 2 ^ (f - e)) as q eqn:Eqq.
  assert (0 < 2 ^ (f - e)) as HP by (apply Z.pow_pos_nonneg; lia).
  assert (0 ≤ q) as Hq0 by (subst q; apply Z.div_pos; lia).
  assert (q < 2 ^ 53) as Hq53.
  { subst q. apply Z.div_lt_upper_bound; [lia|]. rewrite <- Z.pow_add_r by lia.
    eapply Z.lt_le_trans; [apply Bu|]. apply Z.pow_le_mono_r; lia. }
  assert (f = -1074 ∨ 2 ^ 52 ≤ q) as Hnorm.
  { destruct (decide (f = -1074)); [by left|right]. subst q. apply Z.div_le_lower_bound; [lia|].
    rewrite <- Z.pow_add_r by lia. replace (f - e + 52) with (d - 1) by lia. apply Bl.
    destruct m; [simpl in Hd; lia|lia..]. }
  exists (round_nearest_even (shr_m r) (loc_of_shr_record r)). rewrite Hq in HR |- *.
  destruct (round_even_cases q (loc_of_shr_record r)) as [E|[E Hne]]; rewrite E in HR |- *.
  all: split; [naive_solver|].
  - clear Eqq. destruct q as [|p|p]; [left; split; [done|]; clear -HR|right; apply renormalize; [lia..|done]|lia].
    unfold shr_fexp in HR. cbn [Zdigits2 shr_record_of_loc] in HR.
    destruct (shr_spec 0 loc_Exact f (Z.max 0 (fexp64 (0 + f) - f))) as (r' & Hr' & Hm' & _); [lia..|].
    cbn [shr_record_of_loc] in Hr'.
    assert (shr {| shr_m := 0; shr_r := false; shr_s := false |} f (fexp64 (0 + f) - f)
            = shr {| shr_m := 0; shr_r := false; shr_s := false |} f (Z.max 0 (fexp64 (0 + f) - f))) as E.
    { by destruct (fexp64 (0 + f) - f). }
    by rewrite E, Hr', Hm', Z.div_0_l in HR by (apply Z.pow_nonzero; lia).
  - right. destruct (q + 1) as [|p|p] eqn:Eq; [lia| |lia]. apply renormalize; [lia..|done].
Qed.

Lemma iter_xO m d : Z.pos (Pos.iter xO m d) = Z.pos m * 2 ^ Z.pos d.
Proof.
  revert m. induction d as [|d IH] using Pos.peano_ind; intros m; [simpl; lia|].
  rewrite Pos.iter_succ, Pos2Z.inj_xO, IH, Pos2Z.inj_succ, Z.pow_succ_r by lia. ring.
Qed.

(** Rounding a magnitude [m * 2^e] to the nearest binary64: exact when it fits, else the quotient at
    the format's exponent or its successor. *)
Definition rounded (m e f q' : Z) : Prop :=
  (f ≤ e ∧ q' = m * 2 ^ (e - f)) ∨
  (e < f ∧ (q' = m / 2 ^ (f - e) ∨ (q' = m / 2 ^ (f - e) + 1 ∧ m mod 2 ^ (f - e) ≠ 0))).

Lemma round_spec m e :
  let f := fexp64 (Z.pos (digits2_pos m) + e) in
  ∃ q', rounded (Z.pos m) e f q' ∧ rounds_to q' f (binary_round 53 1024 false m e).
Proof.
  intros f. unfold binary_round, shl_align. fold f.
  destruct (decide (e ≤ f)) as [Hle|Hgt].
  - assert (match f - e with Z.neg d => (Pos.iter xO m d, f) | _ => (m, e) end = (m, e)) as ->.
    { destruct (f - e) eqn:E; [done..|lia]. }
    destruct (round_aux_spec (Z.pos m) e loc_Exact) as (q' & Hq & HR); [lia|done|].
    cbn [Zdigits2] in Hq, HR. fold f in Hq, HR. exists q'. split; [|done]. unfold rounded.
    destruct (decide (e = f)) as [Hef|Hne].
    + left. split; [lia|]. replace (e - f) with 0 by lia. replace (f - e) with 0 in Hq by lia.
      change (2 ^ 0) with 1 in *. rewrite Z.div_1_r, Z.mod_1_r in Hq. destruct Hq as [->|[_ []]]; [lia|done].
    + right. split; [lia|]. destruct Hq as [?|[? Hn]]; [by left|right]. split; [done|].
      intros ?. by apply Hn.
  - destruct (f - e) as [|d|d] eqn:Ed; [lia..|].
    set (m1 := Pos.iter xO m d). assert (Z.pos m1 = Z.pos m * 2 ^ (e - f)) as Em.
    { unfold m1. rewrite iter_xO. f_equal. f_equal. lia. }
    assert (Z.pos (digits2_pos m1) = Z.pos (digits2_pos m) + (e - f)) as Hdig.
    { pose proof (digits2_pos_bounds m) as [Bl Bu]. apply digits2_pos_unique; [|lia].
      rewrite Em. replace (Z.pos (digits2_pos m) + (e - f) - 1)
        with ((Z.pos (digits2_pos m) - 1) + (e - f)) by lia.
      rewrite !Z.pow_add_r by lia. assert (0 < 2 ^ (e - f)) by (apply Z.pow_pos_nonneg; lia). nia. }
    assert (fexp64 (Zdigits2 (Z.pos m1) + f) = f) as Ef.
    { simpl Zdigits2. rewrite Hdig.
      replace (Z.pos (digits2_pos m) + (e - f) + f) with (Z.pos (digits2_pos m) + e) by lia. done. }
    destruct (round_aux_spec (Z.pos m1) f loc_Exact) as (q' & Hq & HR); [lia|lia|].
    rewrite Ef in Hq, HR. exists q'. split; [|done]. left. split; [lia|].
    rewrite Z.sub_diag in Hq. change (2 ^ 0) with 1 in Hq. rewrite Z.div_1_r, Z.mod_1_r in Hq.
    destruct Hq as [->|[_ []]]; done.
Qed.

(** Raising the exponent of the unit by at least one doubles it. *)
Lemma unit_step a b : -1074 ≤ a → a < b → 2 * 2 ^ (a + 1074) ≤ 2 ^ (b + 1074).
Proof.
  intros Ha Hb. rewrite <- Z.pow_succ_r by lia. apply Z.pow_le_mono_r; lia.
Qed.

Section against_representable.
(** A representable positive number [mx * 2^ex]. *)
Context (mx : positive) (ex : Z) (Hx : bounded 53 1024 mx ex = true).
(** An exact magnitude on the grid and its rounding. *)
Context (m : positive) (e q' : Z) (He : -1074 ≤ e).
Let f := fexp64 (Z.pos (digits2_pos m) + e).
Context (Hq : rounded (Z.pos m) e f q').

Lemma unit_split : e < f → 2 ^ (f + 1074) = 2 ^ (f - e) * 2 ^ (e + 1074).
Proof. intros. rewrite <- Z.pow_add_r by lia. f_equal. lia. Qed.

Lemma quotient_large : e < f → 2 ^ 52 ≤ Z.pos m / 2 ^ (f - e).
Proof.
  intros Hef. pose proof (digits2_pos_bounds m) as [Bl _].
  apply Z.div_le_lower_bound; [apply Z.pow_pos_nonneg; lia|]. rewrite <- Z.pow_add_r by lia.
  assert (f = Z.max (Z.pos (digits2_pos m) + e - 53) (-1074)) as Ef by done.
  replace (f - e + 52) with (Z.pos (digits2_pos m) - 1) by lia. done.
Qed.

(** A coarser grid puts the quotient above every smaller representable number. *)
Lemma quotient_above_fine : e < f → ex < f →
  Z.pos mx * 2 ^ (ex + 1074) < Z.pos m / 2 ^ (f - e) * 2 ^ (f + 1074).
Proof.
  intros Hef Hexf. pose proof (quotient_large Hef).
  apply bounded_iff in Hx as ([? ?] & Hmx & _).
  assert (0 < 2 ^ (ex + 1074)) by (apply Z.pow_pos_nonneg; lia).
  pose proof (unit_step ex f ltac:(lia) Hexf).
  apply Z.lt_le_trans with (2 ^ 53 * 2 ^ (ex + 1074)); [by apply Z.mul_lt_mono_pos_r|].
  change (2 ^ 53) with (2 ^ 52 * 2). nia.
Qed.

(** On a grid at least as coarse as ours the representable number is a multiple of our unit. *)
Lemma representable_multiple : f ≤ ex →
  Z.pos mx * 2 ^ (ex + 1074) = (Z.pos mx * 2 ^ (ex - f)) * 2 ^ (f + 1074).
Proof.
  intros. assert (-1074 ≤ f) by (unfold f; rewrite fexp64_eq; lia).
  rewrite <- Z.mul_assoc, <- Z.pow_add_r by lia. f_equal. f_equal. lia.
Qed.

Lemma rounded_below :
  Z.pos m * 2 ^ (e + 1074) ≤ Z.pos mx * 2 ^ (ex + 1074) →
  q' * 2 ^ (f + 1074) ≤ Z.pos mx * 2 ^ (ex + 1074).
Proof.
  intros Hle. assert (-1074 ≤ f) by (unfold f; rewrite fexp64_eq; lia).
  destruct Hq as [[Hfe ->]|[Hef Hq']].
  { rewrite <- Z.mul_assoc, <- Z.pow_add_r by lia.
    replace (e - f + (f + 1074)) with (e + 1074) by lia. done. }
  pose proof (unit_split Hef) as EP. assert (0 < 2 ^ (f - e)) as HPn by (apply Z.pow_pos_nonneg; lia).
  pose proof (Z.div_mod (Z.pos m) (2 ^ (f - e))). pose proof (Z.mod_pos_bound (Z.pos m) (2 ^ (f - e)) HPn).
  assert (0 < 2 ^ (e + 1074)) by (apply Z.pow_pos_nonneg; lia).
  destruct Hq' as [->|[-> Hr]]; [rewrite EP; nia|].
  destruct (decide (f ≤ ex)) as [Hfx|Hfx].
  - rewrite (representable_multiple Hfx) in *. apply Z.mul_le_mono_nonneg_r; [lia|].
    assert (Z.pos m / 2 ^ (f - e) * 2 ^ (f + 1074) < (Z.pos mx * 2 ^ (ex - f)) * 2 ^ (f + 1074)) as Hlt.
    { eapply Z.lt_le_trans; [|apply Hle]. rewrite EP, Z.mul_assoc.
      apply Z.mul_lt_mono_pos_r; [done|]. lia. }
    apply Z.mul_lt_mono_pos_r in Hlt; [lia|]. apply Z.pow_pos_nonneg; lia.
  - pose proof (quotient_above_fine Hef ltac:(lia)). rewrite EP in *. nia.
Qed.

Lemma rounded_above :
  Z.pos mx * 2 ^ (ex + 1074) ≤ Z.pos m * 2 ^ (e + 1074) →
  Z.pos mx * 2 ^ (ex + 1074) ≤ q' * 2 ^ (f + 1074).
Proof.
  intros Hle. assert (-1074 ≤ f) by (unfold f; rewrite fexp64_eq; lia).
  assert (0 < 2 ^ (f + 1074)) by (apply Z.pow_pos_nonneg; lia).
  destruct Hq as [[Hfe ->]|[Hef Hq']].
  { rewrite <- Z.mul_assoc, <- Z.pow_add_r by lia.
    replace (e - f + (f + 1074)) with (e + 1074) by lia. done. }
  assert (Z.pos mx * 2 ^ (ex + 1074) ≤ Z.pos m / 2 ^ (f - e) * 2 ^ (f + 1074)); [|destruct Hq' as [->|[-> _]]; lia].
  destruct (decide (f ≤ ex)) as [Hfx|Hfx]; [|pose proof (quotient_above_fine Hef ltac:(lia)); lia].
  rewrite (representable_multiple Hfx) in *. apply Z.mul_le_mono_nonneg_r; [lia|].
  apply Z.div_le_lower_bound; [apply Z.pow_pos_nonneg; lia|].
  rewrite (unit_split Hef) in Hle. rewrite Z.mul_assoc in Hle.
  apply Z.mul_le_mono_pos_r in Hle; [lia|]. apply Z.pow_pos_nonneg; lia.
Qed.
End against_representable.

(** A rounded value as a magnitude: zero, finite at the same value, or overflow. *)
Lemma rounds_to_value q' f R :
  -1074 ≤ f → rounds_to q' f R →
  (finite R = true ∧ f64_valid R = true ∧ fval R = q' * 2 ^ (f + 1074)) ∨
  (R = S754_infinity false ∧ 2 ^ 2098 ≤ q' * 2 ^ (f + 1074)).
Proof.
  intros Hf [[-> ->]|(m & e & Hfe & Hval & Hc)]; [by left|].
  assert (q' * 2 ^ (f + 1074) = Z.pos m * 2 ^ (e + 1074)) as Ev.
  { rewrite <- Hval, <- Z.mul_assoc, <- Z.pow_add_r by lia. f_equal. f_equal. lia. }
  rewrite Ev. destruct Hc as [(He & -> & Hb)|(He & Hm & ->)].
  - left. split; [done|]. split; [done|]. unfold fval. lia.
  - right. split; [done|]. replace 2098 with (52 + 2046) by lia. rewrite (Z.pow_add_r 2 52 2046) by lia.
    apply Z.mul_le_mono_nonneg; [lia..|lia|]. apply Z.pow_le_mono_r; lia.
Qed.

Lemma fval_bound x : f64_valid x = true → fval x < 2 ^ 2098.
Proof.
  destruct x as [s|s| |s m e]; try done. unfold f64_valid. simpl. intros (He & Hm & _)%bounded_iff.
  unfold fval. assert (0 < 2 ^ (e + 1074)) by (apply Z.pow_pos_nonneg; lia).
  apply Z.le_lt_trans with (Z.pos m * 2 ^ (e + 1074)); [destruct s; nia|].
  replace 2098 with (53 + 2045) by lia. rewrite (Z.pow_add_r 2 53 2045) by lia.
  assert (2 ^ (e + 1074) ≤ 2 ^ 2045) by (apply Z.pow_le_mono_r; lia). nia.
Qed.

(** Nearest rounding does not cross a representable number. *)
Lemma normalize_below v e x :
  -1074 ≤ e → 0 ≤ v → f64_valid x = true → finite x = true → v * 2 ^ (e + 1074) ≤ fval x →
  let R := binary_normalize 53 1024 v e false in
  finite R = true ∧ f64_valid R = true ∧ 0 ≤ fval R ≤ fval x.
Proof.
  intros He Hv Vx Fx Hle R. destruct v as [|m|m]; [|subst R|lia].
  { simpl in *. repeat split; done. }
  assert (0 < 2 ^ (e + 1074)) as HPe by (apply Z.pow_pos_nonneg; lia).
  destruct x as [sx|sx| |sx mx ex]; try done; [unfold fval in Hle; nia|].
  unfold f64_valid in Vx. simpl in Vx. pose proof (magnitude_pos _ _ Vx).
  destruct sx; [unfold fval in Hle; nia|].
  assert (fval (S754_finite false mx ex) = Z.pos mx * 2 ^ (ex + 1074)) as Efx by (unfold fval; lia).
  rewrite Efx in *. simpl binary_normalize.
  destruct (round_spec m e) as (q' & Hq & HR).
  pose proof (rounded_below mx ex Vx m e q' He Hq Hle) as Hub.
  apply rounds_to_value in HR as [(HF & HV & Hval)|[_ Hov]]; [| |rewrite fexp64_eq; lia].
  - rewrite Hval. split; [done|]. split; [done|]. split; [|done].
    apply Z.mul_nonneg_nonneg; [|apply Z.pow_nonneg; lia].
    destruct Hq as [[_ ->]|[_ [->|[-> _]]]]; [apply Z.mul_nonneg_nonneg; [lia|apply Z.pow_nonneg; lia]| |];
      pose proof (Z.div_pos (Z.pos m) (2 ^ (fexp64 (Z.pos (digits2_pos m) + e) - e)));
      pose proof (Z.pow_nonneg 2 (fexp64 (Z.pos (digits2_pos m) + e) - e));
      (destruct (decide (2 ^ (fexp64 (Z.pos (digits2_pos m) + e) - e) = 0)) as [->|];
         [rewrite Zdiv_0_r|]; lia).
  - pose proof (fval_bound (S754_finite false mx ex) Vx). lia.
Qed.

(** ** Signs *)

Lemma round_aux_opp m e l :
  binary_round_aux 53 1024 true m e l = SFopp (binary_round_aux 53 1024 false m e l).
Proof.
  unfold binary_round_aux. destruct (shr_fexp _ _ m e l) as [r1 e1].
  destruct (shr_fexp _ _ _ e1 loc_Exact) as [r2 e2].
  destruct (shr_m r2); try done. by destruct (e2 <=? 1024 - 53).
Qed.

Lemma round_opp m e :
  binary_round 53 1024 true m e = SFopp (binary_round 53 1024 false m e).
Proof. unfold binary_round. destruct (shl_align _ _ _). apply round_aux_opp. Qed.

Lemma f64_valid_opp x : f64_valid (SFopp x) = f64_valid x.
Proof. by destruct x. Qed.

(** ** Every operation returns a binary64 *)

Lemma rounds_to_valid q' f R : rounds_to q' f R → f64_valid R = true.
Proof. intros [[_ ->]|(m & e & _ & _ & [(_ & -> & H)|(_ & _ & ->)])]; done. Qed.

Lemma round_aux_valid s m e l :
  0 ≤ m → e ≤ fexp64 (Zdigits2 m + e) → f64_valid (binary_round_aux 53 1024 s m e l) = true.
Proof.
  intros Hm He. destruct (round_aux_spec m e l Hm He) as (q' & _ & HR%rounds_to_valid).
  destruct s; [by rewrite round_aux_opp, f64_valid_opp|done].
Qed.

Lemma normalize_valid v e s : f64_valid (binary_normalize 53 1024 v e s) = true.
Proof.
  destruct v as [|m|m]; [done|simpl..].
  - by destruct (round_spec m e) as (q' & _ & HR%rounds_to_valid).
  - rewrite round_opp, f64_valid_opp. by destruct (round_spec m e) as (q' & _ & HR%rounds_to_valid).
Qed.

Lemma f64_of_Z_valid z : f64_valid (f64_of_Z z) = true.
Proof. apply normalize_valid. Qed.

Lemma fadd_valid x y : f64_valid x = true → f64_valid y = true → f64_valid (fadd x y) = true.
Proof.
  intros Hx Hy. unfold fadd. destruct x as [[]|[]| |], y as [[]|[]| |]; try done. apply normalize_valid.
Qed.

Lemma fsub_valid x y : f64_valid x = true → f64_valid y = true → f64_valid (fsub x y) = true.
Proof.
  intros Hx Hy. unfold fsub. destruct x as [[]|[]| |], y as [[]|[]| |]; try done. apply normalize_valid.
Qed.

(** The product of two magnitudes of the format is never coarser than its rounding. *)
Lemma mul_exponent mx ex my ey :
  bounded 53 1024 mx ex = true → bounded 53 1024 my ey = true →
  ex + ey ≤ fexp64 (Zdigits2 (Z.pos (mx * my)) + (ex + ey)).
Proof.
  intros (Hex & _ & Hnx)%bounded_iff (Hey & _ & Hny)%bounded_iff. simpl Zdigits2. rewrite fexp64_eq.
  destruct (decide (ex + ey ≤ -1074)) as [|Hne]; [lia|].
  assert (2 ^ 52 ≤ Z.pos (mx * my)) as H52 by lia.
  pose proof (digits2_pos_bounds (mx * my)) as [_ Bu].
  assert (2 ^ 52 < 2 ^ Z.pos (digits2_pos (mx * my))) as Hlt by lia.
  apply Z.pow_lt_mono_r_iff in Hlt; lia.
Qed.

Lemma fmul_valid x y : f64_valid x = true → f64_valid y = true → f64_valid (fmul x y) = true.
Proof.
  intros Hx Hy. unfold fmul. destruct x as [[]|[]| |sx mx ex], y as [[]|[]| |sy my ey]; try done.
  simpl. apply round_aux_valid; [lia|by apply mul_exponent].
Qed.

Lemma div_exponent mx ex my ey :
  let '(q, e', _) := SFdiv_core_binary 53 1024 (Z.pos mx) ex (Z.pos my) ey in
  0 ≤ q ∧ e' ≤ fexp64 (Zdigits2 q + e').
Proof.
  unfold SFdiv_core_binary. cbn [Zdigits2].
  set (d1 := Z.pos (digits2_pos mx)). set (d2 := Z.pos (digits2_pos my)).
  set (e' := Z.min (fexp64 (d1 + ex - (d2 + ey))) (ex - ey)).
  set (s := ex - ey - e'). assert (0 ≤ s) as Hs by lia.
  assert (match s with 0 => Z.pos mx | Z.pos _ => Z.shiftl (Z.pos mx) s | Z.neg _ => 0 end
          = Z.pos mx * 2 ^ s) as ->.
  { destruct s eqn:E; [lia|by rewrite Z.shiftl_mul_pow2 by lia|lia]. }
  pose proof (Z.pow_pos_nonneg 2 s ltac:(lia) Hs) as HP.
  rewrite (surjective_pairing (Z.div_eucl _ _)).
  change (fst (Z.div_eucl ?a ?b)) with (a / b). set (q := Z.pos mx * 2 ^ s / Z.pos my).
  assert (0 ≤ q) as Hq by (apply Z.div_pos; lia). split; [done|].
  assert (e' ≤ Z.max (d1 + ex - (d2 + ey) - 53) (-1074)) as He by (unfold e'; rewrite fexp64_eq; lia).
  rewrite fexp64_eq. destruct (decide (d1 + s - d2 ≤ 0)) as [|Hpos]; [lia|].
  enough (d1 + s - d2 ≤ Zdigits2 q) by lia.
  pose proof (digits2_pos_bounds mx) as [Bl _]. pose proof (digits2_pos_bounds my) as [_ Bu].
  fold d1 in Bl. fold d2 in Bu. destruct (Zdigits2_bounds q Hq) as (Hqu & _ & _).
  assert (2 ^ (d1 + s - d2 - 1) ≤ q) as Hql.
  { apply Z.div_le_lower_bound; [lia|]. apply Z.le_trans with (2 ^ d2 * 2 ^ (d1 + s - d2 - 1)).
    - apply Z.mul_le_mono_nonneg_r; [apply Z.pow_nonneg; lia|lia].
    - rewrite <- Z.pow_add_r by lia. replace (d2 + (d1 + s - d2 - 1)) with (d1 - 1 + s) by lia.
      rewrite Z.pow_add_r by lia. apply Z.mul_le_mono_nonneg_r; lia. }
  assert (2 ^ (d1 + s - d2 - 1) < 2 ^ Zdigits2 q) as Hlt by lia.
  apply Z.pow_lt_mono_r_iff in Hlt; [lia|lia|]. apply (Zdigits2_bounds q Hq).
Qed.

Lemma fdiv_valid x y : f64_valid x = true → f64_valid y = true → f64_valid (fdiv x y) = true.
Proof.
  intros Hx Hy. unfold fdiv. destruct x as [[]|[]| |sx mx ex], y as [[]|[]| |sy my ey]; try done.
  simpl. pose proof (div_exponent mx ex my ey) as H.
  destruct (SFdiv_core_binary _ _ _ _ _ _) as [[q e'] l]. destruct H. by apply round_aux_valid.
Qed.

#[export] Hint Resolve f64_of_Z_valid fadd_valid fsub_valid fmul_valid fdiv_valid : revquic.

(** ** Non-negative numbers *)

Definition fnonneg (x : f64) : bool := fleb f64_zero x.

Lemma fnonneg_cases x :
  fnonneg x = true ↔
  (∃ s, x = S754_zero s) ∨ x = S754_infinity false ∨ (∃ m e, x = S754_finite false m e).
Proof.
  unfold fnonneg, fleb, SFleb, f64_zero. split.
  - destruct x as [s|[]| |[] m e]; simpl; eauto; done.
  - by intros [[s ->]|[->|(m & e & ->)]].
Qed.

Lemma rounds_to_nonneg q' f R : rounds_to q' f R → fnonneg R = true.
Proof. intros [[_ ->]|(m & e & _ & _ & [(_ & -> & H)|(_ & _ & ->)])]; done. Qed.

Lemma normalize_nonneg v e : 0 ≤ v → fnonneg (binary_normalize 53 1024 v e false) = true.
Proof.
  intros Hv. destruct v as [|m|m]; [done|simpl|lia].
  by destruct (round_spec m e) as (q' & _ & HR%rounds_to_nonneg).
Qed.

Lemma f64_of_Z_nonneg z : 0 ≤ z → fnonneg (f64_of_Z z) = true.
Proof. apply normalize_nonneg. Qed.

Lemma fadd_nonneg x y : fnonneg x = true → fnonneg y = true → fnonneg (fadd x y) = true.
Proof.
  intros [[s1 ->]|[->|(m1 & e1 & ->)]]%fnonneg_cases [[s2 ->]|[->|(m2 & e2 & ->)]]%fnonneg_cases; try done.
  - by destruct s1, s2.
  - apply normalize_nonneg. simpl. lia.
Qed.

Lemma fmul_nonneg x y :
  f64_valid x = true → f64_valid y = true → fltb f64_zero x = true → fltb f64_zero y = true →
  fnonneg (fmul x y) = true.
Proof.
  intros Vx Vy Hx Hy. destruct x as [s|[]| |[] mx ex], y as [s'|[]| |[] my ey]; try done.
  unfold fmul. simpl. destruct (round_aux_spec (Z.pos (mx * my)) (ex + ey) loc_Exact) as (q & _ & HR);
    [lia|by apply mul_exponent|]. by eapply rounds_to_nonneg.
Qed.

Lemma shl_align_value m e ez :
  ez ≤ e → Z.pos (fst (shl_align m e ez)) = Z.pos m * 2 ^ (e - ez).
Proof.
  intros H. unfold shl_align. destruct (ez - e) as [|p|p] eqn:E; simpl.
  - replace (e - ez) with 0 by lia. lia.
  - lia.
  - rewrite iter_xO. f_equal. f_equal. lia.
Qed.

(** A magnitude moved to a finer exponent keeps its value. *)
Lemma align_value m e ez :
  ez ≤ e → -1074 ≤ ez →
  Z.pos m * 2 ^ (e - ez) * 2 ^ (ez + 1074) = fval (S754_finite false m e).
Proof.
  intros He Hz. unfold fval. rewrite <- Z.mul_assoc, <- Z.pow_add_r by lia.
  replace (e - ez + (ez + 1074)) with (e + 1074) by lia. lia.
Qed.

(** Subtracting a smaller non-negative number stays between zero and the minuend. *)
Lemma fsub_below x y :
  f64_valid x = true → f64_valid y = true → finite x = true →
  fnonneg y = true → fleb y x = true →
  finite (fsub x y) = true ∧ f64_valid (fsub x y) = true ∧ 0 ≤ fval (fsub x y) ≤ fval x.
Proof.
  intros Vx Vy Fx Ny Hle.
  apply fnonneg_cases in Ny as [[s ->]|[->|(my & ey & ->)]].
  - assert (0 ≤ fval x) by (rewrite fleb_fval in Hle by done; by apply Z.leb_le in Hle).
    destruct x as [sx|sx| |sx mx ex]; try done; by destruct sx, s.
  - by destruct x as [sx|sx| |[] mx ex].
  - assert (fval (S754_finite false my ey) ≤ fval x) as Hv.
    { destruct x; try done; rewrite fleb_fval in Hle by done; by apply Z.leb_le in Hle. }
    assert (0 < fval (S754_finite false my ey)) as Hp.
    { unfold fval. pose proof (magnitude_pos my ey Vy). lia. }
    destruct x as [sx|sx| |[] mx ex]; try done.
    unfold f64_valid in Vx, Vy. simpl in Vx, Vy.
    pose proof (proj1 (bounded_iff _ _) Vx) as (Hex & _). pose proof (proj1 (bounded_iff _ _) Vy) as (Hey & _).
    unfold fsub. cbn [SFsub cond_Zopp]. rewrite !shl_align_value by lia.
    set (ez := Z.min ex ey).
    pose proof (align_value mx ex ez ltac:(lia) ltac:(lia)).
    pose proof (align_value my ey ez ltac:(lia) ltac:(lia)).
    assert (0 < 2 ^ (ez + 1074)) by (apply Z.pow_pos_nonneg; lia).
    apply (normalize_below _ _ (S754_finite false mx ex)); [lia| |done|done|]; nia.
Qed.

(** ** Exact operations on small integers *)

(** Rounding a magnitude equal to a representable number returns that number. *)
Lemma normalize_exact v e x :
  -1074 ≤ e → 0 < v → f64_valid x = true → finite x = true → v * 2 ^ (e + 1074) = fval x →
  let R := binary_normalize 53 1024 v e false in
  finite R = true ∧ f64_valid R = true ∧ fval R = fval x.
Proof.
  intros He Hv Vx Fx Heq R.
  destruct (normalize_below v e x) as (HF & HV & Hb); [lia|lia|done|done|lia|].
  split; [done|]. split; [done|]. apply Z.le_antisymm; [apply Hb|]. clear Hb. subst R.
  destruct v as [|m|m]; [lia| |lia].
  assert (0 < 2 ^ (e + 1074)) as HPe by (apply Z.pow_pos_nonneg; lia).
  destruct x as [sx|sx| |sx mx ex]; try done; [unfold fval in Heq; nia|].
  unfold f64_valid in Vx. simpl in Vx. pose proof (magnitude_pos _ _ Vx).
  destruct sx; [unfold fval in Heq; nia|].
  assert (fval (S754_finite false mx ex) = Z.pos mx * 2 ^ (ex + 1074)) as Efx by (unfold fval; lia).
  rewrite Efx in *. simpl binary_normalize in *.
  destruct (round_spec m e) as (q' & Hq & HR).
  pose proof (rounded_above mx ex Vx m e q' He Hq ltac:(lia)) as Hub.
  apply rounds_to_value in HR as [(_ & _ & Hval)|[HR _]]; [lia|by rewrite HR in HF|rewrite fexp64_eq; lia].
Qed.

(** Every integer of at most 53 bits is a binary64. *)
Lemma small_integer_representable k :
  0 < k ≤ 2 ^ 53 → ∃ x, f64_valid x = true ∧ finite x = true ∧ fval x = k * 2 ^ 1074.
Proof.
  intros [Hk Hu]. destruct (decide (k = 2 ^ 53)) as [->|Hne].
  { by exists (S754_finite false (2 ^ 52) 1). }
  destruct k as [|m|m]; [lia| |lia]. pose proof (digits2_pos_bounds m) as [Bl Bu].
  set (d := Z.pos (digits2_pos m)) in *.
  assert (d ≤ 53) as Hd.
  { assert (2 ^ (d - 1) < 2 ^ 53) as H by lia. apply Z.pow_lt_mono_r_iff in H; lia. }
  pose proof (Z.pow_pos_nonneg 2 (53 - d) ltac:(lia) ltac:(lia)) as HP.
  exists (S754_finite false (Z.to_pos (Z.pos m * 2 ^ (53 - d))) (d - 53)).
  unfold f64_valid, fval. simpl valid_binary. rewrite !Z2Pos.id by lia. split; [|split; [done|]].
  - apply bounded_iff. rewrite Z2Pos.id by lia. split; [lia|]. split.
    + replace 53 with (d + (53 - d)) at 2 by lia. rewrite Z.pow_add_r by lia. nia.
    + right. replace 52 with (d - 1 + (53 - d)) by lia. rewrite Z.pow_add_r by lia. nia.
  - rewrite Z.mul_1_l, <- Z.mul_assoc, <- Z.pow_add_r by lia. do 2 f_equal. lia.
Qed.

Lemma f64_of_Z_exact k :
  0 ≤ k ≤ 2 ^ 53 →
  finite (f64_of_Z k) = true ∧ f64_valid (f64_of_Z k) = true ∧ fval (f64_of_Z k) = k * 2 ^ 1074.
Proof.
  intros Hk. destruct (decide (k = 0)) as [->|Hne]; [done|].
  destruct (small_integer_representable k) as (x & Vx & Fx & Ex); [lia|]. rewrite <- Ex.
  apply normalize_exact; [lia|lia|done|done|]. rewrite Ex. f_equal.
Qed.

(** Subtraction of integers of at most 53 bits is exact. *)
Lemma fsub_exact x y a b :
  f64_valid x = true → f64_valid y = true → finite x = true → finite y = true →
  fval x = a * 2 ^ 1074 → fval y = b * 2 ^ 1074 → 0 ≤ b ≤ a → a ≤ 2 ^ 53 →
  fval (fsub x y) = (a - b) * 2 ^ 1074.
Proof.
  intros Vx Vy Fx Fy Ex Ey Hba Ha.
  assert (0 < 2 ^ 1074) as HU by done. remember (2 ^ 1074) as U eqn:EU.
  destruct y as [sy|sy| |sy my ey]; try done.
  { assert (b = 0) as -> by (unfold fval in Ey; nia). rewrite Z.sub_0_r, <- Ex.
    by destruct x as [[]|?| |?], sy. }
  pose proof (magnitude_pos my ey Vy) as Hmy. destruct sy; [unfold fval in Ey; nia|].
  destruct x as [sx|sx| |sx mx ex]; try done; [unfold fval in Ex, Ey; nia|].
  pose proof (magnitude_pos mx ex Vx) as Hmx. destruct sx; [unfold fval in Ex; nia|].
  unfold f64_valid in Vx, Vy. simpl in Vx, Vy.
  pose proof (proj1 (bounded_iff _ _) Vx) as (Hex & _). pose proof (proj1 (bounded_iff _ _) Vy) as (Hey & _).
  unfold fsub. cbn [SFsub cond_Zopp]. rewrite !shl_align_value by lia.
  pose proof (align_value mx ex (Z.min ex ey) ltac:(lia) ltac:(lia)).
  pose proof (align_value my ey (Z.min ex ey) ltac:(lia) ltac:(lia)).
  set (ez := Z.min ex ey) in *.
  destruct (decide (a = b)) as [->|Hne].
  { assert (Z.pos mx * 2 ^ (ex - ez) - Z.pos my * 2 ^ (ey - ez) = 0) as ->.
    { assert (0 < 2 ^ (ez + 1074)) by (apply Z.pow_pos_nonneg; lia). nia. }
    rewrite Z.sub_diag. done. }
  destruct (small_integer_representable (a - b)) as (x & Vz & Fz & Ez); [lia|].
  rewrite <- EU in Ez. rewrite <- Ez.
  assert (0 < 2 ^ (ez + 1074)) by (apply Z.pow_pos_nonneg; lia).
  apply (normalize_exact _ _ x); [lia|nia|done|done|nia].
Qed.

(** ** The order of numbers, infinities included *)

Lemma fval_opp x : fval (SFopp x) = - fval x.
Proof. destruct x as [| | |[] m e]; unfold fval; simpl; lia. Qed.

Lemma fval_lower_bound x : f64_valid x = true → - 2 ^ 2098 < fval x.
Proof.
  intros V. pose proof (fval_bound (SFopp x)) as H. rewrite f64_valid_opp, fval_opp in H. specialize (H V). lia.
Qed.

(** An integer that orders the numbers: the value, with the infinities beyond every value. *)
Definition fkey (x : f64) : Z :=
  match x with
  | S754_infinity s => if s then - 2 ^ 2098 else 2 ^ 2098
  | _ => fval x
  end.
Arguments fkey : simpl never.

Lemma SFcompare_fkey x y :
  f64_valid x = true → f64_valid y = true → f64_nan x = false → f64_nan y = false →
  SFcompare x y = Some (fkey x ?= fkey y).
Proof.
  intros Vx Vy Nx Ny. destruct (finite x) eqn:Fx, (finite y) eqn:Fy.
  - rewrite SFcompare_fval by done. by destruct x, y.
  - destruct y as [|s| |]; try done. pose proof (fval_bound x Vx). pose proof (fval_lower_bound x Vx).
    assert (fkey x = fval x) as E by (by destruct x). unfold fkey at 2. rewrite E.
    destruct s; [rewrite (proj2 (Z.compare_gt_iff _ _)) by lia|rewrite (proj2 (Z.compare_lt_iff _ _)) by lia];
      by destruct x.
  - destruct x as [|s| |]; try done. pose proof (fval_bound y Vy). pose proof (fval_lower_bound y Vy).
    assert (fkey y = fval y) as E by (by destruct y). unfold fkey at 1. rewrite E.
    destruct s; [rewrite (proj2 (Z.compare_lt_iff _ _)) by lia|rewrite (proj2 (Z.compare_gt_iff _ _)) by lia];
      by destruct y.
  - destruct x as [|[]| |], y as [|[]| |]; try done.
Qed.

Lemma fltb_fkey x y :
  f64_valid x = true → f64_valid y = true → f64_nan x = false → f64_nan y = false →
  fltb x y = (fkey x <? fkey y).
Proof.
  intros. unfold fltb, SFltb, Z.ltb. rewrite SFcompare_fkey by done. by destruct (_ ?= _).
Qed.

(** A positive integer well below the largest binary64 converts to a positive number. *)
Lemma f64_of_Z_pos k :
  0 < k ≤ 2 ^ 1000 → finite (f64_of_Z k) = true ∧ 0 < fval (f64_of_Z k).
Proof.
  intros Hk.
  destruct (normalize_below k 0 (S754_finite false (2 ^ 52) 948)) as (F & V & _);
    [lia|lia|done|done|..].
  { unfold fval. rewrite Z.mul_1_l. change (Z.pos (2 ^ 52) * 2 ^ (948 + 1074)) with (2 ^ 1000 * 2 ^ (0 + 1074)).
    apply Z.mul_le_mono_nonneg_r; [done|lia]. }
  split; [done|]. unfold f64_of_Z in *. destruct k as [|m|m]; [lia| |lia]. simpl binary_normalize in *.
  destruct (round_spec m 0) as (q' & Hq & HR).
  pose proof (rounded_above (2 ^ 52) (-52) eq_refl m 0 q' ltac:(lia) Hq) as Hub.
  apply rounds_to_value in HR as [(_ & _ & ->)|[HR _]]; [|by rewrite HR in F|rewrite fexp64_eq; lia].
  eapply Z.lt_le_trans; [|apply Hub].
  - done.
  - change (Z.pos (2 ^ 52) * 2 ^ (-52 + 1074)) with (1 * 2 ^ (0 + 1074)).
    apply Z.mul_le_mono_nonneg_r; [done|lia].
Qed.

(** ** Numbers: what is not NaN *)

Lemma f64_nan_opp x : f64_nan (SFopp x) = f64_nan x.
Proof. by destruct x. Qed.

Lemma rounds_to_not_nan q' f R : rounds_to q' f R → f64_nan R = false.
Proof. intros [[_ ->]|(? & ? & _ & _ & [(_ & -> & _)|(_ & _ & ->)])]; done. Qed.

Lemma round_aux_not_nan s m e l :
  0 ≤ m → e ≤ fexp64 (Zdigits2 m + e) → f64_nan (binary_round_aux 53 1024 s m e l) = false.
Proof.
  intros Hm He. destruct (round_aux_spec m e l Hm He) as (q' & _ & HR%rounds_to_not_nan).
  destruct s; [by rewrite round_aux_opp, f64_nan_opp|done].
Qed.

Lemma normalize_not_nan v e s : f64_nan (binary_normalize 53 1024 v e s) = false.
Proof.
  destruct v as [|m|m]; [done|simpl..].
  - by destruct (round_spec m e) as (q' & _ & HR%rounds_to_not_nan).
  - rewrite round_opp, f64_nan_opp. by destruct (round_spec m e) as (q' & _ & HR%rounds_to_not_nan).
Qed.

Lemma f64_of_Z_not_nan z : f64_nan (f64_of_Z z) = false.
Proof. apply normalize_not_nan. Qed.

(** A quotient of a number by a positive finite one is a number. *)
Lemma fdiv_not_nan x y :
  f64_valid x = true → f64_valid y = true → f64_nan x = false → finite y = true → 0 < fval y →
  f64_nan (fdiv x y) = false.
Proof.
  intros Vx Vy Nx Fy Py. destruct y as [s|s| |s my ey]; [done..|].
  destruct x as [sx|sx| |sx mx ex]; [done..|]. unfold fdiv. simpl.
  pose proof (div_exponent mx ex my ey) as H.
  destruct (SFdiv_core_binary _ _ _ _ _ _) as [[q e'] l]. destruct H as [Hq He]. by apply round_aux_not_nan.
Qed.

(** So are a difference with a finite number and a product with a finite number other than zero. *)
Lemma fsub_not_nan x y : finite x = true → f64_nan y = false → f64_nan (fsub x y) = false.
Proof.
  intros Fx Ny. unfold fsub. destruct x as [[]|[]| |], y as [[]|[]| |]; try done. apply normalize_not_nan.
Qed.

Lemma fmul_not_nan x y :
  f64_valid x = true → f64_valid y = true → f64_nan x = false → finite y = true → fval y ≠ 0 → f64_nan (fmul x y) = false.
Proof.
  intros Vx Vy Nx Fy Hy. unfold fmul. destruct y as [[]|[]| |sy my ey]; try done.
  destruct x as [[]|[]| |sx mx ex]; try done. simpl. apply round_aux_not_nan; [lia|by apply mul_exponent].
Qed.
