(* ===== verification/GoTime.v ===== *)
(** * Package time

    The parts of Go's [time] the program uses.  A [Time] is a count of nanoseconds since the zero
    [Time] (January 1, year 1); a [Duration] is an [int64] count of nanoseconds. *)
From S2P Require Import Prelude Float64 FloatTheory.

Open Scope Z_scope.

Notation Time := Z (only parsing).
Notation Duration := Z (only parsing).

Definition maxDuration : Duration := 2 ^ 63 - 1.
Definition minDuration : Duration := - 2 ^ 63.

Definition Nanosecond : Duration := 1.
Definition Microsecond : Duration := 1000.
Definition Millisecond : Duration := 1000000.
Definition Second : Duration := 1000000000.
Definition Minute : Duration := 60 * Second.
Definition Hour : Duration := 60 * Minute.

Definition IsZero (t : Time) : bool := t =? 0.

(** [t.Sub(u)]: the difference, saturated to the range of a [Duration]. *)
Definition Sub (t u : Time) : Duration := Z.max minDuration (Z.min maxDuration (t - u)).

(** [t.Add(d)], [t.After(u)], [t.Before(u)] *)
Definition Add (t : Time) (d : Duration) : Time := t + d.
Definition After (t u : Time) : bool := u <? t.
Definition Before (t u : Time) : bool := t <? u.

Definition f64_1e9 : f64 := f64_of_Z 1000000000.

(** [d.Seconds()]: whole seconds plus the remaining nanoseconds over 1e9, both as [float64]. *)
Definition Seconds (d : Duration) : f64 :=
  let sec := Z.quot d Second in
  let nsec := Z.rem d Second in
  fadd (f64_of_Z sec) (fdiv (f64_of_Z nsec) f64_1e9).

(** [d.Truncate(m)] for [m > 0]. *)
Definition Truncate (d m : Duration) : Duration := d - Z.rem d m.

Lemma Seconds_valid d : f64_valid (Seconds d) = true.
Proof. unfold Seconds, f64_1e9. auto with revquic. Qed.

Lemma Sub_same t : Sub t t = 0.
Proof. unfold Sub. rewrite Z.sub_diag. done. Qed.

#[export] Hint Resolve Seconds_valid : revquic.
