(* ===== verification/Proto.v ===== *)
(** * Control protocol and datagram codec ([internal/proto/proto.go]) *)
From S2P Require Import Prelude Float64.

Open Scope Z_scope.

Definition ALPN : string := "revquic-phase0".

(** QUIC application error code of an intentional client shutdown. *)
Definition CloseClientShutdown : Z := 4200.

(** Message types. In the source a [MsgType] is a string: [MsgOther] is any other string. *)
Inductive MsgType :=
| MsgRegister | MsgRegisterOK | MsgSessionStart | MsgSessionEnd | MsgSessionSuspend
| MsgConnect | MsgConnectOK | MsgError | MsgSignal | MsgReport | MsgPing | MsgPong | MsgNodeStatus
| MsgOther (s : string).

#[export] Instance MsgType_eq_dec : EqDecision MsgType.
Proof. solve_decision. Defined.

(** One selectable exit, as returned by a list-exits request. *)
Record ExitInfo := mkExitInfo {
  ei_NodeID : string; ei_Name : string; ei_Region : string; ei_System : string;
  ei_ActiveUsers : Z; ei_Capacity : Z }.

(** The single envelope of all control-plane messages. *)
Record Control := mkControl {
  c_Type : MsgType;
  c_Token : string;
  c_NodeID : string; c_Region : string; c_Capacity : Z; c_Name : string;
  c_RequestedRegion : string; c_RequestedExit : string; c_ResumeKey : string;
  c_ListExits : bool; c_ExitList : list ExitInfo;
  c_SessionID : Z; c_ClientIP : string; c_Netmask : string; c_MTU : Z;
  c_StunURL : string; c_TurnURL : string; c_TurnUser : string; c_TurnPass : string;
  c_Error : string;
  c_Signal : list byte; c_Nonce : string;
  c_BytesUp : Z; c_BytesDown : Z; c_ThroughputBps : f64; c_Drops : Z; c_RTTms : Z; c_Direct : bool;
  c_Host : string; c_TunName : string; c_PathKind : string; c_UsingStun : bool; c_UsingTurn : bool;
  c_OS : string;
  c_CPUPct : f64; c_MemPct : f64; c_DiskPct : f64;
  c_TS : Z }.

(** The zero value of the envelope with its type set: the composite literals of the source start
    from it and set the fields they name. *)
Definition control (t : MsgType) : Control :=
  mkControl t "" "" "" 0 "" "" "" "" false [] 0 "" "" 0 "" "" "" "" "" [] "" 0 0 f64_zero 0 0 false
    "" "" "" false false "" f64_zero f64_zero f64_zero 0.

#[export] Instance Control_eta : Eta Control := λ r,
  mkControl (c_Type r) (c_Token r) (c_NodeID r) (c_Region r) (c_Capacity r) (c_Name r)
    (c_RequestedRegion r) (c_RequestedExit r) (c_ResumeKey r) (c_ListExits r) (c_ExitList r)
    (c_SessionID r) (c_ClientIP r) (c_Netmask r) (c_MTU r) (c_StunURL r) (c_TurnURL r) (c_TurnUser r)
    (c_TurnPass r) (c_Error r) (c_Signal r) (c_Nonce r) (c_BytesUp r) (c_BytesDown r)
    (c_ThroughputBps r) (c_Drops r) (c_RTTms r) (c_Direct r) (c_Host r) (c_TunName r) (c_PathKind r)
    (c_UsingStun r) (c_UsingTurn r) (c_OS r) (c_CPUPct r) (c_MemPct r) (c_DiskPct r) (c_TS r).

(** The [omitempty] JSON of an [ExitInfo] and of a [Control] is produced and read by
    [encoding/json], which is a parameter below. *)

(** ** Readers and writers *)

(** [io.Writer]: one [Write] call, its effect on the writer and its error. *)
Class Writer (W : Type) := Write : list byte → W → W * option string.

(** An in-memory buffer, which never fails. *)
#[export] Instance buffer_writer : Writer (list byte) := λ b w, (w ++ b, None).

Inductive io_error :=
| EOF
| ErrUnexpectedEOF
| ErrTooLarge (n : Z)
| ErrJSON (s : string)
| ErrWrite (s : string).

(** [io.ReadFull] of [n] bytes from a stream that ends: the bytes and the rest of the stream, [EOF]
    when no byte was read, [ErrUnexpectedEOF] on a short read (which consumes the stream). *)
Definition ReadFull (n : nat) (r : list byte) : result io_error (list byte) * list byte :=
  if decide (n ≤ length r)%nat then (Ok (take n r), drop n r)
  else (Err (if decide (r = []) then EOF else ErrUnexpectedEOF), []).

Definition maxControl : Z := Z.shiftl 1 20.

Section framing.
(** [encoding/json] on [*Control]. *)
Context (Marshal : Control → result string (list byte)).
Context (Unmarshal : list byte → result string Control).

Definition WriteControl {W} `{Writer W} (w : W) (m : Control) : W * option io_error :=
  match Marshal m with
  | Err e => (w, Some (ErrJSON e))
  | Ok b =>
      if Z.of_nat (length b) >? maxControl then (w, Some (ErrTooLarge (Z.of_nat (length b))))
      else
        let hdr := be_encode 4 (u32 (Z.of_nat (length b))) in
        match Write hdr w with
        | (w, Some e) => (w, Some (ErrWrite e))
        | (w, None) =>
            match Write b w with
            | (w, Some e) => (w, Some (ErrWrite e))
            | (w, None) => (w, None)
            end
        end
  end.

Definition ReadControl (r : list byte) : result io_error Control * list byte :=
  match ReadFull 4 r with
  | (Err e, r) => (Err e, r)
  | (Ok hdr, r) =>
      let n := be_decode hdr in
      if n >? maxControl then (Err (ErrTooLarge n), r)
      else
        match ReadFull (Z.to_nat n) r with
        | (Err e, r) => (Err e, r)
        | (Ok buf, r) =>
            match Unmarshal buf with
            | Err e => (Err (ErrJSON e), r)
            | Ok m => (Ok m, r)
            end
        end
  end.

(** Writing a sequence of messages; reading until the first error. *)
Fixpoint WriteAll {W} `{Writer W} (w : W) (ms : list Control) : W :=
  match ms with
  | [] => w
  | m :: ms => WriteAll (fst (WriteControl w m)) ms
  end.

Fixpoint ReadN (n : nat) (r : list byte) : list Control * option io_error * list byte :=
  match n with
  | O => ([], None, r)
  | S n =>
      match ReadControl r with
      | (Err e, r) => ([], Some e, r)
      | (Ok m, r) => let '(ms, e, r) := ReadN n r in (m :: ms, e, r)
      end
  end.
End framing.

(** ** Datagrams *)

Definition DatagramHeaderLen : nat := 8.
Definition SafeTunnelMTU : Z := 1200.

Inductive datagram_error := ErrShortDatagram (n : nat).

Definition EncodeDatagram (sessionID : Z) (pkt : list byte) : list byte :=
  be_encode DatagramHeaderLen sessionID ++ pkt.

Definition DecodeDatagram (b : list byte) : result datagram_error (Z * list byte) :=
  if decide (length b < DatagramHeaderLen)%nat then Err (ErrShortDatagram (length b))
  else Ok (be_decode (take DatagramHeaderLen b), drop DatagramHeaderLen b).

(** ** Lemmas *)

Lemma ReadFull_app l r : ReadFull (length l) (l ++ r) = (Ok l, r).
Proof.
  unfold ReadFull. rewrite decide_True by (rewrite length_app; lia).
  by rewrite take_app_length, drop_app_length.
Qed.

Lemma DecodeDatagram_EncodeDatagram sid pkt :
  0 ≤ sid < 2 ^ 64 → DecodeDatagram (EncodeDatagram sid pkt) = Ok (sid, pkt).
Proof.
  intros Hs. unfold DecodeDatagram, EncodeDatagram.
  rewrite decide_False by (rewrite length_app, length_be_encode; unfold DatagramHeaderLen; lia).
  rewrite take_app_length', drop_app_length' by (by rewrite length_be_encode).
  rewrite be_decode_encode, Z.mod_small; [done|]. unfold DatagramHeaderLen. lia.
Qed.

Lemma length_EncodeDatagram sid pkt : length (EncodeDatagram sid pkt) = (8 + length pkt)%nat.
Proof. unfold EncodeDatagram. by rewrite length_app, length_be_encode. Qed.

Section framing_lemmas.
Context (Marshal : Control → result string (list byte)).
Context (Unmarshal : list byte → result string Control).

(** The frame that carries an encoded message. *)
Definition frame (b : list byte) : list byte := be_encode 4 (Z.of_nat (length b)) ++ b.

(** What the JSON codec must do for one message to cross the wire. *)
Definition carries (m : Control) : Prop :=
  ∃ b, Marshal m = Ok b ∧ Unmarshal b = Ok m ∧ Z.of_nat (length b) ≤ maxControl.

Lemma WriteControl_frame (w : list byte) m b :
  Marshal m = Ok b → Z.of_nat (length b) ≤ maxControl →
  WriteControl Marshal w m = (w ++ frame b, None).
Proof.
  intros Hm Hl. unfold WriteControl. rewrite Hm.
  assert (Z.of_nat (length b) >? maxControl = false) as -> by (unfold maxControl in *; lia).
  unfold u32. rewrite Z.mod_small by (change maxControl with (2 ^ 20) in Hl; lia).
  simpl. by rewrite <- app_assoc.
Qed.

Lemma ReadControl_frame m b r :
  Unmarshal b = Ok m → Z.of_nat (length b) ≤ maxControl →
  ReadControl Unmarshal (frame b ++ r) = (Ok m, r).
Proof.
  intros Hm Hl. unfold ReadControl, frame. rewrite <- app_assoc.
  rewrite <- (length_be_encode 4 (Z.of_nat (length b))) at 1. rewrite ReadFull_app.
  rewrite be_decode_encode, Z.mod_small by (change maxControl with (2 ^ 20) in Hl; lia).
  assert (Z.of_nat (length b) >? maxControl = false) as -> by lia.
  by rewrite Nat2Z.id, ReadFull_app, Hm.
Qed.

Lemma ReadN_WriteAll ms (w r : list byte) :
  Forall carries ms →
  ∃ f, WriteAll Marshal w ms = w ++ f ∧ ReadN Unmarshal (length ms) (f ++ r) = (ms, None, r).
Proof.
  intros Hms. revert w. induction Hms as [|m ms (b & Hm & Hu & Hl) _ IH]; intros w.
  - exists []. by rewrite app_nil_r.
  - simpl. rewrite (WriteControl_frame _ _ b) by done. simpl.
    destruct (IH (w ++ frame b)) as (f & -> & Hr). exists (frame b ++ f).
    rewrite <- !app_assoc. split; [done|].
    by rewrite (ReadControl_frame m), Hr.
Qed.

Lemma WriteAll_app ms (w : list byte) : Forall carries ms → WriteAll Marshal w ms = w ++ WriteAll Marshal [] ms.
Proof.
  intros Hms. revert w. induction Hms as [|m ms (b & Hm & Hu & Hl) _ IH]; intros w; simpl; [by rewrite app_nil_r|].
  rewrite !(WriteControl_frame _ _ b) by done. simpl. by rewrite IH, (IH (frame b)), app_assoc.
Qed.

Lemma WriteAll_cons m ms b :
  Marshal m = Ok b → Z.of_nat (length b) ≤ maxControl → Forall carries ms →
  WriteAll Marshal [] (m :: ms) = frame b ++ WriteAll Marshal [] ms.
Proof. intros Hm Hl Hms. simpl. rewrite (WriteControl_frame _ _ b) by done. by apply WriteAll_app. Qed.

Lemma ReadFull_header z r : ReadFull 4 (be_encode 4 z ++ r) = (Ok (be_encode 4 z), r).
Proof. pose proof (ReadFull_app (be_encode 4 z) r) as E. by rewrite length_be_encode in E. Qed.

Lemma ReadFull_short n r :
  (length r < n)%nat → ReadFull n r = (Err (if decide (r = []) then EOF else ErrUnexpectedEOF), []).
Proof. intros Hr. unfold ReadFull. by rewrite decide_False by lia. Qed.

(** A frame that was cut is an error. *)
Lemma ReadControl_cut b p q :
  frame b = p ++ q → q ≠ [] → Z.of_nat (length b) ≤ maxControl →
  ∃ e, ReadControl Unmarshal p = (Err e, []) ∧ (e = EOF ∨ e = ErrUnexpectedEOF) ∧ (p = [] → e = EOF).
Proof.
  unfold frame. intros E Hq Hl. destruct (decide (length p < 4)%nat) as [Hp|Hp].
  { unfold ReadControl. rewrite ReadFull_short by done. eexists. split; [done|]. case_decide; split; auto; done. }
  assert (∃ b', p = be_encode 4 (Z.of_nat (length b)) ++ b' ∧ (length b' < length b)%nat) as (b' & -> & Hb).
  { pose proof (length_be_encode 4 (Z.of_nat (length b))) as Hh.
    exists (drop 4 p). assert (be_encode 4 (Z.of_nat (length b)) = take 4 p) as ->.
    { apply (f_equal (take 4)) in E. rewrite take_app_length' in E by done. by rewrite E, take_app_le by lia. }
    split; [by rewrite take_drop|]. apply (f_equal length) in E. rewrite !length_app, Hh in E. rewrite length_drop.
    destruct q; [done|]. simpl in E. lia. }
  unfold ReadControl. rewrite ReadFull_header, be_decode_encode, Z.mod_small by (change maxControl with (2 ^ 20) in Hl; lia).
  assert (Z.of_nat (length b) >? maxControl = false) as -> by lia. rewrite Nat2Z.id, ReadFull_short by done.
  eexists. split; [done|]. split; [case_decide; auto|]. intros Hn. by apply (f_equal length) in Hn.
Qed.

(** What arrives of a stream of messages is whole messages and an error. *)
Lemma ReadN_cut ms p :
  Forall carries ms → p `prefix_of` WriteAll Marshal [] ms →
  ∃ k e, ReadN Unmarshal (S (length ms)) p = (take k ms, Some e, []) ∧ (e = EOF ∨ e = ErrUnexpectedEOF) ∧ (k ≤ length ms)%nat ∧
    WriteAll Marshal [] (take k ms) `prefix_of` p ∧ (p = WriteAll Marshal [] (take k ms) → e = EOF) ∧
    (k < length ms → length p < length (WriteAll Marshal [] (take (S k) ms)))%nat.
Proof.
  intros Hms. revert p. induction Hms as [|m ms (b & Hm & Hu & Hl) Hms IH]; intros p Hp.
  - simpl in Hp. apply prefix_nil_inv in Hp as ->. exists 0%nat, EOF. by split_and!; auto.
  - rewrite (WriteAll_cons m ms b) in Hp by done. destruct (decide (length p < length (frame b))%nat) as [Hlt|Hge].
    + assert (frame b = p ++ drop (length p) (frame b)) as E.
      { destruct Hp as [q Hq]. apply (f_equal (take (length p))) in Hq.
        rewrite take_app_le, take_app_length in Hq by lia.
        pose proof (take_drop (length p) (frame b)) as Ht. by rewrite Hq in Ht. }
      destruct (ReadControl_cut b p _ E) as (e & Hr & He & Hn); [|done|].
      { intros Hd%(f_equal length). rewrite length_drop in Hd. cbn [length] in Hd. lia. }
      exists 0%nat, e. split; [simpl; by rewrite Hr|]. split_and!; [done|lia|apply prefix_nil|done|]. intros _.
      change (take 1 (m :: ms)) with [m]. by rewrite (WriteAll_cons m [] b), app_nil_r by done.
    + assert (∃ p', p = frame b ++ p' ∧ p' `prefix_of` WriteAll Marshal [] ms) as (p' & -> & Hp').
      { destruct Hp as [q Hq]. exists (drop (length (frame b)) p).
        assert (frame b = take (length (frame b)) p) as Ht.
        { apply (f_equal (take (length (frame b)))) in Hq. by rewrite take_app_length, take_app_le in Hq by lia. }
        split; [pose proof (take_drop (length (frame b)) p) as Hd; by rewrite <- Ht in Hd|]. exists q.
        apply (f_equal (drop (length (frame b)))) in Hq. by rewrite drop_app_length, drop_app_le in Hq by lia. }
      destruct (IH p' Hp') as (k & e & E & He & Hk & Hpre & Heq & Hlen). exists (S k), e. split.
      { change (ReadN Unmarshal (S (length (m :: ms))) (frame b ++ p')) with
          (match ReadControl Unmarshal (frame b ++ p') with
           | (Err e, r) => ([], Some e, r)
           | (Ok m, r) => let '(ms', e, r) := ReadN Unmarshal (S (length ms)) r in (m :: ms', e, r) end).
        by rewrite (ReadControl_frame m), E. }
      assert (∀ j, Forall carries (take j ms)) as Ht by (intros; by apply Forall_take).
      assert (∀ j, WriteAll Marshal [] (take (S j) (m :: ms)) = frame b ++ WriteAll Marshal [] (take j ms)) as HW.
      { intros j. change (take (S j) (m :: ms)) with (m :: take j ms). by apply WriteAll_cons. }
      rewrite HW. split_and!; [done|simpl; lia|by apply prefix_app|by intros ?%(inj _)%Heq|].
      intros Hj. cbn [length] in Hj. rewrite HW, !length_app. specialize (Hlen ltac:(lia)). lia.
Qed.
End framing_lemmas.

(** ** Properties *)

(** The data-plane codec is a bijection between (session id, packet) pairs and the byte strings
    of at least eight bytes: a datagram decodes to [(sid, pkt)] exactly when [sid] is a 64-bit value
    and the datagram is the encoding of that pair. *)
Theorem datagram_codec_bijection (b : list byte) (sid : Z) (pkt : list byte) :
  DecodeDatagram b = Ok (sid, pkt) ↔ 0 ≤ sid < 2 ^ 64 ∧ b = EncodeDatagram sid pkt.
Proof.
  split; [|by intros [? ->]; apply DecodeDatagram_EncodeDatagram].
  unfold DecodeDatagram, EncodeDatagram. case_decide as Hl; [done|]. intros [= <- <-].
  assert (length (take DatagramHeaderLen b) = DatagramHeaderLen) as Ht by (rewrite length_take; lia).
  split.
  - pose proof (be_decode_range (take DatagramHeaderLen b)). rewrite Ht in *. done.
  - rewrite <- Ht at 1. by rewrite be_encode_decode, take_drop.
Qed.

(** Control framing round trip: messages written one after the other to a buffer are read back
    in order, with the bytes that follow them untouched, for messages the JSON codec carries. *)
Theorem control_stream_roundtrip (Marshal : Control → result string (list byte))
    (Unmarshal : list byte → result string Control) (ms : list Control) (r : list byte) :
  Forall (carries Marshal Unmarshal) ms →
  ReadN Unmarshal (length ms) (WriteAll Marshal [] ms ++ r) = (ms, None, r).
Proof.
  intros Hms. destruct (ReadN_WriteAll Marshal Unmarshal ms [] r Hms) as (f & -> & Hr). done.
Qed.

(** A codec that carries exactly the pings of session 7. *)
Definition ping7 : Control := (control MsgPing) <| c_SessionID := 7 |>.

Lemma control_stream_roundtrip_witness :
  ReadN (λ _, Ok ping7) 2 (WriteAll (λ _, Ok [x50; x37]) [] [ping7; ping7] ++ [xff])
  = ([ping7; ping7], None, [xff]).
Proof.
  apply (control_stream_roundtrip (λ _, Ok [x50; x37]) (λ _, Ok ping7) [ping7; ping7] [xff]).
  repeat constructor; exists [x50; x37]; done.
Defined.

(** C30. A control stream that breaks off yields whole messages only: if any prefix of a written stream
    arrives, reading returns, in order, exactly the messages that arrived completely and then an error -
    EOF if nothing of the next message had arrived, EOF or ErrUnexpectedEOF if it was cut - and no
    bytes are left over; a part of a message is never taken for one. *)
Theorem broken_stream_is_an_error (Marshal : Control → result string (list byte))
    (Unmarshal : list byte → result string Control) (ms : list Control) (p : list byte) :
  Forall (carries Marshal Unmarshal) ms → p `prefix_of` WriteAll Marshal [] ms →
  ∃ k e, ReadN Unmarshal (S (length ms)) p = (take k ms, Some e, []) ∧ (e = EOF ∨ e = ErrUnexpectedEOF) ∧ (k ≤ length ms)%nat ∧
    WriteAll Marshal [] (take k ms) `prefix_of` p ∧ (p = WriteAll Marshal [] (take k ms) → e = EOF) ∧
    (k < length ms → length p < length (WriteAll Marshal [] (take (S k) ms)))%nat.
Proof. apply ReadN_cut. Qed.

Lemma broken_stream_is_an_error_witness :
  ∃ k e, ReadN (λ _, Ok ping7) 3 [x00; x00; x00; x02; x50; x37; x00; x00] = (take k [ping7; ping7], Some e, []) ∧
    (e = EOF ∨ e = ErrUnexpectedEOF) ∧ (k ≤ 2)%nat ∧
    WriteAll (λ _, Ok [x50; x37]) [] (take k [ping7; ping7]) `prefix_of` [x00; x00; x00; x02; x50; x37; x00; x00] ∧
    ([x00; x00; x00; x02; x50; x37; x00; x00] = WriteAll (λ _, Ok [x50; x37]) [] (take k [ping7; ping7]) → e = EOF) ∧
    (k < 2 → 8 < length (WriteAll (λ _, Ok [x50; x37]) [] (take (S k) [ping7; ping7])))%nat.
Proof.
  apply (broken_stream_is_an_error (λ _, Ok [x50; x37]) (λ _, Ok ping7) [ping7; ping7] [x00; x00; x00; x02; x50; x37; x00; x00]).
  - repeat constructor; exists [x50; x37]; done.
  - exists [x00; x02; x50; x37]. reflexivity.
Defined.

(** Frames above one mebibyte are refused on both sides: the writer reports the length and
    writes nothing, and a reader that sees such a length reports it without consuming the body. *)
Theorem control_oversize_refused (Marshal : Control → result string (list byte))
    (Unmarshal : list byte → result string Control) (m : Control) (w b r : list byte) (n : Z) :
  Marshal m = Ok b → 2 ^ 20 < Z.of_nat (length b) → 2 ^ 20 < n < 2 ^ 32 →
  WriteControl Marshal w m = (w, Some (ErrTooLarge (Z.of_nat (length b)))) ∧
  ReadControl Unmarshal (be_encode 4 n ++ r) = (Err (ErrTooLarge n), r).
Proof.
  intros Hm Hb Hn. unfold WriteControl, ReadControl. rewrite Hm.
  change maxControl with (2 ^ 20).
  assert (Z.of_nat (length b) >? 2 ^ 20 = true) as -> by lia. split; [done|].
  rewrite <- (length_be_encode 4 n) at 1. rewrite ReadFull_app, be_decode_encode, Z.mod_small by lia.
  assert (n >? 2 ^ 20 = true) as -> by lia. done.
Qed.

Lemma control_oversize_refused_witness :
  ReadControl (λ _, Ok ping7) (be_encode 4 1048577 ++ [x00])
  = (Err (ErrTooLarge 1048577), [x00]).
Proof.
  apply (control_oversize_refused (λ _, Ok (replicate (Z.to_nat 1048577) x00)) (λ _, Ok ping7)
           ping7 [] (replicate (Z.to_nat 1048577) x00) [x00] 1048577); [done| |lia].
  rewrite length_replicate. lia.
Defined.
