(* ===== verification/CtrlWriter.v ===== *)
(** * The control stream's writers (ctrlWriter of the three programs)

    Several goroutines write messages to one control stream: reports, pongs, signals, session messages.
    [ctrlWriter] takes a mutex around [proto.WriteControl], which makes two writes per message.  Here
    the goroutines are threads with lists of messages to write, cut at the mutex and at each write to
    the stream; a write may fail after some bytes, and QUIC then takes no more. *)
From S2P Require Import Prelude Proto.

Open Scope Z_scope.
#[local] Arguments be_encode : simpl never.

Section ctrlwriter.
Context (Marshal : Control → result string (list byte)) (Unmarshal : list byte → result string Control).

(** Where a call of [write] is: outside; with the mutex, before its first write; between the two
    writes, with the body to write; about to unlock. *)
Inductive position := Outside | Locked (m : Control) | HeaderWritten (m : Control) (body : list byte) | Unlocking.

Record thread := mkThread { th_todo : list Control; th_at : position }.

(** The stream and whether it has failed; the mutex; the threads; the messages written, by whom. *)
Record sys := mkSys {
  cw_stream : list byte;
  cw_broken : bool;
  cw_mu : option nat;
  cw_threads : nat → thread;
  cw_log : list (nat * Control)
}.

(** A write to the stream: all of it ([None]), or an error after [n] bytes; an error is final. *)
Definition stream_write (res : option nat) (b : list byte) (stream : list byte) (broken : bool) : list byte * bool * bool :=
  if broken then (stream, true, false)
  else match res with
       | None => (stream ++ b, false, true)
       | Some n => (stream ++ take n b, true, false)
       end.

Definition set_thread (t : nat) (th : thread) (ths : nat → thread) : nat → thread := λ i, if decide (i = t) then th else ths i.

Inductive action := ALock | AWrite (res : option nat) | AUnlock.

(** One step of thread [t]; [None] if it cannot take it now. *)
Definition step (t : nat) (a : action) (s : sys) : option sys :=
  let '(mkSys str br mu ths log) := s in
  let '(mkThread todo at_) := ths t in
  match a, at_ with
  | ALock, Outside =>
      match todo, mu with
      | m :: todo, None => Some (mkSys str br (Some t) (set_thread t (mkThread todo (Locked m)) ths) log)
      | _, _ => None
      end
  | AWrite res, Locked m =>
      match Marshal m with
      | Err _ => Some (mkSys str br mu (set_thread t (mkThread todo Unlocking) ths) log)
      | Ok b =>
          if Z.of_nat (length b) >? maxControl then Some (mkSys str br mu (set_thread t (mkThread todo Unlocking) ths) log)
          else
            let '(str, br, ok) := stream_write res (be_encode 4 (u32 (Z.of_nat (length b)))) str br in
            Some (mkSys str br mu (set_thread t (mkThread todo (if ok then HeaderWritten m b else Unlocking)) ths) log)
      end
  | AWrite res, HeaderWritten m b =>
      let '(str, br, ok) := stream_write res b str br in
      Some (mkSys str br mu (set_thread t (mkThread todo Unlocking) ths) (if ok then log ++ [(t, m)] else log))
  | AUnlock, Unlocking => Some (mkSys str br None (set_thread t (mkThread todo Outside) ths) log)
  | _, _ => None
  end.

Definition initial (todo : nat → list Control) : sys := mkSys [] false None (λ t, mkThread (todo t) Outside) [].

(** The states that any scheduling of the threads can lead to. *)
Inductive reachable (todo : nat → list Control) : sys → Prop :=
| reach_initial : reachable todo (initial todo)
| reach_step s t a s' : reachable todo s → step t a s = Some s' → reachable todo s'.

(** ** The invariant *)

Context (todo : nat → list Control).
Context (all_carry : ∀ t, Forall (carries Marshal Unmarshal) (todo t)).

Definition written (s : sys) : list Control := snd <$> cw_log s.

(** What thread [t] has in flight, and what it has written. *)
Definition in_flight (p : position) : list Control :=
  match p with Locked m | HeaderWritten m _ => [m] | _ => [] end.
Fixpoint by_thread (t : nat) (log : list (nat * Control)) : list Control :=
  match log with
  | [] => []
  | (i, m) :: log => if decide (i = t) then m :: by_thread t log else by_thread t log
  end.

Definition stream_ok (s : sys) : Prop :=
  Forall (carries Marshal Unmarshal) (written s) ∧
  if cw_broken s then
    (∃ m, carries Marshal Unmarshal m ∧ cw_stream s `prefix_of` WriteAll Marshal [] (written s ++ [m])) ∧
    (∀ t m b, th_at (cw_threads s t) ≠ HeaderWritten m b)
  else match cw_mu s with
       | Some t => cw_stream s = WriteAll Marshal [] (written s) ++
           match th_at (cw_threads s t) with HeaderWritten m b => be_encode 4 (Z.of_nat (length b)) | _ => [] end
       | None => cw_stream s = WriteAll Marshal [] (written s)
       end.

Definition inv (s : sys) : Prop :=
  (∀ t, th_at (cw_threads s t) ≠ Outside ↔ cw_mu s = Some t) ∧
  (∀ t, Forall (carries Marshal Unmarshal) (in_flight (th_at (cw_threads s t)) ++ th_todo (cw_threads s t))) ∧
  (∀ t m b, th_at (cw_threads s t) = HeaderWritten m b → Marshal m = Ok b) ∧
  (cw_broken s = false → ∀ t, by_thread t (cw_log s) ++ in_flight (th_at (cw_threads s t)) ++ th_todo (cw_threads s t) = todo t) ∧
  stream_ok s.

Lemma WriteAll_snoc ms m b :
  Forall (carries Marshal Unmarshal) ms → carries Marshal Unmarshal m → Marshal m = Ok b →
  WriteAll Marshal [] (ms ++ [m]) = WriteAll Marshal [] ms ++ be_encode 4 (Z.of_nat (length b)) ++ b.
Proof.
  intros Hms Hm Hb. destruct (Hm) as (b0 & E & Hu & Hl). rewrite Hb in E. injection E as <-.
  induction Hms as [|m' ms (b' & Hb' & Hu' & Hl') Hms IH].
  - change ([] ++ [m]) with [m]. rewrite (WriteAll_cons Marshal Unmarshal m [] b) by (done || constructor). apply app_nil_r.
  - change ((m' :: ms) ++ [m]) with (m' :: (ms ++ [m])).
    rewrite !(WriteAll_cons Marshal Unmarshal m' _ b') by (done || by apply Forall_app; repeat constructor).
    by rewrite IH, app_assoc.
Qed.

Lemma by_thread_app t log new i :
  by_thread t (log ++ (pair i <$> new)) = by_thread t log ++ (if decide (t = i) then new else []).
Proof.
  assert (by_thread t (pair i <$> new) = if decide (t = i) then new else []) as Hn.
  { induction new as [|m new IH]; [by case_decide|]. rewrite fmap_cons. cbn [by_thread]. rewrite IH.
    repeat case_decide; subst; done. }
  induction log as [|[j m] log IH]; [exact Hn|]. cbn [app by_thread]. rewrite IH. by destruct (decide (j = t)).
Qed.

Lemma initial_inv : inv (initial todo).
Proof. unfold inv, stream_ok, initial. simpl. split_and!; try done. all: by intros []. Qed.

(** A thread moves while the stream stays, with the mutex taken or released. *)
Lemma move_inv str br mu mu' ths log t todo_ at_ rest p :
  inv (mkSys str br mu ths log) → ths t = mkThread todo_ at_ →
  (mu = None ∧ mu' = Some t ∧ p ≠ Outside ∨ mu = Some t ∧ mu' = None ∧ p = Outside) →
  in_flight p ++ rest = in_flight at_ ++ todo_ → (∀ m b, at_ ≠ HeaderWritten m b ∧ p ≠ HeaderWritten m b) →
  inv (mkSys str br mu' (set_thread t (mkThread rest p) ths) log).
Proof.
  intros (Hmu & Hc & Hh & Ht & Hw & Hs) E Hm Hf Hn. unfold inv, stream_ok, set_thread, written in *; simpl in *. split_and!.
  - intros i. case_decide; subst; simpl; [naive_solver|]. rewrite (Hmu i). naive_solver.
  - intros i. case_decide; subst; simpl; [|done]. specialize (Hc t). rewrite E in Hc. simpl in Hc. by rewrite Hf.
  - intros i m b. case_decide; subst; simpl; [naive_solver|apply Hh].
  - intros Hb i. specialize (Ht Hb i). case_decide; subst; simpl; [|done]. rewrite E in Ht. simpl in Ht. by rewrite Hf.
  - done.
  - destruct br.
    + destruct Hs as [Hp Hn']. split; [done|]. intros i m b. case_decide; subst; simpl; naive_solver.
    + destruct Hm as [(-> & -> & _)|(-> & -> & _)].
      * rewrite decide_True by done. simpl. rewrite Hs. destruct p; rewrite ?app_nil_r; try done. naive_solver.
      * rewrite E in Hs. simpl in Hs. destruct at_; rewrite ?app_nil_r in Hs; try done. naive_solver.
Qed.

(** The holder of the mutex writes: [p] is where it is then, [new] the message it has completed. *)
Lemma write_inv str (br : bool) str' (br' : bool) ths log t rest at_ p (new : list Control) :
  inv (mkSys str br (Some t) ths log) → ths t = mkThread rest at_ → p ≠ Outside →
  (if br' then in_flight p = [] else new ++ in_flight p = in_flight at_) →
  Forall (carries Marshal Unmarshal) (new ++ in_flight p) → (br' = false → br = false) →
  (∀ m b, p = HeaderWritten m b → Marshal m = Ok b) →
  stream_ok (mkSys str' br' (Some t) (set_thread t (mkThread rest p) ths) (log ++ (pair t <$> new))) →
  inv (mkSys str' br' (Some t) (set_thread t (mkThread rest p) ths) (log ++ (pair t <$> new))).
Proof.
  intros (Hmu & Hc & Hh & Ht & Hs) E Hp Hf Hnew Hbr Hm Hs'. split_and!; [..|done].
  all: unfold set_thread; simpl in *.
  - intros i. case_decide; subst; simpl; [done|apply Hmu].
  - intros i. case_decide; subst; simpl; [|done]. specialize (Hc t). rewrite E in Hc. simpl in Hc.
    apply Forall_app in Hc as [_ Hc], Hnew as [_ Hnew]. by apply Forall_app.
  - intros i m b. case_decide; subst; simpl; [apply Hm|apply Hh].
  - intros -> i. specialize (Ht (Hbr eq_refl) i). rewrite by_thread_app.
    case_decide; subst; simpl; [|by rewrite app_nil_r]. rewrite E in Ht. simpl in Ht.
    by rewrite <- app_assoc, (app_assoc new), Hf.
Qed.

(** The stream after a write: whole, or broken within the message that was being written. *)
Lemma header_ok str ths log t rest m b res :
  inv (mkSys str false (Some t) ths log) → ths t = mkThread rest (Locked m) → Marshal m = Ok b →
  let '(str', br', ok) := stream_write res (be_encode 4 (u32 (Z.of_nat (length b)))) str false in
  inv (mkSys str' br' (Some t) (set_thread t (mkThread rest (if ok then HeaderWritten m b else Unlocking)) ths) log).
Proof.
  intros I E Hb. pose proof I as (Hmu & Hc & Hh & _ & Hw & Hs). specialize (Hc t). simpl in Hc, Hs, Hw. rewrite E in Hc. simpl in Hc.
  apply Forall_cons in Hc as [Hm _]. rewrite E in Hs. simpl in Hs. rewrite app_nil_r in Hs.
  assert (u32 (Z.of_nat (length b)) = Z.of_nat (length b)) as ->.
  { destruct Hm as (b' & Hb' & _ & Hl). rewrite Hb in Hb'. injection Hb' as <-. unfold u32. apply Z.mod_small.
    change maxControl with (2 ^ 20) in Hl. lia. }
  pose proof (WriteAll_snoc _ m b Hw Hm Hb) as Hsn.
  set (hdr := be_encode 4 (Z.of_nat (length b))) in *.
  assert (∀ p str' br', stream_ok (mkSys str' br' (Some t) (set_thread t (mkThread rest p) ths) log) → p ≠ Outside →
    (if br' then in_flight p = [] else in_flight p = [m]) → (∀ m b, p = HeaderWritten m b → Marshal m = Ok b) →
    inv (mkSys str' br' (Some t) (set_thread t (mkThread rest p) ths) log)) as Hinv.
  { intros p str' br' Hok Hp Hf Hmp. pose proof (write_inv str false str' br' ths log t rest (Locked m) p [] I E Hp) as Hi.
    simpl in Hi. rewrite !app_nil_r in Hi. apply Hi; try done. by destruct br'; rewrite Hf; repeat constructor. }
  destruct res as [n|]; cbn [stream_write]; apply Hinv; try done; [| |naive_solver].
  - split; [done|]. split.
    + exists m. split; [done|]. etrans; [|apply reflexive_eq; symmetry; exact Hsn]. cbn [cw_stream]. rewrite Hs.
      apply prefix_app, prefix_app_r, prefix_take.
    + intros i m' b'. unfold set_thread. cbn [cw_threads]. case_decide; cbn [th_at]; [done|]. intros Hi.
      assert (Some t = Some i) as [= ->]; [|done]. apply Hmu. simpl. by rewrite Hi.
  - split; [done|]. unfold set_thread. cbn [cw_broken cw_mu cw_threads cw_stream].
    rewrite decide_True by done. cbn [th_at]. unfold written. cbn [cw_log]. by rewrite Hs.
Qed.

Lemma body_ok str ths log t rest m b res :
  inv (mkSys str false (Some t) ths log) → ths t = mkThread rest (HeaderWritten m b) →
  let '(str', br', ok) := stream_write res b str false in
  inv (mkSys str' br' (Some t) (set_thread t (mkThread rest Unlocking) ths) (if ok then log ++ [(t, m)] else log)).
Proof.
  intros I E. pose proof I as (Hmu & Hc & Hh & _ & Hw & Hs). specialize (Hc t). simpl in Hc, Hs, Hw. rewrite E in Hc. simpl in Hc.
  apply Forall_cons in Hc as [Hm _]. rewrite E in Hs. cbn [th_at] in Hs.
  assert (Marshal m = Ok b) as Hb by (eapply (Hh t); simpl; by rewrite E).
  pose proof (WriteAll_snoc _ m b Hw Hm Hb) as Hsn. rewrite app_assoc in Hsn.
  rewrite <- Hs in Hsn.
  destruct res as [n|]; cbn [stream_write].
  - pose proof (write_inv str false (str ++ take n b) true ths log t rest (HeaderWritten m b) Unlocking [] I E) as Hi.
    cbn [fmap list_fmap] in Hi. rewrite !app_nil_r in Hi. apply Hi; try done. split; [done|]. split.
    + exists m. split; [done|]. etrans; [|apply reflexive_eq; symmetry; exact Hsn]. apply prefix_app, prefix_take.
    + intros i m' b'. unfold set_thread. cbn [cw_threads]. case_decide; cbn [th_at]; [done|]. intros Hi'.
      assert (Some t = Some i) as [= ->]; [|done]. apply Hmu. simpl. by rewrite Hi'.
  - apply (write_inv str false (str ++ b) false ths log t rest (HeaderWritten m b) Unlocking [m] I E); try done.
    + by repeat constructor.
    + split; unfold written; cbn [cw_log cw_broken cw_mu cw_stream cw_threads]; rewrite fmap_app.
      * by apply Forall_app; repeat constructor.
      * unfold set_thread. rewrite decide_True by done. cbn [th_at]. rewrite app_nil_r. symmetry. exact Hsn.
Qed.

(** On a stream that has failed nothing changes. *)
Lemma broken_inv str ths log t rest m at_ :
  inv (mkSys str true (Some t) ths log) → ths t = mkThread rest at_ → at_ = Locked m →
  inv (mkSys str true (Some t) (set_thread t (mkThread rest Unlocking) ths) log).
Proof.
  intros I E ->. pose proof (write_inv str true str true ths log t rest (Locked m) Unlocking [] I E) as Hi.
  cbn [fmap list_fmap] in Hi. rewrite !app_nil_r in Hi. apply Hi; try done.
  destruct I as (_ & _ & _ & _ & Hw & Hp & Hn). split; [done|]. split; [done|].
  intros i m' b'. unfold set_thread. cbn [cw_threads]. case_decide; cbn [th_at]; [done|]. apply Hn.
Qed.

Lemma step_inv t a s s' : inv s → step t a s = Some s' → inv s'.
Proof.
  destruct s as [str br mu ths log]. intros I Hs. unfold step in Hs. destruct (ths t) as [rest at_] eqn:E.
  assert (at_ ≠ Outside → mu = Some t) as Hmu.
  { intros Hne. apply (proj1 I t). simpl. by rewrite E. }
  destruct a, at_; try done.
  - destruct rest as [|m rest], mu; try done. injection Hs as <-.
    eapply move_inv; [exact I|exact E|..]; [left; auto|done|done].
  - specialize (Hmu ltac:(done)) as ->. pose proof (proj1 (proj2 I) t) as Hc. simpl in Hc. rewrite E in Hc.
    apply Forall_app in Hc as [[(b & Hb & _ & Hl) _]%Forall_cons _]. rewrite Hb in Hs.
    assert (Z.of_nat (length b) >? maxControl = false) as Hf by lia. rewrite Hf in Hs. destruct br.
    + simpl in Hs. injection Hs as <-. by eapply broken_inv.
    + pose proof (header_ok str ths log t rest m b res I E Hb) as Hh.
      destruct (stream_write _ _ _ _) as [[str' br'] ok]. by injection Hs as <-.
  - specialize (Hmu ltac:(done)) as ->. destruct br.
    { destruct I as (_ & _ & _ & _ & _ & _ & Hn). destruct (Hn t m body). simpl. by rewrite E. }
    pose proof (body_ok str ths log t rest m body res I E) as Hb.
    destruct (stream_write _ _ _ _) as [[str' br'] ok]. by injection Hs as <-.
  - specialize (Hmu ltac:(done)) as ->. injection Hs as <-.
    eapply move_inv; [exact I|exact E|..]; [right; auto|done|done].
Qed.

Lemma reachable_inv s : reachable todo s → inv s.
Proof. induction 1; [apply initial_inv|by eapply step_inv]. Qed.

Lemma stream_prefix s : inv s → ∃ ms, Forall (carries Marshal Unmarshal) (written s ++ ms) ∧ (length ms ≤ 1)%nat ∧
  cw_stream s `prefix_of` WriteAll Marshal [] (written s ++ ms).
Proof.
  intros (Hmu & Hc & Hh & _ & Hw & Hs). destruct (cw_broken s).
  { destruct Hs as [(m & Hm & Hp) _]. exists [m]. split_and!; [by apply Forall_app; repeat constructor|done|done]. }
  destruct (cw_mu s) as [t|]; [|exists []; rewrite app_nil_r; split_and!; [done|simpl; lia|by rewrite Hs]].
  destruct (th_at (cw_threads s t)) as [|m|m b|] eqn:E;
    try (exists []; rewrite !app_nil_r in *; split_and!; [done|simpl; lia|by rewrite Hs]).
  specialize (Hc t). rewrite E in Hc. apply Forall_cons in Hc as [Hm _].
  exists [m]. split_and!; [by apply Forall_app; repeat constructor|done|].
  rewrite (WriteAll_snoc _ m b), Hs by eauto. apply prefix_app. by apply prefix_app_r.
Qed.

(** C2. Writers of a control stream do not disturb each other: however the goroutines that write to it
    are scheduled, the stream is as if whole messages had been written one at a time in the order of the
    mutex; each goroutine's messages appear in its order, none lost or repeated while the stream works;
    and whatever prefix of it has arrived - while a message is being written, or after a write that
    failed half-way - the peer reads a prefix of these messages and then an error, never a mixture. *)
Theorem control_writers_are_serialized s p :
  reachable todo s → p `prefix_of` cw_stream s →
  (cw_broken s = false → cw_mu s = None →
     cw_stream s = WriteAll Marshal [] (written s) ∧ ReadN Unmarshal (length (written s)) (cw_stream s) = (written s, None, []) ∧
     ∀ t, by_thread t (cw_log s) ++ th_todo (cw_threads s t) = todo t) ∧
  ∃ ms k e, (length ms ≤ 1)%nat ∧ ReadN Unmarshal (S (length (written s ++ ms))) p = (take k (written s ++ ms), Some e, []).
Proof.
  intros I%reachable_inv Hp. split.
  - intros Hb Hm. pose proof I as (Hmu & _ & _ & Ht & Hw & Hs). rewrite Hb, Hm in *. split; [done|]. split.
    + destruct (ReadN_WriteAll Marshal Unmarshal (written s) [] [] Hw) as (f & Hf & Hr). simpl in Hf.
      by rewrite Hs, Hf, <- (app_nil_r f).
    + intros t. rewrite <- (Ht eq_refl t). f_equal. destruct (th_at (cw_threads s t)) eqn:E; try done.
      all: assert (None = Some t) by (apply Hmu; by rewrite E); done.
  - destruct (stream_prefix s I) as (ms & Hms & Hl & Hpre).
    destruct (ReadN_cut Marshal Unmarshal (written s ++ ms) p Hms) as (k & e & Hr & _); [by etrans|]. by exists ms, k, e.
Qed.
End ctrlwriter.

(** ** Two goroutines *)

Definition pong7 : Control := (control MsgPong) <| c_SessionID := 7 |>.
Definition two_marshal (m : Control) : result string (list byte) := Ok (if decide (c_Type m = MsgPing) then [x50] else [x51]).
Definition two_unmarshal (b : list byte) : result string Control := if decide (b = [x50]) then Ok ping7 else Ok pong7.
Definition two_todo (t : nat) : list Control := match t with 0%nat => [ping7] | 1%nat => [pong7] | _ => [] end.

(** The second goroutine waits for the mutex while the first is between its two writes. *)
Fixpoint steps (ls : list (nat * action)) (s : sys) : option sys :=
  match ls with
  | [] => Some s
  | (t, a) :: ls => match step two_marshal t a s with Some s => steps ls s | None => None end
  end.
Definition two_schedule : list (nat * action) :=
  [(1, ALock); (1, AWrite None); (1, AWrite None); (1, AUnlock); (0, ALock); (0, AWrite None); (0, AWrite (Some 0)); (0, AUnlock)]%nat.
Definition two_state (n : nat) : sys := default (initial two_todo) (steps (take n two_schedule) (initial two_todo)).

Example mutex_excludes : step two_marshal 0 ALock (two_state 2) = None.
Proof. reflexivity. Qed.

Lemma steps_reachable ls s s' : reachable two_marshal two_todo s → steps ls s = Some s' → reachable two_marshal two_todo s'.
Proof.
  revert s. induction ls as [|[t a] ls IH]; simpl; intros s Hs E; [by simplify_eq|].
  destruct (step two_marshal t a s) eqn:E'; [|done]. eapply IH; [|done]. by econstructor.
Qed.

Lemma two_carry t : Forall (carries two_marshal two_unmarshal) (two_todo t).
Proof.
  destruct t as [|[|t]]; repeat constructor; [exists [x50]|exists [x51]]; (split; [reflexivity|split; [reflexivity|]]); vm_compute; discriminate.
Qed.

Lemma control_writers_are_serialized_witness :
  ∃ ms k e, (length ms ≤ 1)%nat ∧
    ReadN two_unmarshal (S (length (written (two_state 8) ++ ms))) (cw_stream (two_state 8)) = (take k (written (two_state 8) ++ ms), Some e, []).
Proof.
  apply (control_writers_are_serialized two_marshal two_unmarshal two_todo two_carry (two_state 8) (cw_stream (two_state 8))); [|reflexivity].
  apply (steps_reachable two_schedule (initial two_todo)); [constructor|reflexivity].
Defined.
