(* ===== verification/Strs.v ===== *)
(** * Go strings: splitting, cutting, numbers as text *)
From S2P Require Import Prelude.
From Stdlib Require Import Strings.Ascii.
Open Scope Z_scope.

Definition chr (c : Ascii.ascii) : string := String c EmptyString.

(** [strings.Split] by a one-byte separator. *)
Fixpoint split_on (c : Ascii.ascii) (s : string) : list string :=
  match s with
  | EmptyString => [EmptyString]
  | String a s =>
      if Ascii.eqb a c then EmptyString :: split_on c s
      else match split_on c s with
           | h :: t => String a h :: t
           | [] => [chr a]
           end
  end.

(** [strings.Cut] by a one-byte separator: what precedes its first occurrence and what follows. *)
Fixpoint cut_on (c : Ascii.ascii) (s : string) : option (string * string) :=
  match s with
  | EmptyString => None
  | String a s =>
      if Ascii.eqb a c then Some (EmptyString, s)
      else match cut_on c s with
           | Some (l, r) => Some (String a l, r)
           | None => None
           end
  end.

Fixpoint string_forall (p : Ascii.ascii → bool) (s : string) : bool :=
  match s with
  | EmptyString => true
  | String a s => p a && string_forall p s
  end.

Definition is_digit (c : Ascii.ascii) : bool :=
  let n := Ascii.nat_of_ascii c in ((48 <=? n) && (n <=? 57))%nat.

Definition digit_val (c : Ascii.ascii) : Z := Z.of_nat (Ascii.nat_of_ascii c) - 48.

Fixpoint digits_val (acc : Z) (s : string) : Z :=
  match s with
  | EmptyString => acc
  | String c s => digits_val (acc * 10 + digit_val c) s
  end.

(** [fmt.Sprintf("%d", z)] and [strconv.Itoa]. *)
Definition itoa (z : Z) : string := pretty z.

#[export] Instance itoa_inj : Inj (=) (=) itoa.
Proof. unfold itoa. apply _. Qed.

(** ** Lemmas *)

Definition lacks (c : Ascii.ascii) (s : string) : bool := string_forall (λ a, negb (Ascii.eqb a c)) s.

Lemma split_on_lacks c s : lacks c s = true → split_on c s = [s].
Proof.
  induction s as [|a s IH]; simpl; [done|]. intros [Ha Hs]%andb_true_iff.
  destruct (Ascii.eqb a c); [done|]. by rewrite IH.
Qed.

Lemma split_on_app c s1 s2 :
  lacks c s1 = true → split_on c (s1 +:+ String c s2) = s1 :: split_on c s2.
Proof.
  induction s1 as [|a s1 IH]; simpl.
  - intros _. by rewrite Ascii.eqb_refl.
  - intros [Ha Hs]%andb_true_iff. destruct (Ascii.eqb a c); [done|]. by rewrite IH.
Qed.

Lemma cut_on_app c s1 s2 :
  lacks c s1 = true → cut_on c (s1 +:+ String c s2) = Some (s1, s2).
Proof.
  induction s1 as [|a s1 IH]; simpl.
  - intros _. by rewrite Ascii.eqb_refl.
  - intros [Ha Hs]%andb_true_iff. destruct (Ascii.eqb a c); [done|]. by rewrite IH.
Qed.

Lemma string_forall_mono (p q : Ascii.ascii → bool) s :
  (∀ a, p a = true → q a = true) → string_forall p s = true → string_forall q s = true.
Proof.
  intros H. induction s as [|a s IH]; simpl; [done|].
  intros [? ?]%andb_true_iff. apply andb_true_iff. auto.
Qed.

Lemma app_string_nil_r s : s +:+ "" = s.
Proof. induction s as [|a s IH]; [done|]. change (String a (s +:+ "") = String a s). by rewrite IH. Qed.

Lemma app_string_assoc s1 s2 s3 : (s1 +:+ s2) +:+ s3 = s1 +:+ (s2 +:+ s3).
Proof. induction s1 as [|a s IH]; [done|].
  change (String a ((s +:+ s2) +:+ s3) = String a (s +:+ (s2 +:+ s3))). by rewrite IH.
Qed.

Lemma string_forall_app p s1 s2 : string_forall p (s1 +:+ s2) = string_forall p s1 && string_forall p s2.
Proof. induction s1 as [|a s1 IH]; [done|]. simpl. by rewrite IH, andb_assoc. Qed.

(** Two ways to cut the same string. *)
Lemma app_string_eq_app s1 s2 p1 p2 :
  s1 +:+ s2 = p1 +:+ p2 →
  (∃ r, s1 = p1 +:+ r ∧ p2 = r +:+ s2) ∨ (∃ r, p1 = s1 +:+ r ∧ s2 = r +:+ p2).
Proof.
  revert p1. induction s1 as [|a s1 IH]; intros p1 E; [by right; exists p1|].
  destruct p1 as [|b p1]; [by left; exists (String a s1)|].
  simpl in E. injection E as <- E. destruct (IH p1 E) as [(r & -> & ->)|(r & -> & ->)]; eauto.
Qed.

(** ** Spaces, prefixes, numbers *)

(** ASCII white space as [unicode.IsSpace] has it; the texts the program trims are ASCII. *)
Definition is_space (c : Ascii.ascii) : bool :=
  let n := Ascii.nat_of_ascii c in ((9 <=? n) && (n <=? 13) || (n =? 32))%nat.

Fixpoint trim_left (s : string) : string :=
  match s with
  | String c r => if is_space c then trim_left r else s
  | EmptyString => s
  end.

Fixpoint trim_right (s : string) : string :=
  match s with
  | EmptyString => EmptyString
  | String c r =>
      match trim_right r with
      | EmptyString => if is_space c then EmptyString else chr c
      | r' => String c r'
      end
  end.

(** [strings.TrimSpace] *)
Definition TrimSpace (s : string) : string := trim_right (trim_left s).

(** [strings.CutPrefix]: what follows the prefix, if it is one. *)
Fixpoint CutPrefix (p s : string) : option string :=
  match p, s with
  | EmptyString, _ => Some s
  | String a p, String b s => if Ascii.eqb a b then CutPrefix p s else None
  | String _ _, EmptyString => None
  end.

Definition HasPrefix (p s : string) : bool := match CutPrefix p s with Some _ => true | None => false end.
Definition TrimPrefix (p s : string) : string := default s (CutPrefix p s).

(** [strconv.Atoi]: an optional sign, digits, and the range of a 64-bit [int]. *)
Definition Atoi (s : string) : option Z :=
  let '(neg, ds) := match s with
                    | String c r => if Ascii.eqb c "-"%char then (true, r)
                                    else if Ascii.eqb c "+"%char then (false, r) else (false, s)
                    | EmptyString => (false, s)
                    end in
  if decide (ds = "") then None
  else if string_forall is_digit ds then
    let z := if neg then - digits_val 0 ds else digits_val 0 ds in
    if (- 2 ^ 63 <=? z) && (z <? 2 ^ 63) then Some z else None
  else None.

Lemma CutPrefix_app p s : CutPrefix p (p +:+ s) = Some s.
Proof. induction p as [|a p IH]; simpl; [done|]. by rewrite Ascii.eqb_refl. Qed.

(** A text without space at its ends is left alone. *)
Definition no_space (s : string) : bool := string_forall (λ c, negb (is_space c)) s.

Lemma trim_right_no_space s : no_space s = true → trim_right s = s.
Proof.
  unfold no_space. induction s as [|c s IH]; simpl; [done|]. intros [Hc Hs]%andb_true_iff.
  rewrite (IH Hs). destruct s; [|done]. by destruct (is_space c).
Qed.

Lemma TrimSpace_no_space s : no_space s = true → TrimSpace s = s.
Proof.
  intros Hs. unfold TrimSpace. assert (trim_left s = s) as ->; [|by apply trim_right_no_space].
  destruct s as [|c s]; [done|]. unfold no_space in Hs. simpl in *. apply andb_true_iff in Hs as [Hc _]. by destruct (is_space c).
Qed.

(** [strings.Fields]: the maximal runs without white space; [acc] is the current one. *)
Fixpoint fields_from (acc s : string) : list string :=
  match s with
  | EmptyString => if decide (acc = "") then [] else [acc]
  | String c s =>
      if is_space c then (if decide (acc = "") then fields_from "" s else acc :: fields_from "" s)
      else fields_from (acc +:+ chr c) s
  end.
Definition Fields (s : string) : list string := fields_from "" s.

(** The value of [strconv.ParseUint(s, 10, 64)], which is zero for malformed and the largest number for
    too large texts. *)
Definition ParseUint (s : string) : Z :=
  if decide (s = "") then 0
  else if string_forall is_digit s then Z.min (digits_val 0 s) (2 ^ 64 - 1) else 0.

(** ** Package unicode/utf8 *)

(** The ranges of the bytes that continue a character that begins with [n] (RFC 3629). *)
Definition utf8_lead (n : Z) : option (list (Z * Z)) :=
  let c := (128, 191) in
  if n <? 128 then Some []
  else if (194 <=? n) && (n <=? 223) then Some [c]
  else if n =? 224 then Some [(160, 191); c]
  else if n =? 237 then Some [(128, 159); c]
  else if (225 <=? n) && (n <=? 239) then Some [c; c]
  else if n =? 240 then Some [(144, 191); c; c]
  else if (241 <=? n) && (n <=? 243) then Some [c; c; c]
  else if n =? 244 then Some [(128, 143); c; c]
  else None.

Definition utf8_step (want : option (list (Z * Z))) (ch : ascii) : option (list (Z * Z)) :=
  let n := Z.of_N (N_of_ascii ch) in
  match want with
  | None => None
  | Some [] => utf8_lead n
  | Some ((lo, hi) :: want) => if (lo <=? n) && (n <=? hi) then Some want else None
  end.

(** [utf8.ValidString] *)
Definition utf8 (s : string) : bool :=
  match foldl utf8_step (Some []) (String.list_ascii_of_string s) with Some [] => true | _ => false end.

Example utf8_euro : utf8 (String "226" (String "130" (String "172" "x"))) = true.
Proof. reflexivity. Qed.
Example utf8_surrogate : utf8 (String "237" (String "160" (String "128" ""))) = false.
Proof. reflexivity. Qed.
