(* ===== verification/Codec.v ===== *)
(** * encoding/base64 (without padding) and encoding/hex

    The two text encodings the program uses: the alphabet is an argument, [std] or [url].  As in Go,
    decoding skips line breaks and does not look at the unused low bits of the last digit. *)
From S2P Require Import Prelude Strs.
From Stdlib Require Import Strings.Ascii.

Open Scope Z_scope.

Definition std : string := "ABCDEFGHIJKLMNOPQRSTUVWXYZabcdefghijklmnopqrstuvwxyz0123456789+/".
Definition url : string := "ABCDEFGHIJKLMNOPQRSTUVWXYZabcdefghijklmnopqrstuvwxyz0123456789-_".
Definition hexdigits : string := "0123456789abcdef".

Definition digit (alphabet : string) (i : Z) : Ascii.ascii := default "0"%char (String.get (Z.to_nat i) alphabet).

Fixpoint digit_value (alphabet : string) (c : Ascii.ascii) : option Z :=
  match alphabet with
  | EmptyString => None
  | String a rest => if Ascii.eqb a c then Some 0 else z ← digit_value rest c; Some (z + 1)
  end.

(** Groups of three bytes as four 6-bit digits. *)
Fixpoint sextets (bs : list byte) : list Z :=
  match bs with
  | [] => []
  | [b0] => let n := b2z b0 * 16 in [n / 64; n mod 64]
  | [b0; b1] => let n := (b2z b0 * 256 + b2z b1) * 4 in [n / 4096; n / 64 mod 64; n mod 64]
  | b0 :: b1 :: b2 :: r =>
      let n := (b2z b0 * 256 + b2z b1) * 256 + b2z b2 in
      n / 262144 :: n / 4096 mod 64 :: n / 64 mod 64 :: n mod 64 :: sextets r
  end.

Fixpoint octets (ds : list Z) : option (list byte) :=
  match ds with
  | [] => Some []
  | [_] => None
  | [d0; d1] => let n := d0 * 64 + d1 in Some [z2b (n / 16)]
  | [d0; d1; d2] => let n := (d0 * 64 + d1) * 64 + d2 in Some [z2b (n / 1024); z2b (n / 4)]
  | d0 :: d1 :: d2 :: d3 :: r =>
      let n := ((d0 * 64 + d1) * 64 + d2) * 64 + d3 in
      bs ← octets r; Some (z2b (n / 65536) :: z2b (n / 256) :: z2b n :: bs)
  end.

Definition EncodeToString (alphabet : string) (bs : list byte) : string :=
  String.string_of_list_ascii (digit alphabet <$> sextets bs).

Definition line_break (c : Ascii.ascii) : bool := Ascii.eqb c "010"%char || Ascii.eqb c "013"%char.

Definition DecodeString (alphabet : string) (s : string) : option (list byte) :=
  mapM (digit_value alphabet) (filter (λ c, line_break c = false) (String.list_ascii_of_string s)) ≫= octets.

(** [hex.EncodeToString] *)
Definition hex (bs : list byte) : string :=
  String.string_of_list_ascii (concat ((λ b, [digit hexdigits (b2z b / 16); digit hexdigits (b2z b mod 16)]) <$> bs)).

(** ** Round trip *)

(** Induction on the groups of three. *)
Lemma list_ind3 {A} (P : list A → Prop) :
  P [] → (∀ a, P [a]) → (∀ a b, P [a; b]) → (∀ a b c l, P l → P (a :: b :: c :: l)) → ∀ l, P l.
Proof.
  intros H0 H1 H2 H3. fix IH 1. intros [|a [|b [|c l]]]; [exact H0|apply H1|apply H2|]. apply H3, IH.
Qed.

Lemma z2b_of_b2z b z : z mod 256 = b2z b → z2b z = b.
Proof. intros Hz. apply b2z_inj. by rewrite b2z_z2b. Qed.

Ltac divmod := Z.div_mod_to_equations; lia.

Lemma octets_sextets bs : octets (sextets bs) = Some bs.
Proof.
  induction bs as [|b0|b0 b1|b0 b1 b2 bs IH] using list_ind3.
  - done.
  - simpl. pose proof (b2z_range b0). do 2 f_equal. apply z2b_of_b2z. divmod.
  - simpl. pose proof (b2z_range b0). pose proof (b2z_range b1). do 3 f_equal; [|f_equal]; apply z2b_of_b2z; divmod.
  - cbn [sextets octets]. rewrite IH. simpl. pose proof (b2z_range b0). pose proof (b2z_range b1). pose proof (b2z_range b2).
    do 2 f_equal; [|f_equal; [|f_equal]]; apply z2b_of_b2z; divmod.
Qed.

Lemma sextets_range bs : Forall (λ d, 0 ≤ d < 64) (sextets bs).
Proof.
  induction bs as [|b0|b0 b1|b0 b1 b2 bs IH] using list_ind3; simpl.
  - constructor.
  - pose proof (b2z_range b0). repeat constructor; divmod.
  - pose proof (b2z_range b0). pose proof (b2z_range b1). repeat constructor; divmod.
  - pose proof (b2z_range b0). pose proof (b2z_range b1). pose proof (b2z_range b2).
    repeat (constructor; [divmod|]). done.
Qed.

(** An alphabet whose 64 digits are distinct and no line breaks. *)
Definition alphabet_ok (alphabet : string) : bool :=
  forallb (λ i, bool_decide (digit_value alphabet (digit alphabet (Z.of_nat i)) = Some (Z.of_nat i)) &&
                negb (line_break (digit alphabet (Z.of_nat i)))) (seq 0 64).

Lemma std_ok : alphabet_ok std = true.
Proof. vm_compute. reflexivity. Qed.
Lemma url_ok : alphabet_ok url = true.
Proof. vm_compute. reflexivity. Qed.

Lemma alphabet_digit alphabet d :
  alphabet_ok alphabet = true → 0 ≤ d < 64 →
  digit_value alphabet (digit alphabet d) = Some d ∧ line_break (digit alphabet d) = false.
Proof.
  intros Hok Hd. unfold alphabet_ok in Hok. rewrite forallb_forall in Hok.
  specialize (Hok (Z.to_nat d)). rewrite Z2Nat.id in Hok by lia.
  apply andb_true_iff in Hok as [H1%bool_decide_eq_true H2%negb_true_iff]; [done|].
  apply in_seq. lia.
Qed.

(** Decoding inverts encoding. *)
Lemma DecodeString_EncodeToString alphabet bs :
  alphabet_ok alphabet = true → DecodeString alphabet (EncodeToString alphabet bs) = Some bs.
Proof.
  intros Hok. unfold DecodeString, EncodeToString. rewrite String.list_ascii_of_string_of_list_ascii.
  rewrite <- octets_sextets. pose proof (sextets_range bs) as Hr. revert Hr. generalize (sextets bs) as ds. intros ds Hr.
  assert (mapM (digit_value alphabet) (filter (λ c, line_break c = false) (digit alphabet <$> ds)) = Some ds) as ->; [|done].
  induction Hr as [|d ds Hd Hr IH]; [done|]. destruct (alphabet_digit alphabet d Hok Hd) as [H1 H2].
  rewrite fmap_cons, filter_cons_True by done. simpl. by rewrite H1, IH.
Qed.

(** The text holds digits only, so no separator of a format built from it. *)
Lemma EncodeToString_lacks alphabet bs sep :
  alphabet_ok alphabet = true → digit_value alphabet sep = None → lacks sep (EncodeToString alphabet bs) = true.
Proof.
  intros Hok Hsep. unfold EncodeToString, lacks. pose proof (sextets_range bs) as Hr.
  induction Hr as [|d ds Hd Hr IH]; [done|].
  rewrite fmap_cons. cbn [String.string_of_list_ascii string_forall]. rewrite IH, andb_true_r.
  apply negb_true_iff, Ascii.eqb_neq.
  intros E. destruct (alphabet_digit alphabet d Hok Hd) as [H1 _]. rewrite E in H1. congruence.
Qed.
