(* ===== verification/Scanner.v ===== *)
(** * bufio.Scanner: reading a file by lines

    [Scan limit] returns the lines that a scanner with a buffer of [limit] bytes yields, and the error
    it stops with: a line must leave room for its newline in the buffer. *)
From S2P Require Import Prelude.

Open Scope Z_scope.

Definition nl : byte := x0a.
Definition cr : byte := x0d.

(** The lines [bufio.ScanLines] finds: those ended by a newline, and the rest if there is any;
    [acc] is the current line, reversed. *)
Fixpoint raw_lines (acc bs : list byte) : list (list byte) :=
  match bs with
  | [] => match acc with [] => [] | _ => [reverse acc] end
  | b :: bs => if Byte.eqb b nl then reverse acc :: raw_lines [] bs else raw_lines (b :: acc) bs
  end.

Definition dropCR (l : list byte) : list byte :=
  match reverse l with
  | b :: r => if Byte.eqb b cr then reverse r else l
  | [] => l
  end.

Fixpoint scan_lines (limit : Z) (ls : list (list byte)) : list (list byte) * option string :=
  match ls with
  | [] => ([], None)
  | l :: ls =>
      if limit <=? Z.of_nat (length l) then ([], Some "bufio.Scanner: token too long")
      else let '(r, err) := scan_lines limit ls in (dropCR l :: r, err)
  end.

Definition Scan (limit : Z) (bs : list byte) : list (list byte) * option string := scan_lines limit (raw_lines [] bs).

(** [bufio.MaxScanTokenSize] *)
Definition MaxScanTokenSize : Z := 64 * 1024.

(** ** Lines that are read back *)

Definition no_newline (l : list byte) : Prop := Forall (λ x, Byte.eqb x nl = false) l.

Lemma raw_lines_line acc l bs : no_newline l → raw_lines acc (l ++ nl :: bs) = (reverse acc ++ l) :: raw_lines [] bs.
Proof.
  intros Hl. revert acc. induction Hl as [|b l Hb Hl IH]; intros acc; simpl.
  - by rewrite app_nil_r.
  - rewrite Hb, IH, reverse_cons, <- app_assoc. done.
Qed.

Lemma Scan_line limit l bs :
  no_newline l → Z.of_nat (length l) < limit →
  Scan limit (l ++ nl :: bs) = let '(r, err) := Scan limit bs in (dropCR l :: r, err).
Proof.
  intros Hl Hlen. unfold Scan. rewrite raw_lines_line by done. change (reverse [] ++ l) with l. cbn [scan_lines].
  by rewrite (proj2 (Z.leb_gt _ _) Hlen).
Qed.

Lemma dropCR_other l c : Byte.eqb c cr = false → dropCR (l ++ [c]) = l ++ [c].
Proof. intros Hc. unfold dropCR. by rewrite reverse_snoc, Hc. Qed.
