(* ===== verification/Netip.v ===== *)
(** * IP addresses and prefixes ([net/netip], as far as Revquic uses it) *)
From S2P Require Import Prelude Strs.
From Stdlib Require Import Strings.Ascii.
Open Scope Z_scope.

(** [netip.Addr]: the zero value is the invalid address. Zones do not occur. *)
Inductive Addr :=
| AddrInvalid
| Addr4 (z : Z)
| Addr6 (z : Z).

#[export] Instance Addr_eq_dec : EqDecision Addr.
Proof. solve_decision. Defined.

#[export] Program Instance Addr_countable : Countable Addr :=
  inj_countable' (λ a, match a with
                       | AddrInvalid => inl ()
                       | Addr4 z => inr (inl z)
                       | Addr6 z => inr (inr z)
                       end)
    (λ s, match s with
          | inl _ => AddrInvalid
          | inr (inl z) => Addr4 z
          | inr (inr z) => Addr6 z
          end) _.
Next Obligation. by intros []. Qed.

Definition IsValid (a : Addr) : bool := match a with AddrInvalid => false | _ => true end.
Definition Is4 (a : Addr) : bool := match a with Addr4 _ => true | _ => false end.

(** The following address, the invalid one after the last. *)
Definition Next (a : Addr) : Addr :=
  match a with
  | AddrInvalid => AddrInvalid
  | Addr4 z => if z =? 2 ^ 32 - 1 then AddrInvalid else Addr4 (z + 1)
  | Addr6 z => if z =? 2 ^ 128 - 1 then AddrInvalid else Addr6 (z + 1)
  end.

(** The four bytes of an IPv4 address, most significant first. *)
Definition As4 (z : Z) : list Z :=
  [Z.land (Z.shiftr z 24) 255; Z.land (Z.shiftr z 16) 255; Z.land (Z.shiftr z 8) 255; Z.land z 255].

Definition AddrFrom4 (b0 b1 b2 b3 : Z) : Addr :=
  Addr4 (((b0 * 256 + b1) * 256 + b2) * 256 + b3).

Record Prefix := mkPrefix { pfx_addr : Addr; pfx_bits : Z }.

(** [Prefix.Contains]: same family and equal leading bits. *)
Definition Contains (p : Prefix) (a : Addr) : bool :=
  match pfx_addr p, a with
  | Addr4 n, Addr4 z => Z.shiftr (Z.lxor z n) (32 - pfx_bits p) =? 0
  | Addr6 n, Addr6 z => Z.shiftr (Z.lxor z n) (128 - pfx_bits p) =? 0
  | _, _ => false
  end.

(** [Prefix.Masked]: the host bits cleared. *)
Definition Masked (p : Prefix) : Prefix :=
  match pfx_addr p with
  | AddrInvalid => p
  | Addr4 z => mkPrefix (Addr4 (Z.shiftl (Z.shiftr z (32 - pfx_bits p)) (32 - pfx_bits p))) (pfx_bits p)
  | Addr6 z => mkPrefix (Addr6 (Z.shiftl (Z.shiftr z (128 - pfx_bits p)) (128 - pfx_bits p))) (pfx_bits p)
  end.

(** ** Text *)

Definition dot : Ascii.ascii := "."%char.

(** [Addr.String] of an IPv4 address. *)
Definition String4 (z : Z) : string :=
  match As4 z with
  | [b0; b1; b2; b3] =>
      itoa b0 +:+ String dot (itoa b1 +:+ String dot (itoa b2 +:+ String dot (itoa b3)))
  | _ => EmptyString
  end.

(** One octet: one to three digits, no leading zero, at most 255. *)
Definition parse_octet (s : string) : option Z :=
  match s with
  | EmptyString => None
  | String c r =>
      if negb (string_forall is_digit s) then None
      else if Ascii.eqb c "0"%char && negb (String.eqb r EmptyString) then None
      else let v := digits_val 0 s in if v <=? 255 then Some v else None
  end.

Definition parseIPv4 (s : string) : option Addr :=
  match split_on dot s with
  | [s0; s1; s2; s3] =>
      match parse_octet s0, parse_octet s1, parse_octet s2, parse_octet s3 with
      | Some b0, Some b1, Some b2, Some b3 => Some (AddrFrom4 b0 b1 b2 b3)
      | _, _, _, _ => None
      end
  | _ => None
  end.

(** The first of [.], [:] and [%] decides the family. IPv6 text is read by [parse6], the standard
    library's reader, which the model leaves a parameter. *)
Fixpoint first_sep (s : string) : option Ascii.ascii :=
  match s with
  | EmptyString => None
  | String c s =>
      if Ascii.eqb c dot || Ascii.eqb c ":"%char || Ascii.eqb c "%"%char then Some c else first_sep s
  end.

Definition ParseAddr (parse6 : string → option Addr) (s : string) : option Addr :=
  match first_sep s with
  | None => None
  | Some c => if Ascii.eqb c dot then parseIPv4 s
              else if Ascii.eqb c ":"%char then parse6 s else None
  end.

(** ** Lemmas *)

(** A masked IPv4 prefix with base address [base]. *)
Definition prefix4 (p : Prefix) (base : Z) : Prop :=
  pfx_addr p = Addr4 base ∧ 0 ≤ pfx_bits p ≤ 32 ∧ 0 ≤ base ∧
  base mod 2 ^ (32 - pfx_bits p) = 0 ∧ base + 2 ^ (32 - pfx_bits p) ≤ 2 ^ 32.

Lemma Contains4 p base a :
  prefix4 p base → Contains p a = true ↔ ∃ z, a = Addr4 z ∧ base ≤ z < base + 2 ^ (32 - pfx_bits p).
Proof.
  intros (Ha & Hb & H0 & Hm & Hr). unfold Contains. rewrite Ha.
  set (h := 32 - pfx_bits p) in *. assert (0 < 2 ^ h) by (apply Z.pow_pos_nonneg; lia).
  destruct a as [|z|z]; [naive_solver| |naive_solver].
  rewrite Z.eqb_eq, Z.shiftr_lxor, Z.lxor_eq_0_iff, !Z.shiftr_div_pow2 by lia.
  split.
  - intros E. exists z. split; [done|].
    pose proof (Z.div_mod z (2 ^ h)). pose proof (Z.div_mod base (2 ^ h)).
    pose proof (Z.mod_pos_bound z (2 ^ h)). nia.
  - intros (z' & [= <-] & Hz). symmetry.
    apply (Z.div_unique_pos _ _ _ (z - base)); [lia|].
    pose proof (Z.div_mod base (2 ^ h)). lia.
Qed.

Lemma Masked_prefix4 z bits :
  0 ≤ z < 2 ^ 32 → 0 ≤ bits ≤ 32 →
  ∃ base, prefix4 (Masked (mkPrefix (Addr4 z) bits)) base ∧ pfx_bits (Masked (mkPrefix (Addr4 z) bits)) = bits.
Proof.
  intros Hz Hb. unfold Masked, prefix4; simpl. set (h := 32 - bits).
  assert (0 < 2 ^ h) by (apply Z.pow_pos_nonneg; lia).
  rewrite Z.shiftr_div_pow2, Z.shiftl_mul_pow2 by lia.
  exists (z / 2 ^ h * 2 ^ h). repeat split; try lia.
  - pose proof (Z.div_pos z (2 ^ h)). lia.
  - apply Z.mod_mul. lia.
  - assert (z / 2 ^ h < 2 ^ bits) as Hlt.
    { apply Z.div_lt_upper_bound; [lia|]. rewrite <- Z.pow_add_r by lia.
      replace (h + bits) with 32 by lia. lia. }
    replace (2 ^ 32) with (2 ^ bits * 2 ^ h) by (rewrite <- Z.pow_add_r by lia; f_equal; lia). nia.
Qed.

Definition octet_ok (b : Z) : bool :=
  match parse_octet (itoa b) with Some v => v =? b | None => false end && lacks dot (itoa b)
    && negb (String.eqb (itoa b) EmptyString) && string_forall is_digit (itoa b).

Lemma octets_ok : forallb octet_ok (Z.of_nat <$> seq 0 256) = true.
Proof. vm_compute. reflexivity. Qed.

Lemma octet_spec b :
  0 ≤ b < 256 →
  parse_octet (itoa b) = Some b ∧ lacks dot (itoa b) = true ∧ string_forall is_digit (itoa b) = true.
Proof.
  intros Hb. pose proof octets_ok as H. rewrite forallb_forall in H.
  specialize (H b). unfold octet_ok in H.
  rewrite !andb_true_iff in H.
  destruct H as [[[Hp Hl] _] Hd].
  - apply in_map_iff. exists (Z.to_nat b). rewrite in_seq. lia.
  - destruct (parse_octet (itoa b)) as [v|]; [|done]. apply Z.eqb_eq in Hp. by subst.
Qed.

Lemma first_sep_digits s1 s2 :
  string_forall is_digit s1 = true → first_sep (s1 +:+ String dot s2) = Some dot.
Proof.
  induction s1 as [|c s IH]; simpl; [done|]. intros [Hc Hs]%andb_true_iff.
  assert (Ascii.eqb c dot || Ascii.eqb c ":" || Ascii.eqb c "%" = false) as ->; [|by apply IH].
  rewrite !orb_false_iff, !Ascii.eqb_neq. repeat split; intros ->; vm_compute in Hc; done.
Qed.

Lemma As4_bytes z : 0 ≤ z < 2 ^ 32 →
  ∃ b0 b1 b2 b3, As4 z = [b0; b1; b2; b3] ∧ AddrFrom4 b0 b1 b2 b3 = Addr4 z ∧
    0 ≤ b0 < 256 ∧ 0 ≤ b1 < 256 ∧ 0 ≤ b2 < 256 ∧ 0 ≤ b3 < 256.
Proof.
  intros Hz. unfold As4, AddrFrom4. do 4 eexists. split; [done|].
  change 255 with (Z.ones 8). rewrite !Z.land_ones, !Z.shiftr_div_pow2 by lia.
  change (2 ^ 8) with 256. change (2 ^ 24) with 16777216. change (2 ^ 16) with 65536.
  repeat split; try (apply Z.mod_pos_bound; lia). apply (f_equal Addr4).
  replace 65536 with (256 * 256) by done. replace 16777216 with (256 * 256 * 256) by done.
  rewrite <- !Z.div_div by lia.
  pose proof (Z.div_mod z 256). pose proof (Z.div_mod (z / 256) 256).
  pose proof (Z.div_mod (z / 256 / 256) 256).
  rewrite (Z.mod_small (z / 256 / 256 / 256)); [lia|].
  rewrite !Z.div_div by lia. split; [by apply Z.div_pos; lia|]. apply Z.div_lt_upper_bound; lia.
Qed.

(** Printing an IPv4 address and parsing it back. *)
Lemma ParseAddr_String4 parse6 z :
  0 ≤ z < 2 ^ 32 → ParseAddr parse6 (String4 z) = Some (Addr4 z).
Proof.
  intros Hz. destruct (As4_bytes z Hz) as (b0 & b1 & b2 & b3 & E & Ez & H0 & H1 & H2 & H3).
  unfold String4. rewrite E.
  destruct (octet_spec b0 H0) as (P0 & L0 & D0), (octet_spec b1 H1) as (P1 & L1 & _),
    (octet_spec b2 H2) as (P2 & L2 & _), (octet_spec b3 H3) as (P3 & L3 & _).
  unfold ParseAddr. rewrite first_sep_digits by done. simpl.
  unfold parseIPv4. rewrite !split_on_app, split_on_lacks by done. by rewrite P0, P1, P2, P3, Ez.
Qed.

Lemma String4_inj z1 z2 :
  0 ≤ z1 < 2 ^ 32 → 0 ≤ z2 < 2 ^ 32 → String4 z1 = String4 z2 → z1 = z2.
Proof.
  intros H1 H2 E. pose proof (ParseAddr_String4 (λ _, None) z1 H1) as P1.
  pose proof (ParseAddr_String4 (λ _, None) z2 H2) as P2. rewrite E in P1. congruence.
Qed.
