(* ===== verification/IPPool.v ===== *)
(** * VPN address pool ([internal/ippool/ippool.go])

    State, constructor and operations of [ippool.Pool]; the allocation sweep is total, and
    [Allocate] is complete: it fails only when no usable address is free. *)
From S2P Require Import Prelude Netip.
Open Scope Z_scope.

(** [Pool]. The two Go maps only ever hold [true]: they are sets. The mutex is not modelled, every
    operation runs under it. *)
Record Pool := mkPool {
  prefix : Prefix;
  reserved : gset Addr;
  used : gset Addr;
  next : Addr }.

#[export] Instance Pool_eta : Eta Pool := λ p, mkPool (prefix p) (reserved p) (used p) (next p).

(** [New] on a parsed prefix ([netip.ParsePrefix] rejects malformed text before that). *)
Definition New (pfx : Prefix) (res : list Addr) : Pool :=
  let pfx := Masked pfx in
  mkPool pfx (list_to_set res) ∅ (Next (pfx_addr pfx)).

(** [isBroadcast]: the source tests the host bits one by one on the four address bytes. *)
Definition host_bit (z : Z) (i : nat) : bool :=
  let byteIdx := (3 - i / 8)%nat in
  let bitIdx := (i mod 8)%nat in
  match As4 z !! byteIdx with
  | Some b => negb (Z.land b (Z.shiftl 1 (Z.of_nat bitIdx)) =? 0)
  | None => false
  end.

Definition isBroadcast (p : Pool) (a : Addr) : bool :=
  match a with
  | Addr4 z => forallb (host_bit z) (seq 0 (Z.to_nat (32 - pfx_bits (prefix p))))
  | _ => false
  end.

Definition usable (p : Pool) (a : Addr) : bool :=
  if negb (Contains (prefix p) a) then false
  else if decide (a = pfx_addr (prefix p)) then false
  else if isBroadcast p a then false
  else negb (bool_decide (a ∈ reserved p)).

(** Outcomes of [Allocate]: an address and the new pool, [ErrExhausted], or the run-time panic of a
    negative shift count ([1<<(32-bits)] with an IPv6 prefix longer than 32 bits). *)
Inductive alloc_outcome :=
| Allocated (a : Addr) (p : Pool)
| ErrExhausted
| NegativeShift
| OutOfFuel.

(** The address the loop body looks at: outside the prefix it wraps to the first host. *)
Definition wrap (p : Pool) (a : Addr) : Addr :=
  if negb (IsValid a) || negb (Contains (prefix p) a) then Next (pfx_addr (prefix p)) else a.

Definition free (p : Pool) (a : Addr) : bool := usable p a && negb (bool_decide (a ∈ used p)).

Definition sweep_bound (p : Pool) : Z := Z.shiftl 1 (32 - pfx_bits (prefix p)) + 1.

Fixpoint alloc_loop (fuel : nat) (i : Z) (p : Pool) (a : Addr) : alloc_outcome :=
  match fuel with
  | O => OutOfFuel
  | S fuel =>
      let a := wrap p a in
      if free p a then
        Allocated a (p <| used := {[a]} ∪ used p |> <| next := Next a |>)
      else
        let a := Next a in
        if 32 - pfx_bits (prefix p) <? 0 then NegativeShift
        else if i >? sweep_bound p then ErrExhausted
        else alloc_loop fuel (i + 1) p a
  end.

(** The loop runs for [i = 0 .. sweep_bound + 1]: that many iterations are enough fuel. *)
Definition sweep_fuel (p : Pool) : nat := Z.to_nat (sweep_bound p + 2).

Definition Allocate (p : Pool) : alloc_outcome := alloc_loop (sweep_fuel p) 0 p (next p).

Definition Release (p : Pool) (a : Addr) : Pool := p <| used := used p ∖ {[a]} |>.

Definition InUse (p : Pool) : nat := size (used p).

(** ** The sweep *)

Section pool4.
Context (p : Pool) (base : Z) (Hp : prefix4 (prefix p) base).
Let h := 32 - pfx_bits (prefix p).

Lemma host_size_pos : 0 < 2 ^ h.
Proof. destruct Hp as (_ & ? & _). apply Z.pow_pos_nonneg; lia. Qed.

Lemma wrap_inside z : base ≤ z < base + 2 ^ h → wrap p (Addr4 z) = Addr4 z.
Proof.
  intros Hz. unfold wrap. assert (Contains (prefix p) (Addr4 z) = true) as ->; [|done].
  apply (Contains4 _ _ _ Hp). eauto.
Qed.

Lemma wrap_outside a : Contains (prefix p) a = false → wrap p a = Next (Addr4 base).
Proof.
  intros Ha. unfold wrap. rewrite Ha. destruct Hp as [-> _]. by destruct (IsValid a).
Qed.

Lemma not_contains_Next_last : Contains (prefix p) (Next (Addr4 (base + 2 ^ h - 1))) = false.
Proof.
  apply not_true_is_false. rewrite (Contains4 _ _ _ Hp). intros (z & E & Hz).
  simpl in E. case_match; simplify_eq. fold h in Hz. lia.
Qed.

(** The [k]-th address the loop looks at, starting from cursor [a]. *)
Fixpoint visit (k : nat) (a : Addr) : Addr :=
  match k with
  | O => wrap p a
  | S k => visit k (Next (wrap p a))
  end.

Lemma visit_inside k z :
  base ≤ z → z + Z.of_nat k < base + 2 ^ h → visit k (Addr4 z) = Addr4 (z + Z.of_nat k).
Proof.
  revert z. induction k as [|k IH]; intros z Hz Hk; cbn [visit]; rewrite wrap_inside by lia.
  - by rewrite Z.add_0_r.
  - unfold Next. destruct Hp as (_ & _ & _ & _ & Hr). fold h in Hr.
    assert (z =? 2 ^ 32 - 1 = false) as -> by lia.
    rewrite IH by lia. f_equal. lia.
Qed.

Lemma visit_split j k a : visit (k + S j) a = visit j (Next (visit k a)).
Proof. revert a. induction k as [|k IH]; intros a; cbn [visit Nat.add]; [done|]. apply IH. Qed.

Lemma Next_base : 2 ≤ 2 ^ h → Next (Addr4 base) = Addr4 (base + 1).
Proof.
  intros Hh. destruct Hp as (_ & _ & _ & _ & Hr). fold h in Hr.
  unfold Next. assert (base =? 2 ^ 32 - 1 = false) as ->; [lia|done].
Qed.

Lemma visit_outside k a :
  Contains (prefix p) a = false → base + 1 + Z.of_nat k < base + 2 ^ h →
  visit k a = Addr4 (base + 1 + Z.of_nat k).
Proof.
  intros Ha Hk. rewrite <- visit_inside by lia.
  destruct k as [|k]; cbn [visit]; by rewrite wrap_outside, Next_base, wrap_inside by (done || lia).
Qed.

(** Every host address is visited before the loop gives up, wherever the cursor is. *)
Lemma visit_covers t a :
  base < t < base + 2 ^ h → ∃ k, Z.of_nat k ≤ 2 ^ h ∧ visit k a = Addr4 t.
Proof.
  intros Ht. destruct (Contains (prefix p) a) eqn:Ha.
  - apply (Contains4 _ _ _ Hp) in Ha as (z & -> & Hz). fold h in Hz.
    destruct (decide (z ≤ t)).
    + exists (Z.to_nat (t - z)). split; [lia|]. rewrite visit_inside by lia. f_equal; lia.
    + exists (Z.to_nat (base + 2 ^ h - 1 - z) + S (Z.to_nat (t - base - 1)))%nat.
      split; [lia|]. rewrite visit_split, visit_inside by lia.
      replace (z + Z.of_nat (Z.to_nat (base + 2 ^ h - 1 - z))) with (base + 2 ^ h - 1) by lia.
      rewrite visit_outside by (apply not_contains_Next_last || lia). f_equal; lia.
  - exists (Z.to_nat (t - base - 1)). split; [lia|].
    rewrite visit_outside by (done || lia). f_equal; lia.
Qed.

(** The loop either allocates a visited free address or has looked at every address up to the
    bound in vain. *)
Lemma alloc_loop_spec fuel i a :
  0 ≤ i → (Z.to_nat (sweep_bound p + 2 - i) ≤ fuel)%nat → i ≤ sweep_bound p + 1 →
  (∃ b, free p b = true ∧
     alloc_loop fuel i p a = Allocated b (p <| used := {[b]} ∪ used p |> <| next := Next b |>)) ∨
  (alloc_loop fuel i p a = ErrExhausted ∧
     ∀ k, i + Z.of_nat k ≤ sweep_bound p + 1 → free p (visit k a) = false).
Proof.
  revert i a. induction fuel as [|fuel IH]; intros i a Hi Hf Hb; [lia|]. cbn [alloc_loop].
  destruct (free p (wrap p a)) eqn:Hfr; [left; eauto|].
  assert (32 - pfx_bits (prefix p) <? 0 = false) as ->.
  { destruct Hp as (_ & ? & _). lia. }
  destruct (i >? sweep_bound p) eqn:Hgt.
  - right. split; [done|]. intros k Hk. assert (k = 0%nat) as -> by lia. done.
  - destruct (IH (i + 1) (Next (wrap p a))) as [(b & Hb1 & Hb2)|[He Hall]]; [lia..| |].
    + left. eauto.
    + right. split; [done|]. intros [|k] Hk; [done|]. cbn [visit]. apply Hall. lia.
Qed.

Lemma sweep_bound_eq : sweep_bound p = 2 ^ h + 1.
Proof. unfold sweep_bound. destruct Hp as (_ & ? & _). by rewrite Z.shiftl_1_l. Qed.

Lemma usable_host a : usable p a = true → ∃ z, a = Addr4 z ∧ base < z < base + 2 ^ h.
Proof.
  unfold usable. destruct (Contains (prefix p) a) eqn:Hc; [|done]. simpl.
  apply (Contains4 _ _ _ Hp) in Hc as (z & -> & Hz). fold h in Hz.
  destruct Hp as [-> _]. case_decide as Hne; [done|]. intros _. exists z. split; [done|].
  assert (z ≠ base) by (intros ->; done). lia.
Qed.

Lemma Allocate_cases :
  (∃ b, free p b = true ∧
     Allocate p = Allocated b (p <| used := {[b]} ∪ used p |> <| next := Next b |>)) ∨
  (Allocate p = ErrExhausted ∧ ∀ a, free p a = false).
Proof.
  pose proof sweep_bound_eq as Hs. pose proof host_size_pos.
  destruct (alloc_loop_spec (sweep_fuel p) 0 (next p)) as [?|[He Hall]];
    [lia|unfold sweep_fuel; lia|lia|by left|].
  right. split; [done|]. intros a. apply not_true_is_false. intros Hf.
  assert (usable p a = true) as Hu by (unfold free in Hf; by destruct (usable p a)).
  apply usable_host in Hu as (z & -> & Hz).
  destruct (visit_covers z (next p) Hz) as (k & Hk & Hv).
  rewrite <- Hv, Hall in Hf; [done|lia].
Qed.
End pool4.

(** ** Usable addresses are the hosts of the prefix *)

Lemma land_shiftl1 b k : 0 ≤ k → negb (Z.land b (Z.shiftl 1 k) =? 0) = Z.testbit b k.
Proof.
  intros Hk. rewrite Z.shiftl_1_l. destruct (Z.testbit b k) eqn:Hb.
  - apply negb_true_iff, Z.eqb_neq. intros E.
    assert (Z.testbit (Z.land b (2 ^ k)) k = false) as Ht by (by rewrite E, Z.bits_0).
    rewrite Z.land_spec, Hb, Z.pow2_bits_true in Ht by done. done.
  - apply negb_false_iff, Z.eqb_eq, Z.bits_inj'. intros i Hi.
    rewrite Z.land_spec, Z.bits_0. destruct (decide (i = k)) as [->|Hne]; [by rewrite Hb|].
    rewrite (Z.pow2_bits_false k i) by done. apply andb_false_r.
Qed.

Lemma As4_lookup z j :
  (j < 4)%nat → As4 z !! (3 - j)%nat = Some (Z.land (Z.shiftr z (8 * Z.of_nat j)) 255).
Proof. intros Hj. do 4 (destruct j as [|j]; [by rewrite ?Z.shiftr_0_r|]). lia. Qed.

Lemma host_bit_testbit z i : (i < 32)%nat → host_bit z i = Z.testbit z (Z.of_nat i).
Proof.
  intros Hi. unfold host_bit.
  assert (i / 8 < 4)%nat as Hj by (apply Nat.Div0.div_lt_upper_bound; lia).
  rewrite As4_lookup by done. rewrite land_shiftl1 by lia.
  pose proof (Nat.mod_upper_bound i 8). change 255 with (Z.ones 8).
  rewrite Z.land_spec, Z.ones_spec_low, andb_true_r, Z.shiftr_spec by lia.
  f_equal. pose proof (Nat.div_mod_eq i 8). lia.
Qed.

Lemma low_bits_all_set z h :
  0 ≤ h → (∀ i, 0 ≤ i < h → Z.testbit z i = true) ↔ z mod 2 ^ h = 2 ^ h - 1.
Proof.
  intros Hh. assert (2 ^ h - 1 = Z.ones h) as -> by (rewrite Z.ones_equiv; lia).
  rewrite <- Z.land_ones by done. split.
  - intros Hall. apply Z.bits_inj'. intros i Hi. rewrite Z.land_spec.
    destruct (decide (i < h)).
    + by rewrite Z.ones_spec_low, Hall by lia.
    + by rewrite Z.ones_spec_high, andb_false_r by lia.
  - intros E i Hi. assert (Z.testbit (Z.land z (Z.ones h)) i = true) as Ht.
    { rewrite E. apply Z.ones_spec_low. lia. }
    by rewrite Z.land_spec, Z.ones_spec_low, andb_true_r in Ht by lia.
Qed.

(** What may be handed out: strictly between the network and the broadcast address, not reserved. *)
Definition is_host (p : Pool) (base : Z) (a : Addr) : Prop :=
  ∃ z, a = Addr4 z ∧ base < z < base + 2 ^ (32 - pfx_bits (prefix p)) - 1 ∧ a ∉ reserved p.

Lemma isBroadcast_iff p base z :
  prefix4 (prefix p) base → base ≤ z < base + 2 ^ (32 - pfx_bits (prefix p)) →
  isBroadcast p (Addr4 z) = true ↔ z = base + 2 ^ (32 - pfx_bits (prefix p)) - 1.
Proof.
  intros (_ & Hb & _ & Hm & _) Hz. set (h := 32 - pfx_bits (prefix p)) in *.
  assert (0 < 2 ^ h) by (apply Z.pow_pos_nonneg; lia).
  assert (z mod 2 ^ h = z - base) as Hmod.
  { symmetry. apply (Z.mod_unique_pos _ _ (base / 2 ^ h)); [lia|].
    pose proof (Z.div_mod base (2 ^ h)). lia. }
  unfold isBroadcast. fold h. rewrite forallb_forall.
  transitivity (∀ i, 0 ≤ i < h → Z.testbit z i = true).
  - split; intros Hall i Hi.
    + rewrite <- (Z2Nat.id i), <- host_bit_testbit by lia. apply Hall, in_seq. lia.
    + apply in_seq in Hi. rewrite host_bit_testbit by lia. apply Hall. lia.
  - rewrite low_bits_all_set, Hmod by lia. lia.
Qed.

Lemma usable_iff p base a :
  prefix4 (prefix p) base → usable p a = true ↔ is_host p base a.
Proof.
  intros Hp. unfold is_host. split.
  - intros Hu. destruct (usable_host p base Hp a Hu) as (z & -> & Hz). exists z. split; [done|].
    unfold usable in Hu. destruct (Contains (prefix p) (Addr4 z)) eqn:Hc; [|done]. cbn [negb] in Hu.
    destruct (decide _); [done|]. destruct (isBroadcast p (Addr4 z)) eqn:Hbr; [done|].
    apply negb_true_iff, bool_decide_eq_false in Hu.
    assert (z ≠ base + 2 ^ (32 - pfx_bits (prefix p)) - 1) as Hne.
    { intros E. apply (isBroadcast_iff p base z Hp) in E; [congruence|lia]. }
    split; [lia|done].
  - intros (z & -> & Hz & Hr). unfold usable.
    assert (Contains (prefix p) (Addr4 z) = true) as ->.
    { apply (Contains4 _ _ _ Hp). exists z. split; [done|lia]. }
    cbn [negb]. rewrite decide_False.
    2: { destruct Hp as [-> _]. intros [=]. lia. }
    assert (isBroadcast p (Addr4 z) = false) as ->.
    { apply not_true_is_false. rewrite (isBroadcast_iff p base z Hp) by lia. lia. }
    by rewrite bool_decide_eq_false_2.
Qed.

(** ** Reachable pools *)

(** The state changes of a pool: a successful allocation, a release. *)
Inductive pool_step : Pool → Pool → Prop :=
| step_allocate p a p' : Allocate p = Allocated a p' → pool_step p p'
| step_release p a : pool_step p (Release p a).

Definition pool_inv (base : Z) (p : Pool) : Prop :=
  prefix4 (prefix p) base ∧ ∀ a, a ∈ used p → is_host p base a.

Lemma pool_step_inv base p p' : pool_inv base p → pool_step p p' → pool_inv base p'.
Proof.
  intros [Hp Hu] Hs. destruct Hs as [p a p' Ha|p a].
  - destruct (Allocate_cases p base Hp) as [(b & Hb & Hal)|[Hal _]]; rewrite Hal in Ha; [|done].
    injection Ha as <- <-. split; [done|]. simpl. intros c [->%elem_of_singleton|Hc]%elem_of_union; [|by apply Hu].
    apply andb_true_iff in Hb as [Hb _]. by apply (usable_iff p base b Hp) in Hb.
  - split; [done|]. simpl. intros c Hc. apply Hu. set_solver.
Qed.

Lemma pool_reach_inv base p p' : pool_inv base p → rtc pool_step p p' → pool_inv base p'.
Proof. intros Hi Hs. induction Hs; eauto using pool_step_inv. Qed.

Lemma New_inv z bits res :
  0 ≤ z < 2 ^ 32 → 0 ≤ bits ≤ 32 → ∃ base, pool_inv base (New (mkPrefix (Addr4 z) bits) res).
Proof.
  intros Hz Hb. destruct (Masked_prefix4 z bits Hz Hb) as (base & Hp & _).
  exists base. split; [done|]. simpl. set_solver.
Qed.

(** ** What the pool promises to the broker *)

Class AddressPool (P : Type) := {
  pool_allocate : P → option (Addr * P);
  pool_release : P → Addr → P;
  pool_used : P → gset Addr;
  pool_allocate_used p a p' :
    pool_allocate p = Some (a, p') → a ∉ pool_used p ∧ pool_used p' = {[a]} ∪ pool_used p;
  pool_release_used p a : pool_used (pool_release p a) = pool_used p ∖ {[a]}
}.

Lemma alloc_loop_allocated fuel i p c a p' :
  alloc_loop fuel i p c = Allocated a p' → a ∉ used p ∧ used p' = {[a]} ∪ used p.
Proof.
  revert i c. induction fuel as [|fuel IH]; intros i c; [done|]. simpl.
  destruct (free p (wrap p c)) eqn:Ef.
  - intros [= <- <-]. simpl. unfold free in Ef. apply andb_true_iff in Ef as [_ Ef].
    apply negb_true_iff, bool_decide_eq_false in Ef. done.
  - repeat case_match; try done; eauto.
Qed.

(** [Allocate] seen by a caller that only distinguishes an address from an error. *)
#[export, refine] Instance ippool_AddressPool : AddressPool Pool := {
  pool_allocate p := match Allocate p with Allocated a p' => Some (a, p') | _ => None end;
  pool_release := Release;
  pool_used := used
}.
Proof.
  - intros p a p'. destruct (Allocate p) eqn:E; try done. intros [= <- <-].
    by apply (alloc_loop_allocated _ _ _ _ _ _ E).
  - done.
Defined.

(** ** Properties *)

(** C26. [Allocate] is sound and complete on IPv4 pools: it always returns, with an address of the
    pool that was free and is now recorded as used, or with [ErrExhausted], and the latter only when
    every host address of the prefix (not the network, not the broadcast, not a reserved address) is
    in use. *)
Theorem allocate_sound_complete (p : Pool) (base : Z) :
  prefix4 (prefix p) base →
  match Allocate p with
  | Allocated a p' =>
      is_host p base a ∧ a ∉ used p ∧ used p' = {[a]} ∪ used p ∧
      prefix p' = prefix p ∧ reserved p' = reserved p ∧ next p' = Next a
  | ErrExhausted => ∀ a, is_host p base a → a ∈ used p
  | NegativeShift | OutOfFuel => False
  end.
Proof.
  intros Hp. destruct (Allocate_cases p base Hp) as [(b & Hb & ->)|[-> Hall]].
  - apply andb_true_iff in Hb as [Hu Hn]. apply negb_true_iff, bool_decide_eq_false in Hn.
    by apply (usable_iff p base b Hp) in Hu.
  - intros a Ha. specialize (Hall a). apply (usable_iff p base a Hp) in Ha.
    unfold free in Hall. rewrite Ha in Hall. simpl in Hall.
    by apply negb_false_iff, bool_decide_eq_true in Hall.
Qed.

(** The broker's pool: [10.99.0.0/24] with the gateway [10.99.0.1] reserved. *)
Definition vpn_pool : Pool := New (mkPrefix (AddrFrom4 10 99 0 0) 24) [AddrFrom4 10 99 0 1].

Lemma vpn_pool_prefix4 : prefix4 (prefix vpn_pool) 174260224.
Proof. repeat split; done || (vm_compute; congruence). Qed.

Lemma allocate_sound_complete_witness :
  ∃ p', Allocate vpn_pool = Allocated (AddrFrom4 10 99 0 2) p' ∧
        is_host vpn_pool 174260224 (AddrFrom4 10 99 0 2).
Proof.
  pose proof (allocate_sound_complete vpn_pool 174260224 vpn_pool_prefix4) as H.
  eexists. split; [vm_compute; reflexivity|].
  assert (∃ q, Allocate vpn_pool = Allocated (AddrFrom4 10 99 0 2) q) as [q Hq]
    by (eexists; vm_compute; reflexivity).
  rewrite Hq in H. apply H.
Defined.

(** Whatever the sequence of allocations and releases since [New], the addresses in use are host
    addresses of the prefix: the network address, the broadcast address and the reserved gateway are
    never handed out. *)
Theorem pool_hands_out_hosts_only (z bits : Z) (res : list Addr) (p : Pool) (a : Addr) :
  0 ≤ z < 2 ^ 32 → 0 ≤ bits ≤ 32 →
  rtc pool_step (New (mkPrefix (Addr4 z) bits) res) p → a ∈ used p →
  usable p a = true ∧ a ∉ reserved p ∧ a ≠ pfx_addr (prefix p) ∧ isBroadcast p a = false.
Proof.
  intros Hz Hb Hs Ha. destruct (New_inv z bits res Hz Hb) as [base Hi].
  destruct (pool_reach_inv base _ p Hi Hs) as [Hp Hu]. pose proof (Hu a Ha) as Hh.
  apply (usable_iff p base a Hp) in Hh as Hus. split; [done|].
  destruct Hh as (y & -> & Hy & Hr). split; [done|].
  split; [destruct Hp as [-> _]; intros [=]; lia|].
  apply not_true_is_false. rewrite (isBroadcast_iff p base y Hp) by lia. lia.
Qed.

Lemma pool_hands_out_hosts_only_witness :
  ∃ p, used p = {[AddrFrom4 10 99 0 2]} ∧ usable p (AddrFrom4 10 99 0 2) = true.
Proof.
  destruct (Allocate vpn_pool) as [a p| | |] eqn:E; try (vm_compute in E; done).
  assert (rtc pool_step vpn_pool p) as Hs by (eapply rtc_once, step_allocate, E).
  assert (used p = {[AddrFrom4 10 99 0 2]}) as Hu by (vm_compute in E; by injection E as <- <-).
  exists p. split; [done|].
  destruct (pool_hands_out_hosts_only 174260224 24 [AddrFrom4 10 99 0 1] p (AddrFrom4 10 99 0 2));
    [lia|lia|exact Hs|rewrite Hu; set_solver|done].
Defined.

(** Addresses are reclaimed: once an address in use is released the next allocation succeeds,
    whatever else is allocated (an exhausted pool recovers). *)
Theorem release_makes_room (base : Z) (p : Pool) (a : Addr) :
  pool_inv base p → a ∈ used p → ∃ b p', Allocate (Release p a) = Allocated b p'.
Proof.
  intros [Hp Hu] Ha. destruct (Allocate_cases (Release p a) base Hp) as [(b & _ & ->)|[_ Hall]]; [eauto|].
  specialize (Hall a). pose proof (Hu a Ha) as Hh. apply (usable_iff p base a Hp) in Hh.
  unfold free in Hall. change (usable (Release p a) a) with (usable p a) in Hall.
  rewrite Hh in Hall. simpl in Hall. apply negb_false_iff, bool_decide_eq_true in Hall. set_solver.
Qed.

Lemma release_makes_room_witness :
  ∃ b p', Allocate (Release (vpn_pool <| used := {[AddrFrom4 10 99 0 2]} |>) (AddrFrom4 10 99 0 2))
          = Allocated b p'.
Proof.
  apply (release_makes_room 174260224 (vpn_pool <| used := {[AddrFrom4 10 99 0 2]} |>)
           (AddrFrom4 10 99 0 2)); [|simpl; set_solver].
  split; [exact vpn_pool_prefix4|]. simpl. intros a ->%elem_of_singleton.
  exists 174260226. split; [done|]. split; [split; done|]. simpl.
  rewrite elem_of_union, elem_of_singleton. intros [[=]|?]; set_solver.
Defined.
