(* ===== verification/DirectPath.v ===== *)
(** * Direct-path policy and migration state machine ([internal/directpath]) *)
From S2P Require Import Prelude.
Open Scope Z_scope.

(** ** [decision.go] *)

(** NAT classes. In the source a [NATType] is a string: [NATOther] is any string that is not one of
    the five constants. *)
Inductive NATType :=
| NATFullCone | NATRestrictedCone | NATPortRestricted | NATSymmetric | NATUnknown
| NATOther (s : string).

#[export] Instance NATType_eq_dec : EqDecision NATType.
Proof. solve_decision. Defined.

Inductive Mode := ModeAuto | ModeDirect | ModeRelay | ModeOther (s : string).

Record Decision := mkDecision {
  AttemptDirect : bool; AllowFallback : bool; DecidedMode : Mode; Reason : string }.

Definition punchable (a b : NATType) : bool :=
  if bool_decide (a = NATFullCone) || bool_decide (b = NATFullCone) then true
  else if bool_decide (a = NATSymmetric) && bool_decide (b = NATSymmetric) then false
  else
    let hard t := bool_decide (t = NATSymmetric) in
    let mediumOrHard t :=
      bool_decide (t = NATSymmetric) || bool_decide (t = NATRestrictedCone)
      || bool_decide (t = NATPortRestricted) in
    if (hard a && mediumOrHard b) || (hard b && mediumOrHard a) then false else true.

Definition Decide (requested : Mode) (natA natC : NATType) : Decision :=
  match requested with
  | ModeRelay => mkDecision false false ModeRelay "relay requested"
  | ModeDirect => mkDecision true false ModeRelay "direct requested (no fallback)"
  | _ =>
      if bool_decide (natA = NATUnknown) || bool_decide (natC = NATUnknown) then
        mkDecision true true ModeRelay "unknown NAT: attempt direct, fall back to relay"
      else if punchable natA natC then
        mkDecision true true ModeRelay "NAT pair punchable: attempt direct"
      else mkDecision false false ModeRelay "NAT pair not punchable (symmetric): relay"
  end.

(** ** [state.go] *)

Inductive PathState := StateNew | StateRelaying | StateChecking | StateDirect | StateClosed.

Inductive Event :=
| EvStartRelay | EvBeginChecks | EvDirectEstablished | EvChecksFailed | EvDirectLost | EvClose.

#[export] Instance PathState_eq_dec : EqDecision PathState.
Proof. solve_decision. Defined.
#[export] Instance Event_eq_dec : EqDecision Event.
Proof. solve_decision. Defined.

(** The allowed state graph; anything not listed is rejected. *)
Definition transitions (s : PathState) (ev : Event) : option PathState :=
  match s, ev with
  | StateNew, EvStartRelay => Some StateRelaying
  | StateNew, EvClose => Some StateClosed
  | StateRelaying, EvBeginChecks => Some StateChecking
  | StateRelaying, EvClose => Some StateClosed
  | StateChecking, EvDirectEstablished => Some StateDirect
  | StateChecking, EvChecksFailed => Some StateRelaying
  | StateChecking, EvClose => Some StateClosed
  | StateDirect, EvDirectLost => Some StateRelaying
  | StateDirect, EvClose => Some StateClosed
  | _, _ => None
  end.

Record ErrInvalidTransition := mkInvalid { inv_From : PathState; inv_Event : Event }.

(** [Machine.Fire]: the returned state and error, and the machine's state afterwards. *)
Definition Fire (state : PathState) (ev : Event)
  : PathState * option ErrInvalidTransition * PathState :=
  match transitions state ev with
  | None => (state, Some (mkInvalid state ev), state)
  | Some nxt => (nxt, None, nxt)
  end.

Definition NewMachine : PathState := StateNew.

Definition IsTerminal (state : PathState) : bool := bool_decide (state = StateClosed).

(** A run of the machine: events that are rejected leave the state as it is. *)
Definition fire_all (s : PathState) (evs : list Event) : PathState :=
  foldl (λ s ev, snd (Fire s ev)) s evs.

(** ** Lemmas *)

Lemma fire_all_snoc s evs ev : fire_all s (evs ++ [ev]) = snd (Fire (fire_all s evs) ev).
Proof. unfold fire_all. by rewrite foldl_snoc. Qed.

Lemma fire_into_direct s ev : snd (Fire s ev) = StateDirect → 
  s = StateDirect ∨ (s = StateChecking ∧ ev = EvDirectEstablished).
Proof. destruct s, ev; simpl; naive_solver. Qed.

Lemma closed_absorbs evs : fire_all StateClosed evs = StateClosed.
Proof. induction evs as [|ev evs IH] using rev_ind; [done|]. rewrite fire_all_snoc, IH. by destruct ev. Qed.

(** ** Properties *)

(** The connection policy, complete: a session always bootstraps on the relay; an explicit
    relay request never attempts a direct path and an explicit direct request always does, without
    fallback; otherwise a direct path is attempted, with fallback, unless one side is symmetric and
    the other symmetric, restricted or port-restricted. *)
Theorem decide_policy (m : Mode) (a c : NATType) :
  let d := Decide m a c in
  let unpunchable x y := x = NATSymmetric ∧ (y = NATSymmetric ∨ y = NATRestrictedCone ∨ y = NATPortRestricted) in
  DecidedMode d = ModeRelay ∧
  (AttemptDirect d = true ↔
     m ≠ ModeRelay ∧ (m = ModeDirect ∨ ¬ (unpunchable a c ∨ unpunchable c a))) ∧
  (AllowFallback d = true ↔ AttemptDirect d = true ∧ m ≠ ModeDirect) ∧
  Decide m a c = Decide m c a.
Proof. destruct m, a, c; cbn; repeat split; try done; naive_solver. Qed.

(** The machine is on the direct path only after its connectivity checks succeeded, and stays
    closed once closed: a run that ends in [StateDirect] splits at a [StateChecking] state from which
    [EvDirectEstablished] fired with nothing but rejected events after it, and a run that closes at
    any point ends closed. *)
Theorem direct_only_after_checks (evs : list Event) :
  (fire_all NewMachine evs = StateDirect →
   ∃ l r, evs = l ++ EvDirectEstablished :: r ∧ fire_all NewMachine l = StateChecking ∧
          Forall (λ ev, transitions StateDirect ev = None) r) ∧
  (∀ l r, evs = l ++ EvClose :: r → IsTerminal (fire_all NewMachine evs) = true).
Proof.
  split.
  - induction evs as [|ev evs IH] using rev_ind; [done|]. rewrite fire_all_snoc. intros Hd.
    destruct (fire_into_direct _ _ Hd) as [Hs|[Hs ->]].
    + destruct (IH Hs) as (l & r & -> & Hl & Hr). exists l, (r ++ [ev]).
      rewrite <- app_assoc. repeat split; [done|]. apply Forall_app. split; [done|].
      apply Forall_singleton. rewrite Hs in Hd. unfold Fire in Hd. by destruct ev.
    + exists evs, []. done.
  - intros l r ->. rewrite cons_middle, app_assoc. unfold fire_all. rewrite foldl_app.
    fold (fire_all NewMachine (l ++ [EvClose])). rewrite fire_all_snoc.
    assert (snd (Fire (fire_all NewMachine l) EvClose) = StateClosed) as ->
      by (by destruct (fire_all NewMachine l)).
    fold (fire_all StateClosed r). by rewrite closed_absorbs.
Qed.
