(* ===== verification/AdminAPI.v ===== *)
(** * Package internal/adminapi: the data the admin API exchanges

    Field by field the Go structs; a prefix keeps the fields of different structs apart.  Optional
    JSON fields are plain fields here, as in Go; pointer fields are options. *)
From S2P Require Import Prelude Float64 GoTime.

Open Scope Z_scope.

Definition UserEnabled : string := "enabled".
Definition UserDisabled : string := "disabled".

Definition NodeOnline : string := "online".
Definition NodeDraining : string := "draining".
Definition NodeDown : string := "down".

Record User := mkUser {
  u_ID : string;
  u_Username : string;
  u_AllowedRegions : list string;
  u_Status : string;
  u_ActiveSessionCount : Z;
  u_CreatedAt : Time;
  u_UpdatedAt : Time
}.
#[export] Instance User_eta : Eta User :=
  λ r, mkUser (u_ID r) (u_Username r) (u_AllowedRegions r) (u_Status r) (u_ActiveSessionCount r)
              (u_CreatedAt r) (u_UpdatedAt r).

Record UserCreate := mkUserCreate {
  uc_Username : string;
  uc_Credential : string;
  uc_AllowedRegions : list string;
  uc_Status : string
}.

(** Nil fields are left unchanged. *)
Record UserUpdate := mkUserUpdate {
  uu_AllowedRegions : option (list string);
  uu_Status : option string;
  uu_Credential : option string
}.

Record Region := mkRegion {
  rg_Code : string;
  rg_Name : string;
  rg_NodeCount : Z;
  rg_OnlineNodes : Z;
  rg_ActiveUsers : Z
}.

Record DeviceConfigSummary := mkDeviceConfigSummary {
  dc_Region : string;
  dc_Capacity : Z;
  dc_VPNType : string;
  dc_DataplaneMode : string;
  dc_UplinkIface : string;
  dc_Version : string
}.

Record DeviceView := mkDeviceView {
  dv_NodeID : string;
  dv_Name : string;
  dv_Region : string;
  dv_Status : string;
  dv_Version : string;
  dv_NATType : string;
  dv_System : string;
  dv_PublicAddr : string;
  dv_Capacity : Z;
  dv_ActiveUsers : Z;
  dv_LoadPct : f64;
  dv_CPUPct : f64;
  dv_MemPct : f64;
  dv_DiskPct : f64;
  dv_ThroughputBps : f64;
  dv_RTTms : Z;
  dv_ConnectedAt : Time;
  dv_LastSeen : Time;
  dv_Config : DeviceConfigSummary
}.
#[export] Instance DeviceView_eta : Eta DeviceView :=
  λ r, mkDeviceView (dv_NodeID r) (dv_Name r) (dv_Region r) (dv_Status r) (dv_Version r) (dv_NATType r)
         (dv_System r) (dv_PublicAddr r) (dv_Capacity r) (dv_ActiveUsers r) (dv_LoadPct r) (dv_CPUPct r)
         (dv_MemPct r) (dv_DiskPct r) (dv_ThroughputBps r) (dv_RTTms r) (dv_ConnectedAt r) (dv_LastSeen r)
         (dv_Config r).

Record Session := mkSessionView {
  sv_SessionID : string;
  sv_UserID : string;
  sv_Username : string;
  sv_Name : string;
  sv_NodeID : string;
  sv_Region : string;
  sv_Mode : string;
  sv_State : string;
  sv_StartedAt : Time;
  sv_BytesUp : Z;
  sv_BytesDown : Z;
  sv_ThroughputBps : f64;
  sv_RTTms : Z;
  sv_Host : string;
  sv_TunName : string;
  sv_OS : string;
  sv_CPUPct : f64;
  sv_MemPct : f64;
  sv_DiskPct : f64
}.
#[export] Instance Session_eta : Eta Session :=
  λ r, mkSessionView (sv_SessionID r) (sv_UserID r) (sv_Username r) (sv_Name r) (sv_NodeID r) (sv_Region r)
         (sv_Mode r) (sv_State r) (sv_StartedAt r) (sv_BytesUp r) (sv_BytesDown r) (sv_ThroughputBps r)
         (sv_RTTms r) (sv_Host r) (sv_TunName r) (sv_OS r) (sv_CPUPct r) (sv_MemPct r) (sv_DiskPct r).

Inductive EventType :=
| EvSnapshot | EvNodeConnected | EvNodeUpdated | EvNodeDisconnected | EvSessionStarted | EvSessionEnded.

Record Snapshot := mkSnapshot {
  sn_Nodes : list DeviceView;
  sn_Sessions : list Session
}.

Record Event := mkEvent {
  ev_Type : EventType;
  ev_TS : Time;
  ev_Snapshot : option Snapshot;
  ev_Node : option DeviceView;
  ev_NodeID : string;
  ev_Session : option Session
}.
