(* ===== verification/RateLimit.v ===== *)
(** * Package internal/ratelimit: the token bucket

    [Bucket] is the Go struct without its mutex and its clock: the reading of the clock is an
    argument of [Allow], which returns the verdict and the updated bucket.  The receiver may be a nil
    pointer ([None]), as in a session without a limit. *)
From S2P Require Import Prelude Float64 FloatTheory GoTime.

Open Scope Z_scope.

Record Bucket := mkBucket {
  rate : f64;      (* bytes per second; <= 0 means unlimited *)
  burst : f64;     (* max bytes that can accumulate *)
  tokens : f64;
  last : Time
}.
#[export] Instance Bucket_eta : Eta Bucket :=
  λ r, mkBucket (rate r) (burst r) (tokens r) (last r).

Definition NewBucket (rate burst : f64) : Bucket :=
  let burst := if fltb burst rate then rate else burst in
  mkBucket rate burst burst 0.

(** The first call sets the baseline of the clock. *)
Definition baseline (now : Time) (b : Bucket) : Bucket :=
  if IsZero (last b) then b <| last := now |> else b.

(** Tokens earned since the last refill, capped at the burst. *)
Definition refill (now : Time) (b : Bucket) : Bucket :=
  let elapsed := Seconds (Sub now (last b)) in
  if fgtb elapsed f64_zero then
    let t := fadd (tokens b) (fmul elapsed (rate b)) in
    let t := if fgtb t (burst b) then burst b else t in
    b <| tokens := t |> <| last := now |>
  else b.

Definition Allow (ob : option Bucket) (now : Time) (n : Z) : bool * option Bucket :=
  match ob with
  | None => (true, None)
  | Some b =>
      if fleb (rate b) f64_zero then (true, Some b)
      else
        let b := refill now (baseline now b) in
        if fgeb (tokens b) (f64_of_Z n)
        then (true, Some (b <| tokens := fsub (tokens b) (f64_of_Z n) |>))
        else (false, Some b)
  end.

(** A run of calls: the verdicts in order, and the final bucket. *)
Fixpoint run (ob : option Bucket) (calls : list (Time * Z)) : list bool * option Bucket :=
  match calls with
  | [] => ([], ob)
  | (now, n) :: calls =>
      let '(ok, ob) := Allow ob now n in
      let '(oks, ob) := run ob calls in (ok :: oks, ob)
  end.

(** The bytes let through by a run with the given verdicts. *)
Fixpoint passed (oks : list bool) (calls : list (Time * Z)) : Z :=
  match oks, calls with
  | ok :: oks, (_, n) :: calls => (if ok : bool then n else 0) + passed oks calls
  | _, _ => 0
  end.

(** ** Invariant of a limiting bucket *)

Record limiting (b : Bucket) : Prop := {
  lim_rate_valid : f64_valid (rate b) = true;
  lim_rate_finite : finite (rate b) = true;
  lim_rate_pos : fltb f64_zero (rate b) = true;
  lim_burst_valid : f64_valid (burst b) = true;
  lim_burst_finite : finite (burst b) = true;
  lim_tokens_valid : f64_valid (tokens b) = true;
  lim_tokens_finite : finite (tokens b) = true;
  lim_tokens_range : 0 ≤ fval (tokens b) ≤ fval (burst b)
}.

Lemma fpos_fval x : finite x = true → f64_valid x = true → fltb f64_zero x = true → 0 < fval x.
Proof. intros F V. rewrite fltb_fval by done. apply Z.ltb_lt. Qed.

Lemma NewBucket_limiting r bu :
  f64_valid r = true → finite r = true → fltb f64_zero r = true →
  f64_valid bu = true → finite bu = true → limiting (NewBucket r bu).
Proof.
  intros Vr Fr Pr Vb Fb. pose proof (fpos_fval r Fr Vr Pr). unfold NewBucket.
  destruct (fltb bu r) eqn:E; constructor; simpl; try done; [lia|].
  rewrite fltb_fval in E by done. apply Z.ltb_ge in E. lia.
Qed.

Lemma baseline_limiting now b : limiting b → limiting (baseline now b).
Proof. unfold baseline. destruct (IsZero _); [|done]. by intros []. Qed.

Lemma fnonneg_of_fval x : finite x = true → f64_valid x = true → 0 ≤ fval x → fnonneg x = true.
Proof. intros F V H. unfold fnonneg. rewrite fleb_fval by done. by apply Z.leb_le. Qed.

Lemma fval_of_fnonneg x : finite x = true → f64_valid x = true → fnonneg x = true → 0 ≤ fval x.
Proof. intros F V. unfold fnonneg. rewrite fleb_fval by done. apply Z.leb_le. Qed.

(** A number that is neither above a finite bound nor negative is finite. *)
Lemma finite_below t bd :
  f64_valid t = true → fnonneg t = true → finite bd = true → f64_valid bd = true →
  fgtb t bd = false → finite t = true ∧ 0 ≤ fval t ≤ fval bd.
Proof.
  intros Vt Nt Fb Vb Hc. assert (finite t = true) as Ft.
  { apply fnonneg_cases in Nt as [[s ->]|[->|(m & e & ->)]]; try done.
    by destruct bd as [|? | |[]]. }
  unfold fgtb in Hc. rewrite fltb_fval in Hc by done. apply Z.ltb_ge in Hc.
  split; [done|]. split; [by apply fval_of_fnonneg|done].
Qed.

Lemma refill_limiting now b : limiting b → limiting (refill now b).
Proof.
  intros []. unfold refill. set (el := Seconds _). destruct (fgtb el f64_zero) eqn:E; [|done].
  set (t := fadd (tokens b) (fmul el (rate b))).
  assert (f64_valid t = true) as Vt by (unfold t, el; auto 6 with revquic).
  assert (fnonneg t = true) as Nt.
  { apply fadd_nonneg; [apply fnonneg_of_fval; [done|done|lia]|]. apply fmul_nonneg; try done. apply Seconds_valid. }
  destruct (fgtb t (burst b)) eqn:Ec; constructor; simpl; try done; [lia|..];
    by destruct (finite_below t (burst b)) as (? & ? & ?).
Qed.

Lemma Allow_limiting b now n :
  limiting b → 0 ≤ n →
  ∃ ok b', Allow (Some b) now n = (ok, Some b') ∧ limiting b' ∧ rate b' = rate b ∧ burst b' = burst b ∧
    (ok = true → fleb (f64_of_Z n) (burst b) = true).
Proof.
  intros Hl Hn. unfold Allow.
  assert (fleb (rate b) f64_zero = false) as ->.
  { destruct Hl. rewrite fleb_fval by done. apply Z.leb_gt. by apply fpos_fval. }
  set (b1 := refill now (baseline now b)).
  assert (limiting b1) as Hl1 by (by apply refill_limiting, baseline_limiting).
  assert (rate b1 = rate b ∧ burst b1 = burst b) as [Hr Hb].
  { unfold b1, refill, baseline. destruct (IsZero _), (fgtb _ _); done. }
  destruct (fgeb (tokens b1) (f64_of_Z n)) eqn:E; [|by exists false, b1].
  destruct Hl1. unfold fgeb in E.
  assert (fnonneg (f64_of_Z n) = true) as Nn by (by apply f64_of_Z_nonneg).
  destruct (fsub_below (tokens b1) (f64_of_Z n)) as (F & V & R); auto with revquic.
  eexists true, _. split; [done|]. split; [constructor; simpl; try done; lia|].
  split; [done|]. split; [done|]. intros _. rewrite <- Hb.
  assert (finite (f64_of_Z n) = true) as Fn.
  { apply fnonneg_cases in Nn as [[s ->]|[Hi|(m & e & ->)]]; try done.
    rewrite Hi in E. by destruct (tokens b1) as [|? | |[]]. }
  rewrite fleb_fval in E |- * by auto with revquic. apply Z.leb_le in E. apply Z.leb_le. lia.
Qed.

(** ** A burst at one instant *)

(** The bucket holds [k] whole bytes and its clock has not moved past [now]. *)
Definition holds (now : Time) (b : Bucket) (k : Z) : Prop :=
  limiting b ∧ fval (tokens b) = k * 2 ^ 1074 ∧ 0 ≤ k ≤ 2 ^ 53 ∧ (last b = 0 ∨ last b = now).

Lemma refill_frozen now b :
  last b = 0 ∨ last b = now → refill now (baseline now b) = b <| last := now |>.
Proof.
  intros Hl. assert (baseline now b = b <| last := now |>) as ->.
  { unfold baseline, IsZero. destruct (Z.eqb_spec (last b) 0); [done|].
    destruct Hl as [|Hl]; [done|]. destruct b. simpl in *. by subst. }
  unfold refill. simpl. rewrite Sub_same. done.
Qed.

Lemma Allow_frozen now b k n :
  holds now b k → 0 ≤ n ≤ 2 ^ 53 →
  ∃ ok b', Allow (Some b) now n = (ok, Some b') ∧ holds now b' (k - (if ok : bool then n else 0)).
Proof.
  intros (Hl & Hk & Hr & Hlast) Hn.
  destruct (Allow_limiting b now n Hl) as (ok & b' & E & Hl' & _); [lia|].
  exists ok, b'. split; [done|]. split; [done|]. revert E. unfold Allow.
  assert (fleb (rate b) f64_zero = false) as ->.
  { destruct Hl. rewrite fleb_fval by done. apply Z.leb_gt. by apply fpos_fval. }
  rewrite refill_frozen by done. destruct Hl. simpl tokens.
  destruct (f64_of_Z_exact n Hn) as (Fn & Vn & En).
  destruct (fgeb (tokens b) (f64_of_Z n)) eqn:E; intros [= <- <-]; simpl.
  - unfold fgeb in E. rewrite fleb_fval in E by done. apply Z.leb_le in E.
    rewrite Hk, En in E. apply Z.mul_le_mono_pos_r in E; [|done].
    rewrite (fsub_exact _ _ k n) by (done || lia). split; [done|]. split; [lia|by right].
  - rewrite Z.sub_0_r. split; [done|]. split; [lia|by right].
Qed.

Lemma run_frozen now calls b k :
  holds now b k → Forall (λ c, c.1 = now ∧ 0 ≤ c.2 ≤ 2 ^ 53) calls →
  passed (fst (run (Some b) calls)) calls ≤ k.
Proof.
  intros Hb Hc. revert b k Hb. induction Hc as [|[t n] calls [Ht Hn] _ IH]; intros b k Hb.
  { simpl. destruct Hb as (_ & _ & ? & _). lia. }
  simpl in Ht, Hn. subst t. destruct (Allow_frozen now b k n Hb Hn) as (ok & b' & E & Hb').
  cbn [run]. rewrite E. specialize (IH b' _ Hb'). destruct (run (Some b') calls) as [oks ob].
  simpl in *. lia.
Qed.

(** ** Properties *)

(** C27. The token bucket never goes into debt and never hoards: from a fresh bucket with a positive
    rate, after any calls at any clock readings, the tokens stay between zero and the burst (and are
    finite numbers, never NaN), and every packet let through is at most one burst long. *)
Theorem bucket_bounded r bu calls :
  f64_valid r = true → finite r = true → fltb f64_zero r = true →
  f64_valid bu = true → finite bu = true → Forall (λ c, 0 ≤ c.2) calls →
  let '(oks, ob) := run (Some (NewBucket r bu)) calls in
  (∃ b, ob = Some b ∧ finite (tokens b) = true ∧ fleb f64_zero (tokens b) = true ∧
        fleb (tokens b) (burst b) = true ∧ rate b = r ∧ burst b = burst (NewBucket r bu)) ∧
  Forall2 (λ ok c, ok = true → fleb (f64_of_Z c.2) (burst (NewBucket r bu)) = true) oks calls.
Proof.
  intros Vr Fr Pr Vb Fb Hc.
  assert (∀ b, limiting b → let '(oks, ob) := run (Some b) calls in
     (∃ b', ob = Some b' ∧ limiting b' ∧ rate b' = rate b ∧ burst b' = burst b) ∧
     Forall2 (λ ok c, ok = true → fleb (f64_of_Z c.2) (burst b) = true) oks calls) as Hrun.
  { clear -Hc. induction Hc as [|[now n] calls Hn _ IH]; intros b Hl; [simpl; eauto 10|].
    destruct (Allow_limiting b now n Hl Hn) as (ok & b' & E & Hl' & Hr & Hb & Hok).
    cbn [run]. rewrite E. specialize (IH b' Hl'). destruct (run (Some b') calls) as [oks ob].
    destruct IH as [(b'' & -> & ? & ? & ?) IH]. rewrite Hb in IH.
    split; [exists b''; split_and!; congruence|]. by constructor. }
  specialize (Hrun _ (NewBucket_limiting r bu Vr Fr Pr Vb Fb)).
  destruct (run _ calls) as [oks ob]. destruct Hrun as [(b & -> & [] & Hr & Hb) HF]. split; [|done].
  exists b. split_and!; try done; rewrite fleb_fval by done; apply Z.leb_le; [|lia].
  change (fval f64_zero) with 0. lia.
Qed.

Lemma bucket_bounded_witness :
  let '(oks, ob) := run (Some (NewBucket (f64_of_Z 1000) (f64_of_Z 500)))
                        [(5 * Second, 900); (5 * Second, 200); (6 * Second, 700)] in
  (∃ b, ob = Some b ∧ finite (tokens b) = true ∧ fleb f64_zero (tokens b) = true ∧
        fleb (tokens b) (burst b) = true ∧ rate b = f64_of_Z 1000 ∧
        burst b = burst (NewBucket (f64_of_Z 1000) (f64_of_Z 500))) ∧
  Forall2 (λ ok (c : Time * Z),
      ok = true → fleb (f64_of_Z c.2) (burst (NewBucket (f64_of_Z 1000) (f64_of_Z 500))) = true)
    oks [(5 * Second, 900); (5 * Second, 200); (6 * Second, 700)].
Proof.
  apply (bucket_bounded (f64_of_Z 1000) (f64_of_Z 500)
           [(5 * Second, 900); (5 * Second, 200); (6 * Second, 700)]);
    [reflexivity..|]. repeat constructor; simpl; lia.
Defined.

Example bucket_run_example :
  fst (run (Some (NewBucket (f64_of_Z 1000) (f64_of_Z 500)))
           [(5 * Second, 900); (5 * Second, 200); (6 * Second, 700)]) = [true; false; true].
Proof. vm_compute. reflexivity. Qed.

(** The burst is the cap on what one instant lets through: for a rate and a burst of whole bytes
    ([0 < R <= B <= 2^53]), any number of calls at one clock reading together pass at most [B] bytes.
    The float arithmetic loses nothing here. *)
Theorem burst_caps_an_instant R B now calls :
  0 < R ≤ B → B ≤ 2 ^ 53 → Forall (λ c, c.1 = now ∧ 0 ≤ c.2 ≤ 2 ^ 53) calls →
  passed (fst (run (Some (NewBucket (f64_of_Z R) (f64_of_Z B))) calls)) calls ≤ B.
Proof.
  intros HR HB Hc. destruct (f64_of_Z_exact R) as (FR & VR & ER); [lia|].
  destruct (f64_of_Z_exact B) as (FB & VB & EB); [lia|].
  assert (0 < 2 ^ 1074) as HU by done.
  apply (run_frozen now); [|done]. split; [|split; [|split; [lia|by left]]].
  - apply NewBucket_limiting; try done. rewrite fltb_fval by done. rewrite ER. apply Z.ltb_lt.
    change (fval f64_zero) with 0. nia.
  - unfold NewBucket. rewrite fltb_fval, ER, EB by done.
    destruct (Z.ltb_spec (B * 2 ^ 1074) (R * 2 ^ 1074)); [nia|done].
Qed.

Lemma burst_caps_an_instant_witness :
  passed (fst (run (Some (NewBucket (f64_of_Z 1000) (f64_of_Z 1500)))
                   [(7, 900); (7, 700); (7, 600); (7, 1)]))
         [(7, 900); (7, 700); (7, 600); (7, 1)] ≤ 1500.
Proof.
  apply (burst_caps_an_instant 1000 1500 7 [(7, 900); (7, 700); (7, 600); (7, 1)]); [lia|lia|].
  repeat constructor; simpl; lia.
Defined.
