(* ===== verification/Session.v ===== *)
(** * Package internal/session: one client's data path

    A session couples the path machine of [DirectPath] with the installed egress path and its
    counters.  [Conn] stands for the datagram senders (QUIC connections), [SendDatagram] for their
    one operation, with the world it acts on.  [Machine.Fire] and [setPath] take different locks, so
    a method that moves the session is a program of atomic actions ([prog]).  Run alone it is the
    method the other components call ([run]); the programs of concurrent callers, interleaved action
    by action, are the steps of [cstep]. *)
From S2P Require Import Prelude Float64 GoTime RateLimit DirectPath Proto.

Open Scope Z_scope.

Section session.
Context {Conn World SendErr : Type}.
Context (SendDatagram : Conn → list byte → World → option SendErr * World).

(** A path: the sender ([nil] in the zero value) and the encoder applied to each packet. *)
Record Path := mkPath {
  Sender : option Conn;
  Encode : list byte → list byte
}.

Definition Identity (b : list byte) : list byte := b.

(** [Path{}] *)
Definition NoPath : Path := mkPath None Identity.

Record Session := mkSession {
  ID : Z;
  m : PathState;
  path : Path;
  limiter : option Bucket;
  bytesSent : Z;
  pktsSent : Z;
  drops : Z
}.
#[export] Instance Session_eta : Eta Session :=
  λ r, mkSession (ID r) (m r) (path r) (limiter r) (bytesSent r) (pktsSent r) (drops r).

Definition New (id : Z) : Session := mkSession id NewMachine NoPath None 0 0 0.

Definition SetRateLimit (bytesPerSec burst : f64) (s : Session) : Session :=
  s <| limiter := Some (NewBucket bytesPerSec burst) |>.

Definition State (s : Session) : PathState := m s.

Definition IsDirect (s : Session) : bool := bool_decide (m s = StateDirect).

Definition setPath (p : Path) (s : Session) : Session := s <| path := p |>.

(** [s.m.Fire(ev)]: the error and the session with its machine moved. *)
Definition fire (ev : Event) (s : Session) : option ErrInvalidTransition * Session :=
  let '(_, err, st) := Fire (m s) ev in (err, s <| m := st |>).

(** The body of a method, one constructor per critical section: a [Fire] with what follows its
    answer, a [setPath], and the return. *)
Inductive prog :=
| Return (err : option ErrInvalidTransition)
| Firing (ev : Event) (k : option ErrInvalidTransition → prog)
| Installing (p : Path) (k : prog).

Definition StartRelay_body (p : Path) : prog :=
  Firing EvStartRelay (λ err,
    match err with Some e => Return (Some e) | None => Installing p (Return None) end).

Definition BeginChecks_body : prog := Firing EvBeginChecks Return.

Definition UpgradeDirect_body (p : Path) : prog :=
  Firing EvDirectEstablished (λ err,
    match err with Some e => Return (Some e) | None => Installing p (Return None) end).

Definition ChecksFailed_body : prog := Firing EvChecksFailed Return.

Definition FallbackRelay_body (p : Path) : prog :=
  Firing EvDirectLost (λ err,
    match err with Some e => Return (Some e) | None => Installing p (Return None) end).

(** [Close] clears the path whether or not the machine accepted the event. *)
Definition Close_body : prog := Firing EvClose (λ err, Installing NoPath (Return err)).

(** The next atomic action of a body, and what is left of the body. *)
Definition act (b : prog) (s : Session) : option (Session * prog) :=
  match b with
  | Return _ => None
  | Firing ev k => let '(err, s) := fire ev s in Some (s, k err)
  | Installing p k => Some (setPath p s, k)
  end.

(** A body that runs with no other caller in between. *)
Fixpoint run (b : prog) (s : Session) : option ErrInvalidTransition * Session :=
  match b with
  | Return err => (err, s)
  | Firing ev k => let '(err, s) := fire ev s in run (k err) s
  | Installing p k => run k (setPath p s)
  end.

Definition StartRelay (p : Path) := run (StartRelay_body p).
Definition BeginChecks := run BeginChecks_body.
Definition UpgradeDirect (p : Path) := run (UpgradeDirect_body p).
Definition ChecksFailed := run ChecksFailed_body.
Definition FallbackRelay (p : Path) := run (FallbackRelay_body p).
Definition Close := run Close_body.

Inductive send_error :=
| ErrNoPath
| ErrRateLimited
| ErrSend (e : SendErr).

Definition Send (pkt : list byte) (now : Time) (s : Session) (w : World)
  : option send_error * Session * World :=
  match Sender (path s) with
  | None => (Some ErrNoPath, s, w)
  | Some c =>
      let '(ok, lim) := Allow (limiter s) now (Z.of_nat (length pkt)) in
      let s := s <| limiter := lim |> in
      if ok then
        match SendDatagram c (Encode (path s) pkt) w with
        | (Some e, w) => (Some (ErrSend e), s, w)
        | (None, w) =>
            (None,
             s <| bytesSent ::= λ x, u64 (x + Z.of_nat (length pkt)) |>
               <| pktsSent ::= λ x, u64 (x + 1) |>, w)
        end
      else (Some ErrRateLimited, s <| drops ::= λ x, u64 (x + 1) |>, w)
  end.

Definition Stats (s : Session) : Z * Z * Z := (bytesSent s, pktsSent s, drops s).

(** ** Methods called one after the other *)

(** The methods that fire an event. *)
Inductive method :=
| MStartRelay (p : Path)
| MBeginChecks
| MUpgradeDirect (p : Path)
| MChecksFailed
| MFallbackRelay (p : Path)
| MClose.

Definition body (mt : method) : prog :=
  match mt with
  | MStartRelay p => StartRelay_body p
  | MBeginChecks => BeginChecks_body
  | MUpgradeDirect p => UpgradeDirect_body p
  | MChecksFailed => ChecksFailed_body
  | MFallbackRelay p => FallbackRelay_body p
  | MClose => Close_body
  end.

Inductive call :=
| CSetRateLimit (r b : f64)
| CMethod (mt : method)
| CSend (pkt : list byte) (now : Time).

Definition exec (c : call) (sw : Session * World) : Session * World :=
  let '(s, w) := sw in
  match c with
  | CSetRateLimit r b => (SetRateLimit r b s, w)
  | CMethod mt => (snd (run (body mt) s), w)
  | CSend pkt now => let '(_, s, w) := Send pkt now s w in (s, w)
  end.

Definition exec_all (cs : list call) (sw : Session * World) : Session * World :=
  foldl (λ sw c, exec c sw) sw cs.

(** The callers hand over relay paths where a relay path is due and direct ones where a direct one is. *)
Definition method_ok (relay direct : Path → Prop) (mt : method) : Prop :=
  match mt with
  | MStartRelay p | MFallbackRelay p => relay p
  | MUpgradeDirect p => direct p
  | _ => True
  end.

Definition call_ok (relay direct : Path → Prop) (c : call) : Prop :=
  match c with CMethod mt => method_ok relay direct mt | _ => True end.

(** The installed path is the one the state of the machine calls for. *)
Definition path_matches (relay direct : Path → Prop) (s : Session) : Prop :=
  match m s with
  | StateNew | StateClosed => Sender (path s) = None
  | StateRelaying | StateChecking => relay (path s)
  | StateDirect => direct (path s)
  end.

Lemma send_keeps_path pkt now s w :
  let '(_, s', _) := Send pkt now s w in m s' = m s ∧ path s' = path s ∧ ID s' = ID s.
Proof.
  unfold Send. destruct (Sender (path s)); [|done]. destruct (Allow _ _ _) as [[] lim]; [|done].
  destruct (SendDatagram _ _ _) as [[]]; done.
Qed.

Lemma fire_spec ev s :
  match transitions (m s) ev with
  | Some st => fire ev s = (None, s <| m := st |>)
  | None => fire ev s = (Some (mkInvalid (m s) ev), s)
  end.
Proof. unfold fire, Fire. destruct (transitions (m s) ev); [done|]. by destruct s. Qed.

(** Case analysis on the state in which an event is fired. *)
Ltac by_state s E :=
  unfold path_matches in *; destruct (m s) eqn:?; simpl in E; rewrite E; simpl; rewrite_done
with rewrite_done :=
  repeat match goal with H : m _ = _ |- _ => rewrite H end; done.

Lemma run_path_matches relay direct mt s :
  method_ok relay direct mt → path_matches relay direct s →
  path_matches relay direct (snd (run (body mt) s)).
Proof.
  intros Hc Hs. destruct mt as [p| |p| |p|]; simpl in *.
  - pose proof (fire_spec EvStartRelay s) as E. by_state s E.
  - pose proof (fire_spec EvBeginChecks s) as E. by_state s E.
  - pose proof (fire_spec EvDirectEstablished s) as E. by_state s E.
  - pose proof (fire_spec EvChecksFailed s) as E. by_state s E.
  - pose proof (fire_spec EvDirectLost s) as E. by_state s E.
  - pose proof (fire_spec EvClose s) as E. by_state s E.
Qed.

Lemma exec_path_matches relay direct c s w :
  call_ok relay direct c → path_matches relay direct s → path_matches relay direct (fst (exec c (s, w))).
Proof.
  destruct c as [r b|mt|pkt now]; intros Hc Hs; simpl in *; [done|by apply run_path_matches|].
  pose proof (send_keeps_path pkt now s w) as H. destruct (Send pkt now s w) as [[e s'] w'].
  destruct H as (Em & Ep & _). unfold path_matches in *. simpl. by rewrite Em, Ep.
Qed.

Lemma exec_all_path_matches relay direct cs s w :
  Forall (call_ok relay direct) cs → path_matches relay direct s →
  path_matches relay direct (fst (exec_all cs (s, w))).
Proof.
  intros Hc. revert s w. induction Hc as [|c cs H _ IH]; intros s w Hs; [done|].
  pose proof (exec_path_matches relay direct c s w H Hs) as Hm.
  change (exec_all (c :: cs) (s, w)) with (exec_all cs (exec c (s, w))).
  destruct (exec c (s, w)) as [s' w']. by apply IH.
Qed.

(** ** Concurrent callers

    A configuration is the session and the calls in flight, each with what is left of its body.  A
    call can start at any time, and any call in flight can take its next action or return. *)

Definition config : Type := Session * list (method * prog).

Inductive cstep : config → config → Prop :=
| cs_call s ts mt : cstep (s, ts) (s, ts ++ [(mt, body mt)])
| cs_act s l mt b r s' b' :
    act b s = Some (s', b') → cstep (s, l ++ (mt, b) :: r) (s', l ++ (mt, b') :: r)
| cs_return s l mt err r : cstep (s, l ++ (mt, Return err) :: r) (s, l ++ r).

(** The calls in flight were made with the paths that are due. *)
Definition calls_ok (relay direct : Path → Prop) (c : config) : Prop :=
  Forall (λ t, method_ok relay direct (fst t)) (snd c).

(** The path that a method is to install on an open session. *)
Definition exchanges (mt : method) : option Path :=
  match mt with MStartRelay p | MUpgradeDirect p | MFallbackRelay p => Some p | _ => None end.

(** At most one caller is exchanging the path. *)
Definition solo (c : config) : Prop := (length (filter (λ t, is_Some (exchanges (fst t))) (snd c)) ≤ 1)%nat.

(** Steps of callers that hand over due paths; and with at most one of them exchanging the path. *)
Definition dstep relay direct (c c' : config) : Prop := cstep c c' ∧ calls_ok relay direct c'.
Definition sstep relay direct (c c' : config) : Prop := dstep relay direct c c' ∧ solo c'.

Lemma fire_path ev s e s' : fire ev s = (e, s') → path s' = path s.
Proof. unfold fire. destruct (Fire (m s) ev) as [[] ?]. by intros [= <- <-]. Qed.

Lemma close_closes s e s' : fire EvClose s = (e, s') → m s' = StateClosed.
Proof. unfold fire, Fire. destruct (m s) eqn:E; simpl; intros [= <- <-]; done. Qed.

Lemma act_closed b s s' b' : act b s = Some (s', b') → m s = StateClosed → m s' = StateClosed.
Proof.
  intros H Hc. destruct b as [err|ev k|p k]; simpl in H; [done| |by injection H as <- <-].
  pose proof (fire_spec ev s) as E. rewrite Hc in E. destruct ev; simpl in E; rewrite E in H; by simplify_eq.
Qed.

Lemma closed_stays c c' : cstep c c' → m (fst c) = StateClosed → m (fst c') = StateClosed.
Proof. intros [s ts mt|s l mt b r s' b' H|s l mt err r] Hc; simpl in *; eauto using act_closed. Qed.

(** What a call in flight on an open session is still to do. *)
Inductive stage : method → prog → Prop :=
| at_start mt : stage mt (body mt)
| at_install mt p : exchanges mt = Some p → stage mt (Installing p (Return None))
| at_return mt err : stage mt (Return err).

Lemma act_stage mt b s s' b' :
  stage mt b → act b s = Some (s', b') → m s' ≠ StateClosed → stage mt b'.
Proof.
  intros [mt' |mt' p Hp|mt' err] H Ho; simpl in H; [|injection H as <- <-; constructor|done].
  destruct mt' as [p| |p| |p|]; simpl in H; destruct (fire _ s) as [[e|] s1] eqn:E; simplify_eq;
    try (by constructor); by apply close_closes in E.
Qed.

Definition stages (c : config) : Prop := Forall (λ t, stage (fst t) (snd t)) (snd c).

Lemma cstep_stages c c' : cstep c c' → m (fst c') ≠ StateClosed → stages c → stages c'.
Proof.
  unfold stages. intros [s ts mt|s l mt b r s' b' H|s l mt err r] Ho Hs; simpl in *.
  - apply Forall_app. split; [done|]. repeat constructor.
  - apply Forall_app in Hs as [? [Hb ?]%Forall_cons]. apply Forall_app. split; [done|].
    constructor; [|done]. eauto using act_stage.
  - apply Forall_app in Hs as [? [_ ?]%Forall_cons]. by apply Forall_app.
Qed.

(** An invariant of the open session, over any run that ends open. *)
Lemma open_invariant (R : config → config → Prop) (I : config → Prop) :
  (∀ c c', R c c' → cstep c c') →
  (∀ c c', R c c' → m (fst c') ≠ StateClosed → I c → I c') →
  ∀ c c', rtc R c c' → m (fst c') ≠ StateClosed → I c → I c'.
Proof.
  intros HR HI c c' H. induction H as [c|c c1 c2 H Hr IH]; [done|]. intros Ho Hc.
  assert (m (fst c1) ≠ StateClosed) as Ho1.
  { intros Hm. apply Ho. clear -HR Hr Hm. induction Hr; [done|]. eauto using closed_stays. }
  eauto.
Qed.

(** *** No interleaving empties the path *)

Definition carries (c : config) : Prop := Sender (path (fst c)) ≠ None.

Lemma dstep_carries relay direct c c' :
  (∀ p, relay p → Sender p ≠ None) → (∀ p, direct p → Sender p ≠ None) →
  dstep relay direct c c' → m (fst c') ≠ StateClosed → stages c → carries c → carries c'.
Proof.
  intros Hr Hd [H Hok] Ho Hs Hc. unfold carries, stages, calls_ok in *.
  destruct H as [s ts mt|s l mt b r s' b' H|s l mt err r]; simpl in *; [done| |done].
  apply Forall_app in Hs as [_ [Hb _]%Forall_cons]. apply Forall_app in Hok as [_ [Hm _]%Forall_cons].
  simpl in *. destruct b as [err|ev k|p k]; simpl in H; [done| |].
  - destruct (fire ev s) as [e s1] eqn:E. injection H as <- <-. by rewrite (fire_path _ _ _ _ E).
  - injection H as <- <-. simpl. inversion Hb as [mt' Ht|mt' p' Hp|]; subst; [by destruct mt|].
    destruct mt; simplify_eq/=; eauto.
Qed.

Lemma dsteps_stages relay direct c c' :
  rtc (dstep relay direct) c c' → m (fst c') ≠ StateClosed → stages c → stages c'.
Proof. apply open_invariant; [by intros ?? []|]. intros ?? [? _]. by apply cstep_stages. Qed.

Lemma dsteps_carries relay direct c c' :
  (∀ p, relay p → Sender p ≠ None) → (∀ p, direct p → Sender p ≠ None) →
  rtc (dstep relay direct) c c' → m (fst c') ≠ StateClosed →
  stages c ∧ carries c → stages c' ∧ carries c'.
Proof.
  intros Hr Hd. apply (open_invariant (dstep relay direct) (λ c, stages c ∧ carries c));
    [by intros ?? []|]. intros c1 c2 H Ho [Hs Hc].
  split; [by eapply cstep_stages; [apply H|..]|by eapply (dstep_carries relay direct)].
Qed.

(** *** One caller at a time keeps path and state in step *)

Definition installing (b : prog) : bool := match b with Installing _ _ => true | _ => false end.

(** Between its two sections an exchange has yet to install the path the new state calls for; with
    none in between, that path is installed. *)
Definition in_step (relay direct : Path → Prop) (c : config) : Prop :=
  (Forall (λ t, installing (snd t) = false) (snd c) → path_matches relay direct (fst c)) ∧
  (∀ mt p k, (mt, Installing p k) ∈ snd c → path_matches relay direct (setPath p (fst c))).

Lemma solo_others s l mt b r :
  solo (s, l ++ (mt, b) :: r) → is_Some (exchanges mt) → stages (s, l ++ r) →
  Forall (λ t, installing (snd t) = false) (l ++ r).
Proof.
  unfold solo, stages. simpl. rewrite filter_app, filter_cons, length_app. intros Hs Hm Hst.
  rewrite decide_True in Hs by done. simpl in Hs.
  assert (filter (λ t : method * prog, is_Some (exchanges (fst t))) (l ++ r) = []) as Hf.
  { apply nil_length_inv. rewrite filter_app, length_app. lia. }
  apply Forall_forall. intros [mt' b'] Hin. rewrite Forall_forall in Hst. specialize (Hst _ Hin). simpl in *.
  destruct Hst as [mt'|mt' p Hp|]; [by destruct mt'| |done]. exfalso.
  eapply (filter_nil_not_elem_of _ _ (mt', Installing p (Return None)) Hf); [by eexists|done].
Qed.

Lemma Forall_mid {A} (P : A → Prop) l x r : Forall P (l ++ x :: r) ↔ P x ∧ Forall P (l ++ r).
Proof. rewrite !Forall_app, Forall_cons. tauto. Qed.

Lemma elem_of_mid {A} (x y : A) l r : x ∈ l ++ y :: r ↔ x = y ∨ x ∈ l ++ r.
Proof. set_solver. Qed.

Lemma setPath_same s : setPath (path s) s = s.
Proof. by destruct s. Qed.

(** A state change between relaying and checking asks for the same path. *)
Lemma check_events_match relay direct ev s err s' p :
  ev = EvBeginChecks ∨ ev = EvChecksFailed → fire ev s = (err, s') →
  path_matches relay direct (setPath p s) → path_matches relay direct (setPath p s').
Proof.
  intros Hev H. pose proof (fire_spec ev s) as E. unfold path_matches.
  destruct Hev as [->| ->]; destruct (m s) eqn:Em; simpl in E; rewrite E in H; simplify_eq; simpl;
    by rewrite ?Em.
Qed.

(** An accepted event of an exchange asks for the path that the exchange brings. *)
Lemma exchange_matches relay direct mt p s s' b' :
  method_ok relay direct mt → exchanges mt = Some p → act (body mt) s = Some (s', b') →
  (s' = s ∧ ∃ e, b' = Return e) ∨
  (b' = Installing p (Return None) ∧ path_matches relay direct (setPath p s')).
Proof.
  intros Hok Hp H. destruct mt as [q| |q| |q|]; simplify_eq/=.
  - pose proof (fire_spec EvStartRelay s) as E. destruct (m s); simpl in E; rewrite E in H; naive_solver.
  - pose proof (fire_spec EvDirectEstablished s) as E.
    destruct (m s); simpl in E; rewrite E in H; naive_solver.
  - pose proof (fire_spec EvDirectLost s) as E. destruct (m s); simpl in E; rewrite E in H; naive_solver.
Qed.

(** What an action does to a session that is in step: the call is no exchange and leaves the path
    to the others, or it is the only one that may be between its sections. *)
Lemma act_in_step relay direct s l mt b r s' b' :
  act b s = Some (s', b') → m s' ≠ StateClosed → method_ok relay direct mt →
  stage mt b → solo (s, l ++ (mt, b) :: r) → stages (s, l ++ r) →
  in_step relay direct (s, l ++ (mt, b) :: r) → in_step relay direct (s', l ++ (mt, b') :: r).
Proof.
  intros H Ho Hok Hb Hsolo Hst [Hq Hi].
  destruct (exchanges mt) as [p|] eqn:Hp.
  - pose proof (solo_others s l mt b r Hsolo (mk_is_Some _ _ Hp) Hst) as Hno.
    assert (∀ mt' p' k', (mt', Installing p' k') ∉ l ++ r) as Hni.
    { intros mt' p' k' Hin. rewrite Forall_forall in Hno. by specialize (Hno _ Hin). }
    destruct Hb as [mt|mt q Hq'|mt err]; [| |done].
    + destruct (exchange_matches relay direct mt p s s' b' Hok Hp H) as [[-> [e ->]]|[-> Hm]].
      * split; simpl in *; [|intros mt' p' k' [?|?]%elem_of_mid; naive_solver].
        intros _. apply Hq. apply Forall_mid. split; [by destruct mt|done].
      * split; simpl in *; [by intros [? _]%Forall_mid|].
        intros mt' p' k' [?|?]%elem_of_mid; naive_solver.
    + simpl in H. simplify_eq. split; simpl in *; [intros _|intros mt' p' k' [?|?]%elem_of_mid; naive_solver].
      eapply Hi. apply elem_of_mid. by left.
  - destruct Hb as [mt|mt q Hq'|mt err]; [|congruence|done].
    destruct mt as [q| |q| |q|]; simplify_eq/=; destruct (fire _ s) as [err s1] eqn:E; simplify_eq.
    3: by apply close_closes in E.
    all: split; simpl in *;
      [intros [_ Hno]%Forall_mid|intros mt' p' k' [?|Hin]%elem_of_mid; [done|]].
    all: try (eapply check_events_match; [|exact E|]; [tauto|]; eapply Hi; apply elem_of_mid; by right).
    all: rewrite <- (setPath_same s'), (fire_path _ _ _ _ E);
      (eapply check_events_match; [|exact E|]; [tauto|]); rewrite setPath_same;
      apply Hq, Forall_mid; done.
Qed.

Lemma sstep_in_step relay direct c c' :
  sstep relay direct c c' → m (fst c') ≠ StateClosed →
  stages c ∧ in_step relay direct c → stages c' ∧ in_step relay direct c'.
Proof.
  intros [[H Hok] Hsolo] Ho [Hs Hi]. split; [by eapply cstep_stages|].
  destruct H as [s ts mt|s l mt b r s' b' H|s l mt err r].
  - destruct Hi as [Hq Hi]. split; simpl in *; [intros [? _]%Forall_app; auto|].
    intros mt' p k [?|Hin%list_elem_of_singleton]%elem_of_app; [eauto|]. by destruct mt.
  - apply Forall_mid in Hs as [Hb Hs]. apply Forall_mid in Hok as [Hok _].
    eapply act_in_step; eauto. unfold solo in *. simpl in *. rewrite filter_app, filter_cons, length_app in *.
    simpl in *. by destruct (decide (is_Some (exchanges mt))).
  - destruct Hi as [Hq Hi]. split; simpl in *; [intros ?; apply Hq, Forall_mid; done|].
    intros mt' p k ?. apply (Hi mt' p k), elem_of_mid. by right.
Qed.

Lemma ssteps_in_step relay direct id c :
  rtc (sstep relay direct) (New id, []) c → m (fst c) ≠ StateClosed →
  in_step relay direct c.
Proof.
  intros H Ho. eapply (open_invariant (sstep relay direct) (λ c, stages c ∧ in_step relay direct c)).
  - by intros ?? [[]].
  - intros c1 c2. apply sstep_in_step.
  - exact H.
  - done.
  - split; [constructor|]. split; [done|]. simpl. set_solver.
Qed.

Lemma dsteps_open relay direct c c' :
  rtc (dstep relay direct) c c' → m (fst c') ≠ StateClosed → m (fst c) ≠ StateClosed.
Proof.
  intros H Ho Hc. apply Ho. clear Ho. induction H as [|c c1 c2 [H _] _ IH]; [done|]. eauto using closed_stays.
Qed.

(** A call with no other in flight is the method itself. *)
Lemma run_alone relay direct mt s :
  method_ok relay direct mt → rtc (sstep relay direct) (s, []) (snd (run (body mt) s), []).
Proof.
  intros Hok.
  assert (∀ s b, calls_ok relay direct (s, [(mt, b)]) ∧ solo (s, [(mt, b)])) as Hc.
  { intros s' b. unfold calls_ok, solo. simpl. rewrite filter_cons. split; [by repeat constructor|].
    destruct (decide _); simpl; lia. }
  eapply rtc_l; [split; [split; [apply (cs_call s [] mt)|]|]; apply Hc|]. simpl.
  generalize (body mt). intros b. revert s.
  induction b as [err|ev k IH|p k IH]; intros s; simpl.
  - apply rtc_once. split; [split; [apply (cs_return s [])|constructor]|unfold solo; simpl; lia].
  - destruct (fire ev s) as [err s'] eqn:E. eapply rtc_l; [|apply IH].
    split; [split; [apply (cs_act s []); simpl; by rewrite E|]|]; apply Hc.
  - eapply rtc_l; [|apply IH]. split; [split; [by apply (cs_act s [])|]|]; apply Hc.
Qed.

Lemma ssteps_dsteps relay direct c c' : rtc (sstep relay direct) c c' → rtc (dstep relay direct) c c'.
Proof. induction 1 as [|c c1 c2 [H _] _ IH]; [done|by eapply rtc_l]. Qed.

(** ** Properties *)

(** The installed path always is the one the state calls for: whatever methods are called, in
    whatever order, on a new session - and whatever they answer - a session that is new or closed has
    no path, one that relays or checks sends over a relay path, and a direct one over a direct path;
    so [Send] reports [ErrNoPath] exactly on new and closed sessions. *)
Theorem session_path_follows_state relay direct id cs w pkt now :
  (∀ p, relay p → Sender p ≠ None) → (∀ p, direct p → Sender p ≠ None) →
  Forall (call_ok relay direct) cs →
  let '(s, w) := exec_all cs (New id, w) in
  path_matches relay direct s ∧
  (fst (fst (Send pkt now s w)) = Some ErrNoPath ↔ m s = StateNew ∨ m s = StateClosed).
Proof.
  intros Hr Hd Hc. pose proof (exec_all_path_matches relay direct cs (New id) w Hc eq_refl) as Hm.
  destruct (exec_all cs (New id, w)) as [s w']. simpl in Hm. split; [done|].
  assert (Sender (path s) = None ↔ m s = StateNew ∨ m s = StateClosed) as <-.
  { unfold path_matches in Hm. destruct (m s); naive_solver. }
  unfold Send. destruct (Sender (path s)); [|done]. split; [|done].
  destruct (Allow _ _ _) as [[] ?]; [|done]. destruct (SendDatagram _ _ _) as [[]]; done.
Qed.

(** What one [Send] does on a session whose path is the relay path of session [ID]: within the
    byte budget the connection gets exactly one datagram, which decodes to the session's id and the
    packet, and the counters grow by one packet and its length if the connection took it; over budget
    nothing is sent and the drop is counted. *)
Theorem relay_send s w pkt now c :
  path s = mkPath (Some c) (EncodeDatagram (ID s)) → 0 ≤ ID s < 2 ^ 64 →
  let '(err, s', w') := Send pkt now s w in
  if fst (Allow (limiter s) now (Z.of_nat (length pkt))) then
    ∃ d serr, DecodeDatagram d = Ok (ID s, pkt) ∧ SendDatagram c d w = (serr, w') ∧
      err = ErrSend <$> serr ∧
      Stats s' = match serr with
                 | None => (u64 (bytesSent s + Z.of_nat (length pkt)), u64 (pktsSent s + 1), drops s)
                 | Some _ => Stats s
                 end
  else w' = w ∧ err = Some ErrRateLimited ∧ Stats s' = (bytesSent s, pktsSent s, u64 (drops s + 1)).
Proof.
  intros Hp Hid. unfold Send. rewrite Hp. simpl Sender. cbv iota beta.
  destruct (Allow _ _ _) as [ok lim] eqn:EA. simpl. destruct ok; [|done]. rewrite Hp. simpl Encode.
  destruct (SendDatagram c (EncodeDatagram (ID s) pkt) w) as [serr w'] eqn:ES; simpl.
  destruct serr as [e|]; exists (EncodeDatagram (ID s) pkt); [exists (Some e)|exists None];
    (split; [by apply DecodeDatagram_EncodeDatagram|done]).
Qed.

(** C28. Migration does not drop traffic, and path and state stay in step.  Let callers call
    [StartRelay], [BeginChecks], [UpgradeDirect], [ChecksFailed], [FallbackRelay] and [Close] on a new
    session with paths that have senders, any number at once, and interleave them at any point between
    their critical sections.  Once a path is installed no [Send] on the session finds none, as long
    as it is not closed.  And when at most one caller at a time was exchanging the path, then whenever
    no call is in flight the path is the one that the state calls for: the relay path while relaying
    or checking, the direct one when direct, none on a new session - rejected calls included. *)
Theorem migration_keeps_a_path relay direct id c c' :
  (∀ p, relay p → Sender p ≠ None) → (∀ p, direct p → Sender p ≠ None) →
  rtc (dstep relay direct) (New id, []) c → rtc (dstep relay direct) c c' → m (fst c') ≠ StateClosed →
  (Sender (path (fst c)) ≠ None → ∀ pkt now w, fst (fst (Send pkt now (fst c') w)) ≠ Some ErrNoPath) ∧
  (rtc (sstep relay direct) (New id, []) c' → snd c' = [] → path_matches relay direct (fst c')).
Proof.
  intros Hr Hd H1 H2 Ho. split.
  - intros Hc pkt now w.
    assert (carries c') as Hs.
    { eapply (dsteps_carries relay direct c c'); [done..|]. split; [|done].
      eapply dsteps_stages; [done|by eapply dsteps_open|constructor]. }
    unfold carries in Hs. unfold Send. destruct (Sender (path (fst c'))); [|done].
    destruct (Allow _ _ _) as [[] ?]; [|done]. destruct (SendDatagram _ _ _) as [[]]; done.
  - intros H Hn. destruct (ssteps_in_step relay direct id c' H Ho) as [Hq _].
    apply Hq. rewrite Hn. constructor.
Qed.

(** [UpgradeDirect] does not swap the path atomically with the state: an [UpgradeDirect] that is
    overtaken by [Close] between its [Fire] and its [setPath] installs its path on the closed session,
    with nothing left that would clear it. *)
Theorem close_upgrade_race s p :
  m s = StateChecking → ∃ s', rtc cstep (s, []) (s', []) ∧ m s' = StateClosed ∧ path s' = p.
Proof.
  intros Hm.
  exists (setPath p (setPath NoPath (s <| m := StateDirect |> <| m := StateClosed |>))).
  split; [|done].
  eapply rtc_l; [apply (cs_call s [] (MUpgradeDirect p))|].
  eapply rtc_l; [eapply (cs_act s []); simpl; unfold fire, Fire; by rewrite Hm|].
  eapply rtc_l; [apply (cs_call _ _ MClose)|].
  eapply rtc_l; [by eapply (cs_act _ [_] MClose)|].
  eapply rtc_l; [by eapply (cs_act _ [_] MClose)|].
  eapply rtc_l; [by eapply (cs_return _ [_] MClose)|].
  eapply rtc_l; [by eapply (cs_act _ [])|].
  eapply rtc_l; [by eapply (cs_return _ [])|]. apply rtc_refl.
Qed.
End session.

Arguments Path : clear implicits.
Arguments Session : clear implicits.
Arguments mkPath {Conn}.
Arguments prog : clear implicits.
Arguments method : clear implicits.
Arguments call : clear implicits.

(** ** A concrete sender: a connection that logs what it is given, and refuses what is too long *)

Definition log_send (mtu : nat) (c : nat) (d : list byte) (w : list (nat * list byte))
  : option unit * list (nat * list byte) :=
  if decide (length d ≤ mtu)%nat then (None, w ++ [(c, d)]) else (Some (), w).

Definition relay_path (c : nat) (sid : Z) : Path nat := mkPath (Some c) (EncodeDatagram sid).
Definition direct_path (c : nat) : Path nat := mkPath (Some c) Identity.

Lemma session_path_follows_state_witness :
  let cs := [CMethod (MStartRelay (relay_path 1 7)); CMethod MBeginChecks;
             CMethod (MUpgradeDirect (direct_path 2)); CSend [x01; x02] 5;
             CMethod (MFallbackRelay (relay_path 1 7))] in
  let '(s, w) := exec_all (log_send 1200) cs (New 7, []) in
  path_matches (λ p, Sender p = Some 1%nat) (λ p, Sender p = Some 2%nat) s ∧
  (fst (fst (Send (log_send 1200) [x03] 6 s w)) = Some ErrNoPath ↔ m s = StateNew ∨ m s = StateClosed).
Proof.
  apply (session_path_follows_state (log_send 1200) (λ p, Sender p = Some 1%nat) (λ p, Sender p = Some 2%nat));
    [intros p ->; done|intros p ->; done|]. repeat constructor.
Defined.

Lemma relay_send_witness :
  let s := snd (StartRelay (relay_path 1 7) (SetRateLimit (f64_of_Z 100) (f64_of_Z 200) (New 7))) in
  let '(err, s', w') := Send (log_send 1200) [x03; x04] 6 s [] in
  if fst (Allow (limiter s) 6 2) then
    ∃ d serr, DecodeDatagram d = Ok (7, [x03; x04]) ∧ log_send 1200 1 d [] = (serr, w') ∧
      err = ErrSend <$> serr ∧
      Stats s' = match serr with
                 | None => (u64 (bytesSent s + 2), u64 (pktsSent s + 1), drops s)
                 | Some _ => Stats s
                 end
  else w' = [] ∧ err = Some ErrRateLimited ∧ Stats s' = (bytesSent s, pktsSent s, u64 (drops s + 1)).
Proof.
  apply (relay_send (log_send 1200)
    (snd (StartRelay (relay_path 1 7) (SetRateLimit (f64_of_Z 100) (f64_of_Z 200) (New 7)))) [] [x03; x04] 6 1%nat);
    [reflexivity|simpl; lia].
Defined.

(** The relay is started, checks begin, and the session upgrades to the direct path. *)
Lemma migration_keeps_a_path_witness :
  let s := snd (StartRelay (relay_path 1 7) (New 7)) in
  let s' := snd (UpgradeDirect (direct_path 2) (snd (BeginChecks s))) in
  (Sender (path s) ≠ None → ∀ pkt now w, fst (fst (Send (log_send 1200) pkt now s' w)) ≠ Some ErrNoPath) ∧
  (rtc (sstep (λ p, Sender p = Some 1%nat) (λ p, Sender p = Some 2%nat)) (New 7, []) (s', []) →
   @nil (method nat * prog nat) = [] →
   path_matches (λ p, Sender p = Some 1%nat) (λ p, Sender p = Some 2%nat) s').
Proof.
  cbv zeta. pose (relay := λ p : Path nat, Sender p = Some 1%nat).
  pose (direct := λ p : Path nat, Sender p = Some 2%nat).
  pose (s := snd (StartRelay (relay_path 1 7) (New 7))).
  apply (migration_keeps_a_path (log_send 1200) relay direct 7 (s, [])
    (snd (UpgradeDirect (direct_path 2) (snd (BeginChecks s))), [])).
  - intros p ->. discriminate.
  - intros p ->. discriminate.
  - apply ssteps_dsteps. by apply (run_alone relay direct (MStartRelay (relay_path 1 7)) (New 7)).
  - apply ssteps_dsteps. etrans; [by apply (run_alone relay direct MBeginChecks s)|].
    by apply (run_alone relay direct (MUpgradeDirect (direct_path 2))).
  - vm_compute. discriminate.
Defined.

Lemma close_upgrade_race_witness :
  ∃ s' : Session nat,
    rtc cstep (snd (BeginChecks (snd (StartRelay (relay_path 1 7) (New 7)))), []) (s', []) ∧
    m s' = StateClosed ∧ path s' = direct_path 2.
Proof.
  apply (close_upgrade_race (snd (BeginChecks (snd (StartRelay (relay_path 1 7) (New 7))))) (direct_path 2)).
  reflexivity.
Defined.
