(* ===== verification/LB.v ===== *)
(** * Package internal/lb: which exit serves a new session

    The nodes come from the broker's map of exits, so their order is arbitrary and their ids are
    distinct.  [rand.Intn(n)] is an argument: the number drawn.  [int] values are integers in the
    range of [int64] ([in_range]). *)
From S2P Require Import Prelude Float64 FloatTheory.

Open Scope Z_scope.

Inductive Strategy := LeastConn | RoundRobin | Random.
#[export] Instance Strategy_eq_dec : EqDecision Strategy.
Proof. solve_decision. Defined.

Definition strategy_name (s : Strategy) : string :=
  match s with
  | LeastConn => "least-conn"
  | RoundRobin => "round-robin"
  | Random => "random"
  end.

Definition Parse (s : string) : Strategy :=
  if decide (s = strategy_name RoundRobin) then RoundRobin
  else if decide (s = strategy_name Random) then Random
  else LeastConn.

Record Node := mkNode {
  ID : string;
  Region : string;
  Active : Z;
  Capacity : Z
}.
#[export] Instance Node_eq_dec : EqDecision Node.
Proof. solve_decision. Defined.

Definition hasSpare (n : Node) : bool := (Capacity n <=? 0) || (Active n <? Capacity n).

Definition loadFraction (n : Node) : f64 :=
  if Capacity n <=? 0 then fdiv (f64_of_Z (Active n)) (f64_of_Z 1000000000)
  else fdiv (f64_of_Z (Active n)) (f64_of_Z (Capacity n)).

Definition is_eligible (region : string) (n : Node) : Prop := Region n = region ∧ hasSpare n = true.
#[export] Instance is_eligible_dec region n : Decision (is_eligible region n).
Proof. unfold is_eligible. apply _. Defined.

(** [sort.Slice] by id. *)
Definition id_le (a b : Node) : Prop := String.le (ID a) (ID b).
#[export] Instance id_le_dec a b : Decision (id_le a b).
Proof. unfold id_le. apply _. Defined.

Definition eligible (region : string) (nodes : list Node) : list Node :=
  merge_sort id_le (filter (is_eligible region) nodes).

(** The condition under which the scan of [LeastConn] replaces its best node. *)
Definition better (n best : Node) : bool :=
  (Active n <? Active best) ||
  ((Active n =? Active best) && fltb (loadFraction n) (loadFraction best)).

Definition least (best : Node) (rest : list Node) : Node :=
  foldl (λ best n, if better n best then n else best) best rest.

(** The chosen id and the counter afterwards; [None] when no exit is eligible. *)
Definition Pick (strategy : Strategy) (region : string) (nodes : list Node) (rr : option Z)
    (intn : nat → nat) : option string * option Z :=
  match eligible region nodes with
  | [] => (None, rr)
  | n0 :: rest =>
      let e := n0 :: rest in
      match strategy with
      | RoundRobin =>
          let i := default 0 rr in
          (ID <$> e !! Z.to_nat (i mod Z.of_nat (length e)), (λ i, u64 (i + 1)) <$> rr)
      | Random => (ID <$> e !! intn (length e), rr)
      | LeastConn => (Some (ID (least n0 rest)), rr)
      end
  end.

(** ** Lemmas *)

#[export] Instance id_le_trans : Transitive id_le.
Proof. intros a b c. unfold id_le. apply transitivity. Qed.
#[export] Instance id_le_total : Total id_le.
Proof. intros a b. unfold id_le. apply (total String.le). Qed.

Lemma eligible_perm region nodes : eligible region nodes ≡ₚ filter (is_eligible region) nodes.
Proof. apply merge_sort_Permutation. Qed.

Lemma eligible_sorted region nodes : StronglySorted id_le (eligible region nodes).
Proof. apply StronglySorted_merge_sort; apply _. Qed.

Lemma elem_of_eligible region nodes n :
  n ∈ eligible region nodes ↔ is_eligible region n ∧ n ∈ nodes.
Proof. rewrite eligible_perm. apply list_elem_of_filter. Qed.

(** Nodes with the same id are the same node. *)
Lemma same_id_same_node (nodes : list Node) n1 n2 :
  NoDup (ID <$> nodes) → n1 ∈ nodes → n2 ∈ nodes → ID n1 = ID n2 → n1 = n2.
Proof.
  intros Hnd [i Hi]%list_elem_of_lookup [j Hj]%list_elem_of_lookup Hid.
  enough (i = j) by (subst; congruence).
  eapply NoDup_lookup; [done|..]; rewrite list_lookup_fmap; [by rewrite Hi|rewrite Hj; simpl; congruence].
Qed.

(** The candidate list does not depend on the order of the nodes. *)
Lemma eligible_ext region nodes nodes' :
  NoDup (ID <$> nodes) → nodes ≡ₚ nodes' → eligible region nodes = eligible region nodes'.
Proof.
  intros Hnd HP. apply (StronglySorted_unique_strong id_le); [|apply eligible_sorted..|].
  - intros n1 n2 [_ H1]%elem_of_eligible [_ H2]%elem_of_eligible Hle Hge.
    apply (same_id_same_node nodes); [done|done|by rewrite HP|]. by apply (anti_symm String.le).
  - rewrite !eligible_perm. by apply filter_Permutation.
Qed.

(** Values an [int] can have. *)
Definition in_range (n : Node) : Prop := 0 ≤ Active n < 2 ^ 63 ∧ Capacity n < 2 ^ 63.

Lemma loadFraction_valid n : f64_valid (loadFraction n) = true.
Proof. unfold loadFraction. destruct (_ <=? _); auto with revquic. Qed.

Lemma loadFraction_num n : in_range n → f64_nan (loadFraction n) = false.
Proof.
  intros [Ha Hc]. unfold loadFraction. destruct (Z.leb_spec (Capacity n) 0).
  - destruct (f64_of_Z_pos 1000000000) as [F P]; [lia|].
    apply fdiv_not_nan; auto using f64_of_Z_not_nan with revquic.
  - destruct (f64_of_Z_pos (Capacity n)) as [F P]; [lia|].
    apply fdiv_not_nan; auto using f64_of_Z_not_nan with revquic.
Qed.

(** The order of preference, as a pair of integers. *)
Lemma better_spec a b :
  in_range a → in_range b →
  better a b = true ↔
  Active a < Active b ∨ (Active a = Active b ∧ fkey (loadFraction a) < fkey (loadFraction b)).
Proof.
  intros Ha Hb. unfold better.
  rewrite orb_true_iff, andb_true_iff, Z.ltb_lt, Z.eqb_eq, fltb_fkey, Z.ltb_lt;
    auto using loadFraction_valid, loadFraction_num.
Qed.

(** What the scan returns: a node none is better than, first in id order among its equals. *)
Definition is_least (l : list Node) (b : Node) : Prop :=
  b ∈ l ∧ ∀ n, n ∈ l → better n b = false ∧ (better b n = false → id_le b n).

Lemma least_spec n0 rest :
  Forall in_range (n0 :: rest) → StronglySorted id_le (n0 :: rest) →
  is_least (n0 :: rest) (least n0 rest).
Proof.
  unfold least. induction rest as [|n rest IH] using rev_ind; intros Hr Hs.
  - split; [by left|]. intros n Hn. apply list_elem_of_singleton in Hn as ->. split; [|by intros _; unfold id_le].
    unfold better. by rewrite Z.ltb_irrefl, fltb_irrefl, andb_false_r.
  - change (n0 :: rest ++ [n]) with ((n0 :: rest) ++ [n]) in *.
    apply Forall_app in Hr as [Hr Hn]. rewrite Forall_singleton in Hn.
    apply StronglySorted_app in Hs as (Hcross & Hs & _).
    specialize (IH Hr Hs). rewrite foldl_app. simpl.
    set (b := foldl _ n0 rest) in *. destruct IH as [Hin Hmin].
    assert (in_range b) as Hb by (by eapply Forall_forall in Hr).
    assert (∀ x, x ∈ n0 :: rest → in_range x) as Hrx by (intros x Hx; by eapply Forall_forall in Hr).
    assert (∀ x, in_range x → better x x = false) as Hirr.
    { intros x _. unfold better. by rewrite Z.ltb_irrefl, fltb_irrefl, andb_false_r. }
    destruct (better n b) eqn:E; (split; [clear -Hin; set_solver|]);
      intros x Hx; change (n0 :: rest ++ [n]) with ((n0 :: rest) ++ [n]) in Hx;
      apply elem_of_app in Hx as [Hx|Hx]; try (apply list_elem_of_singleton in Hx as ->).
    + destruct (Hmin x Hx) as [Hxb _]. apply better_spec in E; [|done..].
      apply not_true_iff_false in Hxb. rewrite better_spec in Hxb by auto. split.
      * apply not_true_iff_false. rewrite better_spec by auto. lia.
      * intros Hc. exfalso. apply not_true_iff_false in Hc. rewrite better_spec in Hc by auto. lia.
    + split; [by apply Hirr|]. intros _. unfold id_le. done.
    + by apply Hmin.
    + split; [done|]. intros _. apply Hcross; [done|]. by left.
Qed.

(** What a selection returns. *)
Lemma Pick_spec strategy region nodes rr intn :
  (∀ n, 0 < n → intn n < n)%nat → (∀ c, rr = Some c → 0 ≤ c) →
  match fst (Pick strategy region nodes rr intn) with
  | Some id => ∃ n, n ∈ nodes ∧ ID n = id ∧ Region n = region ∧
                    (Capacity n ≤ 0 ∨ Active n < Capacity n)
  | None => ∀ n, n ∈ nodes → Region n = region → 0 < Capacity n ≤ Active n
  end.
Proof.
  intros Hr Hc. unfold Pick. destruct (eligible region nodes) as [|n0 rest] eqn:E.
  { intros n Hn Hreg. destruct (hasSpare n) eqn:Hs.
    - assert (n ∈ eligible region nodes) as Hin by (apply elem_of_eligible; done).
      rewrite E in Hin. by apply elem_of_nil in Hin.
    - unfold hasSpare in Hs. apply orb_false_iff in Hs as [?%Z.leb_gt ?%Z.ltb_ge]. lia. }
  assert (∀ x, x ∈ n0 :: rest → ∃ n, n ∈ nodes ∧ ID n = ID x ∧ Region n = region ∧
      (Capacity n ≤ 0 ∨ Active n < Capacity n)) as Hel.
  { intros x Hx. rewrite <- E in Hx. apply elem_of_eligible in Hx as [[Hreg Hs] Hx].
    exists x. split_and!; [done..|]. unfold hasSpare in Hs.
    apply orb_true_iff in Hs as [?%Z.leb_le|?%Z.ltb_lt]; lia. }
  assert (∀ i, (i < length (n0 :: rest))%nat → ∃ x, (n0 :: rest) !! i = Some x ∧ x ∈ n0 :: rest) as Hlk.
  { intros i [x Hx]%lookup_lt_is_Some_2. exists x. eauto using list_elem_of_lookup_2. }
  destruct strategy; cbn [fst].
  - apply Hel. clear. unfold least. induction rest as [|n rest IH] using rev_ind; [by left|].
    rewrite foldl_app. simpl. destruct (better _ _); set_solver.
  - destruct (Hlk (Z.to_nat (default 0 rr `mod` Z.of_nat (length (n0 :: rest))))) as (x & -> & Hx).
    { pose proof (Z.mod_pos_bound (default 0 rr) (Z.of_nat (length (n0 :: rest)))). simpl length in *. lia. }
    by apply Hel.
  - destruct (Hlk (intn (length (n0 :: rest)))) as (x & -> & Hx); [apply Hr; simpl; lia|]. by apply Hel.
Qed.

(** ** Properties *)

(** A selection is made exactly when some exit of the region has room, whatever the strategy,
    and only such an exit is ever selected. *)
Theorem pick_sound_complete strategy region nodes rr intn :
  (∀ n, 0 < n → intn n < n)%nat → (∀ c, rr = Some c → 0 ≤ c) →
  match fst (Pick strategy region nodes rr intn) with
  | Some id => ∃ n, n ∈ nodes ∧ ID n = id ∧ Region n = region ∧
                    (Capacity n ≤ 0 ∨ Active n < Capacity n)
  | None => ∀ n, n ∈ nodes → Region n = region → 0 < Capacity n ≤ Active n
  end.
Proof. apply Pick_spec. Qed.

Definition three_exits : list Node :=
  [mkNode "exit-b" "eu" 2 10; mkNode "exit-a" "eu" 2 4; mkNode "exit-c" "eu" 5 5].

Lemma pick_sound_complete_witness :
  match fst (Pick LeastConn "eu" three_exits None (λ _, 0%nat)) with
  | Some id => ∃ n, n ∈ three_exits ∧ ID n = id ∧ Region n = "eu"%string ∧
                    (Capacity n ≤ 0 ∨ Active n < Capacity n)
  | None => ∀ n, n ∈ three_exits → Region n = "eu"%string → 0 < Capacity n ≤ Active n
  end.
Proof. apply (pick_sound_complete LeastConn "eu" three_exits None (λ _, 0%nat)); [lia|done]. Defined.

(** Least-connections is what its documentation says: no eligible exit has fewer clients than
    the selected one, none with as many clients has a lower load fraction, and of those equal in both
    the selected one has the smallest id. *)
Theorem pick_least_conn region nodes rr intn id :
  Forall in_range nodes → fst (Pick LeastConn region nodes rr intn) = Some id →
  ∃ b, b ∈ nodes ∧ ID b = id ∧ is_eligible region b ∧
    ∀ n, n ∈ nodes → is_eligible region n →
      Active b ≤ Active n ∧
      (Active b = Active n → fltb (loadFraction n) (loadFraction b) = false ∧
         (fltb (loadFraction b) (loadFraction n) = false → String.le id (ID n))).
Proof.
  intros Hr. unfold Pick. destruct (eligible region nodes) as [|n0 rest] eqn:E; [done|].
  cbn [fst]. intros [= <-].
  assert (∀ x, x ∈ n0 :: rest ↔ is_eligible region x ∧ x ∈ nodes) as Hel
    by (intros x; rewrite <- E; apply elem_of_eligible).
  destruct (least_spec n0 rest) as [Hin Hmin].
  { apply Forall_forall. intros x [_ Hx]%Hel. by eapply Forall_forall in Hr. }
  { rewrite <- E. apply eligible_sorted. }
  set (b := least n0 rest) in *. apply Hel in Hin as [Hb Hbn].
  exists b. split_and!; [done|done|apply Hb..|].
  intros n Hn Hne. destruct (Hmin n) as [H1 H2]; [by apply Hel|].
  unfold better in H1, H2. apply orb_false_iff in H1 as [H1%Z.ltb_ge H1'].
  split; [done|]. intros Ha. rewrite Ha, Z.eqb_refl in *. simpl in *. split; [done|].
  intros Hf. apply H2. rewrite Z.ltb_irrefl. by rewrite Hf.
Qed.

Lemma pick_least_conn_witness :
  ∃ b, b ∈ three_exits ∧ ID b = "exit-b"%string ∧ is_eligible "eu" b ∧
    ∀ n, n ∈ three_exits → is_eligible "eu" n →
      Active b ≤ Active n ∧
      (Active b = Active n → fltb (loadFraction n) (loadFraction b) = false ∧
         (fltb (loadFraction b) (loadFraction n) = false → String.le "exit-b" (ID n))).
Proof.
  apply (pick_least_conn "eu" three_exits None (λ _, 0%nat) "exit-b");
    [repeat constructor; simpl; lia|vm_compute; reflexivity].
Defined.

(** The selection does not depend on the order in which the broker's map yields the exits. *)
Theorem pick_order_independent strategy region nodes nodes' rr intn :
  NoDup (ID <$> nodes) → nodes ≡ₚ nodes' →
  Pick strategy region nodes rr intn = Pick strategy region nodes' rr intn.
Proof. intros Hnd HP. unfold Pick. by rewrite (eligible_ext region nodes nodes'). Qed.

Lemma pick_order_independent_witness :
  Pick RoundRobin "eu" three_exits (Some 7) (λ _, 0%nat)
  = Pick RoundRobin "eu" (reverse three_exits) (Some 7) (λ _, 0%nat).
Proof.
  apply (pick_order_independent RoundRobin "eu" three_exits (reverse three_exits));
    [by apply (bool_decide_unpack _); vm_compute|by rewrite reverse_Permutation].
Defined.

(** [k] selections in a row with the same counter. *)
Fixpoint picks (k : nat) (region : string) (nodes : list Node) (c : Z) : list (option string) :=
  match k with
  | O => []
  | S k =>
      let '(id, rr) := Pick RoundRobin region nodes (Some c) (λ _, 0%nat) in
      id :: picks k region nodes (default 0 rr)
  end.

Lemma picks_lookup region nodes n0 rest k c :
  eligible region nodes = n0 :: rest → 0 ≤ c → c + Z.of_nat k ≤ 2 ^ 64 →
  picks k region nodes c =
  (λ j, ID <$> (n0 :: rest) !! Z.to_nat ((c + Z.of_nat j) mod Z.of_nat (S (length rest)))) <$> seq 0 k.
Proof.
  intros E. revert c. induction k as [|k IH]; intros c Hc Hk; [done|].
  cbn [picks]. unfold Pick at 1. rewrite E. cbn [fst snd default from_option fmap option_fmap option_map].
  rewrite <- cons_seq, fmap_cons. f_equal; [by rewrite Z.add_0_r|].
  destruct (decide (k = O)) as [->|Hne]; [done|]. unfold id.
  assert (u64 (c + 1) = c + 1) as -> by (unfold u64; apply Z.mod_small; lia).
  rewrite IH by lia. rewrite <- fmap_S_seq, <- list_fmap_compose. apply list_fmap_ext.
  intros i j _. simpl. do 4 f_equal. lia.
Qed.

(** Consecutive residues hit every index once. *)
Lemma residues_permutation (c : Z) (k : nat) :
  (0 < k)%nat → ((λ j, Z.to_nat ((c + Z.of_nat j) mod Z.of_nat k)) <$> seq 0 k) ≡ₚ seq 0 k.
Proof.
  intros Hk. apply submseteq_length_Permutation; [|by rewrite length_fmap].
  apply NoDup_submseteq.
  - apply NoDup_alt. intros i j x Hi Hj. rewrite list_lookup_fmap in Hi, Hj.
    destruct (seq 0 k !! i) as [a|] eqn:Ea, (seq 0 k !! j) as [b|] eqn:Eb; try done.
    apply lookup_seq in Ea as [-> Ha], Eb as [-> Hb]. simpl in *. simplify_eq.
    pose proof (Z.mod_pos_bound (c + Z.of_nat i) (Z.of_nat k)). pose proof (Z.mod_pos_bound (c + Z.of_nat j) (Z.of_nat k)).
    assert ((c + Z.of_nat i) mod Z.of_nat k = (c + Z.of_nat j) mod Z.of_nat k) as Hm by lia.
    pose proof (Z.div_mod (c + Z.of_nat i) (Z.of_nat k)). pose proof (Z.div_mod (c + Z.of_nat j) (Z.of_nat k)).
    assert (Z.of_nat i - Z.of_nat j =
      Z.of_nat k * ((c + Z.of_nat i) / Z.of_nat k - (c + Z.of_nat j) / Z.of_nat k)) by lia.
    set (d := _ / _ - _ / _) in *. assert (d = 0) by nia. nia.
  - intros x [j [-> _]]%list_elem_of_fmap. apply elem_of_seq.
    pose proof (Z.mod_pos_bound (c + Z.of_nat j) (Z.of_nat k)). lia.
Qed.

(** Round robin is fair: as many selections in a row as there are eligible exits visit each of
    them exactly once, wherever the counter stands (before it wraps at 2^64). *)
Theorem round_robin_fair region nodes c :
  let k := length (filter (is_eligible region) nodes) in
  0 ≤ c → c + Z.of_nat k ≤ 2 ^ 64 →
  picks k region nodes c ≡ₚ Some ∘ ID <$> filter (is_eligible region) nodes.
Proof.
  intros k Hc Hk. assert (length (eligible region nodes) = k) as Hlen by (unfold k; by rewrite eligible_perm).
  destruct (eligible region nodes) as [|n0 rest] eqn:E.
  { rewrite <- (eligible_perm region nodes), E. simpl in Hlen. by rewrite <- Hlen. }
  rewrite <- (eligible_perm region nodes), E, (picks_lookup region nodes n0 rest) by done.
  simpl in Hlen. rewrite Hlen.
  trans ((λ i, ID <$> (n0 :: rest) !! i) <$>
         ((λ j, Z.to_nat ((c + Z.of_nat j) mod Z.of_nat k)) <$> seq 0 k)).
  { by rewrite <- list_fmap_compose. }
  rewrite residues_permutation by lia.
  replace k with (length (n0 :: rest)) by (simpl; lia).
  clear. generalize (n0 :: rest). intros l. apply reflexive_eq.
  apply list_eq. intros i. rewrite !list_lookup_fmap.
  destruct (decide (i < length l)%nat) as [Hi|Hi].
  - rewrite lookup_seq_lt by done. simpl. apply lookup_lt_is_Some_2 in Hi as [x ->]. done.
  - rewrite lookup_seq_ge by lia. by rewrite lookup_ge_None_2 by lia.
Qed.

Lemma round_robin_fair_witness :
  picks 2 "eu" three_exits 41 ≡ₚ Some ∘ ID <$> filter (is_eligible "eu") three_exits.
Proof. apply (round_robin_fair "eu" three_exits 41); vm_compute; discriminate. Defined.
