(* ===== verification/UserStore.v ===== *)
(** * Package internal/userstore: users, credentials and region policy

    The in-memory/file table.  Its two maps hold pointers to records, so the model has a heap of
    records: [byID] and [byHash] map to locations, and an update through one map is seen through the
    other.  [hmac] stands for HMAC-SHA256 in hex; [rand.Read] (the new id), the clock, the JSON codec
    and the outcomes of the file-system calls are arguments.  Go's map iteration order is the order of
    [map_to_list]; no theorem depends on it. *)
From S2P Require Import Prelude GoTime Strs AdminAPI.

Open Scope Z_scope.

Record record := mkRecord {
  r_User : User;
  r_Hash : string
}.
#[export] Instance record_eta : Eta record := λ r, mkRecord (r_User r) (r_Hash r).

Notation loc := positive (only parsing).

Record table := mkTable {
  heap : gmap loc record;
  byID : gmap string loc;
  byHash : gmap string loc;
  pepper : string;
  path : string;
  file : option (list byte)       (* the contents of the file at [path] *)
}.
#[export] Instance table_eta : Eta table :=
  λ t, mkTable (heap t) (byID t) (byHash t) (pepper t) (path t) (file t).

Inductive store_error :=
| ErrNotFound | ErrConflict | ErrBadToken | ErrDisabled | ErrRegionDenied
| ErrIO (msg : string).

(** [err.Error()] *)
Definition error_string (e : store_error) : string :=
  match e with
  | ErrNotFound => "user not found"
  | ErrConflict => "username already exists"
  | ErrBadToken => "invalid token"
  | ErrDisabled => "user disabled"
  | ErrRegionDenied => "region not allowed for user"
  | ErrIO msg => msg
  end.

(** What the calls of [flushLocked] and [load] to the JSON codec and the operating system return. *)
Record os_env := mkOS {
  os_marshal : list record → result string (list byte);
  os_unmarshal : list byte → result string (list record);
  os_mkdir : option string;
  os_write : option string;
  os_rename : option string;
  os_read : option string
}.

Section userstore.
Context (hmac : string → string → string).

Definition New (pepper : string) : table := mkTable ∅ ∅ ∅ pepper "" None.

Definition hmacToken (pepper token : string) : string :=
  if decide (token = "") then "" else hmac pepper token.

Definition hashToken (t : table) (token : string) : string := hmacToken (pepper t) token.

(** The records of [byID], in iteration order. *)
Definition records (t : table) : list record :=
  omap (λ kl, heap t !! kl.2) (map_to_list (byID t)).

(** [flushLocked]: nothing happens to the file unless the final rename succeeds. *)
Definition flushLocked (o : os_env) (t : table) : option store_error * table :=
  if decide (path t = "") then (None, t)
  else match os_marshal o (records t) with
  | Err e => (Some (ErrIO e), t)
  | Ok b =>
      match os_mkdir o with
      | Some e => (Some (ErrIO e), t)
      | None =>
          match os_write o with
          | Some e => (Some (ErrIO e), t)
          | None =>
              match os_rename o with
              | Some e => (Some (ErrIO e), t)
              | None => (None, t <| file := Some b |>)
              end
          end
      end
  end.

Definition regionAllowed (allowed : list string) (region : string) : bool :=
  existsb (λ a, bool_decide (a = "*"%string) || bool_decide (a = region)) allowed.

Definition username_taken (t : table) (name : string) : bool :=
  existsb (λ r, bool_decide (u_Username (r_User r) = name)) (records t).

(** A freshly allocated record. *)
Definition alloc (t : table) : loc := fresh (dom (heap t)).

Definition Create (o : os_env) (newID : string) (now : Time) (inp : UserCreate) (t : table)
  : result store_error User * table :=
  if username_taken t (uc_Username inp) then (Err ErrConflict, t)
  else
    let status := if decide (uc_Status inp = "") then UserEnabled else uc_Status inp in
    let r := mkRecord (mkUser newID (uc_Username inp) (uc_AllowedRegions inp) status 0 now now)
                      (hashToken t (uc_Credential inp)) in
    let l := alloc t in
    let t := t <| heap ::= <[l := r]> |> <| byID ::= <[newID := l]> |> in
    let t := if decide (r_Hash r = "") then t else t <| byHash ::= <[r_Hash r := l]> |> in
    match flushLocked o t with
    | (Some e, t) => (Err e, t)
    | (None, t) => (Ok (r_User r), t)
    end.

Definition Get (id : string) (t : table) : result store_error User :=
  match byID t !! id ≫= λ l, heap t !! l with
  | None => Err ErrNotFound
  | Some r => Ok (r_User r)
  end.

Definition List (region status : string) (t : table) : list User :=
  r_User <$> filter (λ r : record,
      (status = "" ∨ u_Status (r_User r) = status) ∧
      (region = "" ∨ regionAllowed (u_AllowedRegions (r_User r)) region = true)) (records t).

(** The credential part of [Update] on the record at [l]. *)
Definition set_credential (l : loc) (r : record) (cred : string) (t : table) : record * table :=
  let t := t <| byHash ::= delete (r_Hash r) |> in
  let r := r <| r_Hash := hashToken t cred |> in
  (r, if decide (r_Hash r = "") then t else t <| byHash ::= <[r_Hash r := l]> |>).

Definition Update (o : os_env) (now : Time) (id : string) (inp : UserUpdate) (t : table)
  : result store_error User * table :=
  match byID t !! id with
  | None => (Err ErrNotFound, t)
  | Some l =>
      match heap t !! l with
      | None => (Err ErrNotFound, t)       (* a nil pointer: never in a well-formed table *)
      | Some r =>
          let r := match uu_AllowedRegions inp with
                   | Some a => r <| r_User ::= λ u, u <| u_AllowedRegions := a |> |>
                   | None => r
                   end in
          let r := match uu_Status inp with
                   | Some s => r <| r_User ::= λ u, u <| u_Status := s |> |>
                   | None => r
                   end in
          let '(r, t) := match uu_Credential inp with
                         | Some c => set_credential l r c t
                         | None => (r, t)
                         end in
          let r := r <| r_User ::= λ u, u <| u_UpdatedAt := now |> |> in
          let t := t <| heap ::= <[l := r]> |> in
          match flushLocked o t with
          | (Some e, t) => (Err e, t)
          | (None, t) => (Ok (r_User r), t)
          end
      end
  end.

Definition Delete (o : os_env) (id : string) (t : table) : option store_error * table :=
  match byID t !! id with
  | None => (Some ErrNotFound, t)
  | Some l =>
      let h := from_option r_Hash "" (heap t !! l) in
      flushLocked o (t <| byID ::= delete id |> <| byHash ::= delete h |>)
  end.

(** The checks shared by the two ways of authorising a user. *)
Definition check_policy (u : User) (region : string) : result store_error User :=
  if decide (u_Status u ≠ UserEnabled) then Err ErrDisabled
  else if regionAllowed (u_AllowedRegions u) region then Ok u else Err ErrRegionDenied.

Definition AuthenticateForRegion (token region : string) (t : table) : result store_error User :=
  match byHash t !! hashToken t token ≫= λ l, heap t !! l with
  | Some r => if decide (token = "") then Err ErrBadToken else check_policy (r_User r) region
  | None => Err ErrBadToken
  end.

Definition AuthorizeUser (username region : string) (t : table) : result store_error User :=
  match List.find (λ r, bool_decide (u_Username (r_User r) = username)) (records t) with
  | Some r => check_policy (r_User r) region
  | None => Err ErrNotFound
  end.

(** [load]: a record of the file becomes a fresh object under its id and its hash. *)
Definition load_record (t : table) (r : record) : table :=
  let l := alloc t in
  let t := t <| heap ::= <[l := r]> |> <| byID ::= <[u_ID (r_User r) := l]> |> in
  if decide (r_Hash r = "") then t else t <| byHash ::= <[r_Hash r := l]> |>.

Definition load (o : os_env) (t : table) : option store_error * table :=
  if decide (path t = "") then (None, t)
  else match file t with
  | None => (None, t)
  | Some b =>
      match os_read o with
      | Some e => (Some (ErrIO e), t)
      | None =>
          match os_unmarshal o b with
          | Err e => (Some (ErrIO e), t)
          | Ok recs => (None, foldl load_record t recs)
          end
      end
  end.

Definition NewFile (o : os_env) (path pepper : string) (file : option (list byte))
  : result store_error table :=
  match load o (mkTable ∅ ∅ ∅ pepper path file) with
  | (Some e, _) => Err e
  | (None, t) => Ok t
  end.

(** ** Well-formed tables *)

(** The record a user id stands for. *)
Definition user_record (t : table) (id : string) : option record :=
  byID t !! id ≫= λ l, heap t !! l.

Record wf (t : table) : Prop := {
  wf_id : ∀ id l, byID t !! id = Some l → ∃ r, heap t !! l = Some r ∧ u_ID (r_User r) = id;
  wf_hash : ∀ h l, byHash t !! h = Some l →
    ∃ r, heap t !! l = Some r ∧ r_Hash r = h ∧ h ≠ "" ∧ byID t !! u_ID (r_User r) = Some l;
  wf_name : ∀ id1 id2 r1 r2, user_record t id1 = Some r1 → user_record t id2 = Some r2 →
    u_Username (r_User r1) = u_Username (r_User r2) → id1 = id2
}.

(** Two maps of a table are the same up to the contents of the file. *)
Lemma flushLocked_maps o t :
  let t' := snd (flushLocked o t) in
  heap t' = heap t ∧ byID t' = byID t ∧ byHash t' = byHash t ∧ pepper t' = pepper t ∧ path t' = path t.
Proof. unfold flushLocked. repeat case_match; done. Qed.

Lemma wf_maps t t' :
  heap t' = heap t → byID t' = byID t → byHash t' = byHash t → wf t → wf t'.
Proof. intros E1 E2 E3 []. constructor; unfold user_record in *; rewrite ?E1, ?E2, ?E3; done. Qed.

Lemma flushLocked_wf o t : wf t → wf (snd (flushLocked o t)).
Proof. destruct (flushLocked_maps o t) as (E1 & E2 & E3 & _). by apply wf_maps. Qed.

Lemma New_wf p : wf (New p).
Proof. constructor; unfold user_record; simpl; intros *; rewrite ?lookup_empty; done. Qed.

Lemma elem_of_records t r :
  wf t → r ∈ records t ↔ ∃ id, user_record t id = Some r.
Proof.
  intros W. unfold records, user_record. rewrite list_elem_of_omap. split.
  - intros ([id l] & Hin%elem_of_map_to_list & Hl). exists id. simpl in *. by rewrite Hin.
  - intros (id & Hr). destruct (byID t !! id) as [l|] eqn:E; [|done].
    exists (id, l). split; [by apply elem_of_map_to_list|done].
Qed.

Lemma username_taken_spec t name :
  wf t → username_taken t name = true ↔ ∃ id r, user_record t id = Some r ∧ u_Username (r_User r) = name.
Proof.
  intros W. unfold username_taken. rewrite existsb_exists. split.
  - intros (r & Hin%list_elem_of_In & Hn%bool_decide_eq_true). apply elem_of_records in Hin as [id Hr]; [|done].
    eauto.
  - intros (id & r & Hr & Hn). exists r. split; [|by apply bool_decide_eq_true].
    apply list_elem_of_In, elem_of_records; eauto.
Qed.

Lemma alloc_fresh t : heap t !! alloc t = None.
Proof. apply not_elem_of_dom. unfold alloc. apply is_fresh. Qed.

(** ** Every operation preserves well-formedness *)

Lemma load_record_heap t r : heap (load_record t r) = <[alloc t := r]> (heap t).
Proof. unfold load_record. by case_decide. Qed.

Lemma load_record_byID t r : byID (load_record t r) = <[u_ID (r_User r) := alloc t]> (byID t).
Proof. unfold load_record. by case_decide. Qed.

(** Adding a record changes nothing for the other ids. *)
Lemma load_record_user t r id :
  wf t → user_record (load_record t r) id =
    if decide (id = u_ID (r_User r)) then Some r else user_record t id.
Proof.
  intros W. unfold user_record. rewrite load_record_heap, load_record_byID.
  case_decide; [subst; by rewrite lookup_insert_eq; simpl; rewrite lookup_insert_eq|].
  rewrite lookup_insert_ne by done. destruct (byID t !! id) as [l'|] eqn:E; [|done]. simpl.
  rewrite lookup_insert_ne; [done|]. intros <-. destruct (wf_id t W _ _ E) as (r' & Hr' & _).
  by rewrite alloc_fresh in Hr'.
Qed.

Lemma load_record_wf t r :
  wf t → byID t !! u_ID (r_User r) = None → username_taken t (u_Username (r_User r)) = false →
  wf (load_record t r).
Proof.
  intros W Hid Hname. pose proof (alloc_fresh t) as Hl. set (l := alloc t) in *.
  assert (∀ id' r', user_record t id' = Some r' → u_Username (r_User r') ≠ u_Username (r_User r)) as Hfree.
  { intros id' r' Hr' Hn. apply not_true_iff_false in Hname. apply Hname.
    apply username_taken_spec; [done|]. by exists id', r'. }
  assert (∀ id' l', byID t !! id' = Some l' → l' ≠ l ∧ id' ≠ u_ID (r_User r)) as Hold.
  { intros id' l' H. destruct (wf_id t W _ _ H) as (r' & Hr' & _). split; congruence. }
  constructor.
  - intros id' l'. rewrite load_record_byID, load_record_heap. fold l.
    intros [[<- <-]|[Hne H]]%lookup_insert_Some.
    + exists r. by rewrite lookup_insert_eq.
    + destruct (wf_id t W _ _ H) as (r' & Hr' & Hi). exists r'. rewrite lookup_insert_ne; [done|].
      by destruct (Hold _ _ H).
  - rewrite load_record_heap, load_record_byID. fold l. intros h l' H.
    assert ((h = r_Hash r ∧ l' = l ∧ h ≠ "") ∨ byHash t !! h = Some l') as [(-> & -> & Hne)|Ho].
    { unfold load_record in H. case_decide; simpl in H; [by right|].
      apply lookup_insert_Some in H as [[<- <-]|[_ H]]; [by left|by right]. }
    + exists r. by rewrite !lookup_insert_eq.
    + destruct (wf_hash t W _ _ Ho) as (r' & Hr' & Hh & Hne & Hi). exists r'.
      destruct (Hold _ _ Hi). by rewrite !lookup_insert_ne.
  - intros id1 id2 r1 r2. rewrite !load_record_user by done.
    repeat case_decide; intros; simplify_eq; try done.
    + by edestruct Hfree; eauto.
    + by edestruct Hfree; eauto.
    + eapply (wf_name t W); eauto.
Qed.

(** What [Create] does to the table when the name is free. *)
Definition created (newID : string) (now : Time) (inp : UserCreate) (t : table) : record :=
  let status := if decide (uc_Status inp = "") then UserEnabled else uc_Status inp in
  mkRecord (mkUser newID (uc_Username inp) (uc_AllowedRegions inp) status 0 now now)
           (hashToken t (uc_Credential inp)).

Lemma Create_spec o newID now inp t :
  Create o newID now inp t =
  if username_taken t (uc_Username inp) then (Err ErrConflict, t)
  else match flushLocked o (load_record t (created newID now inp t)) with
       | (Some e, t) => (Err e, t)
       | (None, t) => (Ok (r_User (created newID now inp t)), t)
       end.
Proof.
  unfold Create, load_record, created. destruct (username_taken t _); [done|]. simpl.
  destruct (flushLocked o _) as [[] t'] eqn:E; [done|]. done.
Qed.

Lemma Create_wf o newID now inp t :
  wf t → byID t !! newID = None → wf (snd (Create o newID now inp t)).
Proof.
  intros W Hid. rewrite Create_spec. destruct (username_taken t _) eqn:E; [done|].
  assert (wf (load_record t (created newID now inp t))) as W' by (by apply load_record_wf).
  pose proof (flushLocked_wf o _ W'). by destruct (flushLocked o _) as [[] t'].
Qed.

(** The record [Update] leaves behind. *)
Definition updated (now : Time) (inp : UserUpdate) (t : table) (r : record) : record :=
  mkRecord (mkUser (u_ID (r_User r)) (u_Username (r_User r))
                   (default (u_AllowedRegions (r_User r)) (uu_AllowedRegions inp))
                   (default (u_Status (r_User r)) (uu_Status inp))
                   (u_ActiveSessionCount (r_User r)) (u_CreatedAt (r_User r)) now)
           (from_option (hashToken t) (r_Hash r) (uu_Credential inp)).

(** The table with the record at [l] updated, before it is flushed. *)
Definition update_table (now : Time) (inp : UserUpdate) (l : loc) (r : record) (t : table) : table :=
  let r' := updated now inp t r in
  let hs := match uu_Credential inp with
            | None => byHash t
            | Some _ => if decide (r_Hash r' = "") then delete (r_Hash r) (byHash t)
                        else <[r_Hash r' := l]> (delete (r_Hash r) (byHash t))
            end in
  t <| heap ::= <[l := r']> |> <| byHash := hs |>.

Lemma Update_spec o now id inp t :
  wf t →
  Update o now id inp t =
  match byID t !! id, user_record t id with
  | Some l, Some r =>
      match flushLocked o (update_table now inp l r t) with
      | (Some e, t') => (Err e, t')
      | (None, t') => (Ok (r_User (updated now inp t r)), t')
      end
  | _, _ => (Err ErrNotFound, t)
  end.
Proof.
  intros W. unfold Update, user_record. destruct (byID t !! id) as [l|] eqn:E; [|done]. simpl.
  destruct (heap t !! l) as [r|] eqn:Er; [|done].
  unfold updated, update_table, updated, set_credential, hashToken.
  destruct inp as [[a|] [s|] [c|]], t; simpl; try case_decide; done.
Qed.

Lemma update_table_user now inp l r t id id' :
  wf t → byID t !! id = Some l → heap t !! l = Some r →
  user_record (update_table now inp l r t) id' =
    if decide (id' = id) then Some (updated now inp t r) else user_record t id'.
Proof.
  intros W Hid Hl. unfold user_record, update_table. simpl. case_decide as Hd.
  - subst. rewrite Hid. simpl. by rewrite lookup_insert_eq.
  - destruct (byID t !! id') as [l'|] eqn:E; [|done]. simpl. rewrite lookup_insert_ne; [done|].
    intros <-. destruct (wf_id t W _ _ E) as (r1 & Hr1 & <-). destruct (wf_id t W _ _ Hid) as (r2 & Hr2 & <-).
    congruence.
Qed.

Lemma update_table_wf now inp l r t id :
  wf t → byID t !! id = Some l → heap t !! l = Some r → wf (update_table now inp l r t).
Proof.
  intros W Hid Hl. destruct (wf_id t W _ _ Hid) as (r0 & Hr0 & Hi). rewrite Hl in Hr0. simplify_eq.
  constructor.
  - intros id' l' H. simpl in *. destruct (decide (l' = l)) as [->|Hne].
    + eexists. split; [apply lookup_insert_eq|]. destruct (wf_id t W _ _ H) as (r1 & Hr1 & <-).
      rewrite Hl in Hr1. by simplify_eq.
    + rewrite lookup_insert_ne by done. by apply (wf_id t W).
  - intros h l' H. simpl in *.
    assert ((l' = l ∧ h = r_Hash (updated now inp t r0) ∧ h ≠ "") ∨ (l' ≠ l ∧ byHash t !! h = Some l'))
      as [(-> & -> & Hne)|[Hne Ho]].
    { assert (byHash t !! h = Some l → h = r_Hash r0 ∧ h ≠ "") as Hold.
      { intros Ho. destruct (wf_hash t W _ _ Ho) as (r1 & Hr1 & <- & Hn & _). rewrite Hl in Hr1. by simplify_eq. }
      unfold updated in *. destruct (uu_Credential inp) as [c|]; simpl in *; [case_decide|].
      - apply lookup_delete_Some in H as [Hn H]. right. split; [|done]. intros ->. by destruct (Hold H).
      - apply lookup_insert_Some in H as [[<- <-]|[Hn H]]; [by left|].
        apply lookup_delete_Some in H as [Hn' H]. right. split; [|done]. intros ->. by destruct (Hold H).
      - destruct (decide (l' = l)) as [->|]; [left|by right]. destruct (Hold H). done. }
    + eexists. split; [apply lookup_insert_eq|]. done.
    + destruct (wf_hash t W _ _ Ho) as (r1 & ? & ? & ? & ?). exists r1. by rewrite lookup_insert_ne.
  - intros id1 id2 r1 r2. rewrite !(update_table_user now inp l r0 t (u_ID (r_User r0))) by done.
    assert (user_record t (u_ID (r_User r0)) = Some r0) as Hu by (unfold user_record; by rewrite Hid).
    repeat case_decide; intros; simplify_eq; simpl in *; try done; eapply (wf_name t W); eauto.
Qed.

Lemma Update_wf o now id inp t : wf t → wf (snd (Update o now id inp t)).
Proof.
  intros W. rewrite Update_spec by done. unfold user_record.
  destruct (byID t !! id) as [l|] eqn:E; [|done]. simpl. destruct (heap t !! l) as [r|] eqn:Er; [|done].
  pose proof (flushLocked_wf o _ (update_table_wf now inp l r t id W E Er)).
  by destruct (flushLocked o _) as [[] t'].
Qed.

(** The table without the user [id], before it is flushed. *)
Definition delete_table (id : string) (h : string) (t : table) : table :=
  t <| byID ::= delete id |> <| byHash ::= delete h |>.

Lemma Delete_spec o id t :
  Delete o id t =
  match byID t !! id with
  | None => (Some ErrNotFound, t)
  | Some l => flushLocked o (delete_table id (from_option r_Hash "" (heap t !! l)) t)
  end.
Proof. done. Qed.

Lemma delete_table_user id h t id' :
  user_record (delete_table id h t) id' = if decide (id' = id) then None else user_record t id'.
Proof.
  unfold user_record, delete_table. simpl. case_decide; subst; [by rewrite lookup_delete_eq|].
  by rewrite lookup_delete_ne.
Qed.

Lemma delete_table_wf id t l r :
  wf t → byID t !! id = Some l → heap t !! l = Some r → wf (delete_table id (r_Hash r) t).
Proof.
  intros W Hid Hl. constructor.
  - simpl. intros id' l' [_ H]%lookup_delete_Some. by apply (wf_id t W).
  - simpl. intros h l' [Hne H]%lookup_delete_Some. destruct (wf_hash t W _ _ H) as (r' & Hr' & Hh & Hn & Hi).
    exists r'. split_and!; [done..|]. rewrite lookup_delete_ne; [done|].
    intros ->. rewrite Hi in Hid. simplify_eq.
  - intros id1 id2 r1 r2. rewrite !delete_table_user. repeat case_decide; try done. apply (wf_name t W).
Qed.

Lemma Delete_wf o id t : wf t → wf (snd (Delete o id t)).
Proof.
  intros W. rewrite Delete_spec. destruct (byID t !! id) as [l|] eqn:E; [|done].
  destruct (wf_id t W _ _ E) as (r & Hr & _). rewrite Hr. simpl.
  apply flushLocked_wf. by eapply delete_table_wf.
Qed.

(** ** Reachable tables *)

Inductive store_step : table → table → Prop :=
| step_create o newID now inp t :
    byID t !! newID = None → store_step t (snd (Create o newID now inp t))
| step_update o now id inp t : store_step t (snd (Update o now id inp t))
| step_delete o id t : store_step t (snd (Delete o id t)).

(** No two records have the same id or the same name. *)
Definition distinct (recs : list record) : Prop :=
  NoDup ((u_ID ∘ r_User) <$> recs) ∧ NoDup ((u_Username ∘ r_User) <$> recs).

(** A store as main opens it: in memory, or on a file - there may be none yet, and its contents need
    not come from this program, but ids and names in it are distinct. *)
Inductive opened : table → Prop :=
| opened_memory p : opened (New p)
| opened_file o path p file t :
    NewFile o path p file = Ok t → (∀ b recs, file = Some b → os_unmarshal o b = Ok recs → distinct recs) → opened t.

Lemma distinct_tail r rs : distinct (r :: rs) → distinct rs.
Proof. by intros [[_ ?]%NoDup_cons [_ ?]%NoDup_cons]. Qed.

(** The records still to load stay new to the table. *)
Lemma load_record_apart t r rs :
  wf t → distinct (r :: rs) →
  (∀ r', r' ∈ r :: rs → byID t !! u_ID (r_User r') = None ∧ username_taken t (u_Username (r_User r')) = false) →
  ∀ r', r' ∈ rs →
    byID (load_record t r) !! u_ID (r_User r') = None ∧ username_taken (load_record t r) (u_Username (r_User r')) = false.
Proof.
  intros W [[Hi1 _]%NoDup_cons [Hn1 _]%NoDup_cons] Ha r' Hr'. destruct (Ha r) as [Hid Hu]; [by left|].
  pose proof (load_record_wf t r W Hid Hu) as W1. destruct (Ha r') as [Hid' Hu']; [by right|]. split.
  - rewrite load_record_byID, lookup_insert_ne; [done|]. intros E. apply Hi1, list_elem_of_fmap. by exists r'.
  - apply not_true_iff_false. intros (id & r2 & Hr2 & E)%username_taken_spec; [|done].
    rewrite load_record_user in Hr2 by done. case_decide; simplify_eq.
    + apply Hn1, list_elem_of_fmap. by exists r'.
    + apply not_true_iff_false in Hu'. apply Hu', username_taken_spec; [done|]. by exists id, r2.
Qed.

Lemma load_records_wf recs t :
  wf t → distinct recs →
  (∀ r, r ∈ recs → byID t !! u_ID (r_User r) = None ∧ username_taken t (u_Username (r_User r)) = false) →
  wf (foldl load_record t recs).
Proof.
  revert t. induction recs as [|r recs IH]; intros t W Hd Ha; [done|]. simpl. destruct (Ha r) as [Hid Hu]; [by left|].
  apply IH; [by apply load_record_wf|by eapply distinct_tail|by apply load_record_apart].
Qed.

Lemma empty_wf p path file : wf (mkTable ∅ ∅ ∅ p path file).
Proof. constructor; unfold user_record; simpl; intros *; rewrite ?lookup_empty; done. Qed.

Lemma opened_wf t : opened t → wf t.
Proof.
  intros [p|o path p file t' Ho Hd]; [apply New_wf|]. unfold NewFile, load in Ho. simpl in Ho.
  destruct (decide (path = "")); [injection Ho as <-; apply empty_wf|]. destruct file as [b|]; [|injection Ho as <-; apply empty_wf].
  destruct (os_read o); [done|]. destruct (os_unmarshal o b) as [recs|] eqn:E; [|done]. injection Ho as <-.
  apply load_records_wf; [apply empty_wf|by eapply Hd|done].
Qed.

Lemma store_step_wf t t' : store_step t t' → wf t → wf t'.
Proof. intros []; auto using Create_wf, Update_wf, Delete_wf. Qed.

Lemma store_steps_wf t t' : rtc store_step t t' → wf t → wf t'.
Proof. induction 1; eauto using store_step_wf. Qed.

(** ** Authentication *)

(** The policy: enabled, and the region listed or the wildcard. *)
Definition permits (u : User) (region : string) : Prop :=
  u_Status u = UserEnabled ∧ ("*"%string ∈ u_AllowedRegions u ∨ region ∈ u_AllowedRegions u).

Lemma regionAllowed_spec allowed region :
  regionAllowed allowed region = true ↔ "*"%string ∈ allowed ∨ region ∈ allowed.
Proof.
  unfold regionAllowed. rewrite existsb_exists. split.
  - intros (a & Ha%list_elem_of_In & [->%bool_decide_eq_true| ->%bool_decide_eq_true]%orb_true_iff); auto.
  - intros [H|H]; [exists "*"%string|exists region]; (split; [by apply list_elem_of_In|]);
      apply orb_true_iff; [left|right]; by apply bool_decide_eq_true_2.
Qed.

Lemma check_policy_spec u region u' :
  check_policy u region = Ok u' ↔ u' = u ∧ permits u region.
Proof.
  unfold check_policy, permits. rewrite <- regionAllowed_spec.
  case_decide as Hs; [naive_solver|]. destruct (regionAllowed _ _); naive_solver.
Qed.

Lemma authenticate_spec t token region :
  wf t →
  AuthenticateForRegion token region t =
  match byHash t !! hashToken t token ≫= λ l, heap t !! l with
  | Some r => check_policy (r_User r) region
  | None => Err ErrBadToken
  end.
Proof.
  intros W. unfold AuthenticateForRegion. destruct (_ ≫= _) as [r|] eqn:E; [|done].
  case_decide as Ht; [|done]. exfalso. subst token.
  destruct (byHash t !! hashToken t "") as [l|] eqn:El; [|done].
  by destruct (wf_hash t W _ _ El) as (? & _ & _ & ? & _).
Qed.

(** ** Reloading a file *)

(** The record a hash leads to. *)
Definition hash_record (t : table) (h : string) : option record :=
  byHash t !! h ≫= λ l, heap t !! l.

(** Every credential leads to its user; so no two users share one. *)
Definition indexed (t : table) : Prop :=
  ∀ id r, user_record t id = Some r → r_Hash r ≠ "" → hash_record t (r_Hash r) = Some r.

Lemma load_record_hash t r h :
  wf t → hash_record (load_record t r) h =
    if decide (h = r_Hash r ∧ h ≠ "") then Some r else hash_record t h.
Proof.
  intros W. unfold hash_record. rewrite load_record_heap. unfold load_record.
  assert (∀ l, byHash t !! h = Some l → <[alloc t:=r]> (heap t) !! l = heap t !! l) as Hold.
  { intros l Hl. destruct (wf_hash t W _ _ Hl) as (r' & Hr' & _). rewrite lookup_insert_ne; [done|].
    intros <-. by rewrite alloc_fresh in Hr'. }
  case_decide as He; case_decide as Hd; simpl.
  - naive_solver.
  - destruct (byHash t !! h) eqn:E; [|done]. simpl. by apply Hold.
  - destruct Hd as [-> _]. rewrite lookup_insert_eq. simpl. by rewrite lookup_insert_eq.
  - rewrite lookup_insert_ne by naive_solver. destruct (byHash t !! h) eqn:E; [|done]. simpl. by apply Hold.
Qed.

(** Loading a list of distinct records: an id leads to the record that has it, a hash to one that has it. *)
Lemma load_all rs t :
  wf t → distinct rs →
  (∀ r, r ∈ rs → byID t !! u_ID (r_User r) = None ∧ username_taken t (u_Username (r_User r)) = false) →
  let t' := foldl load_record t rs in
  wf t' ∧ pepper t' = pepper t ∧
  (∀ id r, user_record t' id = Some r ↔ (r ∈ rs ∧ u_ID (r_User r) = id) ∨ user_record t id = Some r) ∧
  (∀ h, h ≠ "" → (∃ r, r ∈ rs ∧ r_Hash r = h ∧ hash_record t' h = Some r) ∨
                 ((∀ r, r ∈ rs → r_Hash r ≠ h) ∧ hash_record t' h = hash_record t h)).
Proof.
  revert t. induction rs as [|r rs IH]; intros t W Hd Ha t'.
  { split_and!; [done..| |]; intros *; [split; [by right|intros [[[]%elem_of_nil _]|?]; done]|].
    right. split; [by intros ? ?%elem_of_nil|done]. }
  destruct (Ha r) as [Hid Hu]; [by left|]. pose proof (load_record_wf t r W Hid Hu) as W1.
  destruct (IH (load_record t r) W1) as (W' & Hp & Hur & Hhr).
  { by eapply distinct_tail. } { by apply load_record_apart. }
  change (foldl load_record (load_record t r) rs) with t' in *.
  split_and!; [done|rewrite Hp; unfold load_record; by case_decide|..].
  - intros id r'. rewrite Hur, load_record_user, elem_of_cons by done.
    assert (user_record t (u_ID (r_User r)) = None) by (unfold user_record; by rewrite Hid).
    case_decide; naive_solver.
  - intros h Hn. destruct (Hhr h Hn) as [(r' & ? & ? & ?)|[Hno E]]; [left; exists r'; set_solver|].
    rewrite load_record_hash in E by done. case_decide as Hd'.
    + left. exists r. destruct Hd' as [-> _]. split_and!; [by left|done|done].
    + right. split; [|done]. intros r' [->|?]%elem_of_cons; [naive_solver|eauto].
Qed.

Lemma records_NoDup {A} (f : record → A) t :
  wf t → (∀ id1 id2 r1 r2, user_record t id1 = Some r1 → user_record t id2 = Some r2 → f r1 = f r2 → id1 = id2) →
  NoDup (f <$> records t).
Proof.
  intros W Hf. unfold records. pose proof (NoDup_fst_map_to_list (byID t)) as Hnd.
  assert (∀ kl, kl ∈ map_to_list (byID t) → byID t !! kl.1 = Some kl.2) as Hl
    by (intros [] ?; by apply elem_of_map_to_list).
  induction (map_to_list (byID t)) as [|[id l] kvs IH]; [constructor|].
  inversion Hnd as [|? ? Hnin Hnd']; subst. simpl.
  assert (NoDup (f <$> omap (λ kl, heap t !! kl.2) kvs)) as IH'.
  { apply IH; [done|]. intros kl ?. apply Hl. by right. }
  destruct (heap t !! l) as [r|] eqn:Er; [|done]. simpl. constructor; [|done].
  intros (r' & E & ([id' l'] & Hin & Hr')%list_elem_of_omap)%list_elem_of_fmap. simpl in Hr'.
  apply Hnin. apply list_elem_of_fmap. exists (id', l'). split; [|done]. simpl.
  apply (Hf id id' r r'); [..|done]; unfold user_record.
  - pose proof (Hl (id, l) ltac:(by left)) as Hx. simpl in Hx. by rewrite Hx.
  - pose proof (Hl (id', l') ltac:(by right)) as Hx. simpl in Hx. by rewrite Hx.
Qed.

(** ** What the store promises to the broker *)

(** The record authorised by name. *)
Lemma authorize_sound t username region u :
  AuthorizeUser username region t = Ok u → permits u region.
Proof.
  unfold AuthorizeUser. destruct (List.find _ _); [|done]. intros H. by apply check_policy_spec in H as [-> ?].
Qed.

Lemma authenticate_permits t token region u :
  AuthenticateForRegion token region t = Ok u → permits u region.
Proof.
  unfold AuthenticateForRegion. destruct (_ ≫= _); [|done]. case_decide; [done|].
  intros Hc. by apply check_policy_spec in Hc as [-> ?].
Qed.

(** ** Properties *)

(** C5. Whatever the history of creations, updates and deletions - failed writes to the file
    included - of a store in memory or on a file whose users have distinct ids and names, a token only
    ever authenticates as a current user whose stored hash is the token's, who is enabled and whose
    regions include the requested one or the wildcard. *)
Theorem authenticate_sound t0 t token region u :
  opened t0 → rtc store_step t0 t → AuthenticateForRegion token region t = Ok u →
  ∃ r, user_record t (u_ID u) = Some r ∧ r_User r = u ∧ r_Hash r = hashToken t token ∧ token ≠ "" ∧
       permits u region.
Proof.
  intros Ho Hst Ha. assert (wf t) as W by (eapply store_steps_wf; [done|by apply opened_wf]).
  assert (token ≠ "") as Ht.
  { intros ->. unfold AuthenticateForRegion in Ha. destruct (_ ≫= _); [|done]. by rewrite decide_True in Ha. }
  rewrite authenticate_spec in Ha by done.
  destruct (byHash t !! _) as [l|] eqn:E; [|done]. destruct (wf_hash t W _ _ E) as (r & Hr & Hh & _ & Hi).
  simpl in Ha. rewrite Hr in Ha. apply check_policy_spec in Ha as [-> Hp].
  exists r. split_and!; try done. unfold user_record. rewrite Hi. done.
Qed.

Lemma hashToken_pepper t t' token : pepper t = pepper t' → hashToken t token = hashToken t' token.
Proof. unfold hashToken. by intros ->. Qed.

Lemma auth_bad_token t h l token region :
  byHash t !! h = None → hashToken t token = h → heap t = l → AuthenticateForRegion token region t = Err ErrBadToken.
Proof. intros H <- _. unfold AuthenticateForRegion. by rewrite H. Qed.

(** C11. Revocation takes effect at once, even if the write to the file fails: the token of a deleted
    user, and the old token of a user whose credential was changed, are refused; a user set to any
    status but enabled is refused whatever the token. *)
Theorem revocation_is_immediate o now t id r token region :
  wf t → user_record t id = Some r → hashToken t token = r_Hash r →
  AuthenticateForRegion token region (snd (Delete o id t)) = Err ErrBadToken ∧
  (∀ a s c, hashToken t c ≠ r_Hash r →
     AuthenticateForRegion token region (snd (Update o now id (mkUserUpdate a s (Some c)) t)) = Err ErrBadToken) ∧
  (∀ a s c tok u, s ≠ UserEnabled →
     AuthenticateForRegion tok region (snd (Update o now id (mkUserUpdate a (Some s) c) t)) = Ok u →
     u_ID u ≠ id).
Proof.
  intros W Hu Htok. unfold user_record in Hu. destruct (byID t !! id) as [l|] eqn:E; [|done]. simpl in Hu.
  split_and!.
  - rewrite Delete_spec, E, Hu. simpl. destruct (flushLocked_maps o (delete_table id (r_Hash r) t)) as (_ & _ & H & Hp & _).
    eapply (auth_bad_token _ (r_Hash r)); [by rewrite H; simpl; rewrite lookup_delete_eq| |done].
    by rewrite (hashToken_pepper _ t).
  - intros a s c Hc. rewrite Update_spec by done. unfold user_record. rewrite E. simpl. rewrite Hu.
    set (inp := mkUserUpdate a s (Some c)). destruct (flushLocked_maps o (update_table now inp l r t)) as (_ & _ & H & Hp & _).
    destruct (flushLocked o _) as [[] t']; simpl in *;
      (eapply (auth_bad_token _ (r_Hash r)); [rewrite H|by rewrite (hashToken_pepper _ t)|done]);
      (case_decide; [|rewrite lookup_insert_ne by done]; by rewrite lookup_delete_eq).
  - intros a s c tok u Hs Ha <-. set (inp := mkUserUpdate a (Some s) c) in *.
    pose proof (Update_wf o now (u_ID u) inp t W) as W'. rewrite Update_spec in W', Ha by done.
    unfold user_record in W', Ha. rewrite E in W', Ha. simpl in W', Ha. rewrite Hu in W', Ha.
    pose proof (flushLocked_maps o (update_table now inp l r t)) as H.
    destruct (flushLocked o (update_table now inp l r t)) as [err t'].
    assert (wf t' ∧ AuthenticateForRegion tok region t' = Ok u) as [W2 Ha2] by (by destruct err).
    clear W' Ha. rewrite authenticate_spec in Ha2 by done.
    destruct (byHash t' !! _) as [l'|] eqn:El; [|done]. destruct (wf_hash t' W2 _ _ El) as (r' & Hr' & _ & _ & Hi).
    simpl in Ha2. rewrite Hr' in Ha2. apply check_policy_spec in Ha2 as [-> [Hen _]].
    destruct H as (Eh & Ei & _). simpl in Eh, Ei. rewrite Ei, E in Hi. simplify_eq.
    rewrite Eh, lookup_insert_eq in Hr'. by simplify_eq.
Qed.

(** A user who was just created can use their credential at once, subject to the policy alone:
    authentication with it answers the policy check of the new user. *)
Lemma Create_authenticates o newID now inp t u t' region :
  wf t → byID t !! newID = None → uc_Credential inp ≠ "" → hmac (pepper t) (uc_Credential inp) ≠ "" →
  Create o newID now inp t = (Ok u, t') →
  AuthenticateForRegion (uc_Credential inp) region t' = check_policy u region ∧
  Get newID t' = Ok u ∧ u_Username u = uc_Username inp ∧ u_AllowedRegions u = uc_AllowedRegions inp.
Proof.
  intros W Hid Hc Hm HC. pose proof (Create_wf o newID now inp t W Hid) as W'. rewrite HC in W'. simpl in W'.
  rewrite Create_spec in HC. destruct (username_taken t _); [done|].
  pose proof (flushLocked_maps o (load_record t (created newID now inp t))) as H.
  destruct (flushLocked o _) as [[] t1]; [done|]. injection HC as <- <-. simpl in H.
  destruct H as (Eh & Ei & Ehash & Ep & _).
  assert (r_Hash (created newID now inp t) = hmac (pepper t) (uc_Credential inp)) as Er.
  { simpl. unfold hashToken, hmacToken. by rewrite decide_False. }
  assert (pepper t1 = pepper t) as Ep' by (rewrite Ep; unfold load_record; by case_decide).
  assert (byHash (load_record t (created newID now inp t)) !! hmac (pepper t) (uc_Credential inp)
          = Some (alloc t)) as Hb.
  { unfold load_record. rewrite decide_False by (by rewrite Er). cbn -[created]. rewrite Er.
    apply lookup_insert_eq. }
  split_and!; [|..|done|done].
  - rewrite authenticate_spec by done. unfold hashToken, hmacToken.
    rewrite decide_False, Ep', Ehash, Eh, Hb by done. simpl.
    by rewrite load_record_heap, lookup_insert_eq.
  - unfold Get. rewrite Ei, Eh, load_record_byID, load_record_heap. cbn [created r_User u_ID].
    rewrite lookup_insert_eq. simpl. by rewrite lookup_insert_eq.
Qed.

(** Two users must not share a credential: when they do, deleting one of them (or changing its
    credential) revokes the token of the other, which stays enabled with its region policy. *)
Theorem shared_credential_locks_out o t id1 id2 r1 r2 token region :
  wf t → id1 ≠ id2 → user_record t id1 = Some r1 → user_record t id2 = Some r2 →
  r_Hash r1 = r_Hash r2 → hashToken t token = r_Hash r1 → permits (r_User r1) region →
  let t' := snd (Delete o id2 t) in
  AuthenticateForRegion token region t' = Err ErrBadToken ∧ user_record t' id1 = Some r1.
Proof.
  intros W Hne H1 H2 Hh Ht Hp t'. unfold user_record in H2. destruct (byID t !! id2) as [l|] eqn:E; [|done].
  simpl in H2. unfold t'. rewrite Delete_spec, E, H2. simpl.
  destruct (flushLocked_maps o (delete_table id2 (r_Hash r2) t)) as (Eh & Ei & H & Hpp & _). split.
  - eapply (auth_bad_token _ (r_Hash r2)); [by rewrite H; simpl; rewrite lookup_delete_eq| |done].
    rewrite (hashToken_pepper _ t); [congruence|done].
  - pose proof (delete_table_user id2 (r_Hash r2) t id1) as Hd. rewrite decide_False in Hd by done.
    unfold user_record in *. by rewrite Eh, Ei, Hd.
Qed.

(** Text that [encoding/json] reproduces: valid UTF-8 (it replaces other bytes by U+FFFD). *)
Definition user_text (u : User) : list string := u_ID u :: u_Username u :: u_Status u :: u_AllowedRegions u.
Definition record_text (r : record) : list string := r_Hash r :: user_text (r_User r).

(** What the documentation of [encoding/json] promises of [Marshal] and [Unmarshal]. *)
Definition codec_law (o : os_env) : Prop :=
  ∀ rs b, Forall (λ r, Forall (λ x, utf8 x = true) (record_text r)) rs → os_marshal o rs = Ok b → os_unmarshal o b = Ok rs.

Lemma user_record_id t id r : wf t → user_record t id = Some r → u_ID (r_User r) = id.
Proof.
  intros W Hr. unfold user_record in Hr. destruct (byID t !! id) as [l|] eqn:E; [|done]. simpl in Hr.
  destruct (wf_id t W _ _ E) as (r' & Hr' & <-). congruence.
Qed.

Lemma wf_no_empty t : wf t → byHash t !! ""%string = None.
Proof. intros W. apply eq_None_not_Some. intros [l Hl]. by destruct (wf_hash t W _ _ Hl) as (? & _ & _ & ? & _). Qed.

Lemma records_distinct t : wf t → distinct (records t).
Proof.
  intros W. split; apply records_NoDup; [done| |done|apply (wf_name t W)].
  intros * H1%user_record_id H2%user_record_id; [|done..]. simpl. congruence.
Qed.

End userstore.

(** The interface the broker authenticates against. *)
Class UserRegistry (U : Type) := {
  reg_authenticate : string → string → U → result store_error User;
  reg_authorize : string → string → U → result store_error User;
  reg_authenticate_permits token region s u : reg_authenticate token region s = Ok u → permits u region;
  reg_authorize_permits name region s u : reg_authorize name region s = Ok u → permits u region
}.

#[export] Instance table_UserRegistry (hmac : string → string → string) : UserRegistry table := {
  reg_authenticate := AuthenticateForRegion hmac;
  reg_authorize := AuthorizeUser;
  reg_authenticate_permits token region s u := authenticate_permits hmac s token region u;
  reg_authorize_permits name region s u := authorize_sound hmac s name region u
}.

(** ** A concrete store: a transparent hash and an operating system that works *)

Definition demo_hmac (pepper token : string) : string := (pepper ++ ":" ++ token)%string.

Definition demo_os : os_env :=
  mkOS (λ _, Err "no file") (λ _, Err "no file") None None None None.

Definition alice_in : UserCreate := mkUserCreate "alice" "tok-a" ["eu"] "".
Definition bob_in : UserCreate := mkUserCreate "bob" "tok-b" ["*"] "enabled".
Definition demo_table : table :=
  snd (Create demo_hmac demo_os "id-2" 20 bob_in (snd (Create demo_hmac demo_os "id-1" 10 alice_in (New "p")))).

Lemma demo_steps : rtc (store_step demo_hmac) (New "p") demo_table.
Proof.
  eapply rtc_l; [by apply (step_create demo_hmac demo_os "id-1" 10 alice_in)|].
  eapply rtc_l; [by apply (step_create demo_hmac demo_os "id-2" 20 bob_in)|]. apply rtc_refl.
Qed.

Lemma demo_wf : wf demo_table.
Proof. eapply store_steps_wf; [apply demo_steps|apply New_wf]. Qed.

Definition alice : User := mkUser "id-1" "alice" ["eu"] UserEnabled 0 10 10.

Lemma revocation_is_immediate_witness :
  AuthenticateForRegion demo_hmac "tok-a" "eu" (snd (Delete demo_os "id-1" demo_table)) = Err ErrBadToken ∧
  (∀ a s c, hashToken demo_hmac demo_table c ≠ "p:tok-a"%string →
     AuthenticateForRegion demo_hmac "tok-a" "eu"
       (snd (Update demo_hmac demo_os 30 "id-1" (mkUserUpdate a s (Some c)) demo_table)) = Err ErrBadToken) ∧
  (∀ a s c tok u, s ≠ UserEnabled →
     AuthenticateForRegion demo_hmac tok "eu"
       (snd (Update demo_hmac demo_os 30 "id-1" (mkUserUpdate a (Some s) c) demo_table)) = Ok u →
     u_ID u ≠ "id-1"%string).
Proof.
  apply (revocation_is_immediate demo_hmac demo_os 30 demo_table "id-1" (mkRecord alice "p:tok-a") "tok-a" "eu");
    [apply demo_wf|vm_compute; reflexivity..].
Defined.

Lemma Create_authenticates_example :
  let '(r, t') := Create demo_hmac demo_os "id-3" 30 (mkUserCreate "carol" "tok-c" ["us"] "") demo_table in
  ∃ u, r = Ok u ∧ AuthenticateForRegion demo_hmac "tok-c" "us" t' = check_policy u "us" ∧
       Get "id-3" t' = Ok u ∧ u_Username u = "carol"%string ∧ u_AllowedRegions u = ["us"%string].
Proof.
  destruct (Create demo_hmac demo_os "id-3" 30 (mkUserCreate "carol" "tok-c" ["us"%string] "") demo_table)
    as [r t'] eqn:E.
  assert (r = Ok (mkUser "id-3" "carol" ["us"%string] UserEnabled 0 30 30)) as Hr.
  { apply (f_equal fst) in E. vm_compute in E. by rewrite <- E. }
  rewrite Hr in E |- *. eexists. split; [reflexivity|].
  apply (Create_authenticates demo_hmac demo_os "id-3" 30 (mkUserCreate "carol" "tok-c" ["us"%string] "")
           demo_table _ t' "us"); [apply demo_wf|vm_compute; reflexivity|done|vm_compute; discriminate|exact E].
Defined.

(** Bob again, with Alice's token. *)
Definition shared_table : table :=
  snd (Create demo_hmac demo_os "id-2" 20 (mkUserCreate "bob" "tok-a" ["*"] "")
        (snd (Create demo_hmac demo_os "id-1" 10 alice_in (New "p")))).

Lemma shared_wf : wf shared_table.
Proof. apply Create_wf; [apply Create_wf; [apply New_wf|done]|done]. Qed.

Lemma shared_credential_locks_out_witness :
  let t' := snd (Delete demo_os "id-2" shared_table) in
  AuthenticateForRegion demo_hmac "tok-a" "eu" t' = Err ErrBadToken ∧
  user_record t' "id-1" = Some (mkRecord alice "p:tok-a").
Proof.
  apply (shared_credential_locks_out demo_hmac demo_os shared_table "id-1" "id-2" (mkRecord alice "p:tok-a")
           (mkRecord (mkUser "id-2" "bob" ["*"%string] UserEnabled 0 20 20) "p:tok-a") "tok-a" "eu");
    [apply shared_wf|done|vm_compute; reflexivity..|]. split; [done|right; by left].
Defined.

(** A codec for the two records of [demo_table]. *)
Definition demo_records : list record := records demo_table.
#[export] Instance User_eq_dec : EqDecision User.
Proof. solve_decision. Defined.
#[export] Instance record_eq_dec : EqDecision record.
Proof. solve_decision. Defined.
Definition file_os : os_env :=
  mkOS (λ rs, if decide (rs = demo_records) then Ok [x01] else Err "unknown") (λ _, Ok demo_records)
       None None None None.
Definition file_store : table := mkTable ∅ ∅ ∅ "p" "/var/lib/users.json" None.

(** Alice's record cannot be written; with Bob's, both are. *)
Definition file_table1 : table := snd (Create demo_hmac file_os "id-1" 10 alice_in file_store).
Definition file_table : table := snd (Create demo_hmac file_os "id-2" 20 bob_in file_table1).

Example alice_not_written :
  fst (Create demo_hmac file_os "id-1" 10 alice_in file_store) = Err (ErrIO "unknown") ∧
  file file_table1 = None ∧ file file_table = Some [x01].
Proof. split_and!; vm_compute; reflexivity. Qed.

Lemma file_opened : opened file_store.
Proof. apply (opened_file file_os "/var/lib/users.json" "p" None); [vm_compute; reflexivity|discriminate 1]. Qed.

Lemma file_steps : rtc (store_step demo_hmac) file_store file_table.
Proof.
  apply (rtc_l _ _ file_table1); [|apply (rtc_l _ _ file_table); [|apply rtc_refl]]; unfold file_table1, file_table.
  - apply (step_create demo_hmac file_os "id-1" 10 alice_in). reflexivity.
  - apply (step_create demo_hmac file_os "id-2" 20 bob_in). vm_compute. reflexivity.
Qed.

Lemma authenticate_sound_witness :
  ∃ r, user_record file_table (u_ID alice) = Some r ∧ r_User r = alice ∧
       r_Hash r = hashToken demo_hmac file_table "tok-a" ∧ "tok-a"%string ≠ "" ∧ permits alice "eu".
Proof.
  apply (authenticate_sound demo_hmac file_store file_table "tok-a" "eu" alice);
    [apply file_opened|apply file_steps|vm_compute; reflexivity].
Defined.

