(* ===== verification/SqlUsers.v ===== *)
(** * internal/userstore/sqlite.go: the user store on SQLite

    The database engine is a parameter: [UserDB] has the statements the store executes, as data, and
    [UserDBLaws] what SQL promises of them, on the rows of the table [users].  A statement may fail;
    [reliable] says that only violations of the table's UNIQUE and PRIMARY KEY constraints do.  The
    texts stored in the columns (JSON of the regions, RFC 3339 times) are made by parameters too.

    The store is proved to refine the in-memory table of [UserStore]: the same calls get the same
    answers. *)
From S2P Require Import Prelude GoTime AdminAPI UserStore.

Open Scope Z_scope.

(** A row of the table [users], and the columns that are searched. *)
Record row := mkRow {
  w_id : string; w_username : string; w_hash : string; w_regions : string; w_status : string;
  w_created : string; w_updated : string
}.
Inductive column := CId | CUsername | CTokenHash.
Definition cell (c : column) (w : row) : string :=
  match c with CId => w_id w | CUsername => w_username w | CTokenHash => w_hash w end.

(** The statements: [INSERT], [UPDATE ... WHERE id=?] with or without the hash, [DELETE ... WHERE id=?]. *)
Inductive statement :=
| SInsert (w : row)
| SUpdate (regions status updated : string) (hash : option string) (id : string)
| SDelete (id : string).

Class UserDB (D : Type) := {
  db_Exec : statement → D → result string Z * D;                        (* the number of rows affected *)
  db_Query : option (column * string) → D → result string (list row)    (* all rows, or those with a value *)
}.

(** ** The engine's promises *)

Definition selected (q : option (column * string)) (w : row) : Prop :=
  match q with Some (c, v) => cell c w = v | None => True end.
#[export] Instance selected_dec q w : Decision (selected q w).
Proof. destruct q as [[]|]; simpl; apply _. Defined.

Definition conflicts (w : row) (ws : list row) : Prop :=
  ∃ w', w' ∈ ws ∧ (w_id w' = w_id w ∨ w_username w' = w_username w).

Definition updated_row (regions status updated : string) (hash : option string) (w : row) : row :=
  mkRow (w_id w) (w_username w) (default (w_hash w) hash) regions status (w_created w) updated.

(** The rows after a statement that succeeded, and their number it reports. *)
Definition effect (s : statement) (ws : list row) : list row * Z :=
  match s with
  | SInsert w => (ws ++ [w], 1)
  | SUpdate rg st up h id =>
      ((λ w, if decide (w_id w = id) then updated_row rg st up h w else w) <$> ws,
       Z.of_nat (length (filter (λ w, w_id w = id) ws)))
  | SDelete id => (filter (λ w, w_id w ≠ id) ws, Z.of_nat (length (filter (λ w, w_id w = id) ws)))
  end.

Class UserDBLaws (D : Type) `{UserDB D} := {
  rows_of : D → list row;
  Exec_ok s d n d' : db_Exec s d = (Ok n, d') → (rows_of d', n) = effect s (rows_of d);
  Exec_err s d e d' : db_Exec s d = (Err e, d') → rows_of d' = rows_of d;
  Exec_unique w d n d' : db_Exec (SInsert w) d = (Ok n, d') → ¬ conflicts w (rows_of d);
  Query_ok q d ws : db_Query q d = Ok ws → ws ≡ₚ filter (selected q) (rows_of d)
}.

(** Nothing fails but what violates a constraint. *)
Definition reliable (D : Type) `{UserDBLaws D} : Prop :=
  (∀ s d e, fst (db_Exec s d) = Err e → ∃ w, s = SInsert w ∧ conflicts w (rows_of d)) ∧
  (∀ q d, ∃ ws, db_Query q d = Ok ws).

(** ** The store *)

Section sqlstore.
Context {D : Type} `{UserDB D}.
Context (hmac : string → string → string).
Context (json : list string → string) (regions_json : string → option (list string)).
Context (Format : Time → string) (Parse : string → option Time).

Record sqlStore := mkSql { db : D; sql_pepper : string }.

(** [NewSQLite] from what opening the file and creating the tables return. *)
Definition NewSQLite (opened : result string D) (schema : D → option string * D) (pepper : string)
  : result string sqlStore :=
  match opened with
  | Err e => Err e
  | Ok d => match schema d with (Some e, _) => Err e | (None, d) => Ok (mkSql d pepper) end
  end.

Definition marshalRegions (r : list string) : string := json r.
Definition unmarshalRegions (s : string) : list string := default [] (regions_json s).

Definition exec (s : statement) (st : sqlStore) : result string Z * sqlStore :=
  let '(r, d) := db_Exec s (db st) in (r, mkSql d (sql_pepper st)).

Definition Create (newID : string) (now : Time) (inp : UserCreate) (st : sqlStore) : result store_error User * sqlStore :=
  let status := if decide (uc_Status inp = "") then UserEnabled else uc_Status inp in
  let u := mkUser newID (uc_Username inp) (uc_AllowedRegions inp) status 0 now now in
  match exec (SInsert (mkRow (u_ID u) (u_Username u) (hmacToken hmac (sql_pepper st) (uc_Credential inp))
                         (marshalRegions (u_AllowedRegions u)) (u_Status u) (Format now) (Format now))) st with
  | (Err _, st) => (Err ErrConflict, st)
  | (Ok _, st) => (Ok u, st)
  end.

Definition scanUser (w : row) : User :=
  mkUser (w_id w) (w_username w) (unmarshalRegions (w_regions w)) (w_status w) 0
    (default 0 (Parse (w_created w))) (default 0 (Parse (w_updated w))).

(** [QueryRow] and [scanUser]: the first row, [None] for [sql.ErrNoRows]. *)
Definition QueryRow (c : column) (v : string) (st : sqlStore) : result store_error (option User) :=
  match db_Query (Some (c, v)) (db st) with
  | Err e => Err (ErrIO e)
  | Ok ws => Ok (scanUser <$> head ws)
  end.

Definition Get (id : string) (st : sqlStore) : result store_error User :=
  match QueryRow CId id st with
  | Ok None => Err ErrNotFound
  | Ok (Some u) => Ok u
  | Err e => Err e
  end.

Definition List (region status : string) (st : sqlStore) : list User :=
  match db_Query None (db st) with
  | Err _ => []
  | Ok ws =>
      filter (λ u, (status = "" ∨ u_Status u = status) ∧
                   (region = "" ∨ regionAllowed (u_AllowedRegions u) region = true)) (scanUser <$> ws)
  end.

(** The changes [Update] makes to the user it has read. *)
Definition changed (now : Time) (inp : UserUpdate) (u : User) : User :=
  let u := match uu_AllowedRegions inp with Some a => u <| u_AllowedRegions := a |> | None => u end in
  let u := match uu_Status inp with Some s => u <| u_Status := s |> | None => u end in
  u <| u_UpdatedAt := now |>.

Definition Update (now : Time) (id : string) (inp : UserUpdate) (st : sqlStore) : result store_error User * sqlStore :=
  match Get id st with
  | Err e => (Err e, st)
  | Ok u =>
      let u := changed now inp u in
      match exec (SUpdate (marshalRegions (u_AllowedRegions u)) (u_Status u) (Format (u_UpdatedAt u))
                    (hmacToken hmac (sql_pepper st) <$> uu_Credential inp) id) st with
      | (Err e, st) => (Err (ErrIO e), st)
      | (Ok _, st) => (Ok u, st)
      end
  end.

Definition Delete (id : string) (st : sqlStore) : option store_error * sqlStore :=
  match exec (SDelete id) st with
  | (Err e, st) => (Some (ErrIO e), st)
  | (Ok n, st) => (if n =? 0 then Some ErrNotFound else None, st)
  end.

Definition AuthenticateForRegion (token region : string) (st : sqlStore) : result store_error User :=
  if decide (token = "") then Err ErrBadToken
  else match QueryRow CTokenHash (hmacToken hmac (sql_pepper st) token) st with
  | Ok None => Err ErrBadToken
  | Err e => Err e
  | Ok (Some u) => check_policy u region
  end.

Definition AuthorizeUser (username region : string) (st : sqlStore) : result store_error User :=
  match QueryRow CUsername username st with
  | Ok None => Err ErrNotFound
  | Err e => Err e
  | Ok (Some u) => check_policy u region
  end.

(** The broker's interface: whatever the engine does, only permitted users pass. *)
#[export] Program Instance sqlStore_UserRegistry : UserRegistry sqlStore := {
  reg_authenticate := AuthenticateForRegion;
  reg_authorize := AuthorizeUser
}.
Next Obligation.
  intros token region st u. unfold AuthenticateForRegion. case_decide; [done|].
  destruct (QueryRow _ _ _) as [[u0|]|]; try done. by intros [-> ?]%check_policy_spec.
Qed.
Next Obligation.
  intros name region st u. unfold AuthorizeUser.
  destruct (QueryRow _ _ _) as [[u0|]|]; try done. by intros [-> ?]%check_policy_spec.
Qed.
End sqlstore.

(** ** Calls, of both stores *)

Inductive call :=
| KCreate (newID : string) (now : Time) (inp : UserCreate)
| KGet (id : string)
| KUpdate (now : Time) (id : string) (inp : UserUpdate)
| KDelete (id : string)
| KAuthenticate (token region : string)
| KAuthorize (username region : string).

Inductive answer := AUser (r : result store_error User) | ADone (e : option store_error).

Section refinement.
Context {D : Type} `{UserDBLaws D} (Hrel : reliable D).
Context (hmac : string → string → string) (Hmac : ∀ k c, c ≠ "" → hmac k c ≠ "").
Context (json : list string → string) (regions_json : string → option (list string)).
Context (Format : Time → string) (Parse : string → option Time).
Context (o : os_env).

Definition table_call (c : call) (t : table) : answer * table :=
  match c with
  | KCreate i now inp => let '(r, t) := UserStore.Create hmac o i now inp t in (AUser r, t)
  | KGet i => (AUser (UserStore.Get i t), t)
  | KUpdate now i inp => let '(r, t) := UserStore.Update hmac o now i inp t in (AUser r, t)
  | KDelete i => let '(e, t) := UserStore.Delete o i t in (ADone e, t)
  | KAuthenticate tok rg => (AUser (UserStore.AuthenticateForRegion hmac tok rg t), t)
  | KAuthorize n rg => (AUser (UserStore.AuthorizeUser n rg t), t)
  end.

Definition sql_call (c : call) (st : sqlStore (D := D)) : answer * sqlStore :=
  match c with
  | KCreate i now inp => let '(r, st) := Create hmac json Format i now inp st in (AUser r, st)
  | KGet i => (AUser (Get regions_json Parse i st), st)
  | KUpdate now i inp => let '(r, st) := Update hmac json regions_json Format Parse now i inp st in (AUser r, st)
  | KDelete i => let '(e, st) := Delete i st in (ADone e, st)
  | KAuthenticate tok rg => (AUser (AuthenticateForRegion hmac regions_json Parse tok rg st), st)
  | KAuthorize n rg => (AUser (AuthorizeUser regions_json Parse n rg st), st)
  end.

Fixpoint answers {S} (f : call → S → answer * S) (cs : list call) (s : S) : list answer :=
  match cs with
  | [] => []
  | c :: cs => let '(a, s) := f c s in a :: answers f cs s
  end.

(** What the columns can hold: the regions and times that their texts give back. *)
Definition storable_regions (r : list string) : Prop := regions_json (json r) = Some r.
Definition storable_time (t : Time) : Prop := Parse (Format t) = Some t.

(** A call with storable values, a new id, and a credential that no other user has. *)
Definition fair (c : call) (t : table) : Prop :=
  match c with
  | KCreate i now inp =>
      storable_time now ∧ storable_regions (uc_AllowedRegions inp) ∧ byID t !! i = None ∧
      hash_record t (hashToken hmac t (uc_Credential inp)) = None
  | KUpdate now i inp =>
      storable_time now ∧ from_option storable_regions True (uu_AllowedRegions inp) ∧
      from_option (λ c, from_option (λ r, u_ID (r_User r) = i) True (hash_record t (hashToken hmac t c))) True
        (uu_Credential inp)
  | _ => True
  end.

Fixpoint all_fair (cs : list call) (t : table) : Prop :=
  match cs with [] => True | c :: cs => fair c t ∧ all_fair cs (snd (table_call c t)) end.

(** ** The simulation *)

Definition row_of (r : record) : row :=
  let u := r_User r in
  mkRow (u_ID u) (u_Username u) (r_Hash r) (json (u_AllowedRegions u)) (u_Status u) (Format (u_CreatedAt u))
    (Format (u_UpdatedAt u)).

Definition storable (r : record) : Prop :=
  storable_regions (u_AllowedRegions (r_User r)) ∧ storable_time (u_CreatedAt (r_User r)) ∧
  storable_time (u_UpdatedAt (r_User r)) ∧ u_ActiveSessionCount (r_User r) = 0.

Record sim (t : table) (st : sqlStore (D := D)) : Prop := {
  sim_wf : wf t;
  sim_indexed : indexed t;
  sim_path : path t = "";
  sim_pepper : sql_pepper st = pepper t;
  sim_storable : ∀ id r, user_record t id = Some r → storable r;
  sim_rows : ∀ w, w ∈ rows_of (db st) ↔ ∃ id r, user_record t id = Some r ∧ w = row_of r
}.

Lemma scanUser_row_of r : storable r → scanUser regions_json Parse (row_of r) = r_User r.
Proof.
  intros (Hr & Hc & Hu & Hn). unfold scanUser, unmarshalRegions. simpl.
  unfold storable_regions in Hr. unfold storable_time in Hc, Hu. rewrite Hr, Hc, Hu. simpl.
  destruct r as [[] ]. simpl in *. by subst.
Qed.

Lemma hash_record_user t h r :
  wf t → hash_record t h = Some r → user_record t (u_ID (r_User r)) = Some r ∧ r_Hash r = h ∧ h ≠ "".
Proof.
  intros W Hr. unfold hash_record in Hr. destruct (byHash t !! h) as [l|] eqn:E; [|done]. simpl in Hr.
  destruct (wf_hash t W _ _ E) as (r' & Hr' & Hh & Hn & Hi). rewrite Hr in Hr'. injection Hr' as <-.
  unfold user_record. by rewrite Hi.
Qed.

(** A search that only the record [x] answers. *)
Lemma QueryRow_spec t st c v x :
  sim t st →
  (∀ id r, user_record t id = Some r → cell c (row_of r) = v ↔ x = Some r) →
  (∀ r, x = Some r → ∃ id, user_record t id = Some r) →
  QueryRow regions_json Parse c v st = Ok (r_User <$> x).
Proof.
  intros S Hx Hx'. unfold QueryRow. destruct (proj2 Hrel (Some (c, v)) (db st)) as [ws E]. rewrite E.
  pose proof (Query_ok _ _ _ E) as Hp.
  assert (∀ w, w ∈ ws ↔ ∃ r, x = Some r ∧ w = row_of r) as Hin.
  { intros w. rewrite Hp, list_elem_of_filter. simpl. rewrite (sim_rows _ _ S). split.
    - intros (Hc & id & r & Hr & ->). exists r. split; [|done]. by apply (Hx id).
    - intros (r & Hr & ->). destruct (Hx' _ Hr) as [id Hu]. split; [by apply (Hx id)|by exists id, r]. }
  f_equal. destruct ws as [|w ws]; simpl.
  - destruct x as [r|]; [|done]. exfalso. apply (not_elem_of_nil (row_of r)), Hin. by exists r.
  - destruct (proj1 (Hin w)) as (r & -> & ->); [by left|]. simpl. f_equal.
    destruct (Hx' _ eq_refl) as [id Hu]. by eapply scanUser_row_of, sim_storable.
Qed.

Lemma QueryRow_id t st id : sim t st → QueryRow regions_json Parse CId id st = Ok (r_User <$> user_record t id).
Proof.
  intros S. apply (QueryRow_spec t); [done| |by eauto]. intros id' r Hr. simpl.
  rewrite (user_record_id t id' r); [|apply S|done]. split; [by intros ->|].
  intros Hr'. rewrite <- (user_record_id t id r), <- (user_record_id t id' r); [done|apply S|done|apply S|done].
Qed.

Lemma QueryRow_hash t st h :
  sim t st → h ≠ "" → QueryRow regions_json Parse CTokenHash h st = Ok (r_User <$> hash_record t h).
Proof.
  intros S Hh. apply (QueryRow_spec t); [done|..].
  - intros id r Hr. simpl. split.
    + intros <-. by apply (sim_indexed _ _ S id).
    + intros (_ & ? & _)%hash_record_user; [done|apply S].
  - intros r (? & _)%hash_record_user; [eauto|apply S].
Qed.

(** The record with a name. *)
Definition named (n : string) (t : table) : option record :=
  List.find (λ r, bool_decide (u_Username (r_User r) = n)) (records t).

Lemma QueryRow_username t st n : sim t st → QueryRow regions_json Parse CUsername n st = Ok (r_User <$> named n t).
Proof.
  intros S. pose proof (sim_wf _ _ S) as W.
  assert (∀ r, named n t = Some r → u_Username (r_User r) = n ∧ ∃ id, user_record t id = Some r) as Hf.
  { intros r [Hin%list_elem_of_In Hb%bool_decide_eq_true]%List.find_some. split; [done|]. by apply elem_of_records. }
  apply (QueryRow_spec t); [done| |naive_solver]. intros id r Hr. simpl. split; [|naive_solver].
  intros Hn. destruct (named n t) as [r'|] eqn:E.
  - destruct (Hf _ eq_refl) as (Hn' & id' & Hr'). rewrite <- Hn in Hn'.
    rewrite (wf_name t W _ _ _ _ Hr' Hr Hn') in Hr'. congruence.
  - exfalso. assert (r ∈ records t) as Hin%list_elem_of_In by (apply elem_of_records; eauto).
    pose proof (List.find_none _ _ E r Hin) as Hb. by apply bool_decide_eq_false in Hb.
Qed.

(** *** Statements *)

Lemma exec_succeeds s (st : sqlStore (D := D)) :
  (∀ w, s = SInsert w → ¬ conflicts w (rows_of (db st))) →
  ∃ d, exec s st = (Ok (snd (effect s (rows_of (db st)))), mkSql d (sql_pepper st)) ∧
       rows_of d = fst (effect s (rows_of (db st))).
Proof.
  intros Hc. unfold exec. destruct (db_Exec s (db st)) as [[n|e] d] eqn:E.
  - pose proof (Exec_ok _ _ _ _ E) as He. exists d. by rewrite <- He.
  - destruct (proj1 Hrel s (db st) e) as (w & Hs & Hw); [by rewrite E|]. by destruct (Hc w Hs).
Qed.

Lemma exec_conflict w (st : sqlStore (D := D)) :
  conflicts w (rows_of (db st)) →
  ∃ e d, exec (SInsert w) st = (Err e, mkSql d (sql_pepper st)) ∧ rows_of d = rows_of (db st).
Proof.
  intros Hc. unfold exec. destruct (db_Exec (SInsert w) (db st)) as [[n|e] d] eqn:E.
  - by destruct (Exec_unique _ _ _ _ E).
  - exists e, d. split; [done|]. by eapply Exec_err.
Qed.

Lemma flush_nothing t : path t = "" → flushLocked o t = (None, t).
Proof. intros E. unfold flushLocked. by rewrite decide_True. Qed.

Lemma sim_rows_only t st d :
  sim t st → (∀ w, w ∈ rows_of d ↔ w ∈ rows_of (db st)) → sim t (mkSql d (sql_pepper st)).
Proof. intros [] E. constructor; simpl; try done. intros w. by rewrite E. Qed.

Lemma Create_sim i now inp t st :
  sim t st → fair (KCreate i now inp) t →
  let '(a, t') := table_call (KCreate i now inp) t in
  let '(a', st') := sql_call (KCreate i now inp) st in a' = a ∧ sim t' st'.
Proof.
  intros S (Ht & Hr & Hi & Hh). pose proof (sim_wf _ _ S) as W. simpl. rewrite Create_spec. unfold Create.
  set (w := mkRow _ _ _ _ _ _ _). set (r := created hmac i now inp t).
  assert (w = row_of r) as Hw.
  { unfold w, row_of, r, created, hashToken. simpl. by rewrite (sim_pepper _ _ S). }
  assert (conflicts w (rows_of (db st)) ↔ username_taken t (uc_Username inp) = true) as Hc.
  { rewrite username_taken_spec by done. unfold conflicts. split.
    - intros (w' & (id & r' & Hr' & ->)%(sim_rows _ _ S) & [E|E]); [|by exists id, r'].
      exfalso. simpl in E. rewrite (user_record_id t id r') in E by done. subst id.
      unfold user_record in Hr'. by rewrite Hi in Hr'.
    - intros (id & r' & Hr' & E). exists (row_of r'). split; [|by right]. apply (sim_rows _ _ S). by exists id, r'. }
  destruct (username_taken t _) eqn:Etaken.
  - destruct (exec_conflict w st) as (e & d & -> & Hd); [by apply Hc|]. split; [done|]. apply sim_rows_only; [done|]. by rewrite Hd.
  - destruct (exec_succeeds (SInsert w) st) as (d & -> & Hd); [intros w' [= <-] ?%Hc; done|].
    assert (path (load_record t r) = "") as Hp by (unfold load_record; case_decide; apply (sim_path _ _ S)).
    rewrite (flush_nothing _ Hp). split; [done|].
    assert (∀ id r', user_record (load_record t r) id = Some r' ↔ (id = i ∧ r' = r) ∨ user_record t id = Some r') as Hu.
    { intros id r'. rewrite load_record_user by done. change (u_ID (r_User r)) with i.
      assert (user_record t i = None) by (unfold user_record; by rewrite Hi). case_decide; naive_solver. }
    constructor; try done.
    + by apply load_record_wf.
    + intros id r' [[-> ->]|Hr']%Hu Hn; rewrite load_record_hash by done; [by rewrite decide_True|].
      rewrite decide_False; [by apply (sim_indexed _ _ S id)|]. intros [E _].
      pose proof (sim_indexed _ _ S id r' Hr' Hn) as Hx. change (r_Hash r) with (hashToken hmac t (uc_Credential inp)) in E.
      rewrite E in Hx. congruence.
    + simpl. rewrite (sim_pepper _ _ S). unfold load_record. by case_decide.
    + intros id r' [[-> ->]|Hr']%Hu; [by split_and!|by eapply sim_storable].
    + intros w'. simpl. rewrite Hd. simpl. rewrite elem_of_app, list_elem_of_singleton, (sim_rows _ _ S), Hw.
      setoid_rewrite Hu. naive_solver.
Qed.

(** The index leads to the very object of the user. *)
Lemma indexed_loc t id l r :
  wf t → indexed t → byID t !! id = Some l → heap t !! l = Some r → r_Hash r ≠ "" → byHash t !! r_Hash r = Some l.
Proof.
  intros W Hx Hid Hl Hn. assert (user_record t id = Some r) as Hu by (unfold user_record; by rewrite Hid).
  pose proof (Hx _ _ Hu Hn) as Hr. unfold hash_record in Hr. destruct (byHash t !! r_Hash r) as [l'|] eqn:E; [|done].
  simpl in Hr. destruct (wf_hash t W _ _ E) as (r' & Hr' & _ & _ & Hi). rewrite Hr in Hr'. injection Hr' as <-.
  by rewrite (user_record_id t id r W Hu), Hid in Hi.
Qed.

Lemma indexed_intro t :
  (∀ id l r, byID t !! id = Some l → heap t !! l = Some r → r_Hash r ≠ "" → byHash t !! r_Hash r = Some l) → indexed t.
Proof.
  intros Hx id r Hu Hn. unfold user_record in Hu. destruct (byID t !! id) as [l|] eqn:E; [|done]. simpl in Hu.
  unfold hash_record. rewrite (Hx id l r) by done. done.
Qed.

(** Two users with one hash are the same. *)
Lemma indexed_inj t id1 id2 l1 l2 r1 r2 :
  wf t → indexed t → byID t !! id1 = Some l1 → heap t !! l1 = Some r1 → byID t !! id2 = Some l2 →
  heap t !! l2 = Some r2 → r_Hash r1 = r_Hash r2 → r_Hash r1 ≠ "" → l1 = l2.
Proof.
  intros W Hx Hi1 Hl1 Hi2 Hl2 E Hn. pose proof (indexed_loc t id1 l1 r1 W Hx Hi1 Hl1 Hn) as H1.
  rewrite E in Hn, H1. pose proof (indexed_loc t id2 l2 r2 W Hx Hi2 Hl2 Hn). congruence.
Qed.

Lemma Delete_sim i t st :
  sim t st →
  let '(a, t') := table_call (KDelete i) t in
  let '(a', st') := sql_call (KDelete i) st in a' = a ∧ sim t' st'.
Proof.
  intros S. pose proof (sim_wf _ _ S) as W. simpl. rewrite Delete_spec. unfold Delete.
  destruct (exec_succeeds (SDelete i) st) as (d & -> & Hd); [done|]. simpl in Hd |- *.
  assert (∀ w, w ∈ filter (λ w, w_id w = i) (rows_of (db st)) ↔ ∃ r, user_record t i = Some r ∧ w = row_of r) as Hin.
  { intros w. rewrite list_elem_of_filter, (sim_rows _ _ S). split.
    - intros (Hi & id & r & Hr & ->). simpl in Hi. rewrite (user_record_id t id r) in Hi by done. subst. eauto.
    - intros (r & Hr & ->). split; [by apply (user_record_id t)|eauto]. }
  destruct (byID t !! i) as [l|] eqn:E.
  - destruct (wf_id t W _ _ E) as (r & Hr & Hi). rewrite Hr. simpl.
    assert (user_record t i = Some r) as Hu by (unfold user_record; by rewrite E).
    rewrite flush_nothing by (simpl; apply S). split.
    { destruct (filter (λ w, w_id w = i) (rows_of (db st))) as [|w ws]; [|done].
      exfalso. apply (not_elem_of_nil (row_of r)), Hin. eauto. }
    constructor; simpl; try apply S.
    + by eapply delete_table_wf.
    + apply indexed_intro. simpl. intros id l' r' [Hne Hi']%lookup_delete_Some Hl' Hn.
      rewrite lookup_delete_ne; [by apply (indexed_loc t id); [done|apply S|..]|]. intros Eh.
      assert (l' = l) as -> by (eapply (indexed_inj t id i _ _ r' r); try done; apply S).
      rewrite Hr in Hl'. injection Hl' as <-. apply Hne. rewrite <- Hi.
      apply (user_record_id t id r W). unfold user_record. by rewrite Hi'.
    + intros id r'. rewrite delete_table_user. case_decide; [done|]. apply (sim_storable _ _ S).
    + intros w. rewrite Hd, list_elem_of_filter, (sim_rows _ _ S). setoid_rewrite delete_table_user. split.
      * intros (Hne & id & r' & Hr' & ->). exists id, r'. rewrite decide_False; [done|]. intros ->.
        apply Hne. by apply (user_record_id t).
      * intros (id & r' & Hr' & ->). case_decide; [done|]. split; [|eauto]. simpl.
        by rewrite (user_record_id t id r').
  - assert (filter (λ w, w_id w = i) (rows_of (db st)) = []) as Hnil.
    { apply elem_of_nil_inv. intros w (r & Hr & _)%Hin. unfold user_record in Hr. by rewrite E in Hr. }
    rewrite Hnil. split; [done|]. apply sim_rows_only; [done|]. intros w. rewrite Hd, list_elem_of_filter.
    split; [by intros [_ ?]|]. intros Hw. split; [|done]. intros Hi. apply (not_elem_of_nil w).
    rewrite <- Hnil. by apply list_elem_of_filter.
Qed.

Lemma update_indexed now inp i l r t :
  wf t → indexed t → byID t !! i = Some l → heap t !! l = Some r → fair (KUpdate now i inp) t →
  indexed (update_table hmac now inp l r t).
Proof.
  intros W Hx Hi Hl (_ & _ & Hc). apply indexed_intro. simpl. intros id l' r' Hi' Hl' Hn.
  destruct (decide (l' = l)) as [->|Hne].
  - rewrite lookup_insert_eq in Hl'. injection Hl' as <-. unfold updated in Hn |- *. simpl in Hn |- *.
    destruct (uu_Credential inp) as [c|]; simpl in *; [|by apply (indexed_loc t i)].
    rewrite decide_False by done. by rewrite lookup_insert_eq.
  - rewrite lookup_insert_ne in Hl' by done. pose proof (indexed_loc t id l' r' W Hx Hi' Hl' Hn) as Hb.
    assert (r_Hash r ≠ r_Hash r') as Hrr.
    { intros E. apply Hne. symmetry. eapply (indexed_inj t i id); try done. congruence. }
    unfold updated. simpl. destruct (uu_Credential inp) as [c|]; simpl in *; [|done].
    case_decide; [by rewrite lookup_delete_ne|]. rewrite lookup_insert_ne; [by rewrite lookup_delete_ne|].
    intros E. rewrite E in Hc. unfold hash_record in Hc. rewrite Hb in Hc. simpl in Hc. rewrite Hl' in Hc. simpl in Hc.
    assert (user_record t id = Some r') as Hu by (unfold user_record; by rewrite Hi').
    rewrite (user_record_id t id r' W Hu) in Hc. congruence.
Qed.

Lemma row_of_updated now inp t st r :
  sim t st →
  updated_row (json (default (u_AllowedRegions (r_User r)) (uu_AllowedRegions inp)))
    (default (u_Status (r_User r)) (uu_Status inp)) (Format now)
    (hmacToken hmac (sql_pepper st) <$> uu_Credential inp) (row_of r) = row_of (updated hmac now inp t r).
Proof.
  intros S. unfold updated_row, row_of, updated, hashToken. simpl. rewrite (sim_pepper _ _ S).
  by destruct (uu_Credential inp).
Qed.

Lemma Update_sim now i inp t st :
  sim t st → fair (KUpdate now i inp) t →
  let '(a, t') := table_call (KUpdate now i inp) t in
  let '(a', st') := sql_call (KUpdate now i inp) st in a' = a ∧ sim t' st'.
Proof.
  intros S F. pose proof (sim_wf _ _ S) as W. simpl. rewrite Update_spec by done. unfold Update, Get.
  rewrite (QueryRow_id t) by done. destruct (byID t !! i) as [l|] eqn:E.
  2: { unfold user_record. by rewrite E. }
  destruct (wf_id t W _ _ E) as (r & Hr & Hi).
  assert (user_record t i = Some r) as Hu by (unfold user_record; by rewrite E). rewrite Hu. cbn [fmap option_fmap option_map].
  assert (changed now inp (r_User r) = r_User (updated hmac now inp t r)) as Hur.
  { unfold changed, updated. destruct (uu_AllowedRegions inp), (uu_Status inp), (r_User r); done. }
  rewrite Hur. unfold marshalRegions. cbn [updated r_User u_AllowedRegions u_Status u_UpdatedAt].
  destruct (exec_succeeds (SUpdate (json (default (u_AllowedRegions (r_User r)) (uu_AllowedRegions inp)))
    (default (u_Status (r_User r)) (uu_Status inp)) (Format now)
    (hmacToken hmac (sql_pepper st) <$> uu_Credential inp) i) st) as (d & -> & Hd); [done|].
  rewrite flush_nothing by (simpl; apply S). split; [done|].
  pose proof (λ id', update_table_user hmac now inp l r t i id' W E Hr) as Huu.
  constructor; simpl; try apply S.
  - by eapply update_table_wf.
  - by apply (update_indexed now inp i); [done|apply S|..].
  - intros id r'. rewrite Huu. case_decide; [|apply (sim_storable _ _ S)]. intros [= <-].
    destruct (sim_storable _ _ S _ _ Hu) as (Hsr & Hsc & Hsu & Hsa). destruct F as (Hnow & Hrg & _).
    split_and!; try done. simpl. by destruct (uu_AllowedRegions inp).
  - intros w. rewrite Hd. simpl. rewrite list_elem_of_fmap. setoid_rewrite Huu. split.
    + intros (w' & -> & (id & r' & Hr' & ->)%(sim_rows _ _ S)). exists id. simpl.
      rewrite (user_record_id t id r') by done. case_decide as Hd'; [|eauto].
      subst id. rewrite Hu in Hr'. injection Hr' as <-. eexists. split; [done|].
      by rewrite <- (row_of_updated now inp t st r S).
    + intros (id & r' & Hr' & ->). case_decide as Hd'.
      * injection Hr' as <-. exists (row_of r). split; [|apply (sim_rows _ _ S); eauto].
        simpl. rewrite decide_True by done. by rewrite <- (row_of_updated now inp t st r S).
      * exists (row_of r'). split; [|apply (sim_rows _ _ S); eauto]. simpl.
        by rewrite decide_False by (by rewrite (user_record_id t id r')).
Qed.

Lemma call_sim c t st :
  sim t st → fair c t →
  let '(a, t') := table_call c t in let '(a', st') := sql_call c st in a' = a ∧ sim t' st'.
Proof.
  intros S F. pose proof (sim_wf _ _ S) as W. destruct c as [i now inp|i|now i inp|i|tok rg|n rg].
  - by apply Create_sim.
  - simpl. split; [|done]. unfold Get, UserStore.Get. rewrite (QueryRow_id t) by done. fold (user_record t i).
    by destruct (user_record t i).
  - by apply Update_sim.
  - by apply Delete_sim.
  - simpl. split; [|done]. f_equal. rewrite authenticate_spec by done. unfold AuthenticateForRegion.
    rewrite (sim_pepper _ _ S). fold (hash_record t (hashToken hmac t tok)). case_decide as Htok.
    + subst tok. destruct (hash_record t (hashToken hmac t "")) as [r|] eqn:Er; [|done].
      by destruct (hash_record_user t _ r W Er) as (_ & _ & []).
    + rewrite (QueryRow_hash t); [by destruct (hash_record t _)|done|].
      unfold hmacToken. rewrite decide_False by done. by apply Hmac.
  - simpl. split; [|done]. unfold AuthorizeUser, UserStore.AuthorizeUser. rewrite (QueryRow_username t) by done.
    fold (named n t). by destruct (named n t).
Qed.

Lemma answers_sim cs t st : sim t st → all_fair cs t → answers sql_call cs st = answers table_call cs t.
Proof.
  revert t st. induction cs as [|c cs IH]; intros t st S F; [done|]. destruct F as [Fc F]. simpl.
  pose proof (call_sim c t st S Fc) as Hc. destruct (table_call c t) as [a t'], (sql_call c st) as [a' st'].
  destruct Hc as [-> S']. f_equal. by apply IH.
Qed.

(** ** Properties *)

(** C12. The SQLite store refines the in-memory one: on a database that fails only where a constraint
    is violated, any sequence of calls - creations, updates, deletions, look-ups, authentications by
    token and by name - gets the same answers, errors included, from an empty SQLite store as from an
    empty table, provided new ids are new, no two users are given one credential, and the times and
    regions are ones their columns can hold. *)
Theorem sqlite_refines_table p d cs :
  rows_of d = [] → all_fair cs (UserStore.New p) →
  answers sql_call cs (mkSql d p) = answers table_call cs (UserStore.New p).
Proof.
  intros Hd F. apply answers_sim; [|done]. constructor; try done.
  intros w. simpl. rewrite Hd. split; [by intros ?%elem_of_nil|by intros (? & ? & ? & ?)].
Qed.
End refinement.

(** ** A concrete engine: the rows themselves *)

Definition conflictb (w : row) (ws : list row) : bool :=
  existsb (λ w', bool_decide (w_id w' = w_id w) || bool_decide (w_username w' = w_username w)) ws.

Lemma conflictb_spec w ws : conflictb w ws = true ↔ conflicts w ws.
Proof.
  unfold conflictb, conflicts. rewrite existsb_exists. split; intros (w' & Hw & Hc); exists w'.
  - split; [by apply list_elem_of_In|]. by apply orb_true_iff in Hc as [?%bool_decide_eq_true|?%bool_decide_eq_true]; [left|right].
  - split; [by apply list_elem_of_In|]. apply orb_true_iff. by destruct Hc; [left|right]; apply bool_decide_eq_true.
Qed.

#[export] Instance list_UserDB : UserDB (list row) := {
  db_Exec s ws :=
    match s with
    | SInsert w => if conflictb w ws then (Err "UNIQUE constraint failed", ws) else (Ok 1, ws ++ [w])
    | _ => let '(ws', n) := effect s ws in (Ok n, ws')
    end;
  db_Query q ws := Ok (filter (selected q) ws)
}.

#[export] Program Instance list_UserDBLaws : UserDBLaws (list row) := {| rows_of := id |}.
Next Obligation. intros [] d n d'; simpl; [destruct (conflictb _ _)|..]; by intros [= <- <-]. Qed.
Next Obligation. intros [] d e d'; simpl; [destruct (conflictb _ _)|..]; by intros [= <- <-]. Qed.
Next Obligation. intros w d n d'. simpl. destruct (conflictb w d) eqn:E; [done|]. intros _ Hc%conflictb_spec. congruence. Qed.
Next Obligation. intros q d ws. simpl. by intros [= <-]. Qed.

Lemma list_reliable : reliable (list row).
Proof.
  split; [|by eexists]. intros [w|rg st up h i|i] d e; simpl; [|done..].
  destruct (conflictb w d) eqn:E; [|done]. intros _. exists w. by rewrite <- conflictb_spec.
Qed.

(** Codecs for the texts of the run. *)
Definition demo_json (r : list string) : string := match r with [x] => x | _ => "" end.
Definition demo_regions (s : string) : option (list string) := Some [s].
Definition demo_format (t : Time) : string := pretty t.
Definition demo_parse (s : string) : option Time :=
  if decide (s = pretty 10) then Some 10 else if decide (s = pretty 20) then Some 20 else None.

Definition demo_calls : list call :=
  [KCreate "id-1" 10 (mkUserCreate "alice" "tok-a" ["eu"] ""); KCreate "id-2" 10 (mkUserCreate "alice" "x" ["eu"] "");
   KAuthenticate "tok-a" "eu"; KUpdate 20 "id-1" (mkUserUpdate None (Some "disabled") (Some "tok-b"));
   KAuthenticate "tok-a" "eu"; KAuthenticate "tok-b" "eu"; KDelete "id-1"; KGet "id-1"; KDelete "id-1"].

Lemma sqlite_refines_table_witness :
  answers (sql_call demo_hmac demo_json demo_regions demo_format demo_parse) demo_calls (mkSql [] "p") =
  answers (table_call demo_hmac demo_os) demo_calls (UserStore.New "p").
Proof.
  apply (sqlite_refines_table list_reliable demo_hmac); [by intros [] []|done|].
  vm_compute. repeat split.
Defined.

Example demo_answers :
  (λ a, match a with AUser (Ok u) => u_Status u | AUser (Err e) => error_string e
        | ADone None => "done" | ADone (Some e) => error_string e end) <$>
    answers (sql_call demo_hmac demo_json demo_regions demo_format demo_parse) demo_calls (mkSql [] "p") =
  ["enabled"; "username already exists"; "enabled"; "disabled"; "invalid token"; "user disabled"; "done";
   "user not found"; "user not found"]%string.
Proof. vm_compute. reflexivity. Qed.
