(* ===== verification/QoS.v ===== *)
(** * Package internal/qos: the quality-of-service tracker

    The tracker's state under its one mutex: live sessions, live exits, the capped history and an
    optional persistent store behind the interface [HistoryStore].  Every method takes the reading of
    the injected clock.  Byte counters are [uint64]; throughputs are [float64]. *)
From S2P Require Import Prelude Float64 FloatTheory GoTime.

Open Scope Z_scope.

Inductive Kind := KindNodeUp | KindNodeDown | KindConnect | KindDisconnect | KindSpeedDrop | KindRecovered.
#[export] Instance Kind_eq_dec : EqDecision Kind.
Proof. solve_decision. Defined.

Inductive DataPath := PathRelay | PathDirect.

Definition DefaultHistory : Z := 1000.
(** The literals 0.5, 0.8 and 65536: correctly rounded quotients are the nearest [float64]. *)
Definition defaultDropFactor : f64 := fdiv (f64_of_Z 1) (f64_of_Z 2).
Definition defaultRecoverPct : f64 := fdiv (f64_of_Z 8) (f64_of_Z 10).
Definition defaultFloorBps : f64 := f64_of_Z 65536.
Definition windowDur : Duration := Second.

Record SessionStat := mkSessionStat {
  st_SessionID : string; st_NodeID : string; st_Region : string; st_Username : string;
  st_Path : DataPath; st_StartedAt : Time; st_DurationSec : Z;
  st_BytesUp : Z; st_BytesDown : Z; st_ThroughputBps : f64; st_PeakBps : f64;
  st_Drops : Z; st_RTTms : Z; st_Host : string; st_TunName : string; st_OS : string;
  st_CPUPct : f64; st_MemPct : f64; st_DiskPct : f64; st_Degraded : bool; st_LastSeen : Time
}.

Record ExitStat := mkExitStat {
  xs_NodeID : string; xs_Region : string; xs_ActiveClients : Z;
  xs_BytesUp : Z; xs_BytesDown : Z; xs_ThroughputBps : f64; xs_PeakBps : f64;
  xs_ConnectedAt : Time; xs_LastSeen : Time
}.

Record Event := mkEvent {
  e_TS : Time; e_Kind : Kind; e_SessionID : string; e_NodeID : string;
  e_Region : string; e_Username : string; e_ThroughputBps : f64; e_Detail : string
}.

(** A telemetry sample from an endpoint. *)
Record report := mkReport {
  rp_BytesUp : Z; rp_BytesDown : Z; rp_ThroughputBps : f64; rp_Drops : Z; rp_RTTms : Z;
  rp_Direct : bool; rp_Host : string; rp_TunName : string; rp_OS : string;
  rp_CPUPct : f64; rp_MemPct : f64; rp_DiskPct : f64
}.

Record sessionState := mkSS {
  ss_id : string; ss_nodeID : string; ss_region : string; ss_username : string; ss_path : DataPath;
  ss_startedAt : Time; ss_lastSeen : Time;
  ss_bytesUp : Z; ss_bytesDown : Z; ss_bps : f64; ss_peakBps : f64; ss_drops : Z; ss_rttMs : Z;
  ss_host : string; ss_tunName : string; ss_os : string; ss_cpu : f64; ss_mem : f64; ss_disk : f64;
  ss_degraded : bool; ss_winStart : Time; ss_winBytes : Z
}.
#[export] Instance sessionState_eta : Eta sessionState :=
  λ s, mkSS (ss_id s) (ss_nodeID s) (ss_region s) (ss_username s) (ss_path s) (ss_startedAt s) (ss_lastSeen s)
         (ss_bytesUp s) (ss_bytesDown s) (ss_bps s) (ss_peakBps s) (ss_drops s) (ss_rttMs s) (ss_host s)
         (ss_tunName s) (ss_os s) (ss_cpu s) (ss_mem s) (ss_disk s) (ss_degraded s) (ss_winStart s) (ss_winBytes s).

Record exitState := mkES {
  x_nodeID : string; x_region : string; x_active : Z; x_bytesUp : Z; x_bytesDown : Z;
  x_bps : f64; x_peakBps : f64; x_connectedAt : Time; x_lastSeen : Time; x_winStart : Time; x_winBytes : Z
}.
#[export] Instance exitState_eta : Eta exitState :=
  λ e, mkES (x_nodeID e) (x_region e) (x_active e) (x_bytesUp e) (x_bytesDown e) (x_bps e) (x_peakBps e)
         (x_connectedAt e) (x_lastSeen e) (x_winStart e) (x_winBytes e).

(** The interface of the persistent store: [Append] must not block; [Load] is newest first. *)
Class HistoryStore (S : Type) := {
  Append : Event → S → S;
  Load : Z → S → result string (list Event);
  CloseHistory : S → option string * S
}.

Section tracker.
Context {S : Type} `{HistoryStore S}.

Record Tracker := mkTracker {
  histCap : Z;
  hist : list Event;
  dropFactor : f64;
  recoverPct : f64;
  floorBps : f64;
  sessions : gmap string sessionState;
  exits : gmap string exitState;
  store : option S
}.
#[export] Instance Tracker_eta : Eta Tracker :=
  λ t, mkTracker (histCap t) (hist t) (dropFactor t) (recoverPct t) (floorBps t) (sessions t) (exits t) (store t).

Definition New (histCap : Z) : Tracker :=
  let histCap := if histCap <=? 0 then DefaultHistory else histCap in
  mkTracker histCap [] defaultDropFactor defaultRecoverPct defaultFloorBps ∅ ∅ None.

(** [hist[len(hist)-cap:]] when the history is longer than the cap. *)
Definition trim (cap : Z) (h : list Event) : list Event :=
  if cap <? Z.of_nat (length h) then drop (length h - Z.to_nat cap) h else h.

Definition appendEvent (ev : Event) (t : Tracker) : Tracker :=
  t <| hist := trim (histCap t) (hist t ++ [ev]) |> <| store ::= fmap (Append ev) |>.

Definition NodeUp (now : Time) (nodeID region : string) (connectedAt : Time) (t : Tracker) : Tracker :=
  let e := mkES nodeID region 0 0 0 f64_zero f64_zero connectedAt now now 0 in
  appendEvent (mkEvent now KindNodeUp "" nodeID region "" f64_zero "") (t <| exits ::= <[nodeID := e]> |>).

Definition NodeDown (now : Time) (nodeID : string) (t : Tracker) : Tracker :=
  let region := from_option x_region "" (exits t !! nodeID) in
  appendEvent (mkEvent now KindNodeDown "" nodeID region "" f64_zero "") (t <| exits ::= delete nodeID |>).

Definition Connect (now : Time) (sessionID nodeID region username : string) (startedAt : Time) (t : Tracker)
  : Tracker :=
  let ss := mkSS sessionID nodeID region username PathRelay startedAt now 0 0 f64_zero f64_zero 0 0
                 "" "" "" f64_zero f64_zero f64_zero false now 0 in
  let t := t <| sessions ::= <[sessionID := ss]> |> in
  let t := match exits t !! nodeID with
           | Some e => t <| exits ::= <[nodeID := e <| x_active ::= λ a, a + 1 |> <| x_lastSeen := now |>]> |>
           | None => t
           end in
  appendEvent (mkEvent now KindConnect sessionID nodeID region username f64_zero "") t.

Definition Disconnect (now : Time) (sessionID : string) (t : Tracker) : Tracker :=
  match sessions t !! sessionID with
  | None => t
  | Some ss =>
      let t := t <| sessions ::= delete sessionID |> in
      let t := match exits t !! ss_nodeID ss with
               | Some e => if 0 <? x_active e
                           then t <| exits ::= <[ss_nodeID ss := e <| x_active ::= λ a, a - 1 |>]> |> else t
               | None => t
               end in
      appendEvent (mkEvent now KindDisconnect sessionID (ss_nodeID ss) (ss_region ss) (ss_username ss) f64_zero "") t
  end.

(** [sampleSession]: the session record afterwards, and the event to append if its state changed. *)
Definition sampleSession (t : Tracker) (bps : f64) (ts : Time) (ss : sessionState)
  : sessionState * option Event :=
  let ss := ss <| ss_bps := bps |> in
  let ss := if fgtb bps (ss_peakBps ss) then ss <| ss_peakBps := bps |> else ss in
  let ev k := mkEvent ts k (ss_id ss) (ss_nodeID ss) (ss_region ss) (ss_username ss) bps "" in
  if fltb (ss_peakBps ss) (floorBps t) then (ss, None)
  else if negb (ss_degraded ss) && fltb bps (fmul (ss_peakBps ss) (dropFactor t))
  then (ss <| ss_degraded := true |>, Some (ev KindSpeedDrop))
  else if ss_degraded ss && fgeb bps (fmul (ss_peakBps ss) (recoverPct t))
  then (ss <| ss_degraded := false |>, Some (ev KindRecovered))
  else (ss, None).

Definition append_opt (ev : option Event) (t : Tracker) : Tracker :=
  match ev with Some ev => appendEvent ev t | None => t end.

(** The session's part of [AddBytes]. *)
Definition account_session (t : Tracker) (ts : Time) (fromClient : bool) (n : Z) (ss : sessionState)
  : sessionState * option Event :=
  let ss := ss <| ss_lastSeen := ts |> in
  let ss := if fromClient then ss <| ss_bytesUp ::= λ x, u64 (x + u64 n) |>
            else ss <| ss_bytesDown ::= λ x, u64 (x + u64 n) |> in
  let ss := ss <| ss_winBytes ::= λ x, u64 (x + u64 n) |> in
  let d := Sub ts (ss_winStart ss) in
  if windowDur <=? d then
    let bps := fdiv (f64_of_Z (ss_winBytes ss)) (Seconds d) in
    let '(ss, ev) := sampleSession t bps ts ss in
    (ss <| ss_winStart := ts |> <| ss_winBytes := 0 |>, ev)
  else (ss, None).

(** The exit's part of [AddBytes]. *)
Definition account_exit (ts : Time) (fromClient : bool) (n : Z) (e : exitState) : exitState :=
  let e := e <| x_lastSeen := ts |> in
  let e := if fromClient then e <| x_bytesUp ::= λ x, u64 (x + u64 n) |>
           else e <| x_bytesDown ::= λ x, u64 (x + u64 n) |> in
  let e := e <| x_winBytes ::= λ x, u64 (x + u64 n) |> in
  let d := Sub ts (x_winStart e) in
  if windowDur <=? d then
    let e := e <| x_bps := fdiv (f64_of_Z (x_winBytes e)) (Seconds d) |> in
    let e := if fgtb (x_bps e) (x_peakBps e) then e <| x_peakBps := x_bps e |> else e in
    e <| x_winStart := ts |> <| x_winBytes := 0 |>
  else e.

Definition AddBytes (ts : Time) (sessionID : string) (fromClient : bool) (n : Z) (t : Tracker) : Tracker :=
  match sessions t !! sessionID with
  | None => t
  | Some ss =>
      let '(ss, ev) := account_session t ts fromClient n ss in
      let t := append_opt ev (t <| sessions ::= <[sessionID := ss]> |>) in
      match exits t !! ss_nodeID ss with
      | Some e => t <| exits ::= <[ss_nodeID ss := account_exit ts fromClient n e]> |>
      | None => t
      end
  end.

(** The fields [Report] overwrites with what the endpoint sent. *)
Definition merge_report (ts : Time) (r : report) (ss : sessionState) : sessionState :=
  let ss := ss <| ss_lastSeen := ts |> in
  let ss := when (ss_bytesUp ss <? rp_BytesUp r) (λ ss, ss <| ss_bytesUp := rp_BytesUp r |>) ss in
  let ss := when (ss_bytesDown ss <? rp_BytesDown r) (λ ss, ss <| ss_bytesDown := rp_BytesDown r |>) ss in
  let ss := when (ss_drops ss <? rp_Drops r) (λ ss, ss <| ss_drops := rp_Drops r |>) ss in
  let ss := when (0 <? rp_RTTms r) (λ ss, ss <| ss_rttMs := rp_RTTms r |>) ss in
  let ss := when (bool_decide (rp_Host r ≠ "")) (λ ss, ss <| ss_host := rp_Host r |>) ss in
  let ss := when (bool_decide (rp_TunName r ≠ "")) (λ ss, ss <| ss_tunName := rp_TunName r |>) ss in
  let ss := when (bool_decide (rp_OS r ≠ "")) (λ ss, ss <| ss_os := rp_OS r |>) ss in
  let ss := when (fgtb (rp_CPUPct r) f64_zero) (λ ss, ss <| ss_cpu := rp_CPUPct r |>) ss in
  let ss := when (fgtb (rp_MemPct r) f64_zero) (λ ss, ss <| ss_mem := rp_MemPct r |>) ss in
  let ss := when (fgtb (rp_DiskPct r) f64_zero) (λ ss, ss <| ss_disk := rp_DiskPct r |>) ss in
  when (rp_Direct r) (λ ss, ss <| ss_path := PathDirect |>) ss.

Definition Report (ts : Time) (sessionID : string) (r : report) (t : Tracker) : Tracker :=
  match sessions t !! sessionID with
  | None => t
  | Some ss =>
      let ss := merge_report ts r ss in
      let '(ss, ev) := if fgtb (rp_ThroughputBps r) f64_zero
                       then sampleSession t (rp_ThroughputBps r) ts ss else (ss, None) in
      append_opt ev (t <| sessions ::= <[sessionID := ss]> |>)
  end.

Definition WithStore (s : S) (t : Tracker) : Tracker := t <| store := Some s |>.

Definition CloseStore (t : Tracker) : option string * Tracker :=
  match store t with
  | None => (None, t)
  | Some s => let '(err, s) := CloseHistory s in (err, t <| store := Some s |>)
  end.

Definition Preload (limit : Z) (t : Tracker) : option string * Tracker :=
  match store t with
  | None => (None, t)
  | Some s =>
      match Load limit s with
      | Err e => (Some e, t)
      | Ok evs => (None, t <| hist := trim (histCap t) (reverse evs) |>)
      end
  end.

(** [Session]; [Sessions] leaves the endpoint fields empty. *)
Definition stat_of (now : Time) (ss : sessionState) : SessionStat :=
  mkSessionStat (ss_id ss) (ss_nodeID ss) (ss_region ss) (ss_username ss) (ss_path ss) (ss_startedAt ss)
    (f64_trunc (Seconds (Sub now (ss_startedAt ss)))) (ss_bytesUp ss) (ss_bytesDown ss) (ss_bps ss) (ss_peakBps ss)
    (ss_drops ss) (ss_rttMs ss) (ss_host ss) (ss_tunName ss) (ss_os ss) (ss_cpu ss) (ss_mem ss) (ss_disk ss)
    (ss_degraded ss) (ss_lastSeen ss).

Definition summary_of (now : Time) (ss : sessionState) : SessionStat :=
  mkSessionStat (ss_id ss) (ss_nodeID ss) (ss_region ss) (ss_username ss) (ss_path ss) (ss_startedAt ss)
    (f64_trunc (Seconds (Sub now (ss_startedAt ss)))) (ss_bytesUp ss) (ss_bytesDown ss) (ss_bps ss) (ss_peakBps ss)
    (ss_drops ss) (ss_rttMs ss) "" "" "" f64_zero f64_zero f64_zero (ss_degraded ss) (ss_lastSeen ss).

Definition session_le (a b : SessionStat) : Prop := String.le (st_SessionID a) (st_SessionID b).
#[export] Instance session_le_dec a b : Decision (session_le a b).
Proof. unfold session_le. apply _. Defined.

Definition Sessions (now : Time) (t : Tracker) : list SessionStat :=
  merge_sort session_le (summary_of now <$> (map_to_list (sessions t)).*2).

Definition Session (now : Time) (id : string) (t : Tracker) : option SessionStat :=
  stat_of now <$> sessions t !! id.

Definition exit_stat (e : exitState) : ExitStat :=
  mkExitStat (x_nodeID e) (x_region e) (x_active e) (x_bytesUp e) (x_bytesDown e) (x_bps e) (x_peakBps e)
             (x_connectedAt e) (x_lastSeen e).

Definition ExitOne (id : string) (t : Tracker) : option ExitStat := exit_stat <$> exits t !! id.

Definition exit_le (a b : ExitStat) : Prop := String.le (xs_NodeID a) (xs_NodeID b).
#[export] Instance exit_le_dec a b : Decision (exit_le a b).
Proof. unfold exit_le. apply _. Defined.

Definition Exits (t : Tracker) : list ExitStat :=
  merge_sort exit_le (exit_stat <$> (map_to_list (exits t)).*2).

Definition ActiveClients (nodeID : string) (t : Tracker) : Z := from_option x_active 0 (exits t !! nodeID).

Definition History (limit : Z) (t : Tracker) : list Event :=
  let n := if (0 <? limit) && (limit <? Z.of_nat (length (hist t))) then Z.to_nat limit else length (hist t) in
  omap (λ i, hist t !! (length (hist t) - 1 - i)%nat) (seq 0 n).

(** ** Calls in sequence *)

Inductive qos_call :=
| QNodeUp (now : Time) (nodeID region : string) (connectedAt : Time)
| QNodeDown (now : Time) (nodeID : string)
| QConnect (now : Time) (sessionID nodeID region username : string) (startedAt : Time)
| QDisconnect (now : Time) (sessionID : string)
| QAddBytes (now : Time) (sessionID : string) (fromClient : bool) (n : Z)
| QReport (now : Time) (sessionID : string) (r : report).

Definition exec (c : qos_call) : Tracker → Tracker :=
  match c with
  | QNodeUp now nid reg at_ => NodeUp now nid reg at_
  | QNodeDown now nid => NodeDown now nid
  | QConnect now sid nid reg user at_ => Connect now sid nid reg user at_
  | QDisconnect now sid => Disconnect now sid
  | QAddBytes now sid fc n => AddBytes now sid fc n
  | QReport now sid r => Report now sid r
  end.

Definition exec_all (cs : list qos_call) (t : Tracker) : Tracker := foldl (λ t c, exec c t) t cs.
End tracker.

Arguments Tracker : clear implicits.

(** ** The event log as an abstract specification

    What the log alone tells: which exits are up, which sessions are live on which exit, and which of
    them are degraded.  [apply_event] rejects an event that makes no sense in the current state. *)

Record view := mkView {
  v_exits : gmap string string;            (* node id -> region *)
  v_sessions : gmap string (string * bool) (* session id -> node id, degraded *)
}.

Definition apply_event (v : view) (e : Event) : option view :=
  match e_Kind e with
  | KindNodeUp => Some (mkView (<[e_NodeID e := e_Region e]> (v_exits v)) (v_sessions v))
  | KindNodeDown => Some (mkView (delete (e_NodeID e) (v_exits v)) (v_sessions v))
  | KindConnect => Some (mkView (v_exits v) (<[e_SessionID e := (e_NodeID e, false)]> (v_sessions v)))
  | KindDisconnect =>
      match v_sessions v !! e_SessionID e with
      | Some (n, _) => if decide (n = e_NodeID e)
                       then Some (mkView (v_exits v) (delete (e_SessionID e) (v_sessions v))) else None
      | None => None
      end
  | KindSpeedDrop =>
      match v_sessions v !! e_SessionID e with
      | Some (n, false) => if decide (n = e_NodeID e)
                           then Some (mkView (v_exits v) (<[e_SessionID e := (n, true)]> (v_sessions v))) else None
      | _ => None
      end
  | KindRecovered =>
      match v_sessions v !! e_SessionID e with
      | Some (n, true) => if decide (n = e_NodeID e)
                          then Some (mkView (v_exits v) (<[e_SessionID e := (n, false)]> (v_sessions v))) else None
      | _ => None
      end
  end.

Definition replay (l : list Event) : option view :=
  foldl (λ v e, v ≫= λ v, apply_event v e) (Some (mkView ∅ ∅)) l.

Lemma replay_snoc l e : replay (l ++ [e]) = replay l ≫= λ v, apply_event v e.
Proof. unfold replay. by rewrite foldl_snoc. Qed.

(** The store that keeps everything: the log itself. *)
#[export] Instance log_store : HistoryStore (list Event) := {
  Append e l := l ++ [e];
  Load limit l := Ok (if 0 <? limit then take (Z.to_nat limit) (reverse l) else reverse l);
  CloseHistory l := (None, l)
}.

Definition session_view (ss : sessionState) : string * bool := (ss_nodeID ss, ss_degraded ss).

(** The tracker shows exactly what its log tells, and its history is the tail of the log. *)
Record tracks (t : Tracker (list Event)) (log : list Event) : Prop := {
  tr_store : store t = Some log;
  tr_cap : 0 < histCap t;
  tr_hist : hist t = drop (length log - Z.to_nat (histCap t)) log;
  tr_replay : replay log = Some (mkView (x_region <$> exits t) (session_view <$> sessions t));
  tr_ids : ∀ id ss, sessions t !! id = Some ss → ss_id ss = id
}.

(** [trim] after an append keeps the tail of the log. *)
Lemma trim_tail cap (log : list Event) e :
  0 < cap →
  trim cap (drop (length log - Z.to_nat cap) log ++ [e])
  = drop (length (log ++ [e]) - Z.to_nat cap) (log ++ [e]).
Proof.
  intros Hc. unfold trim. rewrite !length_app, length_drop. simpl.
  destruct (Z.ltb_spec cap (Z.of_nat (length log - (length log - Z.to_nat cap) + 1))) as [Hlt|Hge].
  - rewrite !drop_app, drop_drop.
    replace (length log - (length log - Z.to_nat cap) + 1 - Z.to_nat cap)%nat with 1%nat by lia.
    rewrite length_drop.
    replace (length log - Z.to_nat cap + 1)%nat with (length log + 1 - Z.to_nat cap)%nat by lia.
    do 2 f_equal; lia.
  - rewrite drop_app. replace (length log - Z.to_nat cap)%nat with 0%nat by lia.
    by replace (length log + 1 - Z.to_nat cap)%nat with 0%nat by lia.
Qed.

Lemma tracks_append t log ev exs sss v :
  tracks t log → replay log = Some v →
  apply_event v ev = Some (mkView (x_region <$> exs) (session_view <$> sss)) →
  (∀ id ss, sss !! id = Some ss → ss_id ss = id) →
  tracks (appendEvent ev (t <| exits := exs |> <| sessions := sss |>)) (log ++ [ev]).
Proof.
  intros [H1 H2 H3 H4 H5] Hv Ha Hids. constructor; simpl; try done.
  - by rewrite H1.
  - by rewrite H3, trim_tail.
  - by rewrite replay_snoc, Hv.
Qed.

Lemma tracks_same t log exs sss :
  tracks t log → x_region <$> exs = x_region <$> exits t → session_view <$> sss = session_view <$> sessions t →
  (∀ id ss, sss !! id = Some ss → ss_id ss = id) →
  tracks (t <| exits := exs |> <| sessions := sss |>) log.
Proof. intros [] He Hs Hids. constructor; simpl; try done. by rewrite He, Hs. Qed.

(** Sampling keeps the identity of a session; its event, if any, is the change of its flag. *)
Lemma sampleSession_spec (t : Tracker (list Event)) bps ts ss :
  let '(ss', ev) := sampleSession t bps ts ss in
  ss_id ss' = ss_id ss ∧ ss_nodeID ss' = ss_nodeID ss ∧
  ss_bytesUp ss' = ss_bytesUp ss ∧ ss_bytesDown ss' = ss_bytesDown ss ∧
  match ev with
  | None => ss_degraded ss' = ss_degraded ss
  | Some e => e_SessionID e = ss_id ss ∧ e_NodeID e = ss_nodeID ss ∧
      ((e_Kind e = KindSpeedDrop ∧ ss_degraded ss = false ∧ ss_degraded ss' = true) ∨
       (e_Kind e = KindRecovered ∧ ss_degraded ss = true ∧ ss_degraded ss' = false))
  end.
Proof.
  unfold sampleSession. simpl. destruct (fgtb bps (ss_peakBps ss)); simpl;
    destruct (fltb _ (floorBps t)); [done| |done|];
    destruct (ss_degraded ss) eqn:Ed; simpl;
    (destruct (fltb bps _) || destruct (fgeb bps _)); simpl; rewrite ?Ed; naive_solver.
Qed.

Lemma account_session_spec (t : Tracker (list Event)) ts fc n ss :
  let '(ss', ev) := account_session t ts fc n ss in
  ss_id ss' = ss_id ss ∧ ss_nodeID ss' = ss_nodeID ss ∧
  ss_bytesUp ss' = (if fc then u64 (ss_bytesUp ss + u64 n) else ss_bytesUp ss) ∧
  ss_bytesDown ss' = (if fc then ss_bytesDown ss else u64 (ss_bytesDown ss + u64 n)) ∧
  match ev with
  | None => ss_degraded ss' = ss_degraded ss
  | Some e => e_SessionID e = ss_id ss ∧ e_NodeID e = ss_nodeID ss ∧
      ((e_Kind e = KindSpeedDrop ∧ ss_degraded ss = false ∧ ss_degraded ss' = true) ∨
       (e_Kind e = KindRecovered ∧ ss_degraded ss = true ∧ ss_degraded ss' = false))
  end.
Proof.
  unfold account_session. destruct (_ <=? _); [|by destruct fc].
  match goal with |- context [sampleSession t ?b ts ?s] => pose proof (sampleSession_spec t b ts s) as Hs end.
  destruct (sampleSession _ _ _ _) as [ss' ev]. destruct Hs as (H1 & H2 & H3 & H4 & H5). simpl.
  rewrite H1, H2, H3, H4. by destruct fc, ev.
Qed.

Lemma merge_report_spec ts r ss :
  let ss' := merge_report ts r ss in
  ss_id ss' = ss_id ss ∧ ss_nodeID ss' = ss_nodeID ss ∧ ss_degraded ss' = ss_degraded ss ∧
  ss_bytesUp ss' = Z.max (ss_bytesUp ss) (rp_BytesUp r) ∧
  ss_bytesDown ss' = Z.max (ss_bytesDown ss) (rp_BytesDown r).
Proof.
  unfold merge_report. cbv zeta. split_and!.
  1-3: by rewrite !when_proj by done.
  - rewrite 10!(when_proj ss_bytesUp) by done. unfold when. simpl.
    destruct (Z.ltb_spec (ss_bytesUp ss) (rp_BytesUp r)); simpl; lia.
  - rewrite 9!(when_proj ss_bytesDown) by done.
    unfold when at 1. rewrite !(when_proj ss_bytesDown) by done. simpl.
    destruct (Z.ltb_spec (ss_bytesDown ss) (rp_BytesDown r)); simpl; [lia|].
    rewrite !(when_proj ss_bytesDown) by done. simpl. lia.
Qed.

(** ** Every call keeps the log and the tracker in step *)

Lemma ids_insert (m : gmap string sessionState) id ss :
  (∀ i s, m !! i = Some s → ss_id s = i) → ss_id ss = id →
  ∀ i s, <[id := ss]> m !! i = Some s → ss_id s = i.
Proof. intros Hm Hid i s [[<- <-]|[_ ?]]%lookup_insert_Some; auto. Qed.

Lemma fmap_insert_same {A B} (f : A → B) (m : gmap string A) k x y :
  m !! k = Some x → f y = f x → f <$> <[k := y]> m = f <$> m.
Proof. intros Hk Hf. rewrite fmap_insert, Hf. apply insert_id. by rewrite lookup_fmap, Hk. Qed.

(** A new record for a live session, with the event of its flag if the flag changed. *)
Lemma tracks_sample t log id ss ss' ev :
  tracks t log → sessions t !! id = Some ss → ss_id ss' = ss_id ss → ss_nodeID ss' = ss_nodeID ss →
  match ev with
  | None => ss_degraded ss' = ss_degraded ss
  | Some e => e_SessionID e = ss_id ss ∧ e_NodeID e = ss_nodeID ss ∧
      ((e_Kind e = KindSpeedDrop ∧ ss_degraded ss = false ∧ ss_degraded ss' = true) ∨
       (e_Kind e = KindRecovered ∧ ss_degraded ss = true ∧ ss_degraded ss' = false))
  end →
  ∃ log', tracks (append_opt ev (t <| sessions ::= <[id := ss']> |>)) log'.
Proof.
  intros Ht Hl Hid Hn Hev. pose proof (tr_ids t log Ht _ _ Hl) as Hss.
  assert (∀ i s, <[id := ss']> (sessions t) !! i = Some s → ss_id s = i) as Hids
    by (apply ids_insert; [apply (tr_ids t log Ht)|congruence]).
  destruct ev as [e|]; simpl append_opt.
  - destruct Hev as (He1 & He2 & Hk). exists (log ++ [e]).
    apply (tracks_append t log e (exits t) (<[id := ss']> (sessions t)) _ Ht (tr_replay t log Ht)); [|done].
    unfold apply_event. simpl. rewrite He1, He2, Hss, lookup_fmap, Hl, fmap_insert. simpl. unfold session_view.
    destruct Hk as [(-> & -> & ->)|(-> & -> & ->)]; rewrite Hn, decide_True by done; done.
  - exists log. apply (tracks_same t log (exits t) (<[id := ss']> (sessions t))); try done.
    apply (fmap_insert_same _ _ _ ss); [done|]. unfold session_view. congruence.
Qed.

Lemma tracks_exits t log exs :
  tracks t log → x_region <$> exs = x_region <$> exits t → tracks (t <| exits := exs |>) log.
Proof. intros [] He. constructor; simpl; try done. by rewrite He. Qed.

Lemma exec_tracks c t log : tracks t log → ∃ log', tracks (exec c t) log'.
Proof.
  intros Ht. pose proof (tr_ids t log Ht) as Hids. pose proof (tr_replay t log Ht) as Hr.
  destruct c as [now nid reg at_|now nid|now sid nid reg user at_|now sid|now sid fc n|now sid r]; simpl.
  - eexists. apply (tracks_append t log _ (<[nid := _]> (exits t)) (sessions t) _ Ht Hr); [|done].
    unfold apply_event. simpl. by rewrite fmap_insert.
  - eexists. apply (tracks_append t log _ (delete nid (exits t)) (sessions t) _ Ht Hr); [|done].
    unfold apply_event. simpl. by rewrite fmap_delete.
  - eexists. unfold Connect. simpl.
    destruct (exits t !! nid) as [e|] eqn:E;
      [apply (tracks_append t log _ (<[nid := _]> (exits t)) (<[sid := _]> (sessions t)) _ Ht Hr)
      |apply (tracks_append t log _ (exits t) (<[sid := _]> (sessions t)) _ Ht Hr)];
      try (by apply ids_insert); unfold apply_event; simpl; [|by rewrite fmap_insert].
    by rewrite (fmap_insert_same x_region _ nid e), fmap_insert.
  - unfold Disconnect. destruct (sessions t !! sid) as [ss|] eqn:E; [|by exists log].
    assert (∀ i s, delete sid (sessions t) !! i = Some s → ss_id s = i) as Hids'
      by (intros i s [_ ?]%lookup_delete_Some; auto).
    assert (∀ exs, x_region <$> exs = x_region <$> exits t →
      ∃ log', tracks (appendEvent (mkEvent now KindDisconnect sid (ss_nodeID ss) (ss_region ss) (ss_username ss) f64_zero "")
        (t <| exits := exs |> <| sessions := delete sid (sessions t) |>)) log') as Hgo.
    { intros exs Hex. eexists. apply (tracks_append t log _ _ _ _ Ht Hr); [|done].
      unfold apply_event. simpl. by rewrite lookup_fmap, E, Hex, fmap_delete; simpl; rewrite decide_True. }
    simpl. destruct (exits t !! ss_nodeID ss) as [e|] eqn:Ee; [|by apply (Hgo (exits t))].
    destruct (0 <? x_active e); [|by apply (Hgo (exits t))].
    destruct (Hgo (<[ss_nodeID ss := e <| x_active ::= λ a, a - 1 |>]> (exits t))) as [log' H'].
    { by rewrite (fmap_insert_same _ _ _ e). }
    exists log'. exact H'.
  - unfold AddBytes. destruct (sessions t !! sid) as [ss|] eqn:E; [|by exists log].
    pose proof (account_session_spec t now fc n ss) as Hs.
    destruct (account_session t now fc n ss) as [ss' ev]. destruct Hs as (H1 & H2 & _ & _ & H3).
    destruct (tracks_sample t log sid ss ss' ev Ht E H1 H2 H3) as [log' Ht'].
    exists log'. set (t' := append_opt _ _) in *.
    destruct (exits t' !! ss_nodeID ss') as [e|] eqn:Ee; [|done].
    apply (tracks_exits t' log' (<[ss_nodeID ss' := _]> (exits t'))); [done|].
    apply (fmap_insert_same _ _ _ e); [done|]. unfold account_exit. destruct fc; simpl;
      (destruct (_ <=? _); [|done]); simpl; by destruct (fgtb _ _).
  - unfold Report. destruct (sessions t !! sid) as [ss|] eqn:E; [|by exists log].
    destruct (merge_report_spec now r ss) as (H1 & H2 & H3 & _). set (ss1 := merge_report now r ss) in *.
    destruct (fgtb (rp_ThroughputBps r) f64_zero).
    + pose proof (sampleSession_spec t (rp_ThroughputBps r) now ss1) as Hs.
      destruct (sampleSession t _ now ss1) as [ss' ev]. destruct Hs as (G1 & G2 & _ & _ & G3).
      apply (tracks_sample t log sid ss); [done|done|congruence|congruence|]. rewrite <- H3.
      destruct ev; naive_solver congruence.
    + by apply (tracks_sample t log sid ss ss1 None).
Qed.

Lemma New_tracks cap : tracks (WithStore [] (New cap)) [].
Proof.
  constructor; simpl; try done. destruct (Z.leb_spec cap 0); [done|lia].
Qed.

Lemma exec_all_tracks cs t log : tracks t log → ∃ log', tracks (exec_all cs t) log'.
Proof.
  revert t log. induction cs as [|c cs IH]; intros t log Ht; [by exists log|].
  destruct (exec_tracks c t log Ht) as [log1 H1]. change (exec_all (c :: cs) t) with (exec_all cs (exec c t)). eauto.
Qed.

Lemma histCap_append ev (t : Tracker (list Event)) : histCap (append_opt ev t) = histCap t.
Proof. by destruct ev. Qed.

Lemma histCap_exec c (t : Tracker (list Event)) : histCap (exec c t) = histCap t.
Proof.
  destruct c as [| |now sid nid reg user at_|now sid|now sid fc n|now sid r]; simpl; try done.
  - unfold Connect. simpl. by destruct (exits t !! nid).
  - unfold Disconnect. destruct (sessions t !! sid); [|done]. simpl.
    destruct (exits t !! _); [|done]. by destruct (0 <? _).
  - unfold AddBytes. destruct (sessions t !! sid); [|done].
    destruct (account_session _ _ _ _ _) as [? ev]. destruct (exits _ !! _); simpl; by rewrite ?histCap_append.
  - unfold Report. destruct (sessions t !! sid); [|done].
    destruct (if fgtb _ _ then _ else _) as [? ev]. by rewrite histCap_append.
Qed.

Lemma histCap_exec_all cs (t : Tracker (list Event)) : histCap (exec_all cs t) = histCap t.
Proof.
  revert t. induction cs as [|c cs IH]; intros t; [done|].
  change (exec_all (c :: cs) t) with (exec_all cs (exec c t)). by rewrite IH, histCap_exec.
Qed.

(** [History] is the newest-first prefix of the kept events. *)
Lemma History_spec limit (t : Tracker (list Event)) :
  History limit t = (if 0 <? limit then take (Z.to_nat limit) else id) (reverse (hist t)).
Proof.
  assert (∀ n, (n ≤ length (hist t))%nat →
    omap (λ i, hist t !! (length (hist t) - 1 - i)%nat) (seq 0 n) = take n (reverse (hist t))) as Hn.
  { induction n as [|n IH]; intros Hn; [done|].
    rewrite seq_S, omap_app, IH by lia. simpl.
    destruct (lookup_lt_is_Some_2 (hist t) (length (hist t) - 1 - n)) as [e He]; [lia|]. rewrite He. simpl.
    assert (reverse (hist t) !! n = Some e) as Hr.
    { rewrite reverse_lookup by lia. by replace (length (hist t) - S n)%nat with (length (hist t) - 1 - n)%nat by lia. }
    by rewrite (take_S_r _ _ _ Hr). }
  unfold History. destruct (Z.ltb_spec 0 limit); simpl.
  - destruct (Z.ltb_spec limit (Z.of_nat (length (hist t)))); simpl.
    + apply Hn. lia.
    + rewrite Hn by done. rewrite !take_ge; rewrite ?length_reverse; [done|lia..].
  - rewrite Hn by done. by rewrite take_ge by (rewrite length_reverse; lia).
Qed.

(** ** Active counts *)

(** The live sessions on an exit. *)
Definition clients_on (nid : string) (t : Tracker (list Event)) : Z :=
  Z.of_nat (size (filter (λ kv, kv.2 = nid) (ss_nodeID <$> sessions t))).

(** Session ids are not reused while live, and an exit comes up without sessions. *)
Definition disciplined (c : qos_call) (t : Tracker (list Event)) : Prop :=
  match c with
  | QConnect _ sid _ _ _ _ => sessions t !! sid = None
  | QNodeUp _ nid _ _ => clients_on nid t = 0
  | _ => True
  end.

Inductive disciplined_run : list qos_call → Tracker (list Event) → Prop :=
| dr_nil t : disciplined_run [] t
| dr_cons c cs t : disciplined c t → disciplined_run cs (exec c t) → disciplined_run (c :: cs) t.

Definition counted (t : Tracker (list Event)) : Prop :=
  ∀ nid e, exits t !! nid = Some e → x_active e = clients_on nid t.

Lemma counted_same t t' :
  counted t → x_active <$> exits t' = x_active <$> exits t → ss_nodeID <$> sessions t' = ss_nodeID <$> sessions t →
  counted t'.
Proof.
  intros Hc He Hs nid e Hx. unfold clients_on. rewrite Hs.
  assert ((x_active <$> exits t) !! nid = Some (x_active e)) as Hf by (rewrite <- He, lookup_fmap, Hx; done).
  rewrite lookup_fmap in Hf. destruct (exits t !! nid) as [e0|] eqn:E; [|done]. injection Hf as <-. by apply Hc.
Qed.

Lemma clients_on_connect sid nid nid' (m : gmap string string) :
  m !! sid = None →
  Z.of_nat (size (filter (λ kv, kv.2 = nid') (<[sid := nid]> m))) =
  Z.of_nat (size (filter (λ kv, kv.2 = nid') m)) + (if decide (nid = nid') then 1 else 0).
Proof.
  intros Hs. rewrite map_filter_insert. simpl. case_decide.
  - rewrite map_size_insert_None; [lia|]. apply map_lookup_filter_None. by left.
  - rewrite delete_id by done. lia.
Qed.

Lemma clients_on_disconnect sid nid nid' (m : gmap string string) :
  m !! sid = Some nid →
  Z.of_nat (size (filter (λ kv, kv.2 = nid') (delete sid m))) =
  Z.of_nat (size (filter (λ kv, kv.2 = nid') m)) - (if decide (nid = nid') then 1 else 0).
Proof.
  intros Hs. rewrite <- (insert_delete_id m sid nid Hs) at 2.
  rewrite clients_on_connect by apply lookup_delete_eq. lia.
Qed.

Lemma sessions_append ev (t : Tracker (list Event)) : sessions (append_opt ev t) = sessions t.
Proof. by destruct ev. Qed.
Lemma exits_append ev (t : Tracker (list Event)) : exits (append_opt ev t) = exits t.
Proof. by destruct ev. Qed.

Lemma exec_counted c t : disciplined c t → counted t → counted (exec c t).
Proof.
  intros Hd Hc. destruct c as [now nid reg at_|now nid|now sid nid reg user at_|now sid|now sid fc n|now sid r]; simpl in *.
  - intros nid' e. unfold NodeUp. simpl. intros [[<- <-]|[_ He]]%lookup_insert_Some; simpl; [by rewrite <- Hd|]. by apply Hc.
  - intros nid' e. unfold NodeDown. simpl. intros [_ He]%lookup_delete_Some. by apply Hc.
  - intros nid' e. unfold Connect, clients_on. simpl.
    assert ((ss_nodeID <$> sessions t) !! sid = None) as Hf by (by rewrite lookup_fmap, Hd).
    destruct (exits t !! nid) as [e0|] eqn:E; simpl; rewrite fmap_insert; cbn [ss_nodeID];
      rewrite clients_on_connect by done.
    + intros [[<- <-]|[Hne He]]%lookup_insert_Some; [rewrite decide_True by done|rewrite decide_False by done];
        simpl; rewrite (Hc _ _ ltac:(eassumption)); unfold clients_on; lia.
    + intros He. rewrite decide_False by congruence. rewrite (Hc _ _ He). unfold clients_on. lia.
  - unfold Disconnect. destruct (sessions t !! sid) as [ss|] eqn:E; [|done].
    intros nid' e. unfold clients_on.
    assert ((ss_nodeID <$> sessions t) !! sid = Some (ss_nodeID ss)) as Hf by (by rewrite lookup_fmap, E).
    simpl. destruct (exits t !! ss_nodeID ss) as [e0|] eqn:Ee; simpl.
    + pose proof (clients_on_disconnect sid (ss_nodeID ss) (ss_nodeID ss) _ Hf) as Hself.
      rewrite decide_True in Hself by done. pose proof (Hc _ _ Ee) as He0. unfold clients_on in He0.
      destruct (Z.ltb_spec 0 (x_active e0)); [|lia]. simpl. rewrite fmap_delete, (clients_on_disconnect _ _ _ _ Hf).
      intros [[<- <-]|[Hne He]]%lookup_insert_Some; [rewrite decide_True by done|rewrite decide_False by done];
        simpl; [lia|]. rewrite (Hc _ _ He). unfold clients_on. lia.
    + intros He. rewrite fmap_delete, (clients_on_disconnect _ _ _ _ Hf), decide_False by congruence.
      rewrite (Hc _ _ He). unfold clients_on. lia.
  - unfold AddBytes. destruct (sessions t !! sid) as [ss|] eqn:E; [|done].
    pose proof (account_session_spec t now fc n ss) as Hs.
    destruct (account_session t now fc n ss) as [ss' ev]. destruct Hs as (_ & H2 & _).
    rewrite exits_append. simpl. apply (counted_same t); [done|..].
    + destruct (exits t !! ss_nodeID ss') as [e|] eqn:Ee; simpl; rewrite exits_append; [|done]. simpl.
      apply (fmap_insert_same _ _ _ e); [done|]. unfold account_exit. destruct fc; simpl;
        (destruct (_ <=? _); [|done]); simpl; by destruct (fgtb _ _).
    + destruct (exits t !! ss_nodeID ss') as [e|]; simpl; rewrite sessions_append; simpl;
        by apply (fmap_insert_same _ _ _ ss).
  - unfold Report. destruct (sessions t !! sid) as [ss|] eqn:E; [|done].
    destruct (merge_report_spec now r ss) as (_ & H2 & _). set (ss1 := merge_report now r ss) in *.
    assert (∀ ss' ev, ss_nodeID ss' = ss_nodeID ss → counted (append_opt ev (t <| sessions ::= <[sid := ss']> |>))) as Hgo.
    { intros ss' ev Hn. apply (counted_same t); [done|by rewrite exits_append|].
      rewrite sessions_append. by apply (fmap_insert_same _ _ _ ss). }
    destruct (fgtb (rp_ThroughputBps r) f64_zero); [|by apply Hgo].
    pose proof (sampleSession_spec t (rp_ThroughputBps r) now ss1) as Hs.
    destruct (sampleSession t _ now ss1) as [ss' ev]. destruct Hs as (_ & G2 & _). apply Hgo. congruence.
Qed.

(** ** Properties *)

(** C16. The events are a faithful account of the fleet: replaying the log that the tracker wrote -
    with rules that reject a speed drop of a degraded session, a recovery of a healthy one, and a
    disconnect or sample of an unknown one - never gets stuck and reconstructs exactly the exits that
    are up, with their regions, and the live sessions, with their exits and their degraded flags. *)
Theorem event_log_replays cap cs :
  ∃ log, store (exec_all cs (WithStore [] (New cap))) = Some log ∧
    replay log = Some (mkView (x_region <$> exits (exec_all cs (WithStore [] (New cap))))
                              (session_view <$> sessions (exec_all cs (WithStore [] (New cap))))).
Proof.
  destruct (exec_all_tracks cs _ [] (New_tracks cap)) as [log []]. by exists log.
Qed.

(** The history is bounded and recent: after any calls it holds the last [cap] events of the log
    (1000 if the cap is not positive), and [History limit] lists the newest [limit] of them, newest
    first. *)
Theorem history_is_recent cap cs limit :
  let t := exec_all cs (WithStore [] (New cap)) in
  let n := Z.to_nat (if cap <=? 0 then 1000 else cap) in
  ∃ log, store t = Some log ∧ (length (hist t) ≤ n)%nat ∧
    History limit t = take (if 0 <? limit then Z.to_nat limit `min` n else n) (reverse log).
Proof.
  intros t n. destruct (exec_all_tracks cs _ [] (New_tracks cap)) as [log Ht]. fold t in Ht.
  assert (Z.to_nat (histCap t) = n) as Hn by (unfold t; by rewrite histCap_exec_all).
  destruct Ht as [Hs Hc Hh _ _]. rewrite Hn in Hh. exists log. split; [done|]. split.
  - rewrite Hh, length_drop. lia.
  - assert (reverse (hist t) = take n (reverse log)) as Hr.
    { rewrite Hh. rewrite <- (reverse_involutive log) at 2. rewrite <- (length_reverse log).
      generalize (reverse log). intros l. rewrite <- (take_drop n l) at 2. rewrite reverse_app.
      rewrite drop_app_length'; [by rewrite reverse_involutive|]. rewrite length_reverse, length_drop. done. }
    rewrite History_spec, Hr. destruct (0 <? limit); [|done]. by rewrite take_take.
Qed.

(** The load the broker balances on is real: as long as session ids are not reused while live
    and exits come up without sessions, the active count of every exit that is up is the number of
    live sessions on it. *)
Theorem active_counts_sessions cap cs nid e :
  disciplined_run cs (WithStore [] (New cap)) →
  exits (exec_all cs (WithStore [] (New cap))) !! nid = Some e →
  ActiveClients nid (exec_all cs (WithStore [] (New cap))) =
  Z.of_nat (length (filter (λ p, ss_nodeID p.2 = nid)
                     (map_to_list (sessions (exec_all cs (WithStore [] (New cap))))))).
Proof.
  intros Hd He. assert (counted (exec_all cs (WithStore [] (New cap)))) as Hc.
  { assert (counted (WithStore [] (New cap))) as H0 by (intros ? ?; simpl; by rewrite lookup_empty).
    clear He. revert Hd H0. generalize (WithStore [] (New (S := list Event) cap)). induction cs as [|c cs IH]; [done|].
    intros t Hd Ht. inversion Hd; subst. change (exec_all (c :: cs) t) with (exec_all cs (exec c t)).
    apply IH; [done|]. by apply exec_counted. }
  unfold ActiveClients. rewrite He. simpl. rewrite (Hc _ _ He). unfold clients_on. f_equal.
  set (m := sessions _). clear. induction m as [|k ss m Hk IH] using map_ind.
  { by rewrite map_to_list_empty. }
  rewrite map_to_list_insert by done. simpl. rewrite fmap_insert, map_filter_insert. simpl.
  assert ((ss_nodeID <$> m) !! k = None) by (by rewrite lookup_fmap, Hk).
  rewrite filter_cons. simpl. case_decide.
  - rewrite map_size_insert_None; [simpl; lia|]. apply map_lookup_filter_None. by left.
  - by rewrite delete_id.
Qed.

Definition demo_calls : list qos_call :=
  [QNodeUp 1 "exit-a" "eu" 1; QConnect 2 "s1" "exit-a" "eu" "alice" 2; QConnect 3 "s2" "exit-a" "eu" "bob" 3;
   QAddBytes 4 "s1" true 900; QDisconnect 5 "s2"].

Lemma active_counts_sessions_witness :
  ∃ e, exits (exec_all demo_calls (WithStore [] (New 10))) !! "exit-a"%string = Some e ∧
  ActiveClients "exit-a" (exec_all demo_calls (WithStore [] (New 10))) =
  Z.of_nat (length (filter (λ p, ss_nodeID p.2 = "exit-a"%string)
                     (map_to_list (sessions (exec_all demo_calls (WithStore [] (New 10))))))).
Proof.
  eexists. split; [vm_compute; reflexivity|].
  eapply (active_counts_sessions 10 demo_calls "exit-a"); [|vm_compute; reflexivity].
  repeat constructor.
Defined.

(** Byte totals only grow: no call but the disconnect of a session, or a new connection under
    its id, lowers its totals, as long as they stay below 2^64; relayed bytes are added in the
    direction they went and reports raise a total to the reported one. *)
Theorem byte_totals_grow c (t : Tracker (list Event)) sid ss :
  sessions t !! sid = Some ss →
  match c with
  | QConnect _ sid' _ _ _ _ | QDisconnect _ sid' => sid' ≠ sid
  | QAddBytes _ _ _ n => 0 ≤ n ∧ 0 ≤ ss_bytesUp ss ∧ 0 ≤ ss_bytesDown ss ∧
                         ss_bytesUp ss + n < 2 ^ 64 ∧ ss_bytesDown ss + n < 2 ^ 64
  | _ => True
  end →
  ∃ ss', sessions (exec c t) !! sid = Some ss' ∧
    ss_bytesUp ss' = ss_bytesUp ss +
      (match c with
       | QAddBytes _ sid' true n => if decide (sid' = sid) then n else 0
       | QReport _ sid' r => if decide (sid' = sid) then Z.max 0 (rp_BytesUp r - ss_bytesUp ss) else 0
       | _ => 0 end) ∧
    ss_bytesDown ss' = ss_bytesDown ss +
      (match c with
       | QAddBytes _ sid' false n => if decide (sid' = sid) then n else 0
       | QReport _ sid' r => if decide (sid' = sid) then Z.max 0 (rp_BytesDown r - ss_bytesDown ss) else 0
       | _ => 0 end).
Proof.
  intros Hs Hc. destruct c as [now nid reg at_|now nid|now sid' nid reg user at_|now sid'|now sid' fc n|now sid' r]; simpl.
  1-2: exists ss; split; [done|lia].
  - exists ss. unfold Connect. simpl. destruct (exits t !! nid); simpl; (split; [by rewrite lookup_insert_ne|lia]).
  - exists ss. unfold Disconnect. destruct (sessions t !! sid') as [s'|]; [|split; [done|lia]].
    simpl. split; [|lia]. destruct (exits t !! _); [destruct (0 <? _)|]; simpl; by rewrite lookup_delete_ne.
  - unfold AddBytes. destruct (decide (sid' = sid)) as [->|Hne].
    + rewrite Hs. pose proof (account_session_spec t now fc n ss) as H.
      destruct (account_session t now fc n ss) as [ss' ev]. destruct H as (_ & _ & Hu & Hdn & _).
      exists ss'. split.
      { destruct (exits _ !! _); simpl; rewrite sessions_append; simpl; apply lookup_insert_eq. }
      rewrite Hu, Hdn. unfold u64. rewrite (Z.mod_small n) by lia.
      destruct fc; rewrite ?Z.mod_small by lia; lia.
    + exists ss. split; [|destruct fc; lia].
      destruct (sessions t !! sid'); [|done]. destruct (account_session _ _ _ _ _) as [ss' ev].
      destruct (exits _ !! _); simpl; rewrite sessions_append; simpl; by rewrite lookup_insert_ne.
  - unfold Report. destruct (decide (sid' = sid)) as [->|Hne].
    + rewrite Hs. destruct (merge_report_spec now r ss) as (_ & _ & _ & Hu & Hdn).
      set (ss1 := merge_report now r ss) in *.
      destruct (if fgtb _ _ then _ else _) as [ss' ev] eqn:E. exists ss'.
      split; [rewrite sessions_append; apply lookup_insert_eq|].
      assert (ss_bytesUp ss' = ss_bytesUp ss1 ∧ ss_bytesDown ss' = ss_bytesDown ss1) as [-> ->]; [|lia].
      destruct (fgtb _ _); [|by simplify_eq].
      pose proof (sampleSession_spec t (rp_ThroughputBps r) now ss1) as G. rewrite E in G. naive_solver.
    + exists ss. split; [|lia]. destruct (sessions t !! sid'); [|done].
      destruct (if fgtb _ _ then _ else _) as [ss' ev]. rewrite sessions_append. simpl. by rewrite lookup_insert_ne.
Qed.

Lemma byte_totals_grow_witness :
  ∃ ss', sessions (exec (QAddBytes 9 "s1" true 100) (exec_all demo_calls (WithStore [] (New 10)))) !! "s1"%string
         = Some ss' ∧ ss_bytesUp ss' = 900 + 100 ∧ ss_bytesDown ss' = 0 + 0.
Proof.
  destruct (sessions (exec_all demo_calls (WithStore [] (New 10))) !! "s1"%string) as [ss|] eqn:E;
    [|vm_compute in E; discriminate].
  assert (ss_bytesUp ss = 900 ∧ ss_bytesDown ss = 0) as [Eu Ed] by (vm_compute in E; by injection E as <-).
  destruct (byte_totals_grow (QAddBytes 9 "s1" true 100) _ "s1" ss E) as (ss' & H1 & H2 & H3); [simpl; lia|].
  exists ss'. rewrite H2, H3, Eu, Ed. done.
Defined.
