(* ===== verification/History.v ===== *)
(** * Package internal/qos, history.go: the persistent event history

    [async] is the queue between the tracker and the disk: [Append] (a check and a send), the writer
    goroutine and [Close] run concurrently, as the steps of [astep].  [fileBackend] keeps one JSON
    object per line; [marshal] and [unmarshal] are the JSON codec of an event, the outcomes of the
    operating system's calls are arguments ([fs_env]).  [at_work] is a tracker on such a file with its
    queue in between. *)
From S2P Require Import Prelude Float64 GoTime Scanner QoS.

Open Scope Z_scope.

(** ** The queue *)

Section async.
Context {B : Type} (write : Event → B → B) (close : B → option string * B).

(** How far the call of [Close] that won the swap has come. *)
Inductive closing := COpen | CSwapped | CChannel | CDone.

Record asyncStore := mkAsync {
  a_b : B;
  a_ch : list Event;            (* the buffered channel *)
  a_cap : nat;
  a_closed : bool;              (* the atomic flag *)
  a_chClosed : bool;            (* close(ch) was called *)
  a_writing : option Event;     (* what the writer has received and not yet written *)
  a_sending : list Event;       (* calls of Append between the check and the send *)
  a_closing : closing
}.
#[export] Instance asyncStore_eta : Eta asyncStore :=
  λ a, mkAsync (a_b a) (a_ch a) (a_cap a) (a_closed a) (a_chClosed a) (a_writing a) (a_sending a) (a_closing a).

Definition newAsyncStore (b : B) (buf : Z) : asyncStore :=
  mkAsync b [] (Z.to_nat (if buf <=? 0 then 1024 else buf)) false false None [] COpen.

(** [Append] up to the send. *)
Definition append_check (ev : Event) (a : asyncStore) : asyncStore :=
  if a_closed a then a else a <| a_sending ::= cons ev |>.

(** The send of [Append]: on a closed channel it panics, which is recovered; on a full one the event
    is dropped.  The events that entered the channel are the first result. *)
Definition append_send (ev : Event) (a : asyncStore) : list Event * asyncStore :=
  if a_chClosed a then ([], a)
  else if decide (length (a_ch a) < a_cap a)%nat then ([ev], a <| a_ch ::= λ q, q ++ [ev] |>)
  else ([], a).

(** The goroutine [run]: receive, then write. *)
Definition run_receive (a : asyncStore) : option asyncStore :=
  match a_ch a, a_writing a with
  | ev :: q, None => Some (a <| a_ch := q |> <| a_writing := Some ev |>)
  | _, _ => None
  end.
Definition run_write (a : asyncStore) : option asyncStore :=
  match a_writing a with
  | Some ev => Some (a <| a_b ::= write ev |> <| a_writing := None |>)
  | None => None
  end.

(** [Close]: the swap, the close of the channel, and the end of [wg.Wait] with the backend's close. *)
Definition close_swap (a : asyncStore) : asyncStore :=
  if a_closed a then a else a <| a_closed := true |> <| a_closing := CSwapped |>.
Definition close_channel (a : asyncStore) : option asyncStore :=
  match a_closing a with
  | CSwapped => Some (a <| a_chClosed := true |> <| a_closing := CChannel |>)
  | _ => None
  end.
Definition close_wait (a : asyncStore) : option asyncStore :=
  match a_closing a, a_ch a, a_writing a with
  | CChannel, [], None => Some (a <| a_b ::= λ b, snd (close b) |> <| a_closing := CDone |>)
  | _, _, _ => None
  end.

(** [Append], with no [Close] between its check and its send. *)
Definition Append (ev : Event) (a : asyncStore) : asyncStore :=
  if a_closed a then a else snd (append_send ev a).

(** [Close], to its end: the first call writes what is left and closes the backend. *)
Definition Close (a : asyncStore) : option string * asyncStore :=
  if a_closed a then (None, a)
  else
    let '(err, b) := close (foldl (λ b e, write e b) (a_b a) (option_list (a_writing a) ++ a_ch a)) in
    (err, a <| a_b := b |> <| a_ch := [] |> <| a_writing := None |> <| a_closed := true |>
            <| a_chClosed := true |> <| a_closing := CDone |>).

(** One step; its label is the list of events that entered the channel. *)
Inductive astep : asyncStore → list Event → asyncStore → Prop :=
| as_check ev a : astep a [] (append_check ev a)
| as_send ev l1 l2 a acc a' :
    a_sending a = l1 ++ ev :: l2 → append_send ev (a <| a_sending := l1 ++ l2 |>) = (acc, a') → astep a acc a'
| as_receive a a' : run_receive a = Some a' → astep a [] a'
| as_write a a' : run_write a = Some a' → astep a [] a'
| as_swap a : astep a [] (close_swap a)
| as_channel a a' : close_channel a = Some a' → astep a [] a'
| as_wait a a' : close_wait a = Some a' → astep a [] a'.

Inductive arun : asyncStore → list Event → asyncStore → Prop :=
| ar_nil a : arun a [] a
| ar_snoc a acc1 a1 acc2 a2 : arun a acc1 a1 → astep a1 acc2 a2 → arun a (acc1 ++ acc2) a2.

Definition write_all (b : B) (evs : list Event) : B := foldl (λ b e, write e b) b evs.

(** What entered the channel has been written, is being written, or waits in it - in this order. *)
Record ainv (b0 : B) (acc : list Event) (a : asyncStore) : Prop := {
  ai_split : ∃ w, acc = w ++ option_list (a_writing a) ++ a_ch a ∧
               a_b a = if a_closing a is CDone then snd (close (write_all b0 w)) else write_all b0 w;
  ai_cap : (length (a_ch a) ≤ a_cap a)%nat;
  ai_flag : a_closed a = true ↔ a_closing a ≠ COpen;
  ai_chan : a_chClosed a = true ↔ a_closing a = CChannel ∨ a_closing a = CDone;
  ai_done : a_closing a = CDone → a_ch a = [] ∧ a_writing a = None
}.

Lemma astep_ainv b0 acc a acc' a' : astep a acc' a' → ainv b0 acc a → ainv b0 (acc ++ acc') a'.
Proof.
  intros Hst [(w & Hw & Hb) Hc Hf Hch Hd].
  destruct Hst as [ev a|ev l1 l2 a acc' a' Hs Ha|a a' Ha|a a' Ha|a|a a' Ha|a a' Ha]; rewrite ?app_nil_r.
  - unfold append_check. destruct (a_closed a) eqn:E; constructor; simpl; rewrite ?E; eauto.
  - unfold append_send in Ha. simpl in Ha. destruct (a_chClosed a) eqn:Ec; [|case_decide].
    + apply pair_equal_spec in Ha as [<- <-]. rewrite app_nil_r. constructor; simpl; rewrite ?Ec; eauto.
    + apply pair_equal_spec in Ha as [<- <-]. constructor; simpl; rewrite ?Ec; eauto.
      * exists w. by rewrite Hw, <- !app_assoc.
      * rewrite length_app. simpl. lia.
      * intros E. exfalso. assert (false = true) as [=]. apply Hch. by right.
    + apply pair_equal_spec in Ha as [<- <-]. rewrite app_nil_r. constructor; simpl; rewrite ?Ec; eauto.
  - unfold run_receive in Ha. destruct (a_ch a) as [|ev q] eqn:Eq; [done|]. destruct (a_writing a) eqn:Ew; [done|].
    injection Ha as <-. constructor; simpl; eauto; [simpl in Hc; lia|]. intros E. by destruct (Hd E).
  - unfold run_write in Ha. destruct (a_writing a) as [ev|] eqn:Ew; [|done]. injection Ha as <-.
    constructor; simpl; eauto; [|intros E; by destruct (Hd E)].
    exists (w ++ [ev]). split; [by rewrite Hw, <- app_assoc|].
    unfold write_all. rewrite foldl_snoc. destruct (a_closing a) eqn:Ecl; try (by rewrite Hb).
    by destruct (Hd eq_refl) as [_ [=]].
  - unfold close_swap. destruct (a_closed a) eqn:Ecl; [constructor; rewrite ?Ecl; eauto|].
    assert (a_closing a = COpen) as Eo by (destruct (a_closing a); naive_solver).
    rewrite Eo in Hch, Hb. constructor; simpl; try done; [eauto|naive_solver].
  - unfold close_channel in Ha. destruct (a_closing a) eqn:Ecl; try done. injection Ha as <-.
    constructor; simpl; eauto; [naive_solver|naive_solver|done].
  - unfold close_wait in Ha. destruct (a_closing a) eqn:Ecl; try done. destruct (a_ch a) eqn:Eq; [|done].
    destruct (a_writing a) eqn:Ew; [done|]. injection Ha as <-. constructor; simpl.
    + exists w. rewrite Eq, Ew. split; [done|]. by rewrite Hb.
    + by rewrite Eq.
    + split; [done|]. intros _. by apply Hf.
    + split; [by right|]. intros _. apply Hch. by left.
    + by rewrite Eq, Ew.
Qed.

Lemma arun_ainv b0 buf acc a : arun (newAsyncStore b0 buf) acc a → ainv b0 acc a.
Proof.
  remember (newAsyncStore b0 buf) as a0 eqn:E0. induction 1 as [a|a acc1 a1 acc2 a2 Hr IH Hs]; subst.
  - constructor; simpl; try done; [exists []; done|lia|naive_solver].
  - eapply astep_ainv; [done|]. auto.
Qed.

(** A call of [Append] is the steps of its check and its send. *)
Lemma Append_ainv b0 acc a ev :
  ainv b0 acc a →
  ∃ acc', ainv b0 (acc ++ acc') (Append ev a) ∧ a_cap (Append ev a) = a_cap a ∧
    (acc' = [] ∨ acc' = [ev]) ∧
    (a_closed a = false → (length (a_ch a) < a_cap a)%nat → acc' = [ev]).
Proof.
  intros Hi. unfold Append. destruct (a_closed a) eqn:Ec; [by exists []; rewrite app_nil_r; split_and!; [| |left|]|].
  destruct (append_send ev a) as [acc' a'] eqn:Es. exists acc'. split_and!.
  - assert (append_send ev ((append_check ev a) <| a_sending := a_sending a |>) = (acc', a')) as Es'.
    { unfold append_check. rewrite Ec. by destruct a. }
    rewrite <- (app_nil_r acc) in Hi |- *. eapply astep_ainv.
    + by eapply (as_send ev [] (a_sending a) (append_check ev a)); [unfold append_check; rewrite Ec|].
    + rewrite <- (app_nil_r (acc ++ [])). eapply astep_ainv; [apply as_check|done].
  - unfold append_send in Es. destruct (a_chClosed a); [by simplify_eq|]. case_decide; by simplify_eq.
  - unfold append_send in Es. destruct (a_chClosed a); [simplify_eq; auto|]. case_decide; simplify_eq; auto.
  - intros _ Hl. destruct Hi as [_ _ Hf Hch _]. unfold append_send in Es.
    destruct (a_chClosed a) eqn:Ecc.
    { exfalso. assert (a_closed a = true) as E; [|congruence]. apply Hf. destruct (proj1 Hch eq_refl) as [E|E]; by rewrite E. }
    rewrite decide_True in Es by done. by simplify_eq.
Qed.

(** The steps of the writer and of a caller of [Close]. *)
Definition quiet_step (a a' : asyncStore) : Prop :=
  run_receive a = Some a' ∨ run_write a = Some a' ∨ a' = close_swap a ∨ close_channel a = Some a' ∨ close_wait a = Some a'.

Lemma quiet_ainv b0 acc a a' : quiet_step a a' → ainv b0 acc a → ainv b0 acc a' ∧ a_cap a' = a_cap a.
Proof.
  intros Hq Hi. split.
  - rewrite <- (app_nil_r acc). eapply astep_ainv; [|done]. destruct Hq as [?|[?|[->|[?|?]]]]; by constructor.
  - unfold quiet_step, run_receive, run_write, close_swap, close_channel, close_wait in Hq.
    destruct Hq as [Hq|[Hq|[->|[Hq|Hq]]]]; [..|by destruct (a_closed a)| |];
      repeat case_match; simplify_eq; done.
Qed.

(** [Close] is what its steps and those of the writer come to. *)
Lemma write_steps a :
  ∃ a', rtc quiet_step a a' ∧
    a' = a <| a_b := foldl (λ b e, write e b) (a_b a) (option_list (a_writing a) ++ a_ch a) |>
           <| a_ch := [] |> <| a_writing := None |>.
Proof.
  eexists. split; [|done]. remember (a_ch a) as q eqn:Eq. revert a Eq.
  assert (∀ a, ∃ a1, rtc quiet_step a a1 ∧
    a1 = a <| a_b := foldl (λ b e, write e b) (a_b a) (option_list (a_writing a)) |> <| a_writing := None |>) as Hw.
  { intros a. eexists. split; [|done]. destruct (a_writing a) as [ev|] eqn:Ew.
    - apply rtc_once. right. left. unfold run_write. by rewrite Ew.
    - destruct a; simpl in *; by subst. }
  induction q as [|ev q IH]; intros a Eq.
  - destruct (Hw a) as (a1 & Hr & ->). rewrite app_nil_r. destruct a; simpl in *; by subst.
  - destruct (Hw a) as (a1 & Hr & E1). etrans; [exact Hr|].
    eapply rtc_l; [left; unfold run_receive; rewrite E1; simpl; by rewrite <- Eq|].
    rewrite foldl_app. by apply (IH (mkAsync _ q _ _ _ (Some ev) _ _)).
Qed.

Lemma Close_steps a :
  a_closed a = false → a_closing a = COpen → rtc quiet_step a (snd (Close a)).
Proof.
  intros Hc Ho. unfold Close. rewrite Hc. destruct (close _) as [err b] eqn:Eb. simpl.
  destruct (write_steps a) as (a1 & Hr & E1). etrans; [exact Hr|].
  eapply rtc_l; [right; right; by left|]. unfold close_swap. rewrite E1. simpl. rewrite Hc.
  eapply rtc_l; [do 3 right; left; done|]. simpl.
  apply rtc_once. do 4 right. unfold close_wait. simpl. by rewrite Eb.
Qed.

(** The steps the writer and [Close] take by themselves. *)
Definition drain_step (a a' : asyncStore) : Prop :=
  run_receive a = Some a' ∨ run_write a = Some a' ∨ close_wait a = Some a'.

(** The steps they have left: every step takes one. *)
Definition steps_left (a : asyncStore) : nat :=
  2 * length (a_ch a) + length (option_list (a_writing a)) + (if a_closing a is CDone then 0 else 1).

(** While [Close] waits; and when it is done, nothing is left. *)
Definition closing_up (a : asyncStore) : Prop :=
  a_closing a = CChannel ∨ a_closing a = CDone ∧ steps_left a = 0%nat.

Lemma drain_decreases a a' :
  drain_step a a' → steps_left a = S (steps_left a') ∧ (closing_up a → closing_up a').
Proof.
  unfold drain_step, run_receive, run_write, close_wait, closing_up, steps_left. intros [H|[H|H]].
  - destruct (a_ch a) as [|ev q], (a_writing a); try done. injection H as <-. simpl. split; [lia|]. intros [?|[_ ?]]; [by left|lia].
  - destruct (a_writing a); [|done]. injection H as <-. simpl. split; [lia|]. intros [?|[_ ?]]; [by left|lia].
  - destruct (a_closing a); try done. destruct (a_ch a) eqn:Eq, (a_writing a) eqn:Ew; try done. injection H as <-.
    simpl. rewrite Eq, Ew. split; [done|by right].
Qed.

Lemma drain_progress a : a_closing a = CChannel → ∃ a', drain_step a a'.
Proof.
  intros Hc. unfold drain_step, run_receive, run_write, close_wait. rewrite Hc.
  destruct (a_writing a), (a_ch a); eauto.
Qed.

Lemma drain a : a_closing a = CChannel → ∃ a', rtc drain_step a a' ∧ a_closing a' = CDone.
Proof.
  remember (steps_left a) as n eqn:En. revert a En. induction n as [|n IH]; intros a En Hc;
    destruct (drain_progress a Hc) as [a1 H1]; destruct (drain_decreases _ _ H1) as [Hl Hn]; [lia|].
  destruct (Hn (or_introl Hc)) as [Hc1|[Hd _]]; [|exists a1; split; [by apply rtc_once|done]].
  destruct (IH a1 ltac:(lia) Hc1) as (a' & Hr & Hd). exists a'. split; [by eapply rtc_l|done].
Qed.

Lemma drain_bounded n a a' :
  nsteps drain_step n a a' → steps_left a = (n + steps_left a')%nat ∧ (closing_up a → closing_up a').
Proof.
  induction 1 as [a|n a a1 a' H1 _ [IH1 IH2]]; [done|]. destruct (drain_decreases _ _ H1) as [Hl Hn].
  split; [lia|auto].
Qed.
End async.

(** ** The file *)

(** The limit set with [sc.Buffer]. *)
Definition maxLine : Z := 1024 * 1024.

(** What the calls to the operating system return. *)
Record fs_env := mkFS {
  fs_open : option string;        (* os.Open of a file that exists *)
  fs_create : option string;      (* os.Create of the temporary file *)
  fs_flush : option string;
  fs_close : option string;
  fs_rename : option string;
  fs_append : option string;      (* os.OpenFile for appending *)
  fs_write : option nat           (* a failed write: how many bytes were written *)
}.
Definition fs_ok : fs_env := mkFS None None None None None None None.

Record fileBackend := mkFB { fb_file : option (list byte); fb_maxRows : Z; fb_open : bool }.
#[export] Instance fileBackend_eta : Eta fileBackend := λ fb, mkFB (fb_file fb) (fb_maxRows fb) (fb_open fb).

Definition defaultFileMaxRows : Z := 5000.

Section file.
Context (marshal : Event → result string (list byte)) (unmarshal : list byte → option Event).

Definition decode_line (l : list byte) : option Event := match l with [] => None | _ => unmarshal l end.

Definition readAllEvents (o : fs_env) (file : option (list byte)) : list Event * option string :=
  match file with
  | None => ([], None)
  | Some bs =>
      match fs_open o with
      | Some e => ([], Some e)
      | None =>
          let '(ls, err) := Scan maxLine bs in
          (omap decode_line ls, err)
      end
  end.

(** A record of [trim]: the error of the codec is ignored. *)
Definition record_bytes (ev : Event) : list byte := match marshal ev with Ok b => b | Err _ => [] end ++ [nl].

Definition fb_trim (o : fs_env) (fb : fileBackend) : option string * fileBackend :=
  let '(evs, err) := readAllEvents o (fb_file fb) in
  match err with
  | Some e => (Some e, fb)
  | None =>
      if Z.of_nat (length evs) <=? fb_maxRows fb then (None, fb)
      else
        let keep := drop (length evs - Z.to_nat (fb_maxRows fb)) evs in
        match fs_create o, fs_flush o, fs_close o, fs_rename o with
        | None, None, None, None => (None, fb <| fb_file := Some (concat (record_bytes <$> keep)) |>)
        | Some e, _, _, _ | None, Some e, _, _ | None, None, Some e, _ | None, None, None, Some e => (Some e, fb)
        end
  end.

(** The queue in front of the file has room for 1024 events. *)
Definition NewFileHistory (o : fs_env) (file : option (list byte)) : result string (asyncStore (B := fileBackend)) :=
  match fb_trim o (mkFB file defaultFileMaxRows false) with
  | (Some e, _) => Err e
  | (None, fb) =>
      match fs_append o with
      | Some e => Err e
      | None => Ok (newAsyncStore (fb <| fb_file ::= λ f, Some (default [] f) |> <| fb_open := true |>) 1024)
      end
  end.

Definition fb_write (o : fs_env) (ev : Event) (fb : fileBackend) : fileBackend :=
  match marshal ev with
  | Err _ => fb
  | Ok b =>
      let line := b ++ [nl] in
      let written := match fs_write o with None => line | Some k => take k line end in
      fb <| fb_file ::= λ f, Some (default [] f ++ written) |>
  end.

Definition fb_load (o : fs_env) (limit : Z) (fb : fileBackend) : result string (list Event) :=
  match readAllEvents o (fb_file fb) with
  | (_, Some e) => Err e
  | (evs, None) => Ok (if 0 <? limit then take (Z.to_nat limit) (reverse evs) else reverse evs)
  end.

Definition fb_close (o : fs_env) (fb : fileBackend) : option string * fileBackend :=
  if fb_open fb then (fs_close o, fb) else (None, fb).

(** ** What is read back *)

(** An event whose JSON is one line that the scanner returns as it is. *)
Definition storable (ev : Event) : Prop :=
  ∃ b c, marshal ev = Ok (b ++ [c]) ∧ unmarshal (b ++ [c]) = Some ev ∧
    Forall (λ x, Byte.eqb x nl = false) (b ++ [c]) ∧ Byte.eqb c cr = false ∧ Z.of_nat (length (b ++ [c])) < maxLine.

Definition encode (evs : list Event) : list byte := concat (record_bytes <$> evs).

Lemma read_encode evs :
  Forall storable evs → readAllEvents fs_ok (Some (encode evs)) = (evs, None).
Proof.
  intros Hs. unfold readAllEvents. simpl.
  assert (∃ ls, Scan maxLine (encode evs) = (ls, None) ∧ omap decode_line ls = evs) as (ls & -> & ->); [|done].
  induction Hs as [|ev evs (b & c & Hm & Hu & Hn & Hc & Hl) _ (ls & Hls & He)]; [by exists []|].
  change (encode (ev :: evs)) with (record_bytes ev ++ encode evs). unfold record_bytes.
  rewrite Hm, <- app_assoc. change ([nl] ++ ?x) with (nl :: x). rewrite Scan_line, Hls by done.
  eexists. split; [done|]. rewrite dropCR_other by done.
  assert (decode_line (b ++ [c]) = Some ev) as Hd by (rewrite <- Hu; by destruct b).
  cbn [omap list_omap]. by rewrite Hd, He.
Qed.

Lemma encode_snoc evs ev b : marshal ev = Ok b → encode (evs ++ [ev]) = encode evs ++ b ++ [nl].
Proof.
  intros Hm. unfold encode. rewrite fmap_app, concat_app. simpl. unfold record_bytes at 2. by rewrite Hm, app_nil_r.
Qed.

Lemma trim_encode evs :
  Forall storable evs →
  NewFileHistory fs_ok (Some (encode evs))
  = Ok (newAsyncStore (mkFB (Some (encode (drop (length evs - Z.to_nat defaultFileMaxRows) evs))) defaultFileMaxRows true) 1024).
Proof.
  intros Hs. unfold NewFileHistory, fb_trim. simpl fb_file. rewrite read_encode by done. simpl.
  destruct (Z.leb_spec (Z.of_nat (length evs)) defaultFileMaxRows) as [Hle|Hgt]; simpl; [|done].
  by replace (length evs - Z.to_nat defaultFileMaxRows)%nat with 0%nat by lia.
Qed.
End file.

(** ** Two trackers that differ in their stores only *)

Section similar.
Context {S1 S2 : Type} `{HistoryStore S1} `{HistoryStore S2}.

Record similar (R : S1 → S2 → Prop) (t1 : Tracker S1) (t2 : Tracker S2) : Prop := {
  si_cap : histCap t1 = histCap t2;
  si_hist : hist t1 = hist t2;
  si_drop : dropFactor t1 = dropFactor t2;
  si_recover : recoverPct t1 = recoverPct t2;
  si_floor : floorBps t1 = floorBps t2;
  si_sessions : sessions t1 = sessions t2;
  si_exits : exits t1 = exits t2;
  si_store : option_Forall2 R (store t1) (store t2)
}.

(** A call appends at most one event, which takes stores related by [R] to stores related by [R']. *)
Context (R R' : S1 → S2 → Prop).
Hypothesis R_append : ∀ ev s1 s2, R s1 s2 → R' (QoS.Append ev s1) (QoS.Append ev s2).
Hypothesis R_weaken : ∀ s1 s2, R s1 s2 → R' s1 s2.

Lemma similar_append ev t1 t2 : similar R t1 t2 → similar R' (appendEvent ev t1) (appendEvent ev t2).
Proof.
  intros [E1 E2 E3 E4 E5 E6 E7 E8]. constructor; simpl; try done; [by rewrite E1, E2|].
  destruct E8; simpl; constructor. by apply R_append.
Qed.

Lemma similar_weaken t1 t2 : similar R t1 t2 → similar R' t1 t2.
Proof.
  intros [E1 E2 E3 E4 E5 E6 E7 E8]. constructor; try done. destruct E8; constructor. by apply R_weaken.
Qed.

Lemma similar_append_opt ev t1 t2 : similar R t1 t2 → similar R' (append_opt ev t1) (append_opt ev t2).
Proof. destruct ev; [apply similar_append|apply similar_weaken]. Qed.

Lemma similar_sessions Q f t1 t2 : similar Q t1 t2 → similar Q (t1 <| sessions ::= f |>) (t2 <| sessions ::= f |>).
Proof. intros []. constructor; simpl; congruence. Qed.

Lemma similar_exits Q f t1 t2 : similar Q t1 t2 → similar Q (t1 <| exits ::= f |>) (t2 <| exits ::= f |>).
Proof. intros []. constructor; simpl; congruence. Qed.

Lemma similar_sample t1 t2 bps ts ss : similar R t1 t2 → sampleSession t1 bps ts ss = sampleSession t2 bps ts ss.
Proof. intros Hs. unfold sampleSession. by rewrite (si_floor _ _ _ Hs), (si_drop _ _ _ Hs), (si_recover _ _ _ Hs). Qed.

Lemma similar_exec c t1 t2 : similar R t1 t2 → similar R' (exec c t1) (exec c t2).
Proof.
  intros Hs. pose proof (si_exits _ _ _ Hs) as Ex. pose proof (si_sessions _ _ _ Hs) as Es.
  destruct c as [now nid reg at_|now nid|now sid nid reg user at_|now sid|now sid fc n|now sid r]; simpl.
  - by apply similar_append, similar_exits.
  - unfold NodeDown. rewrite Ex. by apply similar_append, similar_exits.
  - unfold Connect. simpl. rewrite Ex. apply similar_append.
    destruct Hs, (exits t2 !! nid); constructor; simpl; congruence.
  - unfold Disconnect. rewrite Es. destruct (sessions t2 !! sid) as [ss|]; [|by apply similar_weaken]. simpl. rewrite Ex.
    apply similar_append. destruct (exits t2 !! ss_nodeID ss) as [e|]; [destruct (0 <? x_active e)|];
      destruct Hs; constructor; simpl; congruence.
  - unfold AddBytes. rewrite Es. destruct (sessions t2 !! sid) as [ss|]; [|by apply similar_weaken].
    assert (account_session t1 now fc n ss = account_session t2 now fc n ss) as ->.
    { unfold account_session. simpl. by destruct (windowDur <=? _); [rewrite (similar_sample t1 t2)|]. }
    destruct (account_session t2 now fc n ss) as [ss' ev].
    assert (similar R' (append_opt ev (t1 <| sessions ::= <[sid:=ss']> |>)) (append_opt ev (t2 <| sessions ::= <[sid:=ss']> |>)))
      as Hs' by (by apply similar_append_opt, similar_sessions).
    rewrite (si_exits _ _ _ Hs'). destruct (exits _ !! _); [by apply similar_exits|done].
  - unfold Report. rewrite Es. destruct (sessions t2 !! sid) as [ss|]; [|by apply similar_weaken].
    rewrite (similar_sample t1 t2) by done. destruct (if fgtb _ _ then _ else _) as [ss' ev].
    by apply similar_append_opt, similar_sessions.
Qed.

End similar.

(** The newest [n] rows of a file that keeps the newest [m], reversed back and trimmed. *)
Lemma restored_tail (log : list Event) n m :
  0 < n ≤ m →
  trim n (reverse (take (Z.to_nat n) (reverse (drop (length log - Z.to_nat m) log))))
  = drop (length log - Z.to_nat n) log.
Proof.
  intros Hn. rewrite take_reverse, reverse_involutive, drop_drop, length_drop.
  replace (length log - Z.to_nat m + (length log - (length log - Z.to_nat m) - Z.to_nat n))%nat
    with (length log - Z.to_nat n)%nat by lia.
  unfold trim. rewrite length_drop. rewrite (proj2 (Z.ltb_ge _ _)) by lia. done.
Qed.

(** ** Properties *)

(** C31. The queue neither loses, reorders nor duplicates what it accepted, under any interleaving of
    appends, the writer and [Close]: the events that entered the channel are those written to the
    backend, the one being written, and those that wait, in this order; [Close], once it has closed
    the channel, gets done by the writer alone, and when it is done the backend has received all of
    them before it was closed. *)
Theorem queue_is_faithful {B} write close (b0 : B) buf acc a :
  arun write close (newAsyncStore b0 buf) acc a →
  (∃ w, acc = w ++ option_list (a_writing a) ++ a_ch a ∧ (length (a_ch a) ≤ a_cap a)%nat ∧
     (a_closing a ≠ CDone → a_b a = write_all write b0 w)) ∧
  (a_closing a = CDone → a_b a = snd (close (write_all write b0 acc))) ∧
  (a_closing a = CChannel → ∃ a', rtc (drain_step write close) a a' ∧ a_closing a' = CDone).
Proof.
  intros Hr. apply arun_ainv in Hr as [(w & Hw & Hb) Hc _ _ Hd]. split_and!.
  - exists w. split_and!; try done. intros Hn. by destruct (a_closing a).
  - intros Hcl. destruct (Hd Hcl) as [Hq Hwr]. rewrite Hcl in Hb. rewrite Hb, Hw, Hq, Hwr. simpl. by rewrite app_nil_r.
  - apply drain.
Qed.

(** C32. [Close] terminates: once it has closed the channel, whatever order the writer and the waiting
    [Close] run in, they take exactly two steps for each event that waits, one for an event that is
    being written and one to finish - no execution is longer, none gets stuck before [Close] is done. *)
Theorem close_terminates {B} write close (a : asyncStore (B := B)) n a' :
  a_closing a = CChannel → nsteps (drain_step write close) n a a' →
  (n ≤ 2 * length (a_ch a) + length (option_list (a_writing a)) + 1)%nat ∧
  ((∀ a'', ¬ drain_step write close a' a'') ↔ a_closing a' = CDone) ∧
  (a_closing a' = CDone → n = (2 * length (a_ch a) + length (option_list (a_writing a)) + 1)%nat).
Proof.
  intros Hc Hn. destruct (drain_bounded _ _ _ _ _ Hn) as [Hl Hp].
  assert (steps_left a = 2 * length (a_ch a) + length (option_list (a_writing a)) + 1)%nat as Hs
    by (unfold steps_left; by rewrite Hc).
  destruct (Hp (or_introl Hc)) as [Hc'|[Hd H0]]; (split; [lia|]).
  - destruct (drain_progress write close a' Hc') as [a1 H1]. rewrite Hc'. split; [|done]. split; [|done].
    intros Hno. by destruct (Hno a1).
  - split; [|lia]. split; [done|]. intros _ a1 [H1 _]%drain_decreases. lia.
Qed.

Section restart.
Context (marshal : Event → result string (list byte)) (unmarshal : list byte → option Event).

Notation write := (fb_write marshal fs_ok).
Notation close := (fb_close fs_ok).
Notation history := (asyncStore (B := fileBackend)).

(** The queue before the file, as the store of a tracker. *)
Definition file_store : HistoryStore history := {|
  QoS.Append := Append;
  Load limit a := fb_load unmarshal fs_ok limit (a_b a);
  CloseHistory := Close write close
|}.
#[local] Existing Instance file_store.

(** The store is open and fewer than 1024 events wait in its queue. *)
Definition has_room (a : history) : bool := negb (a_closed a) && bool_decide (length (a_ch a) < 1024)%nat.

(** A tracker at work on a new file: calls of its methods, one at a time under its lock, between
    steps of the writer and of [Close].  [cs] are the calls so far, [room] whether each of them found
    room in the queue. *)
Inductive at_work (cap : Z) : list qos_call → bool → Tracker history → Prop :=
| aw_new a : NewFileHistory marshal unmarshal fs_ok None = Ok a → at_work cap [] true (WithStore a (New cap))
| aw_call cs room t a c :
    at_work cap cs room t → store t = Some a → at_work cap (cs ++ [c]) (room && has_room a) (exec c t)
| aw_store cs room t a a' :
    at_work cap cs room t → store t = Some a → quiet_step write close a a' →
    at_work cap cs room (t <| store := Some a' |>).

Lemma aw_steps cap cs room t a a' :
  at_work cap cs room t → store t = Some a → rtc (quiet_step write close) a a' →
  at_work cap cs room (t <| store := Some a' |>).
Proof.
  intros Ht Ha Hr. revert t Ht Ha. induction Hr as [a|a a1 a2 H1 _ IH]; intros t Ht Ha.
  - destruct t. simpl in *. by subst.
  - pose proof (IH (t <| store := Some a1 |>)) as H. destruct t. simpl in *. apply H; [|done].
    by apply (aw_store _ _ _ _ _ _ Ht Ha).
Qed.

Definition new_file : fileBackend := mkFB (Some []) defaultFileMaxRows true.

(** Of the events [log] the queue has accepted some, and all if each found room. *)
Definition accepted (room : bool) (a : history) (log : list Event) : Prop :=
  ∃ acc, acc `sublist_of` log ∧ (room = true → acc = log) ∧ a_cap a = 1024%nat ∧ ainv write close new_file acc a.

Lemma accepted_append room ev a log :
  accepted room a log → accepted (room && has_room a) (Append ev a) (log ++ [ev]).
Proof.
  intros (acc & Hsub & Hall & Hcap & Hi). destruct (Append_ainv _ _ _ _ _ ev Hi) as (acc' & Hi' & Hc' & Ha & Hr).
  exists (acc ++ acc'). split_and!; [|intros [-> [Ho Hq]%andb_prop]%andb_prop|congruence|done].
  - apply sublist_app; [done|]. destruct Ha as [->| ->]; [apply sublist_nil_l|done].
  - rewrite (Hall eq_refl), Hr; [done|by apply negb_true_iff|]. rewrite Hcap. by apply bool_decide_eq_true in Hq.
Qed.

Lemma accepted_weaken room h a log : accepted room a log → accepted (room && h) a log.
Proof. intros (acc & ? & Hall & ?). exists acc. split_and!; try done; [|tauto..]. intros [-> _]%andb_prop. auto. Qed.

Lemma at_work_similar cap cs room t :
  at_work cap cs room t → similar (accepted room) t (exec_all cs (WithStore [] (New cap))).
Proof.
  induction 1 as [a Ha|cs room t a c _ IH Hs|cs room t a a' _ IH Hs Hq].
  - injection Ha as <-. constructor; simpl; try done. constructor. exists []. split_and!; try done.
    by apply (arun_ainv _ _ new_file 1024), ar_nil.
  - unfold exec_all. rewrite foldl_snoc. fold (exec_all cs (WithStore [] (New cap))).
    apply (similar_exec (λ a' log, accepted room a' log ∧ has_room a' = has_room a)).
    + intros ev s1 s2 [Hacc <-]. by apply accepted_append.
    + intros s1 s2 [Hacc _]. by apply accepted_weaken.
    + destruct IH as [E1 E2 E3 E4 E5 E6 E7 E8]. constructor; try done. rewrite Hs in E8 |- *.
      inversion E8; subst. by constructor.
  - destruct IH as [E1 E2 E3 E4 E5 E6 E7 E8]. constructor; try done. rewrite Hs in E8. simpl.
    inversion E8 as [? log (acc & ? & ? & ? & Hi)|]; subst. constructor.
    destruct (quiet_ainv _ _ _ _ _ _ Hq Hi). exists acc. split_and!; [done..|congruence|done].
Qed.

Lemma write_all_encode evs fb log :
  Forall (storable marshal unmarshal) evs → fb_file fb = Some (encode marshal log) →
  fb_file (write_all write fb evs) = Some (encode marshal (log ++ evs)).
Proof.
  intros Hs. revert fb log. induction Hs as [|ev evs (b & c & Hm & _) _ IH]; intros fb log Hf; simpl.
  - by rewrite app_nil_r.
  - change (ev :: evs) with ([ev] ++ evs). rewrite app_assoc. apply IH. unfold fb_write. rewrite Hm. simpl.
    by rewrite Hf, (encode_snoc _ _ _ _ Hm).
Qed.

(** A file that was closed is read back by a new tracker. *)
Lemma reopened cap acc a :
  a_closing a = CDone → ainv write close new_file acc a → Forall (storable marshal unmarshal) acc →
  cap ≤ defaultFileMaxRows →
  ∃ a', NewFileHistory marshal unmarshal fs_ok (fb_file (a_b a)) = Ok a' ∧
    let n := if cap <=? 0 then DefaultHistory else cap in
    let '(err, t') := Preload n (WithStore a' (New cap)) in
    err = None ∧ hist t' = drop (length acc - Z.to_nat n) acc.
Proof.
  intros Hcl [(w & Hw & Hb) _ _ _ Hd] Hs Hcap. destruct (Hd Hcl) as [Eq Ew]. rewrite Eq, Ew in Hw. simpl in Hw.
  rewrite app_nil_r in Hw. subst w. rewrite Hcl in Hb.
  assert (fb_file (a_b a) = Some (encode marshal acc)) as ->.
  { rewrite Hb. unfold fb_close. rewrite <- (app_nil_l acc). destruct (fb_open _); simpl;
      by apply (write_all_encode acc new_file []). }
  eexists. split; [by apply trim_encode|]. cbv zeta. set (n := if cap <=? 0 then DefaultHistory else cap).
  assert (0 < n ≤ defaultFileMaxRows) as Hn.
  { unfold n, defaultFileMaxRows, DefaultHistory in *. destruct (Z.leb_spec cap 0); lia. }
  unfold Preload. simpl. unfold fb_load. simpl fb_file. rewrite read_encode by (by apply Forall_drop).
  rewrite (proj2 (Z.ltb_lt 0 n)) by lia. split; [done|]. simpl. fold n. by apply restored_tail.
Qed.

(** C34. The history survives a restart: let a tracker work on a new file, its calls between steps of
    the queue's writer and of [Close] in any order, and let [Close] be done.  Then the file can be opened
    again and preloaded into a new tracker of the same capacity - at most the 5000 rows a file keeps -
    which has the newest of the events that the queue accepted, a subsequence of all events; and if
    each call found fewer than 1024 events waiting in an open queue, the very history of the old one. *)
Theorem history_survives_restart cap cs room t a log :
  at_work cap cs room t → store t = Some a → a_closing a = CDone →
  store (exec_all cs (WithStore [] (New cap))) = Some log → Forall (storable marshal unmarshal) log →
  cap ≤ defaultFileMaxRows →
  ∃ acc a', acc `sublist_of` log ∧
    NewFileHistory marshal unmarshal fs_ok (fb_file (a_b a)) = Ok a' ∧
    let '(err, t') := Preload (histCap t) (WithStore a' (New cap)) in
    err = None ∧ hist t' = drop (length acc - Z.to_nat (histCap t)) acc ∧
    (room = true → acc = log ∧ hist t' = hist t).
Proof.
  intros Hw Ha Hcl Hlog Hs Hcap. apply at_work_similar in Hw as [Ec Eh _ _ _ _ _ Est].
  destruct (exec_all_tracks cs _ _ (New_tracks cap)) as [log' [Hst Hpos Hh _ _]].
  rewrite Hst in Hlog. injection Hlog as ->. rewrite Hst, Ha in Est.
  inversion Est as [? ? (acc & Hsub & Hall & _ & Hi)|]; subst.
  assert (histCap t = if cap <=? 0 then DefaultHistory else cap) as Hc by (by rewrite Ec, histCap_exec_all).
  destruct (reopened cap acc a Hcl Hi) as (a' & Hn & Hp); [|done|].
  { rewrite Forall_forall in Hs |- *. eauto using elem_of_sublist. }
  exists acc, a'. split_and!; [done..|]. rewrite Hc. cbv zeta in Hp. destruct (Preload _ _) as [err t'].
  destruct Hp as [-> Hp]. split_and!; [done..|]. intros Hr. rewrite (Hall Hr) in Hp |- *. split; [done|].
  by rewrite Hp, Eh, Hh, <- Ec, Hc.
Qed.
End restart.

(** ** Concrete runs *)

Definition up_event : Event := mkEvent 5 KindNodeUp "" "exit-a" "eu" "" f64_zero "".
Definition down_event : Event := mkEvent 9 KindNodeDown "" "exit-a" "eu" "" f64_zero "".

Definition log_write (e : Event) (b : list Event) : list Event := b ++ [e].
Definition log_close (b : list Event) : option string * list Event := (None, b).

(** One append, taken by the writer, then [Close] up to the closed channel. *)
Definition mid_close : asyncStore (B := list Event) :=
  mkAsync [] [] 1 true true (Some up_event) [] CChannel.

Lemma mid_close_run : arun log_write log_close (newAsyncStore [] 1) [up_event] mid_close.
Proof.
  pose (sent := mkAsync (B := list Event) [] [up_event] 1 false false None [] COpen).
  pose (taken := mkAsync (B := list Event) [] [] 1 false false (Some up_event) [] COpen).
  pose proof (ar_snoc _ _ _ _ _ _ _ (ar_nil log_write log_close (newAsyncStore [] 1)) (as_check _ _ up_event _)) as H0.
  pose proof (ar_snoc _ _ _ _ _ _ _ H0
    (as_send _ _ up_event [] [] (append_check up_event (newAsyncStore [] 1)) [up_event] sent eq_refl eq_refl)) as H1.
  pose proof (ar_snoc _ _ _ _ _ _ _ H1 (as_receive log_write log_close sent taken eq_refl)) as H2.
  pose proof (ar_snoc _ _ _ _ _ _ _ H2 (as_swap log_write log_close taken)) as H3.
  exact (ar_snoc _ _ _ _ _ _ _ H3 (as_channel log_write log_close (close_swap taken) mid_close eq_refl)).
Qed.

Definition after_write : asyncStore (B := list Event) := mkAsync [up_event] [] 1 true true None [] CChannel.

Lemma close_terminates_witness :
  (1 ≤ 2 * length (a_ch mid_close) + length (option_list (a_writing mid_close)) + 1)%nat ∧
  ((∀ a'', ¬ drain_step log_write log_close after_write a'') ↔ a_closing after_write = CDone) ∧
  (a_closing after_write = CDone → 1%nat = (2 * length (a_ch mid_close) + length (option_list (a_writing mid_close)) + 1)%nat).
Proof.
  apply (close_terminates log_write log_close mid_close 1 after_write); [done|]. apply nsteps_once. right. by left.
Defined.

Lemma queue_is_faithful_witness :
  (∃ w, [up_event] = w ++ option_list (a_writing mid_close) ++ a_ch mid_close ∧
     (length (a_ch mid_close) ≤ a_cap mid_close)%nat ∧
     (a_closing mid_close ≠ CDone → a_b mid_close = write_all log_write [] w)) ∧
  (a_closing mid_close = CDone → a_b mid_close = snd (log_close (write_all log_write [] [up_event]))) ∧
  (a_closing mid_close = CChannel →
     ∃ a', rtc (drain_step log_write log_close) mid_close a' ∧ a_closing a' = CDone).
Proof. exact (queue_is_faithful log_write log_close [] 1 [up_event] mid_close mid_close_run). Defined.

(** A codec for the two events above. *)
Definition kind_marshal (e : Event) : result string (list byte) :=
  match e_Kind e with KindNodeUp => Ok [x7b; x75] | KindNodeDown => Ok [x7b; x64] | _ => Err "unsupported" end.
Definition kind_unmarshal (b : list byte) : option Event :=
  match b with [x7b; x75] => Some up_event | [x7b; x64] => Some down_event | _ => None end.

Definition two_calls : list qos_call := [QNodeUp 5 "exit-a" "eu" 4; QNodeDown 9 "exit-a"].

(** The tracker makes both calls while the writer is idle, and the store is closed. *)
Definition working : Tracker (asyncStore (B := fileBackend)) :=
  exec_all (H := file_store kind_marshal kind_unmarshal) two_calls
    (WithStore (newAsyncStore (mkFB (Some []) defaultFileMaxRows true) 1024) (New 10)).
Definition closed_store : asyncStore (B := fileBackend) :=
  match store working with
  | Some a => snd (Close (fb_write kind_marshal fs_ok) (fb_close fs_ok) a)
  | None => newAsyncStore (mkFB None 0 false) 0
  end.

Lemma working_run :
  at_work kind_marshal kind_unmarshal 10 two_calls true (working <| store := Some closed_store |>).
Proof.
  eapply aw_steps; [|reflexivity|by apply Close_steps].
  apply (aw_call _ _ 10 [QNodeUp 5 "exit-a" "eu" 4] true _ _ (QNodeDown 9 "exit-a")
           (aw_call _ _ 10 [] true _ _ (QNodeUp 5 "exit-a" "eu" 4) (aw_new _ _ 10 _ eq_refl) eq_refl) eq_refl).
Qed.

Lemma history_survives_restart_witness :
  let t := working <| store := Some closed_store |> in
  ∃ acc a', acc `sublist_of` [up_event; down_event] ∧
    NewFileHistory kind_marshal kind_unmarshal fs_ok (fb_file (a_b closed_store)) = Ok a' ∧
    let '(err, t') := Preload (H := file_store kind_marshal kind_unmarshal) (histCap t) (WithStore a' (New 10)) in
    err = None ∧ hist t' = drop (length acc - Z.to_nat (histCap t)) acc ∧
    (true = true → acc = [up_event; down_event] ∧ hist t' = hist t).
Proof.
  apply (history_survives_restart kind_marshal kind_unmarshal 10 two_calls true
           (working <| store := Some closed_store |>) closed_store [up_event; down_event]).
  - exact working_run.
  - reflexivity.
  - reflexivity.
  - reflexivity.
  - repeat constructor; [exists [x7b], x75|exists [x7b], x64]; repeat constructor.
  - unfold defaultFileMaxRows. lia.
Defined.
