(* ===== verification/SqlHistory.v ===== *)
(** * internal/qos/sqlite.go: the event history on SQLite

    The backend of the queue of [History] that keeps the events in the table [qos_events].  The engine
    is a class: [events_of] are the rows in the order of the column [seq], which AUTOINCREMENT makes
    larger than any number used before, not always by one.  The store prunes the table by number, once
    every 256 insertions; it is proved how many of the newest events no reader can miss, and how large
    the table gets. *)
From S2P Require Import Prelude Float64 GoTime QoS History.

Open Scope Z_scope.

(** The columns of a row but [seq]. *)
Record columns := mkColumns {
  k_ts : string; k_kind : Kind; k_session : string; k_node : string; k_region : string; k_username : string;
  k_throughput : f64; k_detail : string
}.

Class EventDB (D : Type) := {
  edb_Insert : columns → D → option string * D;
  edb_Prune : Z → D → option string * D;                       (* DELETE ... seq <= MAX(seq) - ? *)
  edb_Latest : option Z → D → result string (list columns);    (* ORDER BY seq DESC [LIMIT ?] *)
  edb_Close : D → option string * D
}.

(** The rows that remain of [rows] when those up to [MAX(seq) - n] are deleted. *)
Definition pruned (n : Z) (rows : list (Z * columns)) : list (Z * columns) :=
  match last rows with
  | None => rows
  | Some (mx, _) => filter (λ r, mx - n < r.1) rows
  end.

Class EventDBLaws (D : Type) `{EventDB D} := {
  events_of : D → list (Z * columns);
  top : D → Z;                                                 (* the largest number ever used *)
  events_sorted d : StronglySorted Z.lt (events_of d).*1;
  events_below d : Forall (λ r, r.1 ≤ top d) (events_of d);
  Insert_ok c d d' : edb_Insert c d = (None, d') →
    top d < top d' ∧ events_of d' = events_of d ++ [(top d', c)];
  Insert_err c d e d' : edb_Insert c d = (Some e, d') → events_of d' = events_of d ∧ top d ≤ top d';
  Prune_ok n d d' : edb_Prune n d = (None, d') → events_of d' = pruned n (events_of d) ∧ top d' = top d;
  Prune_err n d e d' : edb_Prune n d = (Some e, d') → events_of d' = events_of d ∧ top d' = top d;
  Latest_ok lim d cs : edb_Latest lim d = Ok cs →
    cs = from_option (λ n, take (Z.to_nat n)) id lim (reverse (events_of d).*2)
}.

Definition defaultSQLiteMaxRows : Z := 50000.
Definition pruneEvery : Z := 256.

Section backend.
Context {D : Type} `{EventDB D}.
Context (Format : Time → string) (Parse : string → option Time).

Record sqliteBackend := mkBackend { sb_db : D; sb_maxRows : Z; sb_inserts : Z }.

(** [NewSQLiteHistory] from what opening the file and creating the table return, with its queue. *)
Definition NewSQLiteHistory (opened : result string D) (schema : D → option string * D)
  : result string (asyncStore (B := sqliteBackend)) :=
  match opened with
  | Err e => Err e
  | Ok d =>
      match schema d with
      | (Some e, _) => Err e
      | (None, d) => Ok (newAsyncStore (mkBackend d defaultSQLiteMaxRows 0) 1024)
      end
  end.

Definition columns_of (ev : Event) : columns :=
  mkColumns (Format (e_TS ev)) (e_Kind ev) (e_SessionID ev) (e_NodeID ev) (e_Region ev) (e_Username ev)
    (e_ThroughputBps ev) (e_Detail ev).

Definition sb_write (ev : Event) (s : sqliteBackend) : option string * sqliteBackend :=
  match edb_Insert (columns_of ev) (sb_db s) with
  | (Some e, d) => (Some e, mkBackend d (sb_maxRows s) (sb_inserts s))
  | (None, d) =>
      let inserts := sb_inserts s + 1 in
      let d := if inserts mod pruneEvery =? 0 then snd (edb_Prune (sb_maxRows s) d) else d in
      (None, mkBackend d (sb_maxRows s) inserts)
  end.

Definition scan_event (c : columns) : Event :=
  mkEvent (default 0 (Parse (k_ts c))) (k_kind c) (k_session c) (k_node c) (k_region c) (k_username c)
    (k_throughput c) (k_detail c).

Definition sb_load (limit : Z) (s : sqliteBackend) : result string (list Event) :=
  match edb_Latest (if 0 <? limit then Some limit else None) (sb_db s) with
  | Err e => Err e
  | Ok cs => Ok (scan_event <$> cs)
  end.

Definition sb_close (s : sqliteBackend) : option string * sqliteBackend :=
  let '(e, d) := edb_Close (sb_db s) in (e, mkBackend d (sb_maxRows s) (sb_inserts s)).

(** Writes, one after the other: the events that were inserted, and the backend. *)
Fixpoint write_events (evs : list Event) (s : sqliteBackend) : list Event * sqliteBackend :=
  match evs with
  | [] => ([], s)
  | ev :: evs =>
      let '(err, s) := sb_write ev s in
      let '(done, s) := write_events evs s in
      (match err with None => ev :: done | Some _ => done end, s)
  end.
End backend.

(** ** What the table holds *)

(** Increasing numbers above [lo] and up to [hi] are at most [hi - lo]. *)
Lemma sorted_length lo hi l :
  lo ≤ hi → StronglySorted Z.lt l → Forall (λ x, lo < x ≤ hi) l → Z.of_nat (length l) ≤ hi - lo.
Proof.
  intros Hle Hs. revert lo Hle. induction Hs as [|x l Hs IH Hx]; intros lo Hle Hl; simpl; [lia|].
  apply Forall_cons in Hl as [Hx1 Hl]. specialize (IH x ltac:(lia)).
  assert (Z.of_nat (length l) ≤ hi - x) by (apply IH, Forall_and; split; [done|]; eapply Forall_impl; [exact Hl|]; simpl; lia).
  lia.
Qed.

Lemma filter_all (P : Z * columns → Prop) `{!∀ r, Decision (P r)} l : Forall P l → filter P l = l.
Proof. induction 1 as [|r l Hr _ IH]; [done|]. by rewrite filter_cons_True, IH. Qed.

(** A sorted table is cut in two at a number. *)
Lemma filter_above m (rows : list (Z * columns)) :
  StronglySorted Z.lt rows.*1 →
  ∃ g, rows = g ++ filter (λ r, m < r.1) rows ∧ Forall (λ r, r.1 ≤ m) g.
Proof.
  induction rows as [|r rows IH]; intros Hs; simpl in *; [by exists []|].
  apply StronglySorted_inv in Hs as [Hs Hr]. rewrite filter_cons. case_decide as Hm.
  - exists []. split; [|done]. simpl. f_equal. symmetry. apply filter_all.
    rewrite Forall_fmap in Hr. eapply Forall_impl; [exact Hr|]. simpl. lia.
  - destruct (IH Hs) as (g & E & Hg). exists (r :: g). split; [simpl; by f_equal|]. constructor; [lia|done].
Qed.

(** Pruning deletes rows from the front, numbers at least [n] below the last; at most [n] remain. *)
Lemma pruned_suffix n hi (rows : list (Z * columns)) :
  0 ≤ n → StronglySorted Z.lt rows.*1 → Forall (λ r, r.1 ≤ hi) rows →
  ∃ g, rows = g ++ pruned n rows ∧ Forall (λ r, r.1 ≤ hi - n) g ∧ Z.of_nat (length (pruned n rows)) ≤ n.
Proof.
  intros Hn Hs Hhi. unfold pruned. destruct (last rows) as [[mx c]|] eqn:El.
  2: { apply last_None in El as ->. exists []. simpl. split_and!; [done..|lia]. }
  assert (Forall (λ r : Z * columns, r.1 ≤ mx) rows) as Hmx.
  { apply last_Some in El as [l' ->]. rewrite fmap_app in Hs. apply Forall_app. split; [|by repeat constructor].
    apply Forall_forall. intros r Hr. apply Z.lt_le_incl.
    apply (StronglySorted_app_1_elem_of Z.lt l'.*1 [mx] r.1 mx Hs); [by apply list_elem_of_fmap_2|set_solver]. }
  destruct (filter_above (mx - n) rows Hs) as (g & E & Hg). exists g. split_and!; [done| |].
  - apply last_Some in El as [l' ->]. apply Forall_app in Hhi as [_ [Hh _]%Forall_cons]. simpl in Hh.
    eapply Forall_impl; [exact Hg|]. simpl. lia.
  - rewrite <- (length_fmap fst). etrans; [apply (sorted_length (mx - n) mx); [lia| |]|lia].
    + rewrite E, fmap_app in Hs. by apply StronglySorted_app_1_r in Hs.
    + rewrite Forall_fmap. apply Forall_forall. intros r [Hr1 Hr2]%list_elem_of_filter.
      rewrite Forall_forall in Hmx. specialize (Hmx r Hr2). simpl in *. lia.
Qed.

Section table.
Context {D : Type} `{EventDBLaws D}.
Context (Format : Time → string) (Parse : string → option Time).
Notation backend := (sqliteBackend (D := D)).

(** Of all the rows [all] it was given, with numbers above [base], the table holds the last; the
    others have numbers at least [maxRows] below the largest. *)
Definition keeps (maxRows base : Z) (s : backend) (all : list columns) : Prop :=
  sb_maxRows s = maxRows ∧ base ≤ top (sb_db s) ∧
  ∃ gone, all = gone.*2 ++ (events_of (sb_db s)).*2 ∧
    StronglySorted Z.lt (gone ++ events_of (sb_db s)).*1 ∧
    Forall (λ r, base < r.1) (gone ++ events_of (sb_db s)) ∧
    Forall (λ r, r.1 ≤ top (sb_db s) - maxRows) gone.

Lemma keeps_prune maxRows base (s : backend) all d e :
  0 ≤ maxRows → keeps maxRows base s all → edb_Prune maxRows (sb_db s) = (e, d) →
  keeps maxRows base (mkBackend d (sb_maxRows s) (sb_inserts s)) all.
Proof.
  intros Hm (Hr & Hb & gone & -> & Hs & Hlo & Hg) E. unfold keeps. simpl. destruct e as [e|].
  - destruct (Prune_err _ _ _ _ E) as [-> ->]. eauto 10.
  - destruct (Prune_ok _ _ _ E) as [-> ->].
    destruct (pruned_suffix maxRows (top (sb_db s)) (events_of (sb_db s))) as (g & Eg & Hg' & _);
      [done|apply events_sorted|apply events_below|].
    rewrite Eg, app_assoc in Hs, Hlo. split_and!; [done..|]. exists (gone ++ g).
    split_and!; [|done|done|by apply Forall_app].
    rewrite Eg at 1. by rewrite !fmap_app, app_assoc.
Qed.

Lemma keeps_insert maxRows base (s : backend) all c d i :
  0 ≤ maxRows → keeps maxRows base s all → edb_Insert c (sb_db s) = (None, d) →
  keeps maxRows base (mkBackend d (sb_maxRows s) i) (all ++ [c]).
Proof.
  intros Hm (Hr & Hb & gone & -> & Hs & Hlo & Hg) E. destruct (Insert_ok _ _ _ E) as [Ht Ed]. unfold keeps. simpl.
  rewrite Ed. split_and!; [done|lia|]. exists gone. rewrite !app_assoc. split_and!.
  - by rewrite fmap_app, app_assoc.
  - rewrite fmap_app. simpl.
    apply StronglySorted_app_2; [|done|repeat constructor].
    intros x y Hx ->%list_elem_of_singleton. apply list_elem_of_fmap in Hx as (r & -> & Hin).
    apply elem_of_app in Hin as [Hin|Hin].
    + rewrite Forall_forall in Hg. specialize (Hg r Hin). simpl in Hg. lia.
    + pose proof (events_below (sb_db s)) as Hbl. rewrite Forall_forall in Hbl. specialize (Hbl r Hin). simpl in Hbl. lia.
  - apply Forall_app. split; [done|]. repeat constructor. simpl. lia.
  - eapply Forall_impl; [exact Hg|]. simpl. lia.
Qed.

Lemma keeps_write maxRows base ev (s : backend) all :
  0 ≤ maxRows → keeps maxRows base s all →
  let '(err, s') := sb_write Format ev s in
  keeps maxRows base s' (match err with None => all ++ [columns_of Format ev] | Some _ => all end).
Proof.
  intros Hm Hk. pose proof Hk as (Hr & Hb & gone & Ha & Hs & Hlo & Hg). unfold sb_write.
  destruct (edb_Insert (columns_of Format ev) (sb_db s)) as [[e|] d] eqn:E.
  - destruct (Insert_err _ _ _ _ E) as [E1 E2]. unfold keeps. simpl. rewrite E1. split_and!; [done|lia|].
    exists gone. split_and!; [done..|]. eapply Forall_impl; [exact Hg|]. simpl. lia.
  - pose proof (keeps_insert maxRows base s all _ d (sb_inserts s + 1) Hm Hk E) as Hk'.
    destruct (_ =? 0); [|done]. rewrite Hr in Hk' |- *. destruct (edb_Prune maxRows d) as [e d'] eqn:Ep.
    exact (keeps_prune maxRows base (mkBackend d maxRows (sb_inserts s + 1)) _ d' e Hm Hk' Ep).
Qed.

Lemma keeps_writes maxRows base evs (s : backend) all :
  0 ≤ maxRows → keeps maxRows base s all →
  let '(done, s') := write_events Format evs s in keeps maxRows base s' (all ++ (columns_of Format <$> done)).
Proof.
  intros Hm. revert s all. induction evs as [|ev evs IH]; intros s all Hk; simpl; [by rewrite app_nil_r|].
  pose proof (keeps_write maxRows base ev s all Hm Hk) as Hw. destruct (sb_write Format ev s) as [err s1].
  pose proof (IH s1 _ Hw) as Hs. destruct (write_events Format evs s1) as [done s2].
  destruct err; [done|]. simpl. by rewrite <- app_assoc in Hs.
Qed.

(** The numbers above [base] that went to none of [all]. *)
Definition skipped (base : Z) (s : backend) (all : list columns) : Z :=
  top (sb_db s) - base - Z.of_nat (length all).

Lemma keeps_skipped maxRows base (s : backend) all :
  0 ≤ maxRows → keeps maxRows base s all →
  0 ≤ skipped base s all ∧
  ∃ gone, all = gone ++ (events_of (sb_db s)).*2 ∧
    (gone = [] ∨ maxRows - skipped base s all ≤ Z.of_nat (length (events_of (sb_db s)))).
Proof.
  intros Hm (_ & Hb & gone & -> & Hs & Hlo & Hg). unfold skipped. rewrite <- fmap_app, length_fmap.
  apply Forall_app in Hlo as [Hlg Hle]. split.
  - rewrite <- (length_fmap fst). cut (Z.of_nat (length (gone ++ events_of (sb_db s)).*1) ≤ top (sb_db s) - base); [lia|].
    apply sorted_length; [done..|]. rewrite Forall_fmap. apply Forall_app. split; apply Forall_and.
    + split; [done|]. eapply Forall_impl; [exact Hg|]. simpl. lia.
    + split; [done|apply events_below].
  - exists gone.*2. split; [by rewrite fmap_app|]. destruct gone as [|g gone]; [by left|right].
    cut (Z.of_nat (length (g :: gone).*1) ≤ top (sb_db s) - maxRows - base);
      [rewrite length_app, length_fmap; lia|].
    apply sorted_length.
    + apply Forall_cons in Hlg as [? _], Hg as [? _]. lia.
    + rewrite fmap_app in Hs. by apply StronglySorted_app_1_l in Hs.
    + rewrite Forall_fmap. by apply Forall_and.
Qed.

(** What a load finds: the newest rows; all it asks for, unless so many numbers were skipped. *)
Lemma latest_rows maxRows base (s : backend) all lim cs :
  0 ≤ maxRows → keeps maxRows base s all → edb_Latest lim (sb_db s) = Ok cs →
  cs `prefix_of` reverse all ∧
  (∀ limit, lim = Some limit → 0 < limit → limit + skipped base s all ≤ maxRows →
    cs = take (Z.to_nat limit) (reverse all)).
Proof.
  intros Hm Hk E. destruct (keeps_skipped maxRows base s all Hm Hk) as (_ & gone & -> & Hg).
  rewrite (Latest_ok _ _ _ E), reverse_app. split.
  - destruct lim as [limit|]; simpl; [|by eexists]. apply prefix_app_r, prefix_take.
  - intros limit -> Hl Hle. simpl. destruct Hg as [->|Hg]; [by rewrite reverse_nil, app_nil_r|].
    rewrite take_app_le; [done|]. rewrite length_reverse, length_fmap. lia.
Qed.

(** *** The size of the table *)

(** How many rows there may be: those pruning leaves or found, and those inserted since. *)
Definition bounded (big : Z) (s : backend) : Prop :=
  0 ≤ sb_inserts s ∧ Z.of_nat (length (events_of (sb_db s))) ≤ big + sb_inserts s mod pruneEvery.

Lemma inserts_next i : 0 ≤ i → (i + 1) mod pruneEvery = if (i + 1) mod pruneEvery =? 0 then 0 else i mod pruneEvery + 1.
Proof.
  intros Hi. unfold pruneEvery. destruct (Z.eqb_spec ((i + 1) mod 256) 0) as [E|E]; [done|].
  Z.div_mod_to_equations. lia.
Qed.

Lemma bounded_write maxRows big ev (s : backend) :
  (∀ n d, fst (edb_Prune n d) = None) → 0 ≤ maxRows ≤ big → sb_maxRows s = maxRows → bounded big s →
  bounded big (snd (sb_write Format ev s)).
Proof.
  intros Hp [Hm Hb] Hr [Hi Hl]. unfold sb_write.
  destruct (edb_Insert (columns_of Format ev) (sb_db s)) as [[e|] d] eqn:E.
  - destruct (Insert_err _ _ _ _ E) as [E1 _]. split; simpl; [done|]. by rewrite E1.
  - destruct (Insert_ok _ _ _ E) as [_ E1]. pose proof (inserts_next (sb_inserts s) Hi) as Hn.
    assert (Z.of_nat (length (events_of d)) = Z.of_nat (length (events_of (sb_db s))) + 1) as Hd
      by (rewrite E1, length_app; simpl; lia).
    destruct ((sb_inserts s + 1) mod pruneEvery =? 0).
    2: { split; simpl; [lia|]. rewrite Hn, Hd. lia. }
    split; simpl; [lia|]. rewrite Hn, Hr.
    specialize (Hp maxRows d). destruct (edb_Prune maxRows d) as [e d'] eqn:Ep. simpl in Hp. subst e. simpl.
    destruct (Prune_ok _ _ _ Ep) as [-> _].
    destruct (pruned_suffix maxRows (top d) (events_of d) Hm (events_sorted d) (events_below d)) as (g & _ & _ & Hk).
    lia.
Qed.

Lemma sb_write_maxRows ev (s : backend) : sb_maxRows (snd (sb_write Format ev s)) = sb_maxRows s.
Proof. unfold sb_write. by destruct (edb_Insert _ _) as [[]]. Qed.

Lemma bounded_writes maxRows big evs (s : backend) :
  (∀ n d, fst (edb_Prune n d) = None) → 0 ≤ maxRows ≤ big → sb_maxRows s = maxRows → bounded big s →
  bounded big (snd (write_events Format evs s)).
Proof.
  intros Hp Hm. revert s. induction evs as [|ev evs IH]; intros s Hr Hb; simpl; [done|].
  pose proof (bounded_write maxRows big ev s Hp Hm Hr Hb) as Hb'. pose proof (sb_write_maxRows ev s) as Hr'.
  destruct (sb_write Format ev s) as [err s1]. simpl in *. specialize (IH s1 ltac:(congruence) Hb').
  by destruct (write_events Format evs s1).
Qed.

(** Before the first prune nothing is gone. *)
Lemma unpruned_writes evs (s : backend) cs :
  0 ≤ sb_inserts s → sb_inserts s + Z.of_nat (length evs) < pruneEvery → (events_of (sb_db s)).*2 = cs →
  let '(done, s') := write_events Format evs s in (events_of (sb_db s')).*2 = cs ++ (columns_of Format <$> done).
Proof.
  revert s cs. induction evs as [|ev evs IH]; intros s cs Hi Hl He; simpl in *; [by rewrite app_nil_r|].
  unfold sb_write. destruct (edb_Insert (columns_of Format ev) (sb_db s)) as [[e|] d] eqn:E.
  - destruct (Insert_err _ _ _ _ E) as [E1 _].
    specialize (IH (mkBackend d (sb_maxRows s) (sb_inserts s)) cs). simpl in IH. rewrite E1 in IH.
    specialize (IH Hi ltac:(lia) He). by destruct (write_events Format evs _).
  - destruct (Insert_ok _ _ _ E) as [_ E1]. rewrite Z.mod_small by (unfold pruneEvery in *; lia).
    rewrite (proj2 (Z.eqb_neq _ _)) by lia.
    specialize (IH (mkBackend d (sb_maxRows s) (sb_inserts s + 1)) (cs ++ [columns_of Format ev])). simpl in IH.
    rewrite E1, fmap_app, He in IH. specialize (IH ltac:(lia) ltac:(lia) eq_refl).
    destruct (write_events Format evs _) as [done s']. simpl. by rewrite <- app_assoc in IH.
Qed.

(** ** Properties *)

(** The writes keep the events that were given to them, with readable times. *)
Lemma written_readable evs (s : backend) written s' :
  Forall (λ ev, Parse (Format (e_TS ev)) = Some (e_TS ev)) evs → write_events Format evs s = (written, s') →
  scan_event Parse <$> (columns_of Format <$> written) = written.
Proof.
  intros Hts. revert s s' written. induction Hts as [|ev evs He _ IH]; intros s s' written Ew; simpl in Ew.
  - by injection Ew as <- _.
  - destruct (sb_write Format ev s) as [err s1], (write_events Format evs s1) as [done s2] eqn:E2.
    injection Ew as <- _. specialize (IH _ _ _ E2). destruct err; [done|]. rewrite !fmap_cons, IH. f_equal.
    unfold scan_event, columns_of. simpl. rewrite He. by destruct ev.
Qed.

(** C33. What pruning costs, and the size of the table: let a store be opened on a table whose rows
    have numbers above [base], and any events be written by the writer of its queue, some writes
    failing.  A load gives the
    newest of the old rows and of the events written without an error, newest first, with none left
    out in between; and a load of at most 50000 events, less the numbers that the engine skipped, gives
    all it asks for.  If the deletions succeed, the table never has more than 255 rows above the larger
    of 50000 and what it had when it was opened; and until 256 events are written to an open store
    nothing is deleted at all, so a table grows without bound over short runs. *)
Theorem sqlite_keeps_the_newest opened schema a base evs :
  NewSQLiteHistory opened schema = Ok a →
  let rows := events_of (sb_db (a_b a)) in
  base ≤ top (sb_db (a_b a)) → Forall (λ r, base < r.1) rows →
  Forall (λ ev, Parse (Format (e_TS ev)) = Some (e_TS ev)) evs →
  let old := rows.*2 in
  let '(written, s) := write_events Format evs (a_b a) in
  let all := (scan_event Parse <$> old) ++ written in
  let skipped := top (sb_db s) - base - Z.of_nat (length all) in
  0 ≤ skipped ∧
  (∀ limit out, sb_load Parse limit s = Ok out →
     out `prefix_of` reverse all ∧
     (0 < limit → limit + skipped ≤ 50000 → out = take (Z.to_nat limit) (reverse all))) ∧
  ((∀ n d, fst (edb_Prune n d) = None) →
     Z.of_nat (length (events_of (sb_db s))) ≤ Z.max (Z.of_nat (length old)) 50000 + 255) ∧
  (Z.of_nat (length evs) < 256 → (events_of (sb_db s)).*2 = old ++ (columns_of Format <$> written)).
Proof.
  intros Hnew.
  assert (∃ d, a_b a = mkBackend d defaultSQLiteMaxRows 0) as [d Ea].
  { unfold NewSQLiteHistory in Hnew. destruct opened as [d0|]; [|done]. destruct (schema d0) as [[]]; [done|].
    injection Hnew as <-. by eexists. }
  set (s0 := mkBackend d defaultSQLiteMaxRows 0) in Ea. rewrite Ea. cbv zeta.
  intros Hbase Hold Hts. set (old := (events_of (sb_db s0)).*2).
  assert (keeps 50000 base s0 old) as Hk0.
  { split_and!; [done..|]. exists []. split_and!; [done|apply events_sorted|done..]. }
  pose proof (keeps_writes 50000 base evs s0 old ltac:(lia) Hk0) as Hk.
  pose proof (bounded_writes 50000 (Z.max (Z.of_nat (length old)) 50000) evs s0) as Hb.
  pose proof (unpruned_writes evs s0 old ltac:(done)) as Hu.
  pose proof (written_readable evs s0) as Hscan.
  destruct (write_events Format evs s0) as [written s] eqn:Ew. specialize (Hscan _ _ Hts eq_refl).
  set (all := (scan_event Parse <$> old) ++ written).
  assert (scan_event Parse <$> (old ++ (columns_of Format <$> written)) = all) as Hall by (by rewrite fmap_app, Hscan).
  cbv zeta. rewrite <- Hall, length_fmap. split_and!.
  - apply (keeps_skipped 50000 base s _ ltac:(lia) Hk).
  - intros limit out Hload. unfold sb_load in Hload.
    destruct (edb_Latest _ (sb_db s)) as [cs|] eqn:El; [|done]. injection Hload as <-.
    destruct (latest_rows 50000 base s _ _ cs ltac:(lia) Hk El) as [Hpre Hex].
    rewrite <- fmap_reverse. split; [destruct Hpre as [k ->]; rewrite fmap_app; by eexists|]. intros Hl Hle.
    rewrite (proj2 (Z.ltb_lt 0 limit)) in Hex by lia. by rewrite (Hex limit eq_refl Hl Hle), fmap_take.
  - intros Hp. destruct (Hb Hp ltac:(lia) eq_refl) as [Hi Hle].
    { split; [done|]. unfold old. rewrite length_fmap. simpl. rewrite Zmod_0_l. lia. }
    simpl in *. unfold pruneEvery in Hle. pose proof (Z.mod_pos_bound (sb_inserts s) 256). lia.
  - intros Hl. apply Hu; [|done]. unfold s0, pruneEvery. simpl. lia.
Qed.
End table.

(** ** An engine that keeps the rows in a list, with the last number

    It refuses an event without a node, and has used up a number by then. *)

Record list_db := mkListDB {
  l_rows : list (Z * columns);
  l_top : Z;
  l_sorted : StronglySorted Z.lt l_rows.*1;
  l_below : Forall (λ r, r.1 ≤ l_top) l_rows
}.

Lemma list_insert_sorted (d : list_db) c : StronglySorted Z.lt (l_rows d ++ [(l_top d + 1, c)]).*1.
Proof.
  rewrite fmap_app. apply StronglySorted_app_2; [|apply l_sorted|repeat constructor].
  intros x y (r & -> & Hin)%list_elem_of_fmap ->%list_elem_of_singleton.
  pose proof (l_below d) as Hb. rewrite Forall_forall in Hb. specialize (Hb r Hin). simpl in *. lia.
Qed.

Lemma list_skip_below (d : list_db) : Forall (λ r : Z * columns, r.1 ≤ l_top d + 1) (l_rows d).
Proof. eapply Forall_impl; [apply (l_below d)|]. simpl. lia. Qed.

Lemma list_insert_below (d : list_db) c : Forall (λ r : Z * columns, r.1 ≤ l_top d + 1) (l_rows d ++ [(l_top d + 1, c)]).
Proof. apply Forall_app. split; [apply list_skip_below|]. by repeat constructor. Qed.

Lemma pruned_split n (d : list_db) : ∃ g, l_rows d = g ++ pruned n (l_rows d).
Proof.
  unfold pruned. destruct (last (l_rows d)) as [[mx c]|]; [|by exists []].
  destruct (filter_above (mx - n) (l_rows d) (l_sorted d)) as (g & E & _). eauto.
Qed.

Lemma list_prune_sorted n (d : list_db) : StronglySorted Z.lt (pruned n (l_rows d)).*1.
Proof.
  destruct (pruned_split n d) as [g E]. pose proof (l_sorted d) as Hs. rewrite E, fmap_app in Hs.
  by apply StronglySorted_app_1_r in Hs.
Qed.

Lemma list_prune_below n (d : list_db) : Forall (λ r, r.1 ≤ l_top d) (pruned n (l_rows d)).
Proof. destruct (pruned_split n d) as [g E]. pose proof (l_below d) as Hs. rewrite E in Hs. by apply Forall_app in Hs as [_ ?]. Qed.

#[export] Instance list_EventDB : EventDB list_db := {
  edb_Insert c d :=
    if decide (k_node c = "") then (Some "NOT NULL constraint failed", mkListDB (l_rows d) (l_top d + 1) (l_sorted d) (list_skip_below d))
    else (None, mkListDB (l_rows d ++ [(l_top d + 1, c)]) (l_top d + 1) (list_insert_sorted d c) (list_insert_below d c));
  edb_Prune n d := (None, mkListDB (pruned n (l_rows d)) (l_top d) (list_prune_sorted n d) (list_prune_below n d));
  edb_Latest lim d := Ok (from_option (λ n, take (Z.to_nat n)) id lim (reverse (l_rows d).*2));
  edb_Close d := (None, d)
}.

#[export] Program Instance list_EventDBLaws : EventDBLaws list_db := {| events_of := l_rows; top := l_top |}.
Next Obligation. apply l_sorted. Qed.
Next Obligation. apply l_below. Qed.
Next Obligation. intros c d d' E. simpl in E. case_decide; simplify_eq; simpl. split; [lia|done]. Qed.
Next Obligation. intros c d e d' E. simpl in E. case_decide; simplify_eq; simpl. split; [done|lia]. Qed.
Next Obligation. intros n d d' E. simpl in E. by simplify_eq. Qed.
Next Obligation. intros n d e d' E. simpl in E. by simplify_eq. Qed.
Next Obligation. intros lim d cs. simpl. by intros [= <-]. Qed.

(** The second event is refused, and its number is skipped. *)
Definition empty_db : list_db := mkListDB [] 0 (SSorted_nil _) (Forall_nil_2 _).
Definition demo_events : list Event := [up_event; mkEvent 9 (e_Kind up_event) "" "" "" "" f64_zero ""; down_event].
Definition time_text (t : Time) : string := if t =? 5 then "5" else "9".
Definition text_time (s : string) : option Time := Some (if decide (s = "5") then 5 else 9).

Example demo_skipped :
  let '(written, s) := write_events time_text demo_events (mkBackend empty_db defaultSQLiteMaxRows 0) in
  (length written, top (sb_db s)) = (2%nat, 3).
Proof. reflexivity. Qed.

Lemma sqlite_keeps_the_newest_witness :
  let a := newAsyncStore (mkBackend empty_db defaultSQLiteMaxRows 0) 1024 in
  let old := (events_of (sb_db (a_b a))).*2 in
  let '(written, s) := write_events time_text demo_events (a_b a) in
  let all := (scan_event text_time <$> old) ++ written in
  let skipped := top (sb_db s) - 0 - Z.of_nat (length all) in
  0 ≤ skipped ∧
  (∀ limit out, sb_load text_time limit s = Ok out →
     out `prefix_of` reverse all ∧
     (0 < limit → limit + skipped ≤ 50000 → out = take (Z.to_nat limit) (reverse all))) ∧
  ((∀ n d, fst (edb_Prune (D := list_db) n d) = None) →
     Z.of_nat (length (events_of (sb_db s))) ≤ Z.max (Z.of_nat (length old)) 50000 + 255) ∧
  (Z.of_nat (length demo_events) < 256 → (events_of (sb_db s)).*2 = old ++ (columns_of time_text <$> written)).
Proof.
  intros a. refine (sqlite_keeps_the_newest time_text text_time (Ok empty_db) (λ d, (None, d)) a 0 demo_events _ _ _ _).
  - reflexivity.
  - reflexivity.
  - constructor.
  - repeat constructor; reflexivity.
Defined.
