(* ===== verification/Events.v ===== *)
(** * Package internal/events: the event bus

    A channel is named by the id under which it was subscribed; it outlives its subscription, since
    the subscriber still holds it.  A send on a closed channel and a second close are panics, which
    the operations return as [None]. *)
From S2P Require Import Prelude.

Open Scope Z_scope.

Section events.
Context {Event : Type}.

Record chan := mkChan { ch_buf : list Event; ch_closed : bool }.

Record Bus := mkBus { subs : gset Z; next : Z; chans : gmap Z chan }.
#[export] Instance Bus_eta : Eta Bus := λ b, mkBus (subs b) (next b) (chans b).

Definition NewBus : Bus := mkBus ∅ 0 ∅.

(** The buffer of [make(chan adminapi.Event, 64)]. *)
Definition bufferSize : nat := 64.

Definition Subscribe (b : Bus) : Z * Bus :=
  let id := next b in
  (id, b <| next := id + 1 |> <| subs ::= λ s, {[id]} ∪ s |> <| chans ::= <[id := mkChan [] false]> |>).

(** The unsubscribe function returned with the channel [id]. *)
Definition unsubscribe (id : Z) (b : Bus) : option Bus :=
  if decide (id ∈ subs b) then
    match chans b !! id with
    | Some c => if ch_closed c then None
                else Some (b <| subs ::= λ s, s ∖ {[id]} |> <| chans ::= <[id := mkChan (ch_buf c) true]> |>)
    | None => None
    end
  else Some b.

(** The select of [Publish] for one subscriber. *)
Definition deliver (ev : Event) (c : chan) : chan :=
  if decide (length (ch_buf c) < bufferSize)%nat then mkChan (ch_buf c ++ [ev]) (ch_closed c) else c.

Definition publish_to (ev : Event) (ob : option Bus) (id : Z) : option Bus :=
  b ← ob; c ← chans b !! id;
  if ch_closed c then None else Some (b <| chans ::= <[id := deliver ev c]> |>).

Definition Publish (ev : Event) (b : Bus) : option Bus := foldl (publish_to ev) (Some b) (elements (subs b)).

(** A receive from channel [id]: [None] if it would block, [Some None] if it is closed and drained. *)
Definition receive (id : Z) (b : Bus) : option (option Event * Bus) :=
  match chans b !! id with
  | None => None
  | Some c =>
      match ch_buf c with
      | ev :: q => Some (Some ev, b <| chans ::= <[id := mkChan q (ch_closed c)]> |>)
      | [] => if ch_closed c then Some (None, b) else None
      end
  end.

(** ** Runs *)

Inductive call := CSubscribe | CUnsubscribe (id : Z) | CPublish (ev : Event) | CReceive (id : Z).

(** What subscriber [id] has received, and what was published while it was subscribed. *)
Record trace := mkTrace { got : Z → list Event; offered : Z → list Event }.

Definition exec (c : call) (st : Bus * trace) : option (Bus * trace) :=
  let '(b, t) := st in
  match c with
  | CSubscribe => Some (snd (Subscribe b), t)
  | CUnsubscribe id => b' ← unsubscribe id b; Some (b', t)
  | CPublish ev =>
      b' ← Publish ev b;
      Some (b', mkTrace (got t) (λ id, offered t id ++ if decide (id ∈ subs b) then [ev] else []))
  | CReceive id =>
      match receive id b with
      | Some (Some ev, b') => Some (b', mkTrace (λ i, got t i ++ if decide (i = id) then [ev] else []) (offered t))
      | Some (None, b') => Some (b', t)
      | None => Some (b, t)
      end
  end.

Definition exec_all (cs : list call) : option (Bus * trace) :=
  foldl (λ st c, st ≫= exec c) (Some (NewBus, mkTrace (λ _, []) (λ _, []))) cs.

(** ** The invariant *)

Record inv (st : Bus * trace) : Prop := {
  in_next : ∀ id, is_Some (chans (fst st) !! id) → id < next (fst st);
  in_subs : ∀ id, id ∈ subs (fst st) → ∃ q, chans (fst st) !! id = Some (mkChan q false);
  in_fresh : ∀ id, chans (fst st) !! id = None → got (snd st) id = [] ∧ offered (snd st) id = [];
  in_sub : ∀ id c, chans (fst st) !! id = Some c → got (snd st) id ++ ch_buf c `sublist_of` offered (snd st) id;
  in_all : ∀ id c, chans (fst st) !! id = Some c → (length (offered (snd st) id) ≤ bufferSize)%nat →
    got (snd st) id ++ ch_buf c = offered (snd st) id
}.

(** [Publish] on open channels delivers to each of them, and touches nothing else. *)
Lemma publish_list ev l b :
  NoDup l → (∀ i, i ∈ l → ∃ q, chans b !! i = Some (mkChan q false)) →
  ∃ cs, foldl (publish_to ev) (Some b) l = Some (b <| chans := cs |>) ∧
    ∀ i, cs !! i = (if decide (i ∈ l) then deliver ev <$> chans b !! i else chans b !! i).
Proof.
  revert b. induction l as [|i l IH]; intros b Hnd Hop.
  - exists (chans b). split; [by destruct b|done].
  - apply NoDup_cons in Hnd as [Hni Hnd]. destruct (Hop i) as [q Hq]; [by left|].
    simpl. rewrite Hq. simpl.
    destruct (IH (b <| chans ::= <[i := deliver ev (mkChan q false)]> |>)) as (cs & Hf & Hcs); [done|..].
    { intros j Hj. simpl. rewrite lookup_insert_ne by congruence. apply Hop. by right. }
    exists cs. split; [exact Hf|]. intros j. rewrite Hcs. simpl.
    destruct (decide (j = i)) as [->|Hne].
    + rewrite decide_False by done. rewrite decide_True by (by left). by rewrite lookup_insert_eq, Hq.
    + rewrite lookup_insert_ne by done. destruct (decide (j ∈ l)).
      * by rewrite decide_True by (by right).
      * rewrite decide_False; [done|]. by intros [->|?]%elem_of_cons.
Qed.

Lemma publish_spec ev b :
  (∀ i, i ∈ subs b → ∃ q, chans b !! i = Some (mkChan q false)) →
  ∃ cs, Publish ev b = Some (b <| chans := cs |>) ∧
    ∀ i, cs !! i = (if decide (i ∈ subs b) then deliver ev <$> chans b !! i else chans b !! i).
Proof.
  intros Hop. destruct (publish_list ev (elements (subs b)) b) as (cs & Hf & Hcs).
  - apply NoDup_elements.
  - intros i Hi%elem_of_elements. auto.
  - exists cs. split; [done|]. intros i. rewrite Hcs. apply decide_ext, elem_of_elements.
Qed.

Lemma deliver_closed ev c : ch_closed (deliver ev c) = ch_closed c.
Proof. unfold deliver. by case_decide. Qed.

Lemma subscribe_inv st : inv st → ∃ st', exec (CSubscribe) st = Some st' ∧ inv st'.
Proof.
  destruct st as [b t]. intros [Hn Hs Hf Hsub Hall]; simpl in *.
  eexists. split; [done|]. constructor; simpl.
  - intros id Hid. destruct (decide (id = next b)) as [->|]; [lia|]. rewrite lookup_insert_ne in Hid by done.
    specialize (Hn id Hid). lia.
  - intros id [->%elem_of_singleton|Hid]%elem_of_union; [eexists; by rewrite lookup_insert_eq|].
    destruct (decide (id = next b)) as [->|]; [eexists; by rewrite lookup_insert_eq|].
    rewrite lookup_insert_ne by done. auto.
  - intros id [? Hid]%lookup_insert_None. auto.
  - intros id c Hc. apply lookup_insert_Some in Hc as [[<- <-]|[Hne Hc]]; [|auto].
    destruct (Hf (next b)) as [-> ->]; [|done]. apply eq_None_not_Some. intros Hid. specialize (Hn _ Hid). lia.
  - intros id c Hc. apply lookup_insert_Some in Hc as [[<- <-]|[Hne Hc]]; [|auto].
    destruct (Hf (next b)) as [-> ->]; [|done]. apply eq_None_not_Some. intros Hid. specialize (Hn _ Hid). lia.
Qed.

Lemma unsubscribe_inv id st : inv st → ∃ st', exec (CUnsubscribe id) st = Some st' ∧ inv st'.
Proof.
  destruct st as [b t]. intros [Hn Hs Hf Hsub Hall]; simpl in *.
  unfold unsubscribe. case_decide as Hid; [|by eexists; split; [done|constructor]].
  destruct (Hs id Hid) as [q Hq]. rewrite Hq. simpl. eexists. split; [done|]. constructor; simpl.
  - intros i Hi. destruct (decide (i = id)) as [->|]; [apply Hn; by rewrite Hq|].
    rewrite lookup_insert_ne in Hi by done. auto.
  - intros i [Hi Hne]%elem_of_difference. rewrite lookup_insert_ne by set_solver. auto.
  - intros i [? Hi]%lookup_insert_None. auto.
  - intros i c Hc. apply lookup_insert_Some in Hc as [[<- <-]|[Hne Hc]]; [|auto]. exact (Hsub id _ Hq).
  - intros i c Hc. apply lookup_insert_Some in Hc as [[<- <-]|[Hne Hc]]; [|auto]. exact (Hall id _ Hq).
Qed.

Lemma publish_inv ev st : inv st → ∃ st', exec (CPublish ev) st = Some st' ∧ inv st'.
Proof.
  destruct st as [b t]. intros [Hn Hs Hf Hsub Hall]; simpl in *.
  destruct (publish_spec ev b Hs) as (cs & -> & Hcs). simpl. eexists. split; [done|]. constructor; simpl.
  - intros i Hi. apply Hn. rewrite Hcs in Hi. case_decide; [by apply fmap_is_Some in Hi|done].
  - intros i Hi. destruct (Hs i Hi) as [q Hq]. rewrite Hcs, decide_True, Hq by done. simpl.
    pose proof (deliver_closed ev (mkChan q false)) as Hd. destruct (deliver ev _) as [q' cl]; simpl in Hd. subst. eauto.
  - intros i Hi. rewrite Hcs in Hi. destruct (decide (i ∈ subs b)) as [Hin|]; [|by rewrite app_nil_r; auto].
    destruct (Hs i Hin) as [q Hq]. by rewrite Hq in Hi.
  - intros i c Hc. rewrite Hcs in Hc. destruct (decide (i ∈ subs b)); [|by rewrite app_nil_r; auto].
    destruct (chans b !! i) as [c0|] eqn:E; [|done]. injection Hc as <-. specialize (Hsub i c0 E).
    unfold deliver. case_decide; simpl.
    + rewrite app_assoc. by apply sublist_app.
    + by apply sublist_inserts_r.
  - intros i c Hc Hlen. rewrite Hcs in Hc. destruct (decide (i ∈ subs b)); [|rewrite app_nil_r in *; auto].
    destruct (chans b !! i) as [c0|] eqn:E; [|done]. injection Hc as <-. rewrite length_app in Hlen. simpl in Hlen.
    pose proof (Hall i c0 E ltac:(lia)) as Heq. unfold deliver. rewrite decide_True.
    + simpl. by rewrite app_assoc, Heq.
    + apply (f_equal length) in Heq. rewrite length_app in Heq. lia.
Qed.

Lemma receive_inv id st : inv st → ∃ st', exec (CReceive id) st = Some st' ∧ inv st'.
Proof.
  destruct st as [b t]. intros [Hn Hs Hf Hsub Hall]; simpl in *.
  unfold receive. destruct (chans b !! id) as [c|] eqn:E; [|by eexists; split; [done|constructor]].
  destruct (ch_buf c) as [|ev q] eqn:Eq.
  { destruct (ch_closed c); (by eexists; split; [done|constructor]). }
  eexists. split; [done|]. constructor; simpl.
  - intros i Hi. destruct (decide (i = id)) as [->|]; [apply Hn; by rewrite E|].
    rewrite lookup_insert_ne in Hi by done. auto.
  - intros i Hi. destruct (decide (i = id)) as [->|]; [|rewrite lookup_insert_ne by done; auto].
    destruct (Hs id Hi) as [q' Hq']. rewrite E in Hq'. injection Hq' as ->. rewrite lookup_insert_eq. simpl. eauto.
  - intros i [? Hi]%lookup_insert_None. rewrite decide_False, app_nil_r by done. auto.
  - intros i c' Hc. apply lookup_insert_Some in Hc as [[<- <-]|[Hne Hc]].
    + rewrite decide_True by done. simpl. specialize (Hsub id c E). by rewrite Eq, cons_middle, app_assoc in Hsub.
    + rewrite decide_False, app_nil_r by done. auto.
  - intros i c' Hc Hlen. apply lookup_insert_Some in Hc as [[<- <-]|[Hne Hc]].
    + rewrite decide_True by done. simpl. specialize (Hall id c E Hlen). by rewrite Eq, cons_middle, app_assoc in Hall.
    + rewrite decide_False, app_nil_r by done. auto.
Qed.

Lemma exec_inv c st : inv st → ∃ st', exec c st = Some st' ∧ inv st'.
Proof.
  destruct c; auto using subscribe_inv, unsubscribe_inv, publish_inv, receive_inv.
Qed.

Lemma exec_all_inv cs : ∃ st, exec_all cs = Some st ∧ inv st.
Proof.
  unfold exec_all. assert (inv (NewBus, mkTrace (λ _, []) (λ _, []))) as H0.
  { constructor; simpl; try done. intros id. rewrite lookup_empty. by intros [? [=]]. }
  revert H0. generalize (NewBus, mkTrace (λ _ : Z, @nil Event) (λ _ : Z, @nil Event)) as st.
  induction cs as [|c cs IH]; intros st H0; [by exists st|].
  destruct (exec_inv c st H0) as (st' & E & H1). simpl. rewrite E. by apply IH.
Qed.

(** ** Properties *)

(** Publishing never blocks and never panics, and a subscriber sees what was published: whatever
    the order of subscriptions, publications, receptions and unsubscriptions - repeated ones included -
    the bus comes out of every call; what a subscriber received and has waiting is, in order, a
    selection of the events published while it was subscribed, and all of them as long as they were no
    more than its buffer of 64. *)
Theorem bus_delivers cs :
  ∃ b t, exec_all cs = Some (b, t) ∧
    ∀ id c, chans b !! id = Some c →
      got t id ++ ch_buf c `sublist_of` offered t id ∧
      ((length (offered t id) ≤ 64)%nat → got t id ++ ch_buf c = offered t id).
Proof.
  destruct (exec_all_inv cs) as ([b t] & E & I). exists b, t. split; [done|]. intros id c Hc. split.
  - exact (in_sub _ I id c Hc).
  - exact (in_all _ I id c Hc).
Qed.
End events.
