(* ===== verification/PwHash.v ===== *)
(** * Package internal/pwhash: password hashes

    [prf] is HMAC-SHA256 keyed with the password, of 32 bytes; the salt that [Hash] draws is an
    argument.  [pbkdf2] is the loop of the code, [F] the function of RFC 8018 it must compute. *)
From S2P Require Import Prelude Strs Codec.
From Stdlib Require Import Strings.Ascii.

Open Scope Z_scope.

Definition algo : string := "pbkdf2_sha256".
Definition iterations : Z := 210000.
Definition saltLen : Z := 16.
Definition keyLen : Z := 32.
(** [prf.Size()] *)
Definition hashLen : Z := 32.

Section pwhash.
Context (prf : string → list byte → list byte).
Hypothesis prf_size : ∀ key msg, length (prf key msg) = Z.to_nat hashLen.

Definition xor_byte (a b : byte) : byte := z2b (Z.lxor (b2z a) (b2z b)).

(** [t[x] ^= u[x]] for every index of [t]. *)
Definition xor_into (t u : list byte) : list byte := zip_with xor_byte t u.

(** One pass of the inner loop on [(u, t)]. *)
Definition stretch (password : string) (ut : list byte * list byte) : list byte * list byte :=
  let u := prf password (fst ut) in (u, xor_into (snd ut) u).

Definition pbkdf2_block (password : string) (salt : list byte) (iter block : Z) : list byte :=
  let u := prf password (salt ++ be_encode 4 block) in
  snd (N.iter (Z.to_N (iter - 1)) (stretch password) (u, u)).

Definition pbkdf2 (password : string) (salt : list byte) (iter keyLen : Z) : list byte :=
  let numBlocks := (keyLen + hashLen - 1) / hashLen in
  let dk := concat ((λ b, pbkdf2_block password salt iter (Z.of_nat b)) <$> seq 1 (Z.to_nat numBlocks)) in
  take (Z.to_nat keyLen) dk.

(** The [Sprintf] of [Hash]. *)
Definition encoded (salt dk : list byte) : string :=
  algo +:+ "$" +:+ itoa iterations +:+ "$" +:+ EncodeToString std salt +:+ "$" +:+ EncodeToString std dk.

(** [salt]: what [rand.Read] filled in, [None] if it failed. *)
Definition Hash (salt : option (list byte)) (password : string) : result string string :=
  match salt with
  | None => Err "rand"
  | Some salt => Ok (encoded salt (pbkdf2 password salt iterations keyLen))
  end.

Definition Verify (password enc : string) : bool :=
  match split_on "$"%char enc with
  | [p0; p1; p2; p3] =>
      if decide (p0 = algo) then
        match Atoi p1 with
        | Some iter =>
            if iter <=? 0 then false
            else match DecodeString std p2, DecodeString std p3 with
                 | Some salt, Some want =>
                     bool_decide (pbkdf2 password salt iter (Z.of_nat (length want)) = want)
                 | _, _ => false
                 end
        | None => false
        end
      else false
  | _ => false
  end.

Lemma split_fields a b c d :
  lacks "$" a = true → lacks "$" b = true → lacks "$" c = true → lacks "$" d = true →
  split_on "$" (a +:+ "$" +:+ b +:+ "$" +:+ c +:+ "$" +:+ d) = [a; b; c; d].
Proof.
  intros Ha Hb Hc Hd. change (split_on "$" (a +:+ String "$" (b +:+ String "$" (c +:+ String "$" d))) = [a; b; c; d]).
  by rewrite !split_on_app, split_on_lacks.
Qed.

(** ** PBKDF2 of RFC 8018 *)

(** [U_1 = PRF(P, S || INT(i))] and [U_{j+1} = PRF(P, U_j)] *)
Fixpoint U (P : string) (S : list byte) (i : Z) (j : nat) : list byte :=
  match j with
  | O => prf P (S ++ be_encode 4 i)
  | Datatypes.S j => prf P (U P S i j)
  end.

(** [F(P, S, c, i) = U_1 xor ... xor U_c] *)
Definition F (P : string) (S : list byte) (c i : Z) : list byte :=
  foldl xor_into (U P S i 0) (U P S i <$> seq 1 (Z.to_nat c - 1)).

(** [DK = T_1 || ... || T_l<0..r-1>], the first [dkLen] octets of the blocks. *)
Definition PBKDF2 (P : string) (S : list byte) (c dkLen : Z) : list byte :=
  let l := Z.to_nat ((dkLen + hashLen - 1) / hashLen) in
  take (Z.to_nat dkLen) (concat ((λ i, F P S c (Z.of_nat i)) <$> seq 1 l)).

Lemma iter_stretch password salt block n :
  N.iter (N.of_nat n) (stretch password) (U password salt block 0, U password salt block 0)
  = (U password salt block n, foldl xor_into (U password salt block 0) (U password salt block <$> seq 1 n)).
Proof.
  induction n as [|n IH]; [done|].
  rewrite Nat2N.inj_succ, N.iter_succ, IH. unfold stretch. simpl fst. simpl snd.
  change (prf password (U password salt block n)) with (U password salt block (Datatypes.S n)).
  by rewrite seq_S, fmap_app, foldl_app.
Qed.

Lemma pbkdf2_block_F password salt iter block :
  0 < iter → pbkdf2_block password salt iter block = F password salt iter block.
Proof.
  intros Hi. unfold pbkdf2_block, F. replace (Z.to_N (iter - 1)) with (N.of_nat (Z.to_nat iter - 1)) by lia.
  change (prf password (salt ++ be_encode 4 block)) with (U password salt block 0). by rewrite iter_stretch.
Qed.

Lemma F_length P S c i : length (F P S c i) = Z.to_nat hashLen.
Proof.
  unfold F. assert (∀ us acc, length acc = Z.to_nat hashLen → (∀ u, u ∈ us → length u = Z.to_nat hashLen) →
    length (foldl xor_into acc us) = Z.to_nat hashLen) as Hf.
  { induction us as [|u us IH]; intros acc Ha Hu; [done|]. simpl. apply IH; [|intros; apply Hu; by right].
    unfold xor_into. rewrite length_zip_with, Ha, (Hu u) by (by left). lia. }
  assert (∀ j, length (U P S i j) = Z.to_nat hashLen) as HU by (intros [|j]; apply prf_size).
  apply Hf; [apply HU|]. intros u (j & -> & _)%list_elem_of_fmap. apply HU.
Qed.

Lemma PBKDF2_length P S c n : 0 ≤ n → length (PBKDF2 P S c n) = Z.to_nat n.
Proof.
  intros Hn. unfold PBKDF2. rewrite length_take.
  assert (∀ l k, length (concat ((λ i, F P S c (Z.of_nat i)) <$> seq k l)) = (l * Z.to_nat hashLen)%nat) as Hc.
  { induction l as [|l IH]; intros k; [done|]. simpl. rewrite length_app, F_length, IH. done. }
  rewrite Hc. unfold hashLen. assert (n ≤ (n + 32 - 1) / 32 * 32) by (Z.div_mod_to_equations; lia).
  assert (0 ≤ (n + 32 - 1) / 32) by (apply Z.div_pos; lia). lia.
Qed.

(** The loops of the code compute the function of the standard. *)
Lemma pbkdf2_eq P S c n : 0 < c → pbkdf2 P S c n = PBKDF2 P S c n.
Proof.
  intros Hc. unfold pbkdf2, PBKDF2. do 2 f_equal. apply list_fmap_ext. intros i x _. by apply pbkdf2_block_F.
Qed.

(** [Verify] on a text that [Hash] made. *)
Lemma verify_encoded salt password pw :
  Verify pw (encoded salt (pbkdf2 password salt iterations keyLen))
  = bool_decide (PBKDF2 pw salt 210000 32 = PBKDF2 password salt 210000 32).
Proof.
  unfold Verify, encoded. rewrite split_fields;
    [|vm_compute; reflexivity|vm_compute; reflexivity|by apply EncodeToString_lacks; [apply std_ok|]..].
  rewrite decide_True by done. assert (Atoi (itoa iterations) = Some 210000) as -> by (vm_compute; reflexivity).
  rewrite !DecodeString_EncodeToString by apply std_ok. change (210000 <=? 0) with false. cbv iota.
  rewrite !pbkdf2_eq by (unfold iterations; lia). unfold iterations, keyLen.
  by rewrite PBKDF2_length.
Qed.

Lemma Hash_verifies salt password enc : Hash salt password = Ok enc → Verify password enc = true.
Proof.
  unfold Hash. destruct salt as [salt|]; [|done]. intros [= <-]. by rewrite verify_encoded, bool_decide_eq_true.
Qed.

(** ** Properties *)

(** C20. The hash accepts its password, and only passwords with the same derived key: for every salt
    and password [Hash] gives a text that [Verify] takes apart again, and [Verify] answers whether
    the RFC 8018 function of the two passwords - 210000 iterations, 32 bytes, this salt - agrees. *)
Theorem hash_verifies salt password password' :
  ∃ enc, Hash (Some salt) password = Ok enc ∧ Verify password enc = true ∧
    (Verify password' enc = true ↔
     PBKDF2 password' salt 210000 32 = PBKDF2 password salt 210000 32).
Proof.
  exists (encoded salt (pbkdf2 password salt iterations keyLen)). split; [done|]. split.
  - by rewrite verify_encoded, bool_decide_eq_true.
  - rewrite verify_encoded. apply bool_decide_eq_true.
Qed.
End pwhash.

(** ** A concrete run, with a checksum in place of the hash function *)

Definition demo_prf (key : string) (msg : list byte) : list byte :=
  replicate 32 (z2b (foldl (λ a b, a * 31 + b2z b) (Z.of_nat (String.length key)) msg)).

Lemma demo_prf_size key msg : length (demo_prf key msg) = Z.to_nat hashLen.
Proof. apply length_replicate. Qed.

Lemma hash_verifies_witness :
  ∃ enc, Hash demo_prf (Some [x01; x02]) "correct horse" = Ok enc ∧
    Verify demo_prf "correct horse" enc = true ∧
    (Verify demo_prf "battery" enc = true ↔
     PBKDF2 demo_prf "battery" [x01; x02] 210000 32 = PBKDF2 demo_prf "correct horse" [x01; x02] 210000 32).
Proof. exact (hash_verifies demo_prf demo_prf_size [x01; x02] "correct horse" "battery"). Defined.

(** The text of a hash with few iterations, checked and refused. *)
Example verify_text :
  Verify demo_prf "pw" ("pbkdf2_sha256$3$AQI$" +:+ EncodeToString std (pbkdf2 demo_prf "pw" [x01; x02] 3 32)) = true ∧
  Verify demo_prf "pwd" ("pbkdf2_sha256$3$AQI$" +:+ EncodeToString std (pbkdf2 demo_prf "pw" [x01; x02] 3 32)) = false ∧
  Verify demo_prf "pw" "pbkdf2_sha256$0$AQI$AQI" = false ∧
  Verify demo_prf "anything" "pbkdf2_sha256$1$AQI$" = true.
Proof. vm_compute. done. Qed.
