(* ===== verification/AdminStore.v ===== *)
(** * Package internal/adminstore: administrator accounts

    Accounts are never changed after their creation, so the map holds them by value.  The password
    hash is that of [PwHash], with its [prf] and salt as arguments; JSON and the file system are the
    fields of [os_env].  The [Class] states what the admin server relies on. *)
From S2P Require Import Prelude GoTime PwHash.

Open Scope Z_scope.

Definition RoleAdmin : string := "admin".
Definition RoleReadOnly : string := "readonly".

Inductive admin_error := ErrNotFound | ErrConflict | ErrBadCreds | ErrIO (msg : string).

Record Admin := mkAdmin { ad_Username : string; ad_Role : string; ad_PassHash : string; ad_CreatedAt : Time }.
Record Public := mkPublic { pu_Username : string; pu_Role : string }.

Definition public (a : Admin) : Public := mkPublic (ad_Username a) (ad_Role a).

Record table := mkTable { byU : gmap string Admin; path : string; file : option (list byte) }.
#[export] Instance table_eta : Eta table := λ t, mkTable (byU t) (path t) (file t).

Record os_env := mkOS {
  os_marshal : list Admin → result string (list byte);
  os_unmarshal : list byte → result string (list Admin);
  os_mkdir : option string;
  os_write : option string;
  os_rename : option string;
  os_read : option string
}.

Section adminstore.
Context (prf : string → list byte → list byte).

Definition New : table := mkTable ∅ "" None.

Definition flushLocked (o : os_env) (t : table) : option admin_error * table :=
  if decide (path t = "") then (None, t)
  else match os_marshal o (map_to_list (byU t)).*2 with
  | Err e => (Some (ErrIO e), t)
  | Ok b =>
      match os_mkdir o, os_write o, os_rename o with
      | None, None, None => (None, t <| file := Some b |>)
      | Some e, _, _ | None, Some e, _ | None, None, Some e => (Some (ErrIO e), t)
      end
  end.

Definition load (o : os_env) (t : table) : option admin_error * table :=
  if decide (path t = "") then (None, t)
  else match file t with
  | None => (None, t)
  | Some b =>
      match os_read o with
      | Some e => (Some (ErrIO e), t)
      | None =>
          match os_unmarshal o b with
          | Err e => (Some (ErrIO e), t)
          | Ok admins => (None, foldl (λ t a, t <| byU ::= <[ad_Username a := a]> |>) t admins)
          end
      end
  end.

Definition NewFile (o : os_env) (path : string) (file : option (list byte)) : result admin_error table :=
  match load o (mkTable ∅ path file) with
  | (Some e, _) => Err e
  | (None, t) => Ok t
  end.

Definition Create (o : os_env) (salt : option (list byte)) (now : Time) (username password role : string) (t : table)
  : result admin_error Public * table :=
  let role := if decide (role = "") then RoleAdmin else role in
  match Hash prf salt password with
  | Err e => (Err (ErrIO e), t)
  | Ok hash =>
      match byU t !! username with
      | Some _ => (Err ErrConflict, t)
      | None =>
          let a := mkAdmin username role hash now in
          match flushLocked o (t <| byU ::= <[username := a]> |>) with
          | (Some e, t) => (Err e, t)
          | (None, t) => (Ok (public a), t)
          end
      end
  end.

Definition Verify (username password : string) (t : table) : result admin_error Public :=
  match byU t !! username with
  | Some a => if PwHash.Verify prf password (ad_PassHash a) then Ok (public a) else Err ErrBadCreds
  | None => Err ErrBadCreds
  end.

Definition List (t : table) : list Public := public <$> (map_to_list (byU t)).*2.

(** ** Runs *)

Inductive admin_step : table → table → Prop :=
| st_create o salt now username password role t :
    admin_step t (snd (Create o salt now username password role t)).

Lemma flushLocked_byU o t : byU (snd (flushLocked o t)) = byU t.
Proof.
  unfold flushLocked. case_decide; [done|]. destruct (os_marshal o _); [|done].
  by destruct (os_mkdir o), (os_write o), (os_rename o).
Qed.

Lemma Create_byU o salt now username password role t :
  byU (snd (Create o salt now username password role t)) =
  match Hash prf salt password, byU t !! username with
  | Ok hash, None => <[username := mkAdmin username (if decide (role = "") then RoleAdmin else role) hash now]> (byU t)
  | _, _ => byU t
  end.
Proof.
  unfold Create. destruct (Hash prf salt password) as [hash|]; [|done]. destruct (byU t !! username) eqn:E; [done|].
  set (t1 := t <| byU ::= _ |>). pose proof (flushLocked_byU o t1) as Hf.
  destruct (flushLocked o t1) as [[e|] t']; simpl in *; by rewrite Hf.
Qed.

Lemma steps_keep t t' username a :
  rtc admin_step t t' → byU t !! username = Some a → byU t' !! username = Some a.
Proof.
  induction 1 as [|t t1 t' Hs _ IH]; [done|]. intros Ha. apply IH. destruct Hs as [o salt now u p r t].
  rewrite Create_byU. destruct (Hash prf salt p); [|done]. destruct (byU t !! u) eqn:E; [done|].
  rewrite lookup_insert_ne; [done|]. congruence.
Qed.

(** Keep the derived keys folded in what follows. *)
#[local] Opaque PBKDF2 pbkdf2.

Section sized.
Hypothesis prf_size : ∀ key msg, length (prf key msg) = Z.to_nat hashLen.

(** An account is taken once, and its password works at once and for good: when a name is free,
    [Create] - even if the file could not be written - makes an account that [Verify] accepts with the
    role it was given ([admin] if none) and with those passwords only that derive the same key; no
    later call of [Create], for this or another name, changes that. *)
Theorem account_is_permanent o salt now username password role t t' pw :
  byU t !! username = None →
  rtc admin_step (snd (Create o (Some salt) now username password role t)) t' →
  Verify username pw t' =
  if decide (PBKDF2 prf pw salt 210000 32 = PBKDF2 prf password salt 210000 32)
  then Ok (mkPublic username (if decide (role = "") then "admin" else role))
  else Err ErrBadCreds.
Proof.
  intros Hfree Hst. set (hash := encoded salt (pbkdf2 prf password salt iterations keyLen)).
  assert (byU t' !! username = Some (mkAdmin username (if decide (role = "") then RoleAdmin else role) hash now)) as E.
  { apply (steps_keep _ _ _ _ Hst). rewrite Create_byU, Hfree. simpl. by rewrite lookup_insert_eq. }
  unfold Verify. rewrite E. cbn [ad_PassHash]. unfold hash. rewrite verify_encoded by done.
  generalize (PBKDF2 prf pw salt 210000 32) (PBKDF2 prf password salt 210000 32). intros k k'.
  destruct (decide (k = k')); [by rewrite bool_decide_eq_true_2|by rewrite bool_decide_eq_false_2].
Qed.
End sized.
End adminstore.

(** ** The interface *)

Class AdminRegistry (A : Type) := {
  adm_verify : string → string → A → result admin_error Public;
  adm_errors u p s e : adm_verify u p s = Err e → e = ErrBadCreds ∨ ∃ msg, e = ErrIO msg
}.

Lemma Verify_errors prf u p t e : Verify prf u p t = Err e → e = ErrBadCreds ∨ ∃ msg, e = ErrIO msg.
Proof. unfold Verify. destruct (byU t !! u); [destruct (PwHash.Verify _ _ _)|]; intros [=]; by left. Qed.

#[export] Instance table_AdminRegistry (prf : string → list byte → list byte) : AdminRegistry table := {
  adm_verify := Verify prf;
  adm_errors := Verify_errors prf
}.

(** ** A concrete store *)

Definition admin_os : os_env := mkOS (λ _, Err "unsupported") (λ _, Err "unsupported") None None None None.
Definition with_root : table := snd (Create demo_prf admin_os (Some [x01]) 7 "root" "pw" "" New).

Lemma account_is_permanent_witness :
  Verify demo_prf "root" "guess" with_root =
  if decide (PBKDF2 demo_prf "guess" [x01] 210000 32 = PBKDF2 demo_prf "pw" [x01] 210000 32)
  then Ok (mkPublic "root" (if decide (""%string = "") then "admin" else "")) else Err ErrBadCreds.
Proof.
  apply (account_is_permanent demo_prf demo_prf_size admin_os [x01] 7 "root" "pw" "" New with_root "guess").
  - apply lookup_empty.
  - apply rtc_refl.
Defined.
