(* ===== verification/SqlAdmins.v ===== *)
(** * internal/adminstore/sqlite.go: administrator accounts on SQLite

    As in [SqlUsers], the engine is a class with the promises of SQL as laws, here for the table
    [admins].  The store refines the in-memory one of [AdminStore] and serves the admin server through
    the same interface. *)
From S2P Require Import Prelude GoTime PwHash AdminStore.

Open Scope Z_scope.

Record row := mkRow { w_username : string; w_role : string; w_hash : string; w_created : string }.

Class AdminDB (D : Type) := {
  adb_Insert : row → D → option string * D;
  adb_Find : string → D → result string (list row);      (* WHERE username=? *)
  adb_All : D → result string (list row)
}.

Class AdminDBLaws (D : Type) `{AdminDB D} := {
  admins_of : D → list row;
  Insert_ok w d d' : adb_Insert w d = (None, d') → admins_of d' = admins_of d ++ [w];
  Insert_err w d e d' : adb_Insert w d = (Some e, d') → admins_of d' = admins_of d;
  Insert_unique w d d' : adb_Insert w d = (None, d') → w_username w ∉ (w_username <$> admins_of d);
  Find_ok u d ws : adb_Find u d = Ok ws → ws ≡ₚ filter (λ w, w_username w = u) (admins_of d);
  All_ok d ws : adb_All d = Ok ws → ws ≡ₚ admins_of d
}.

(** Nothing fails but the insertion of a name that is taken. *)
Definition admins_reliable (D : Type) `{AdminDBLaws D} : Prop :=
  (∀ w d e, fst (adb_Insert w d) = Some e → w_username w ∈ (w_username <$> admins_of d)) ∧
  (∀ u d, ∃ ws, adb_Find u d = Ok ws).

Section sqlstore.
Context {D : Type} `{AdminDB D}.
Context (prf : string → list byte → list byte) (Format : Time → string).

(** [NewSQLite] from what opening the file and creating the table return. *)
Definition NewSQLite (opened : result string D) (schema : D → option string * D) : result string D :=
  match opened with
  | Err e => Err e
  | Ok d => match schema d with (Some e, _) => Err e | (None, d) => Ok d end
  end.

Definition Create (salt : option (list byte)) (now : Time) (username password role : string) (d : D)
  : result admin_error Public * D :=
  let role := if decide (role = "") then RoleAdmin else role in
  match Hash prf salt password with
  | Err e => (Err (ErrIO e), d)
  | Ok hash =>
      match adb_Insert (mkRow username role hash (Format now)) d with
      | (Some _, d) => (Err ErrConflict, d)
      | (None, d) => (Ok (mkPublic username role), d)
      end
  end.

Definition Verify (username password : string) (d : D) : result admin_error Public :=
  match adb_Find username d with
  | Err e => Err (ErrIO e)
  | Ok [] => Err ErrBadCreds
  | Ok (w :: _) =>
      if PwHash.Verify prf password (w_hash w) then Ok (mkPublic username (w_role w)) else Err ErrBadCreds
  end.

Definition List (d : D) : list Public :=
  match adb_All d with
  | Err _ => []
  | Ok ws => (λ w, mkPublic (w_username w) (w_role w)) <$> ws
  end.

Lemma Verify_sql_errors u p d e : Verify u p d = Err e → e = ErrBadCreds ∨ ∃ msg, e = ErrIO msg.
Proof.
  unfold Verify. destruct (adb_Find u d) as [[|w ws]|]; [|destruct (PwHash.Verify _ _ _)|]; intros [=]; subst; eauto.
Qed.

#[export] Instance sql_AdminRegistry : AdminRegistry D := {| adm_verify := Verify; adm_errors := Verify_sql_errors |}.
End sqlstore.

(** ** The refinement *)

Inductive call := KCreate (salt : option (list byte)) (now : Time) (username password role : string)
| KVerify (username password : string).

Section refinement.
Context {D : Type} `{AdminDBLaws D} (Hrel : admins_reliable D).
Context (prf : string → list byte → list byte) (Format : Time → string) (o : os_env).

Definition table_call (c : call) (t : table) : result admin_error Public * table :=
  match c with
  | KCreate salt now u p r => AdminStore.Create prf o salt now u p r t
  | KVerify u p => (AdminStore.Verify prf u p t, t)
  end.

Definition sql_call (c : call) (d : D) : result admin_error Public * D :=
  match c with
  | KCreate salt now u p r => Create prf Format salt now u p r d
  | KVerify u p => (Verify prf u p d, d)
  end.

Fixpoint answers {S} (f : call → S → result admin_error Public * S) (cs : list call) (s : S) : list (result admin_error Public) :=
  match cs with [] => [] | c :: cs => let '(a, s) := f c s in a :: answers f cs s end.

Definition row_of (a : Admin) : row := mkRow (ad_Username a) (ad_Role a) (ad_PassHash a) (Format (ad_CreatedAt a)).

Record sim (t : table) (d : D) : Prop := {
  sim_path : path t = "";
  sim_key : ∀ u a, byU t !! u = Some a → ad_Username a = u;
  sim_rows : ∀ w, w ∈ admins_of d ↔ ∃ u a, byU t !! u = Some a ∧ w = row_of a
}.

Lemma taken t d u : sim t d → u ∈ (w_username <$> admins_of d) ↔ is_Some (byU t !! u).
Proof.
  intros S. rewrite list_elem_of_fmap. setoid_rewrite (sim_rows _ _ S). split.
  - intros (w & -> & u' & a & Ha & ->). simpl. rewrite (sim_key _ _ S u' a Ha), Ha. by eexists.
  - intros [a Ha]. exists (row_of a). simpl. rewrite (sim_key _ _ S u a Ha). eauto.
Qed.

Lemma admin_Create_sim salt now u p r t d :
  sim t d →
  let '(a, t') := AdminStore.Create prf o salt now u p r t in
  let '(a', d') := Create prf Format salt now u p r d in a' = a ∧ sim t' d'.
Proof.
  intros S. unfold AdminStore.Create, Create. destruct (Hash prf salt p) as [hash|]; [|done].
  set (w := mkRow _ _ _ _). pose proof (taken t d u S) as Ht.
  destruct (adb_Insert w d) as [[e|] d'] eqn:E.
  - destruct (proj1 Ht) as [a ->]; [by apply (proj1 Hrel w d e); rewrite E|]. split; [done|].
    constructor; try apply S. intros w'. rewrite (Insert_err _ _ _ _ E). apply S.
  - pose proof (Insert_unique _ _ _ E) as Hu. change (w_username w) with u in Hu.
    destruct (byU t !! u) as [a|] eqn:Eu; [destruct Hu; by apply Ht|].
    unfold flushLocked. simpl. rewrite decide_True by apply S. split; [done|]. constructor; simpl; try apply S.
    + intros u' a [[<- <-]|[_ Ha]]%lookup_insert_Some; [done|by apply (sim_key _ _ S)].
    + intros w'. rewrite (Insert_ok _ _ _ E), elem_of_app, list_elem_of_singleton, (sim_rows _ _ S). split.
      * intros [(u' & a & Ha & ->)| ->]; [|by eexists u, _; rewrite lookup_insert_eq].
        exists u', a. rewrite lookup_insert_ne; [done|congruence].
      * intros (u' & a & [[<- <-]|[_ Ha]]%lookup_insert_Some & ->); [by right|left; eauto].
Qed.

Lemma Verify_sim u p t d : sim t d → Verify prf u p d = AdminStore.Verify prf u p t.
Proof.
  intros S. unfold Verify, AdminStore.Verify. destruct (proj2 Hrel u d) as [ws E]. rewrite E.
  pose proof (Find_ok _ _ _ E) as Hp.
  assert (∀ w, w ∈ ws ↔ ∃ a, byU t !! u = Some a ∧ w = row_of a) as Hin.
  { intros w. rewrite Hp, list_elem_of_filter, (sim_rows _ _ S). split.
    - intros (Hu & u' & a & Ha & ->). simpl in Hu. rewrite (sim_key _ _ S u' a Ha) in Hu. subst. eauto.
    - intros (a & Ha & ->). split; [by apply (sim_key _ _ S)|eauto]. }
  destruct ws as [|w ws].
  - destruct (byU t !! u) as [a|] eqn:Ea; [|done]. exfalso. apply (not_elem_of_nil (row_of a)), Hin. eauto.
  - destruct (proj1 (Hin w)) as (a & Ha & ->); [by left|]. rewrite Ha. simpl. unfold public.
    by rewrite (sim_key _ _ S u a Ha).
Qed.

(** The accounts on SQLite behave as those in memory: on a reliable engine, the same calls get the
    same answers. *)
Theorem sqlite_admins_refine d cs :
  admins_of d = [] → answers sql_call cs d = answers table_call cs New.
Proof.
  intros Hd. assert (sim New d) as S.
  { constructor; [done..|]. intros w. rewrite Hd. split; [by intros ?%elem_of_nil|by intros (? & ? & ? & ?)]. }
  clear Hd. revert d S. generalize New as t. induction cs as [|c cs IH]; intros t d S; [done|].
  destruct c as [salt now u p r|u p].
  - pose proof (admin_Create_sim salt now u p r t d S) as Hc. simpl.
    destruct (AdminStore.Create prf o salt now u p r t) as [a t'], (Create prf Format salt now u p r d) as [a' d'].
    destruct Hc as [-> S']. f_equal. by apply IH.
  - simpl. rewrite (Verify_sim u p t d S). f_equal. by apply IH.
Qed.
End refinement.

(** ** An engine that keeps the rows in a list *)

#[export] Instance list_AdminDB : AdminDB (list row) := {
  adb_Insert w ws := if decide (w_username w ∈ (w_username <$> ws)) then (Some "UNIQUE constraint failed", ws) else (None, ws ++ [w]);
  adb_Find u ws := Ok (filter (λ w, w_username w = u) ws);
  adb_All ws := Ok ws
}.

#[export] Program Instance list_AdminDBLaws : AdminDBLaws (list row) := {| admins_of := id |}.
Next Obligation. intros w d d'. simpl. case_decide; [done|]. by intros [= <-]. Qed.
Next Obligation. intros w d e d'. simpl. case_decide; [|done]. by intros [= _ <-]. Qed.
Next Obligation. intros w d d'. simpl. by case_decide. Qed.
Next Obligation. intros u d ws. simpl. by intros [= <-]. Qed.
Next Obligation. intros d ws. simpl. by intros [= <-]. Qed.

Lemma list_admins_reliable : admins_reliable (list row).
Proof. split; [|by eexists]. intros w d e. simpl. by case_decide. Qed.
