(* ===== verification/AdminServer.v ===== *)
(** * Packages internal/auth and internal/adminserver: the admin API

    A request is the data the handlers look at, a response a status code and a body; [Handler] is the
    router with its authentication, composed of the handlers as the code composes them.  The user
    table, the event bus and the tracker are those of their packages, the admin store is behind the
    class [AdminRegistry], the broker's lists ([NodeProvider]) are arguments.  The clock, the random
    bytes, the JSON decoders and the file system are the fields of [env].  Paths are clean, as the
    router's redirects leave them, and given as segments. *)
From S2P Require Import Prelude Float64 GoTime Strs Codec AdminAPI UserStore QoS Events PwHash AdminStore.

Open Scope Z_scope.

(** ** Package auth *)

Definition ConstantEqual (a b : string) : bool := bool_decide (a = b).

(** [h] is the Authorization header. *)
Definition BearerToken (h : string) : string :=
  match CutPrefix "Bearer " h with Some v => TrimSpace v | None => "" end.

(** ** Requests and responses *)

Record request := mkRequest {
  rq_method : string;
  rq_path : list string;
  rq_auth : string;
  rq_query : string → string;
  rq_body : list byte
}.

Inductive body :=
| BEmpty
| BText (msg : string)
| BError (code msg : string)
| BLogin (token role : string) (expiresAt : Time)
| BUsers (us : list User)
| BUser (u : User)
| BCreated (u : User) (token : string)
| BNodes (ns : list DeviceView)
| BNode (n : DeviceView)
| BSessions (ss : list AdminAPI.Session)
| BRegions (rs : list Region)
| BQosExits (xs : list ExitStat)
| BQosSessions (ss : list SessionStat)
| BQosHistory (es : list QoS.Event)
| BStream (first : AdminAPI.Event) (id : Z).    (* the snapshot, then what channel [id] delivers *)

Record response := mkResponse { rs_code : Z; rs_body : body }.

Definition writeErr (code : Z) (errCode msg : string) : response := mkResponse code (BError errCode msg).

(** What the handlers take from outside: the clock, random bytes, JSON, the file system and the
    embedded dashboard. *)
Record env := mkEnv {
  e_now : Time;
  e_rand : list byte;
  e_newID : string;
  e_os : UserStore.os_env;
  e_login : list byte → option (string * string);
  e_create : list byte → option UserCreate;
  e_update : list byte → option UserUpdate;
  e_static : list string → response       (* what the file server answers *)
}.

Record NodeProvider := mkNodes { np_nodes : list DeviceView; np_sessions : list AdminAPI.Session }.

Record sessionEntry := mkEntry { se_role : string; se_exp : Time }.

Section server.
Context {S A : Type} `{HistoryStore S} `{AdminRegistry A}.
Context (hmac : string → string → string).

Record Server := mkServer {
  s_Users : UserStore.table;
  s_Admins : option A;
  s_Bus : Events.Bus (Event := AdminAPI.Event);
  s_QoS : option (Tracker S);
  s_BootstrapToken : string;
  s_sessions : gmap string sessionEntry
}.
#[export] Instance Server_eta : Eta Server :=
  λ s, mkServer (s_Users s) (s_Admins s) (s_Bus s) (s_QoS s) (s_BootstrapToken s) (s_sessions s).

(** ** The session manager *)

Definition sessionTTL : Duration := 8 * Hour.

Definition issue (e : env) (role : string) (s : Server) : string * Time * Server :=
  let tok := hex (e_rand e) in
  let exp := Add (e_now e) sessionTTL in
  (tok, exp, s <| s_sessions ::= <[tok := mkEntry role exp]> |>).

Definition valid (now : Time) (tok : string) (s : Server) : bool * Server :=
  match s_sessions s !! tok with
  | None => (false, s)
  | Some en => if se_exp en <? now then (false, s <| s_sessions ::= delete tok |>) else (true, s)
  end.

Definition validate (now : Time) (tok : string) (s : Server) : bool * Server :=
  if negb (bool_decide (s_BootstrapToken s = "")) && ConstantEqual tok (s_BootstrapToken s) then (true, s)
  else valid now tok s.

(** The token of a request: the header, or the query parameter. *)
Definition request_token (r : request) : string :=
  let tok := BearerToken (rq_auth r) in
  if decide (tok = "") then rq_query r "access_token" else tok.

Definition unauthorized : response :=
  mkResponse 401 (BError "unauthorized" "valid token required").

Definition RequireAdmin (adminToken : string) (r : request) (next : Server → response * Server) (s : Server)
  : response * Server :=
  if bool_decide (adminToken = "") || negb (ConstantEqual (BearerToken (rq_auth r)) adminToken)
  then (mkResponse 401 (BError "unauthorized" "admin token required"), s)
  else next s.

Definition RequireToken (e : env) (r : request) (next : Server → response * Server) (s : Server)
  : response * Server :=
  let tok := request_token r in
  if decide (tok = "") then (unauthorized, s)
  else let '(ok, s) := validate (e_now e) tok s in
       if ok then next s else (unauthorized, s).

(** ** The handlers *)

Definition login (e : env) (r : request) (s : Server) : response * Server :=
  match e_login e (rq_body r) with
  | None => (writeErr 400 "bad_request" "invalid body", s)
  | Some (username, password) =>
      match s_Admins s with
      | None => (writeErr 503 "unavailable" "no admin store configured", s)
      | Some a =>
          match adm_verify username password a with
          | Err _ => (writeErr 401 "unauthorized" "bad credentials", s)
          | Ok pub =>
              let '(tok, exp, s) := issue e (pu_Role pub) s in
              (mkResponse 200 (BLogin tok (pu_Role pub) exp), s)
          end
      end
  end.

Definition listUsers (r : request) (s : Server) : response * Server :=
  (mkResponse 200 (BUsers (UserStore.List (rq_query r "region") (rq_query r "status") (s_Users s))), s).

(** [randomToken], of the random bytes it reads. *)
Definition randomToken (e : env) : string := hex (e_rand e).

Definition createUser (e : env) (r : request) (s : Server) : response * Server :=
  match e_create e (rq_body r) with
  | None => (writeErr 422 "validation_error" "invalid body", s)
  | Some inp =>
      let cred := if decide (uc_Credential inp = "") then randomToken e else uc_Credential inp in
      let inp := mkUserCreate (uc_Username inp) cred (uc_AllowedRegions inp) (uc_Status inp) in
      match UserStore.Create hmac (e_os e) (e_newID e) (e_now e) inp (s_Users s) with
      | (Err UserStore.ErrConflict, t) =>
          (writeErr 409 "conflict" (error_string UserStore.ErrConflict), s <| s_Users := t |>)
      | (Err err, t) => (writeErr 422 "validation_error" (error_string err), s <| s_Users := t |>)
      | (Ok u, t) => (mkResponse 201 (BCreated u cred), s <| s_Users := t |>)
      end
  end.

Definition getUser (id : string) (s : Server) : response * Server :=
  match UserStore.Get id (s_Users s) with
  | Err err => (writeErr 404 "not_found" (error_string err), s)
  | Ok u => (mkResponse 200 (BUser u), s)
  end.

Definition updateUser (e : env) (r : request) (id : string) (s : Server) : response * Server :=
  match e_update e (rq_body r) with
  | None => (writeErr 422 "validation_error" "invalid body", s)
  | Some inp =>
      match UserStore.Update hmac (e_os e) (e_now e) id inp (s_Users s) with
      | (Err err, t) => (writeErr 404 "not_found" (error_string err), s <| s_Users := t |>)
      | (Ok u, t) => (mkResponse 200 (BUser u), s <| s_Users := t |>)
      end
  end.

Definition deleteUser (e : env) (id : string) (s : Server) : response * Server :=
  match UserStore.Delete (e_os e) id (s_Users s) with
  | (Some err, t) => (writeErr 404 "not_found" (error_string err), s <| s_Users := t |>)
  | (None, t) => (mkResponse 204 BEmpty, s <| s_Users := t |>)
  end.

Definition listNodes (np : NodeProvider) (r : request) (s : Server) : response * Server :=
  let region := rq_query r "region" in
  let nodes := np_nodes np in
  (mkResponse 200 (BNodes (if decide (region = "") then nodes else filter (λ n, dv_Region n = region) nodes)), s).

Definition getNode (np : NodeProvider) (id : string) (s : Server) : response * Server :=
  match List.find (λ n, bool_decide (dv_NodeID n = id)) (np_nodes np) with
  | Some n => (mkResponse 200 (BNode n), s)
  | None => (writeErr 404 "not_found" "node not found", s)
  end.

Definition listSessions (np : NodeProvider) (s : Server) : response * Server :=
  (mkResponse 200 (BSessions (np_sessions np)), s).

Definition qosExits (e : env) (s : Server) : response * Server :=
  (mkResponse 200 (BQosExits (from_option Exits [] (s_QoS s))), s).

Definition qosSessions (e : env) (s : Server) : response * Server :=
  (mkResponse 200 (BQosSessions (from_option (QoS.Sessions (e_now e)) [] (s_QoS s))), s).

Definition qosHistory (r : request) (s : Server) : response * Server :=
  match s_QoS s with
  | None => (mkResponse 200 (BQosHistory []), s)
  | Some q =>
      let v := rq_query r "limit" in
      let limit := if decide (v = "") then 200
                   else match Atoi v with Some n => if 0 <? n then n else 200 | None => 200 end in
      (mkResponse 200 (BQosHistory (QoS.History limit q)), s)
  end.

(** The aggregation of [listRegions]: online nodes and active users by region. *)
Definition add_node (m : gmap string (Z * Z)) (n : DeviceView) : gmap string (Z * Z) :=
  let '(online, users) := default (0, 0) (m !! dv_Region n) in
  <[dv_Region n := ((if decide (dv_Status n = NodeOnline) then online + 1 else online), users + dv_ActiveUsers n)]> m.

Definition listRegions (np : NodeProvider) (s : Server) : response * Server :=
  let m := foldl add_node ∅ (np_nodes np) in
  (mkResponse 200 (BRegions ((λ '(code, (online, users)), mkRegion code code online online users) <$> map_to_list m)), s).

(** The first message of the stream of events. *)
Definition snapshot_event (now : Time) (np : NodeProvider) : AdminAPI.Event :=
  AdminAPI.mkEvent EvSnapshot now (Some (mkSnapshot (np_nodes np) (np_sessions np))) None "" None.

(** [events] up to its loop: it subscribes, then takes the snapshot.  The stream is in [Sse]. *)
Definition events (e : env) (np : NodeProvider) (s : Server) : response * Server :=
  let '(id, bus) := Subscribe (s_Bus s) in
  (mkResponse 200 (BStream (snapshot_event (e_now e) np) id), s <| s_Bus := bus |>).

(** ** The router *)

Inductive route :=
| RLogin | RListUsers | RCreateUser | RGetUser (id : string) | RUpdateUser (id : string) | RDeleteUser (id : string)
| RListRegions | RListNodes | RGetNode (id : string) | RListSessions | RQosExits | RQosSessions | RQosHistory | REvents
| RStatic | RNotAllowed.

(** A pattern with method GET also matches HEAD. *)
Definition is_get (m : string) : bool := bool_decide (m = "GET") || bool_decide (m = "HEAD").

(** "GET /" takes what no other pattern does; a path it matches with another method is refused. *)
Definition fallback (m : string) : route := if is_get m then RStatic else RNotAllowed.

Definition get_or (m : string) (r : route) : route := if is_get m then r else RNotAllowed.

Definition match_route (m : string) (p : list string) : route :=
  match p with
  | ["api"; "v1"; "admin"; "login"] => if decide (m = "POST") then RLogin else fallback m
  | ["api"; "v1"; "users"] => if decide (m = "POST") then RCreateUser else get_or m RListUsers
  | ["api"; "v1"; "users"; id] =>
      if decide (id = "") then fallback m
      else if decide (m = "PATCH") then RUpdateUser id
      else if decide (m = "DELETE") then RDeleteUser id else get_or m (RGetUser id)
  | ["api"; "v1"; "regions"] => get_or m RListRegions
  | ["api"; "v1"; "nodes"] => get_or m RListNodes
  | ["api"; "v1"; "nodes"; id] => if decide (id = "") then fallback m else get_or m (RGetNode id)
  | ["api"; "v1"; "sessions"] => get_or m RListSessions
  | ["api"; "v1"; "qos"; "exits"] => get_or m RQosExits
  | ["api"; "v1"; "qos"; "sessions"] => get_or m RQosSessions
  | ["api"; "v1"; "qos"; "history"] => get_or m RQosHistory
  | ["api"; "v1"; "events"] => get_or m REvents
  | _ => fallback m
  end%string.

Definition Handler (e : env) (np : NodeProvider) (r : request) (s : Server) : response * Server :=
  let a h := RequireToken e r h s in
  match match_route (rq_method r) (rq_path r) with
  | RLogin => login e r s
  | RListUsers => a (listUsers r)
  | RCreateUser => a (createUser e r)
  | RGetUser id => a (getUser id)
  | RUpdateUser id => a (updateUser e r id)
  | RDeleteUser id => a (deleteUser e id)
  | RListRegions => a (listRegions np)
  | RListNodes => a (listNodes np r)
  | RGetNode id => a (getNode np id)
  | RListSessions => a (listSessions np)
  | RQosExits => a (qosExits e)
  | RQosSessions => a (qosSessions e)
  | RQosHistory => a (qosHistory r)
  | REvents => a (events e np)
  | RStatic => (e_static e (rq_path r), s)
  | RNotAllowed => (mkResponse 405 (BText "Method Not Allowed"), s)
  end.

(** ** Authentication *)

(** The request carries a token that is valid now. *)
Definition authorized (e : env) (r : request) (s : Server) : bool :=
  negb (bool_decide (request_token r = "")) && fst (validate (e_now e) (request_token r) s).

(** The server but for its sessions. *)
Definition same_data (s s' : Server) : Prop :=
  s_Users s' = s_Users s ∧ s_Admins s' = s_Admins s ∧ s_Bus s' = s_Bus s ∧ s_QoS s' = s_QoS s ∧
  s_BootstrapToken s' = s_BootstrapToken s.

Lemma validate_spec now tok s b s' :
  validate now tok s = (b, s') →
  same_data s s' ∧ s_sessions s' = (if b then s_sessions s else delete tok (s_sessions s)) .
Proof.
  unfold validate, valid. case_match.
  - intros [= <- <-]. by split.
  - destruct (s_sessions s !! tok) as [en|] eqn:E.
    + destruct (se_exp en <? now); intros [= <- <-]; by split.
    + intros [= <- <-]. split; [done|]. by rewrite delete_id.
Qed.

Lemma RequireToken_spec e r next s :
  RequireToken e r next s =
  if authorized e r s then next s
  else (unauthorized, if decide (request_token r = "") then s else snd (validate (e_now e) (request_token r) s)).
Proof.
  unfold RequireToken, authorized. destruct (decide (request_token r = "")) as [->|Hne]; [done|].
  rewrite bool_decide_eq_false_2 by done. simpl.
  destruct (validate (e_now e) (request_token r) s) as [[] s'] eqn:E; [|done]. simpl.
  assert (s' = s) as ->; [|done]. unfold validate, valid in E. case_match; [by injection E as ->|].
  destruct (s_sessions s !! request_token r) as [en|]; [|done]. destruct (se_exp en <? e_now e); [done|]. by injection E as ->.
Qed.

(** The routes that need a token. *)
Definition guarded (rt : route) : bool := match rt with RLogin | RStatic | RNotAllowed => false | _ => true end.

Lemma Handler_guarded e np r s :
  guarded (match_route (rq_method r) (rq_path r)) = true → authorized e r s = false →
  Handler e np r s = (unauthorized, if decide (request_token r = "") then s
                                    else snd (validate (e_now e) (request_token r) s)).
Proof.
  intros Hg Ha. unfold Handler. destruct (match_route _ _); try done; by rewrite RequireToken_spec, Ha.
Qed.

(** The handlers behind the token leave sessions and bootstrap token alone. *)
Ltac keeps_sessions :=
  unfold listUsers, createUser, getUser, updateUser, deleteUser, listNodes, getNode, listSessions, qosExits,
    qosSessions, qosHistory, listRegions, events; repeat case_match; done.

(** The role of a successful login. *)
Definition logged_in (e : env) (r : request) (s : Server) : option string :=
  match match_route (rq_method r) (rq_path r) with
  | RLogin =>
      '(u, p) ← e_login e (rq_body r); a ← s_Admins s;
      match adm_verify u p a with Ok pub => Some (pu_Role pub) | Err _ => None end
  | _ => None
  end.

Lemma RequireToken_sessions e r next s :
  s_sessions (snd (next s)) = s_sessions s ∧ s_BootstrapToken (snd (next s)) = s_BootstrapToken s →
  s_BootstrapToken (snd (RequireToken e r next s)) = s_BootstrapToken s ∧
  (s_sessions (snd (RequireToken e r next s)) = s_sessions s ∨
   ∃ tok, fst (validate (e_now e) tok s) = false ∧
          s_sessions (snd (RequireToken e r next s)) = delete tok (s_sessions s)).
Proof.
  intros [Hs Hb]. rewrite RequireToken_spec. destruct (authorized e r s) eqn:Ea; [by split; [|left]|].
  unfold authorized in Ea. destruct (decide (request_token r = "")) as [E|E]; [by split; [|left]|].
  rewrite bool_decide_eq_false_2 in Ea by done. simpl in Ea. simpl.
  destruct (validate (e_now e) (request_token r) s) as [b s'] eqn:Ev. simpl in *. subst b.
  destruct (validate_spec _ _ _ _ _ Ev) as [(_ & _ & _ & _ & ?) Hd]. split; [done|]. right.
  exists (request_token r). by rewrite Ev.
Qed.

(** What a request does to the sessions. *)
Lemma Handler_sessions e np r s :
  let s' := snd (Handler e np r s) in
  s_BootstrapToken s' = s_BootstrapToken s ∧
  match logged_in e r s with
  | Some role => s_sessions s' = <[hex (e_rand e) := mkEntry role (Add (e_now e) sessionTTL)]> (s_sessions s)
  | None => s_sessions s' = s_sessions s ∨
            ∃ tok, fst (validate (e_now e) tok s) = false ∧ s_sessions s' = delete tok (s_sessions s)
  end.
Proof.
  unfold Handler, logged_in.
  destruct (match_route (rq_method r) (rq_path r)) eqn:Er;
    try (apply RequireToken_sessions; keeps_sessions);
    try (by split; [|left]).
  unfold login. destruct (e_login e (rq_body r)) as [[u p]|]; [|by split; [|left]]. simpl.
  destruct (s_Admins s) as [a|]; [|by split; [|left]]. simpl. by destruct (adm_verify u p a); simpl; [|split; [|left]].
Qed.

(** Requests at increasing times, with whatever happens to the rest of the server in between; the
    tokens issued so far with the time of their login, newest first. *)
Inductive srun : Time → list (string * Time) → Server → Prop :=
| sr_start t s : s_sessions s = ∅ → srun t [] s
| sr_request t iss s e np r :
    srun t iss s → t ≤ e_now e →
    srun (e_now e) (option_list ((λ _, (hex (e_rand e), e_now e)) <$> logged_in e r s) ++ iss) (snd (Handler e np r s))
| sr_other t iss s s' :
    srun t iss s → s_sessions s' = s_sessions s → s_BootstrapToken s' = s_BootstrapToken s → srun t iss s'.

Fixpoint last_issue (iss : list (string * Time)) (tok : string) : option Time :=
  match iss with
  | [] => None
  | (k, t) :: iss => if decide (k = tok) then Some t else last_issue iss tok
  end.

Lemma srun_inv t iss s :
  srun t iss s →
  (∀ tok en, s_sessions s !! tok = Some en → ∃ t0, last_issue iss tok = Some t0 ∧ se_exp en = Add t0 sessionTTL) ∧
  (∀ tok t0, last_issue iss tok = Some t0 → s_sessions s !! tok = None → Add t0 sessionTTL < t).
Proof.
  induction 1 as [t s Hs|t iss s e np r Hr [IH1 IH2] Ht|t iss s s' Hr IH Hs Hb].
  - rewrite Hs. split; intros tok x; [by rewrite lookup_empty|done].
  - destruct (Handler_sessions e np r s) as [Hb Hs]. destruct (logged_in e r s) as [role|]; simpl.
    + rewrite Hs. split; intros tok x.
      * case_decide as Hd; [subst; rewrite lookup_insert_eq; intros [= <-]; eauto|].
        rewrite lookup_insert_ne by done. auto.
      * case_decide as Hd; [subst; by rewrite lookup_insert_eq|]. rewrite lookup_insert_ne by done.
        intros Hl Hn. specialize (IH2 _ _ Hl Hn). lia.
    + destruct Hs as [->|(tok' & Hv & ->)].
      * split; [done|]. intros tok t0 Hl Hn. specialize (IH2 _ _ Hl Hn). lia.
      * split; intros tok x; [intros [_ Hl]%lookup_delete_Some; auto|].
        intros Hl [<-|Hn]%lookup_delete_None; [|specialize (IH2 _ _ Hl Hn); lia].
        unfold validate, valid in Hv. case_match; [done|].
        destruct (s_sessions s !! tok') as [en|] eqn:E; [|specialize (IH2 _ _ Hl E); lia].
        destruct (IH1 _ _ E) as (t0 & Hl' & Hexp). rewrite Hl in Hl'. injection Hl' as <-.
        destruct (Z.ltb_spec (se_exp en) (e_now e)); [lia|done].
  - rewrite Hs. done.
Qed.

(** ** Properties *)

(** C17. Without a valid token nothing is read and nothing changes: a request to any route of the API
    but the login is answered with 401, and the users, accounts, bus and statistics stay as they are;
    on the other routes there is only the login, which issues a token against verified credentials
    alone, and the dashboard. *)
Theorem api_is_guarded e np r s :
  authorized e r s = false →
  let '(resp, s') := Handler e np r s in
  same_data s s' ∧
  match match_route (rq_method r) (rq_path r) with
  | RLogin =>
      s_sessions s' = s_sessions s ∨
      ∃ u p a pub, e_login e (rq_body r) = Some (u, p) ∧ s_Admins s = Some a ∧ adm_verify u p a = Ok pub ∧
        resp = mkResponse 200 (BLogin (hex (e_rand e)) (pu_Role pub) (Add (e_now e) sessionTTL))
  | RStatic => resp = e_static e (rq_path r)
  | RNotAllowed => rs_code resp = 405
  | _ => resp = unauthorized ∧ s_sessions s' ⊆ s_sessions s
  end.
Proof.
  intros Ha. destruct (guarded (match_route (rq_method r) (rq_path r))) eqn:Eg.
  - rewrite Handler_guarded by done.
    assert (∀ s', same_data s s' ∧ s_sessions s' ⊆ s_sessions s →
       same_data s s' ∧ unauthorized = unauthorized ∧ s_sessions s' ⊆ s_sessions s) as Hw by naive_solver.
    assert (same_data s (if decide (request_token r = "") then s else snd (validate (e_now e) (request_token r) s)) ∧
      s_sessions (if decide (request_token r = "") then s else snd (validate (e_now e) (request_token r) s))
        ⊆ s_sessions s) as Hd.
    { case_decide; [done|]. destruct (validate _ _ s) as [b s'] eqn:Ev. simpl.
      destruct (validate_spec _ _ _ _ _ Ev) as [? ->]. split; [done|]. destruct b; [done|apply delete_subseteq]. }
    destruct (match_route _ _); try done; by apply Hw.
  - unfold Handler. destruct (match_route _ _); try done.
    unfold login. destruct (e_login e (rq_body r)) as [[u p]|]; [|by split; [|left]].
    destruct (s_Admins s) as [a|] eqn:Ea; [|by split; [|left]].
    destruct (adm_verify u p a) as [pub|] eqn:Ep; [|by split; [|left]].
    split; [done|]. right. exists u, p, a, pub. done.
Qed.

(** C18. A login lasts eight hours: after any requests, a token - other than the bootstrap token - is
    valid exactly if a login issued it and the last such login is at most eight hours ago. *)
Theorem session_lasts_eight_hours t iss s now tok :
  srun t iss s → t ≤ now → tok ≠ s_BootstrapToken s →
  fst (validate now tok s) = true ↔ ∃ t0, last_issue iss tok = Some t0 ∧ now ≤ t0 + 8 * Hour.
Proof.
  intros Hr Ht Hb. destruct (srun_inv _ _ _ Hr) as [I1 I2]. unfold validate, ConstantEqual.
  rewrite (bool_decide_eq_false_2 (tok = _)), andb_false_r by done. unfold valid.
  destruct (s_sessions s !! tok) as [en|] eqn:E.
  - destruct (I1 _ _ E) as (t0 & Hl & Hexp). unfold Add, sessionTTL in Hexp.
    destruct (Z.ltb_spec (se_exp en) now); simpl; split; try done.
    + intros (t1 & Hl1 & ?). rewrite Hl in Hl1. injection Hl1 as <-. lia.
    + intros _. exists t0. split; [done|lia].
  - simpl. split; [done|]. intros (t0 & Hl & Hle). specialize (I2 _ _ Hl E). unfold Add, sessionTTL in I2. lia.
Qed.

(** Sessions with other roles are as valid as before. *)
Lemma authorized_roles e r s (g : sessionEntry → sessionEntry) :
  (∀ en, se_exp (g en) = se_exp en) → authorized e r (s <| s_sessions ::= fmap g |>) = authorized e r s.
Proof.
  intros Hg. unfold authorized, validate, valid. simpl. f_equal. case_match; [done|].
  rewrite lookup_fmap. destruct (s_sessions s !! request_token r) as [en|]; [|done]. simpl. rewrite Hg.
  by destruct (se_exp en <? e_now e).
Qed.

Lemma RequireToken_roles e r next s (g : sessionEntry → sessionEntry) :
  (∀ en, se_exp (g en) = se_exp en) →
  (let s1 := s <| s_sessions ::= fmap g |> in fst (next s1) = fst (next s) ∧ s_Users (snd (next s1)) = s_Users (snd (next s))) →
  let s1 := s <| s_sessions ::= fmap g |> in
  fst (RequireToken e r next s1) = fst (RequireToken e r next s) ∧
  s_Users (snd (RequireToken e r next s1)) = s_Users (snd (RequireToken e r next s)).
Proof.
  intros Hg Hn s1. rewrite !RequireToken_spec. unfold s1. rewrite authorized_roles by done.
  destruct (authorized e r s); [exact Hn|]. split; [done|]. case_decide; [done|].
  destruct (validate _ _ s) as [b s'] eqn:E1. fold s1. destruct (validate _ _ s1) as [b2 s2] eqn:E2. simpl.
  destruct (validate_spec _ _ _ _ _ E1) as [(-> & _) _]. by destruct (validate_spec _ _ _ _ _ E2) as [(-> & _) _].
Qed.

(** The role of an administrator has no effect: replacing the roles of all sessions changes no
    answer and no effect of any request, so a session of the role [readonly] creates, changes and
    deletes users like any other. *)
Theorem role_is_ignored e np r s (f : string → string) :
  let s1 := s <| s_sessions ::= fmap (λ en, mkEntry (f (se_role en)) (se_exp en)) |> in
  fst (Handler e np r s1) = fst (Handler e np r s) ∧
  s_Users (snd (Handler e np r s1)) = s_Users (snd (Handler e np r s)).
Proof.
  unfold Handler. destruct (match_route (rq_method r) (rq_path r)); try done;
    try (apply RequireToken_roles; [done|];
         unfold listUsers, createUser, getUser, updateUser, deleteUser, listNodes, getNode, listSessions, qosExits,
           qosSessions, qosHistory, listRegions, events; simpl; repeat case_match; simplify_eq; done).
  unfold login. simpl. repeat case_match; simplify_eq; done.
Qed.

(** The token shown on the creation of a user works: if an authorised request creates a user,
    the token in the answer - the one supplied or, if none was, the random one - authenticates at once
    as that user, subject to the user's status and regions only. *)
Theorem created_token_works e np r s inp u token s' region :
  wf (s_Users s) → byID (s_Users s) !! e_newID e = None → e_rand e ≠ [] → (∀ k c, c ≠ "" → hmac k c ≠ "") →
  match_route (rq_method r) (rq_path r) = RCreateUser → e_create e (rq_body r) = Some inp →
  Handler e np r s = (mkResponse 201 (BCreated u token), s') →
  authorized e r s = true ∧ token = (if decide (uc_Credential inp = "") then hex (e_rand e) else uc_Credential inp) ∧
  AuthenticateForRegion hmac token region (s_Users s') = check_policy u region ∧
  u_Username u = uc_Username inp.
Proof.
  intros W Hid Hr Hh Hm Hc HH. unfold Handler in HH. rewrite Hm, RequireToken_spec in HH.
  destruct (authorized e r s); [|by apply (f_equal (λ x, rs_code (fst x))) in HH]. split; [done|].
  unfold createUser, randomToken in HH. rewrite Hc in HH.
  set (cred := if decide (uc_Credential inp = "") then hex (e_rand e) else uc_Credential inp) in *.
  assert (cred ≠ "") as Hne.
  { unfold cred. case_decide; [|done]. unfold hex. by destruct (e_rand e). }
  set (inp' := mkUserCreate (uc_Username inp) cred (uc_AllowedRegions inp) (uc_Status inp)) in *.
  destruct (UserStore.Create hmac (e_os e) (e_newID e) (e_now e) inp' (s_Users s)) as [[u'|err] t] eqn:EC;
    [|destruct err; by apply (f_equal (λ x, rs_code (fst x))) in HH].
  apply pair_equal_spec in HH as [[= <- <-] <-]. split; [done|].
  destruct (Create_authenticates hmac (e_os e) (e_newID e) (e_now e) inp' (s_Users s) u' t region W Hid Hne (Hh _ _ Hne) EC)
    as (Ha & _ & Hu & _). by split.
Qed.
End server.

(** ** A concrete server: one administrator, one user, one login *)

Definition demo_query (k : string) : string := "".
Definition demo_env (now : Time) (rand : list byte) : env :=
  mkEnv now rand "id-9" demo_os (λ _, Some ("root", "pw")%string) (λ _, Some (mkUserCreate "carol" "" ["eu"%string] ""))
    (λ _, None) (λ _, mkResponse 404 BEmpty).
Definition no_nodes : NodeProvider := mkNodes [] [].
Definition post (p : list string) (auth : string) : request := mkRequest "POST" p auth demo_query [].

(** An admin store that knows one password. *)
Definition root_verify (u p : string) (_ : unit) : result admin_error Public :=
  if decide (p = "pw") then Ok (mkPublic u "readonly") else Err ErrBadCreds.

Lemma root_errors u p s e : root_verify u p s = Err e → e = ErrBadCreds ∨ ∃ msg, e = ErrIO msg.
Proof. unfold root_verify. case_decide; intros [=]; by left. Qed.

Definition only_root : AdminRegistry unit := {| adm_verify := root_verify; adm_errors := root_errors |}.
#[local] Existing Instance only_root.

Definition demo_server : Server (S := list QoS.Event) (A := unit) := mkServer demo_table (Some tt) NewBus None "" ∅.
Definition logged : Server (S := list QoS.Event) (A := unit) :=
  snd (Handler demo_hmac (demo_env 100 [x0a; x0b]) no_nodes (post ["api"; "v1"; "admin"; "login"] "") demo_server).

Lemma api_is_guarded_witness :
  let '(resp, s') := Handler demo_hmac (demo_env 100 [x0c]) no_nodes (post ["api"; "v1"; "users"] "Bearer nope") logged in
  same_data logged s' ∧ resp = unauthorized ∧ s_sessions s' ⊆ s_sessions logged.
Proof.
  exact (api_is_guarded demo_hmac (demo_env 100 [x0c]) no_nodes (post ["api"; "v1"; "users"] "Bearer nope") logged eq_refl).
Defined.

Lemma logged_run : srun demo_hmac 100 [("0a0b"%string, 100)] logged.
Proof.
  assert (50 ≤ 100) as Ht by lia.
  exact (sr_request demo_hmac 50 [] demo_server (demo_env 100 [x0a; x0b]) no_nodes (post ["api"; "v1"; "admin"; "login"] "")
           (sr_start demo_hmac 50 demo_server eq_refl) Ht).
Qed.

Lemma session_lasts_eight_hours_witness :
  fst (validate (100 + 8 * Hour) "0a0b" logged) = true ↔
  ∃ t0, last_issue [("0a0b"%string, 100)] "0a0b" = Some t0 ∧ 100 + 8 * Hour ≤ t0 + 8 * Hour.
Proof.
  apply (session_lasts_eight_hours demo_hmac 100 [("0a0b"%string, 100)] logged (100 + 8 * Hour) "0a0b" logged_run);
    [unfold Hour, GoTime.Minute, GoTime.Second; lia|done].
Defined.

(** The login of a read-only administrator creates a user. *)
Definition created_by_readonly : response * Server (S := list QoS.Event) (A := unit) :=
  Handler demo_hmac (demo_env 200 [xab; xcd]) no_nodes (post ["api"; "v1"; "users"] "Bearer 0a0b") logged.

Definition carol : User := mkUser "id-9" "carol" ["eu"%string] "enabled" 0 200 200.

Lemma created_token_works_witness :
  authorized (demo_env 200 [xab; xcd]) (post ["api"; "v1"; "users"] "Bearer 0a0b") logged = true ∧
  "abcd"%string = (if decide (uc_Credential (mkUserCreate "carol" "" ["eu"%string] "") = "")
                   then hex [xab; xcd] else uc_Credential (mkUserCreate "carol" "" ["eu"%string] "")) ∧
  AuthenticateForRegion demo_hmac "abcd" "eu" (s_Users (snd created_by_readonly)) = check_policy carol "eu" ∧
  u_Username carol = uc_Username (mkUserCreate "carol" "" ["eu"%string] "").
Proof.
  apply (created_token_works demo_hmac (demo_env 200 [xab; xcd]) no_nodes (post ["api"; "v1"; "users"] "Bearer 0a0b") logged
           (mkUserCreate "carol" "" ["eu"%string] "") carol "abcd" (snd created_by_readonly) "eu").
  - apply demo_wf.
  - vm_compute. reflexivity.
  - done.
  - intros k c Hc. unfold demo_hmac. by destruct k.
  - reflexivity.
  - reflexivity.
  - vm_compute. reflexivity.
Defined.
