(* ===== verification/Sse.v ===== *)
(** * internal/adminserver: the stream of events

    The handler [events] after the router: it subscribes to the bus, writes a snapshot and then what
    its channel delivers, as Server-Sent Events, until the request ends or a write fails.  The handler
    is cut where it waits - at its subscription, at the snapshot, at each select - and runs interleaved
    with every other use of the bus ([run]).  The response writer of net/http is behind the class
    [ResponseWriter]; [sse_decode] is the parser of a browser's EventSource. *)
From Stdlib Require Import Strings.Ascii.
From S2P Require Import Prelude GoTime Strs AdminAPI Events AdminServer.

Open Scope Z_scope.

(** ** The response writer *)

(** [written] are the bytes accepted so far, [flushed] those that were sent to the client. *)
Class ResponseWriter (W : Type) := {
  Write : string → W → bool * W;
  Flush : W → W;
  written : W → string;
  flushed : W → string
}.

(** io.Writer: a write that fails has taken a prefix of its data; Flush sends what was buffered. *)
Class ResponseWriterLaws (W : Type) `{ResponseWriter W} := {
  Write_ok p w w' : Write p w = (true, w') → written w' = written w +:+ p;
  Write_err p w w' : Write p w = (false, w') → ∃ p1 p2, p = p1 +:+ p2 ∧ written w' = written w +:+ p1;
  Flush_written w : written (Flush w) = written w;
  Flush_flushed w : flushed (Flush w) = written w
}.

Definition nl : ascii := "010"%char.
Definition blank_line : string := String nl (String nl "").

(** The bus, with what was published to and received from each of its channels. *)
Notation feed := (Bus (Event := AdminAPI.Event) * trace (Event := AdminAPI.Event))%type.
Notation bus_call := (call (Event := AdminAPI.Event)).

(** ** The client's parser *)

Definition drop_space (v : string) : string := match v with String " " v => v | _ => v end.

(** A line of the form [field: value]; a line without a colon is a field without a value. *)
Definition data_field (line : string) : option string :=
  match cut_on ":" line with
  | Some (f, v) => if decide (f = "data") then Some (drop_space v) else None
  | None => if decide (line = "data") then Some "" else None
  end.

(** [buf] is the data collected since the last message; the last line is incomplete. *)
Fixpoint sse_lines (buf : option string) (ls : list string) : list string :=
  match ls with
  | [] | [_] => []
  | line :: ls =>
      if decide (line = "") then match buf with Some d => d :: sse_lines None ls | None => sse_lines None ls end
      else match data_field line with
           | Some v => sse_lines (Some (match buf with Some d => d +:+ String nl v | None => v end)) ls
           | None => sse_lines buf ls
           end
  end.

(** The messages of a stream whose lines end in line feeds. *)
Definition sse_decode (s : string) : list string := sse_lines None (split_on nl s).

Section sse.
Context {W : Type} `{ResponseWriter W}.
Context (marshal : AdminAPI.Event → option string).

Definition writeSSE (ev : AdminAPI.Event) (w : W) : bool * W :=
  match marshal ev with
  | None => (true, w)
  | Some b =>
      match Write "data: " w with
      | (false, w) => (false, w)
      | (true, w) =>
          match Write b w with
          | (false, w) => (false, w)
          | (true, w) =>
              match Write blank_line w with
              | (false, w) => (false, w)
              | (true, w) => (true, Flush w)
              end
          end
      end
  end.

(** ** The handler *)

Inductive phase :=
| PStart
| PRefused (r : response)
| PSubscribed (id : Z)
| PStreaming (id : Z)
| PReturned (id : Z).

Record stream := mkStream { st_phase : phase; st_w : W }.
Record sys := mkSys { sy_bus : feed; sy_stream : stream }.

(** The channel of a subscription is known to its handler only. *)
Definition private (c : bus_call) (ph : phase) : bool :=
  match c, ph with
  | CUnsubscribe i, (PSubscribed id | PStreaming id | PReturned id) => bool_decide (i = id)
  | CReceive i, (PSubscribed id | PStreaming id | PReturned id) => bool_decide (i = id)
  | _, _ => false
  end.

(** A return of the handler runs the deferred [cancel]. *)
Definition events_return (id : Z) (bt : feed) (w : W) : option sys :=
  bt ← exec (CUnsubscribe id) bt; Some (mkSys bt (mkStream (PReturned id) w)).

Definition events_subscribe (flusher : bool) (bt : feed) (w : W) : option sys :=
  if flusher then
    let id := fst (Subscribe (fst bt)) in
    bt ← exec CSubscribe bt; Some (mkSys bt (mkStream (PSubscribed id) w))
  else Some (mkSys bt (mkStream (PRefused (writeErr 500 "internal" "streaming unsupported")) w)).

Definition events_snapshot (now : Time) (np : NodeProvider) (id : Z) (bt : feed) (w : W) : option sys :=
  match writeSSE (snapshot_event now np) w with
  | (true, w) => Some (mkSys bt (mkStream (PStreaming id) w))
  | (false, w) => events_return id bt w
  end.

(** One select: [done] if the end of the request is chosen; otherwise a receive, which may block. *)
Definition events_select (done : bool) (id : Z) (bt : feed) (w : W) : option sys :=
  if done then events_return id bt w
  else match receive id (fst bt) with
       | None => Some (mkSys bt (mkStream (PStreaming id) w))
       | Some (None, _) => events_return id bt w
       | Some (Some ev, _) =>
           bt ← exec (CReceive id) bt;
           match writeSSE ev w with
           | (true, w) => Some (mkSys bt (mkStream (PStreaming id) w))
           | (false, w) => events_return id bt w
           end
       end.

Inductive label := LBus (c : bus_call) | LStart (flusher : bool) | LSnapshot | LSelect (done : bool).

(** [None] is a panic of the bus; a label that is not enabled changes nothing. *)
Definition step (now : Time) (np : NodeProvider) (l : label) (s : sys) : option sys :=
  let '(mkSys bt (mkStream ph w)) := s in
  match l, ph with
  | LBus c, _ => if private c ph then Some s else bt ← exec c bt; Some (mkSys bt (mkStream ph w))
  | LStart flusher, PStart => events_subscribe flusher bt w
  | LSnapshot, PSubscribed id => events_snapshot now np id bt w
  | LSelect done, PStreaming id => events_select done id bt w
  | _, _ => Some s
  end.

Definition run (now : Time) (np : NodeProvider) (w0 : W) (ls : list label) : option sys :=
  foldl (λ s l, s ≫= step now np l)
    (Some (mkSys (NewBus, mkTrace (λ _, []) (λ _, [])) (mkStream PStart w0))) ls.
End sse.

(** ** Framing *)

Definition frame (b : string) : string := "data: " +:+ b +:+ blank_line.
Definition frames (bs : list string) : string := foldr (λ b s, frame b +:+ s) "" bs.

Lemma frames_app bs1 bs2 : frames (bs1 ++ bs2) = frames bs1 +:+ frames bs2.
Proof. induction bs1 as [|b bs IH]; simpl; [done|]. by rewrite IH, app_string_assoc. Qed.

Lemma frames_snoc bs b : frames (bs ++ [b]) = frames bs +:+ frame b.
Proof. rewrite frames_app. simpl. by rewrite app_string_nil_r. Qed.

Lemma decode_frame b s : lacks nl b = true → sse_decode (frame b +:+ s) = b :: sse_decode s.
Proof.
  intros Hb. unfold sse_decode, frame.
  assert (("data: " +:+ b +:+ blank_line) +:+ s = ("data: " +:+ b) +:+ String nl ("" +:+ String nl s)) as ->
    by (rewrite !app_string_assoc; done).
  rewrite split_on_app by done. rewrite split_on_app by done.
  destruct (split_on nl s) eqn:E; [by destruct s; simpl in E; repeat case_match|]. done.
Qed.

Lemma decode_frames bs s : Forall (λ b, lacks nl b = true) bs → sse_decode (frames bs +:+ s) = bs ++ sse_decode s.
Proof.
  induction 1 as [|b bs Hb _ IH]; [done|]. simpl. by rewrite app_string_assoc, decode_frame, IH.
Qed.

(** What is left of a frame that was cut is no message, unless nothing was cut. *)
Lemma decode_cut b p1 p2 : lacks nl b = true → frame b = p1 +:+ p2 → sse_decode p1 = [] ∨ sse_decode p1 = [b].
Proof.
  intros Hb. unfold frame. rewrite <- app_string_assoc. intros [(r & Hr & _)|(r & -> & Hr)]%app_string_eq_app.
  - left. unfold sse_decode. rewrite split_on_lacks; [done|].
    assert (lacks nl ("data: " +:+ b) = true) as Hl by done. rewrite Hr in Hl. unfold lacks in *.
    rewrite string_forall_app in Hl. by apply andb_true_iff in Hl as [? _].
  - destruct r as [|c1 [|c2 [|c3 r]]].
    + left. unfold sse_decode. rewrite app_string_nil_r. by rewrite split_on_lacks.
    + left. injection Hr as <- _. unfold sse_decode. by rewrite split_on_app.
    + right. injection Hr as <- <- _. pose proof (decode_frame b "" Hb) as E. unfold frame in E.
      by rewrite app_string_nil_r, <- app_string_assoc in E.
    + done.
Qed.

(** ** The bus under other users *)

(** What others do leaves a subscription and what was received from it alone. *)
Lemma exec_others (c : bus_call) id b t b' t' :
  Events.inv (b, t) → exec c (b, t) = Some (b', t') → is_Some (chans b !! id) →
  c ≠ CUnsubscribe id → c ≠ CReceive id →
  is_Some (chans b' !! id) ∧ (id ∈ subs b' ↔ id ∈ subs b) ∧ got t' id = got t id.
Proof.
  intros I E Hid Hu Hr. pose proof (in_next _ I id Hid) as Hn. simpl in Hn. destruct c as [|i|ev|i]; simpl in E.
  - simplify_eq/=. rewrite lookup_insert_ne by lia. set_solver by lia.
  - assert (i ≠ id) by congruence. unfold unsubscribe in E. repeat case_match; simplify_eq/=; [|done].
    rewrite lookup_insert_ne by done. set_solver.
  - destruct (publish_spec ev b (in_subs _ I)) as (cs & E' & Hcs). rewrite E' in E. simplify_eq/=.
    rewrite Hcs. split; [|done]. case_decide; [by rewrite fmap_is_Some|done].
  - assert (i ≠ id) by congruence. unfold receive in E. repeat case_match; simplify_eq/=; try done.
    by rewrite lookup_insert_ne, decide_False, app_nil_r by done.
Qed.

(** A subscription starts empty. *)
Lemma exec_subscribe (bt bt' : feed) :
  Events.inv bt → exec CSubscribe bt = Some bt' →
  let id := fst (Subscribe (fst bt)) in
  id ∈ subs (fst bt') ∧ is_Some (chans (fst bt') !! id) ∧ got (snd bt') id = [].
Proof.
  destruct bt as [b t]. intros I E. simplify_eq/=. rewrite lookup_insert_eq. split_and!; [set_solver|done|].
  apply (in_fresh _ I). simpl. apply eq_None_not_Some. intros Hid%(in_next _ I). simpl in Hid. lia.
Qed.

(** The end of a subscription; what was received stays. *)
Lemma exec_unsubscribe id (bt bt' : feed) :
  Events.inv bt → exec (CUnsubscribe id) bt = Some bt' → is_Some (chans (fst bt) !! id) →
  id ∉ subs (fst bt') ∧ is_Some (chans (fst bt') !! id) ∧ got (snd bt') id = got (snd bt) id.
Proof.
  destruct bt as [b t]. intros I E Hid. simpl in E. unfold unsubscribe in E.
  repeat case_match; simplify_eq/=; [|done]. rewrite lookup_insert_eq. split_and!; [set_solver|done|done].
Qed.

Lemma exec_receive id ev (bt bt' : feed) b' :
  receive id (fst bt) = Some (Some ev, b') → exec (CReceive id) bt = Some bt' →
  subs (fst bt') = subs (fst bt) ∧ is_Some (chans (fst bt') !! id) ∧ got (snd bt') id = got (snd bt) id ++ [ev].
Proof.
  destruct bt as [b t]. simpl. intros E1 E2. rewrite E1 in E2. simplify_eq/=. unfold receive in E1.
  repeat case_match; simplify_eq/=. by rewrite lookup_insert_eq.
Qed.

(** ** The invariant of a stream *)

Section inv.
Context {W : Type} `{ResponseWriterLaws W} (marshal : AdminAPI.Event → option string).
Context (marshal_one_line : ∀ ev b, marshal ev = Some b → lacks nl b = true).

Lemma marshal_all_one_line evs : Forall (λ b, lacks nl b = true) (omap marshal evs).
Proof. apply Forall_forall. intros b (ev & _ & E)%list_elem_of_omap. eauto. Qed.

(** [w] holds whole frames for a prefix of [msgs] and at most a cut one of the next. *)
Definition holds_prefix (w : W) (msgs : list string) : Prop :=
  ∃ bs b rest p1 p2, msgs = bs ++ b :: rest ∧ written w = frames bs +:+ p1 ∧ frame b = p1 +:+ p2.

Lemma writeSSE_spec ev (w w' : W) ok msgs :
  written w = frames msgs → writeSSE marshal ev w = (ok, w') →
  if ok then written w' = frames (msgs ++ omap marshal [ev]) ∧ (flushed w = written w → flushed w' = written w')
  else holds_prefix w' (msgs ++ omap marshal [ev]).
Proof.
  intros Hw E. unfold writeSSE in E. simpl. destruct (marshal ev) as [b|]; [|by simplify_eq; rewrite app_nil_r].
  destruct (Write "data: " w) as [[] w1] eqn:E1.
  2: { simplify_eq. apply Write_err in E1 as (p1 & p2 & E1 & Hw1). exists msgs, b, [], p1, (p2 +:+ b +:+ blank_line).
       rewrite Hw1, Hw, <- app_string_assoc, <- E1. done. }
  apply Write_ok in E1. destruct (Write b w1) as [[] w2] eqn:E2.
  2: { simplify_eq. apply Write_err in E2 as (p1 & p2 & E2 & Hw1).
       exists msgs, b, [], ("data: " +:+ p1), (p2 +:+ blank_line).
       rewrite Hw1, E1, Hw. unfold frame. rewrite E2, !app_string_assoc. done. }
  apply Write_ok in E2. destruct (Write blank_line w2) as [[] w3] eqn:E3.
  2: { simplify_eq. apply Write_err in E3 as (p1 & p2 & E3 & Hw1).
       exists msgs, b, [], ("data: " +:+ b +:+ p1), p2. unfold frame.
       rewrite Hw1, E2, E1, Hw, E3, !app_string_assoc. done. }
  apply Write_ok in E3. simplify_eq. rewrite Flush_written, Flush_flushed. split; [|done].
  rewrite frames_snoc, E3, E2, E1, Hw. unfold frame. by rewrite !app_string_assoc.
Qed.

Lemma holds_prefix_decode (w : W) msgs :
  Forall (λ b, lacks nl b = true) msgs → holds_prefix w msgs → sse_decode (written w) `prefix_of` msgs.
Proof.
  intros Hm (bs & b & rest & p1 & p2 & -> & -> & Hf). apply Forall_app in Hm as [Hbs [Hb _]%Forall_cons].
  rewrite decode_frames by done. destruct (decode_cut b p1 p2 Hb Hf) as [-> | ->].
  - rewrite app_nil_r. by apply prefix_app_r.
  - exists rest. by rewrite <- app_assoc.
Qed.

Context (now : Time) (np : NodeProvider).

(** The messages due to a client that received [evs] of its channel. *)
Definition messages (evs : list AdminAPI.Event) : list string := omap marshal (snapshot_event now np :: evs).

Definition sent (w : W) (msgs : list string) : Prop := written w = frames msgs ∧ flushed w = written w.

Definition phase_ok (bt : feed) (w : W) (ph : phase) : Prop :=
  match ph with
  | PStart | PRefused _ => sent w []
  | PSubscribed id => id ∈ subs (fst bt) ∧ is_Some (chans (fst bt) !! id) ∧ got (snd bt) id = [] ∧ sent w []
  | PStreaming id => id ∈ subs (fst bt) ∧ is_Some (chans (fst bt) !! id) ∧ sent w (messages (got (snd bt) id))
  | PReturned id => id ∉ subs (fst bt) ∧ is_Some (chans (fst bt) !! id) ∧
      (sent w (messages (got (snd bt) id)) ∨ holds_prefix w (messages (got (snd bt) id)))
  end.
Definition good (s : sys) : Prop :=
  Events.inv (sy_bus s) ∧ phase_ok (sy_bus s) (st_w (sy_stream s)) (st_phase (sy_stream s)).

Lemma messages_snoc evs ev : messages (evs ++ [ev]) = messages evs ++ omap marshal [ev].
Proof. unfold messages. by rewrite app_comm_cons, omap_app. Qed.

Lemma writeSSE_sent ev (w w' : W) ok msgs :
  sent w msgs → writeSSE marshal ev w = (ok, w') →
  if ok then sent w' (msgs ++ omap marshal [ev]) else holds_prefix w' (msgs ++ omap marshal [ev]).
Proof.
  intros [Hw Hf] E. pose proof (writeSSE_spec ev w w' ok msgs Hw E) as Hs.
  destruct ok; [|done]. destruct Hs as [? Hs]. split; auto.
Qed.

Lemma return_good id (bt : feed) (w : W) :
  Events.inv bt → is_Some (chans (fst bt) !! id) →
  sent w (messages (got (snd bt) id)) ∨ holds_prefix w (messages (got (snd bt) id)) →
  ∃ s, events_return id bt w = Some s ∧ good s.
Proof.
  intros I Hid Hs. unfold events_return. destruct (exec_inv (CUnsubscribe id) bt I) as (bt' & E & I').
  rewrite E. destruct (exec_unsubscribe id bt bt' I E Hid) as (? & ? & Hg).
  eexists. split; [done|]. split; [done|]. simpl. by rewrite Hg.
Qed.

Lemma subscribe_good flusher (bt : feed) (w : W) :
  Events.inv bt → sent w [] → ∃ s, events_subscribe flusher bt w = Some s ∧ good s.
Proof.
  intros I Hs. destruct flusher; [|by eexists]. unfold events_subscribe.
  destruct (exec_inv CSubscribe bt I) as (bt' & E & I'). rewrite E.
  eexists. split; [done|]. split; [done|]. destruct (exec_subscribe bt bt' I E) as (? & ? & ?). done.
Qed.

Lemma snapshot_good id (bt : feed) (w : W) :
  good (mkSys bt (mkStream (PSubscribed id) w)) → ∃ s, events_snapshot marshal now np id bt w = Some s ∧ good s.
Proof.
  intros [I (Hin & Hid & Hg & Hs)]; simpl in *. unfold events_snapshot.
  destruct (writeSSE _ _ w) as [ok w'] eqn:E. apply (writeSSE_sent _ w w' ok []) in E; [|done].
  destruct ok; [|apply return_good; [done..|]; rewrite Hg; by right].
  eexists. split; [done|]. split; [done|]. simpl. by rewrite Hg.
Qed.

Lemma select_good done id (bt : feed) (w : W) :
  good (mkSys bt (mkStream (PStreaming id) w)) → ∃ s, events_select marshal done id bt w = Some s ∧ good s.
Proof.
  intros G. pose proof G as [I (Hin & Hid & Hs)]; simpl in *. unfold events_select.
  destruct done; [auto using return_good|].
  destruct (receive id (fst bt)) as [[[ev|] b']|] eqn:Er; [|auto using return_good|eauto].
  destruct (exec_inv (CReceive id) bt I) as (bt' & E & I'). rewrite E. simpl.
  destruct (exec_receive id ev bt bt' b' Er E) as (Hsub & Hid' & Hg).
  destruct (writeSSE _ _ w) as [ok w'] eqn:Ew. apply (writeSSE_sent _ w w' ok _ Hs) in Ew.
  rewrite <- messages_snoc, <- Hg in Ew. destruct ok; [|by apply return_good; [..|right]].
  eexists. split; [done|]. split; [done|]. simpl. by rewrite Hsub.
Qed.

(** What others do to the bus does not concern the stream. *)
Lemma others_good c (bt : feed) ph (w : W) :
  good (mkSys bt (mkStream ph w)) → private c ph = false →
  ∃ bt', exec c bt = Some bt' ∧ good (mkSys bt' (mkStream ph w)).
Proof.
  intros [I Hp] Hc; simpl in *. destruct (exec_inv c bt I) as (bt' & E & I'). exists bt'. split; [done|]. split; [done|].
  destruct bt as [b t], bt' as [b' t']. simpl in *.
  assert (∀ id, ph = PSubscribed id ∨ ph = PStreaming id ∨ ph = PReturned id → is_Some (chans b !! id) →
    is_Some (chans b' !! id) ∧ (id ∈ subs b' ↔ id ∈ subs b) ∧ got t' id = got t id) as Ho.
  { intros id Hph Hid. apply (exec_others c id b t b' t' I E Hid); intros ->; simpl in Hc;
      destruct Hph as [-> | [-> | ->]]; by rewrite bool_decide_true in Hc. }
  destruct ph as [| |id|id|id]; simpl in *; try done; destruct (Ho id) as (? & Hsub & Hg);
    try (by left + (right; left) + (right; right)); try (by tauto); rewrite Hsub, Hg; tauto.
Qed.

Lemma step_good l s : good s → ∃ s', step marshal now np l s = Some s' ∧ good s'.
Proof.
  destruct s as [bt [ph w]]. intros G. destruct l as [c|flusher| |fin]; simpl.
  - destruct (private c ph) eqn:Hc; [by eexists|].
    destruct (others_good c bt ph w G Hc) as (bt' & -> & G'). by eexists.
  - destruct ph; try (by eexists). destruct G. by apply subscribe_good.
  - destruct ph; try (by eexists). by apply snapshot_good.
  - destruct ph; try (by eexists). by apply select_good.
Qed.

Lemma run_good w0 ls : sent w0 [] → ∃ s, run marshal now np w0 ls = Some s ∧ good s.
Proof.
  intros Hw. unfold run. destruct (exec_all_inv (Event := AdminAPI.Event) []) as (bt & [= <-] & I).
  assert (good (mkSys (NewBus, mkTrace (λ _, []) (λ _, [])) (mkStream PStart w0))) as G by done.
  revert G. generalize (mkSys (NewBus, mkTrace (λ _ : Z, @nil AdminAPI.Event) (λ _ : Z, @nil AdminAPI.Event)) (mkStream PStart w0)) as s.
  induction ls as [|l ls IH]; intros s G; [by exists s|].
  destruct (step_good l s G) as (s' & E & G'). simpl. rewrite E. by apply IH.
Qed.

(** ** Properties *)

(** C35. The admin's live feed is whole and in order, whatever else happens on the bus: for every
    interleaving of the handler with publications and with other subscribers, no call panics; while the
    stream is open the client has been sent - flushed, not only buffered - the snapshot and then
    exactly the events taken from its channel, one message each, and these with those still waiting are
    the events published since the subscription, which precedes the snapshot (in order, and all of them
    up to 64); once the handler has returned, for a failed write too, its subscription is gone and the
    client read a prefix of these messages - never a part of one. *)
Theorem feed_is_whole w0 ls :
  written w0 = "" → flushed w0 = "" →
  ∃ b t st, run marshal now np w0 ls = Some (mkSys (b, t) st) ∧
    match st_phase st with
    | PStreaming id =>
        sse_decode (flushed (st_w st)) = omap marshal (snapshot_event now np :: got t id) ∧
        ∃ c, chans b !! id = Some c ∧ got t id ++ ch_buf c `sublist_of` offered t id ∧
          ((length (offered t id) ≤ 64)%nat → got t id ++ ch_buf c = offered t id)
    | PReturned id =>
        id ∉ subs b ∧ sse_decode (written (st_w st)) `prefix_of` omap marshal (snapshot_event now np :: got t id)
    | _ => sse_decode (written (st_w st)) = []
    end.
Proof.
  intros Hw Hf. destruct (run_good w0 ls) as ([[b t] [ph w]] & E & I & Hp).
  { by split; [|rewrite Hw, Hf]. }
  exists b, t, (mkStream ph w). split; [done|]. simpl in *.
  assert (∀ msgs, sent w msgs → Forall (λ m, lacks nl m = true) msgs → sse_decode (written w) = msgs) as Hd.
  { intros msgs [-> _] Hm. rewrite <- (app_string_nil_r (frames msgs)), decode_frames by done. apply app_nil_r. }
  destruct ph as [| |id|id|id]; simpl in Hp; try (apply Hd; [tauto|done]).
  - destruct Hp as (_ & [c Hc] & Hs). split; [destruct (Hs) as [_ ->]; apply Hd; [done|apply (marshal_all_one_line (_ :: _))]|].
    exists c. split; [done|]. split; [exact (in_sub _ I id c Hc)|exact (in_all _ I id c Hc)].
  - destruct Hp as (Hn & _ & Hs). split; [done|]. destruct Hs as [Hs|Hs].
    + by rewrite (Hd _ Hs) by apply (marshal_all_one_line (_ :: _)).
    + apply holds_prefix_decode; [apply (marshal_all_one_line (_ :: _))|done].
Qed.
End inv.

(** ** A connection that takes a number of bytes *)

Record limited := mkLimited { lm_written : string; lm_flushed : string; lm_left : nat }.

#[export] Instance limited_writer : ResponseWriter limited := {
  Write p w := if decide (String.length p ≤ lm_left w)%nat
               then (true, mkLimited (lm_written w +:+ p) (lm_flushed w) (lm_left w - String.length p))
               else (false, w);
  Flush w := mkLimited (lm_written w) (lm_written w) (lm_left w);
  written := lm_written;
  flushed := lm_flushed
}.
#[export] Instance limited_laws : ResponseWriterLaws limited.
Proof.
  split; simpl; try done.
  - intros p w w' E. case_decide; by simplify_eq.
  - intros p w w' E. case_decide; simplify_eq. exists "", p. by rewrite app_string_nil_r.
Qed.

Definition demo_marshal (ev : AdminAPI.Event) : option string :=
  Some (match ev_Type ev with EvSnapshot => "{snapshot}" | EvSessionStarted => "{started}" | _ => "{other}" end).
Definition demo_nodes : NodeProvider := mkNodes [] [].
Definition demo_event : AdminAPI.Event := AdminAPI.mkEvent EvSessionStarted 0 None None "" None.
Definition demo_labels : list label :=
  [LStart true; LBus (CPublish demo_event); LSnapshot; LBus CSubscribe; LSelect false; LBus (CPublish demo_event)].

(** The event published between the subscription and the snapshot is not lost. *)
Example feed_example :
  (λ s, sse_decode (flushed (st_w (sy_stream s)))) <$> run demo_marshal 0 demo_nodes (mkLimited "" "" 100) demo_labels =
  Some ["{snapshot}"; "{started}"].
Proof. vm_compute. reflexivity. Qed.

Lemma demo_marshal_one_line ev b : demo_marshal ev = Some b → lacks nl b = true.
Proof. unfold demo_marshal. intros [= <-]. by destruct (ev_Type ev). Qed.

Lemma feed_is_whole_witness :
  ∃ b t st, run demo_marshal 0 demo_nodes (mkLimited "" "" 100) demo_labels = Some (mkSys (b, t) st) ∧
    match st_phase st with
    | PStreaming id =>
        sse_decode (flushed (st_w st)) = omap demo_marshal (snapshot_event 0 demo_nodes :: got t id) ∧
        ∃ c, chans b !! id = Some c ∧ got t id ++ ch_buf c `sublist_of` offered t id ∧
          ((length (offered t id) ≤ 64)%nat → got t id ++ ch_buf c = offered t id)
    | PReturned id =>
        id ∉ subs b ∧
        sse_decode (written (st_w st)) `prefix_of` omap demo_marshal (snapshot_event 0 demo_nodes :: got t id)
    | _ => sse_decode (written (st_w st)) = []
    end.
Proof. exact (feed_is_whole demo_marshal demo_marshal_one_line 0 demo_nodes (mkLimited "" "" 100) demo_labels eq_refl eq_refl). Defined.
