(* ===== verification/Conf.v ===== *)
(** * Package internal/conf: key=value configuration files

    A flag set maps names to flags; [fl_set] is the [Set] method of the flag's value: the new text of
    the value and an error (Go's numeric flags take a value even when they report one).  The names set
    on the command line are an argument. *)
From S2P Require Import Prelude Strs Scanner.
From Stdlib Require Import Strings.Ascii.

Open Scope Z_scope.

Record flag := mkFlag { fl_value : string; fl_isBool : bool; fl_set : string → string * option string }.
#[export] Instance flag_eta : Eta flag := λ f, mkFlag (fl_value f) (fl_isBool f) (fl_set f).

Notation FlagSet := (gmap string flag).

Inductive conf_error :=
| EOpen (err : string)
| EMissingKey (ln : Z)
| EUnknownKey (ln : Z) (key : string)
| ESet (ln : Z) (key err : string)
| EScan (err : string).

Definition quote : Ascii.ascii := "034"%char.
Definition apostrophe : Ascii.ascii := "039"%char.

(** The first space or tab: [strings.IndexAny(line, " \t")]. *)
Fixpoint cut_blank (s : string) : option (string * string) :=
  match s with
  | EmptyString => None
  | String a s =>
      if Ascii.eqb a " "%char || Ascii.eqb a "009"%char then Some (EmptyString, s)
      else match cut_blank s with
           | Some (l, r) => Some (String a l, r)
           | None => None
           end
  end.

Definition splitKV (line : string) : string * string :=
  match cut_on "="%char line with
  | Some kv => kv
  | None => match cut_blank line with Some kv => kv | None => (line, "") end
  end.

(** [s] without its last byte, and that byte. *)
Fixpoint split_last (s : string) : option (string * Ascii.ascii) :=
  match s with
  | EmptyString => None
  | String a s => match split_last s with
                  | Some (r, c) => Some (String a r, c)
                  | None => Some (EmptyString, a)
                  end
  end.

Definition unquote (s : string) : string :=
  match s with
  | String a r =>
      match split_last r with
      | Some (m, c) =>
          if (Ascii.eqb a quote && Ascii.eqb c quote) || (Ascii.eqb a apostrophe && Ascii.eqb c apostrophe) then m else s
      | None => s
      end
  | EmptyString => s
  end.

(** [fs.Set] *)
Definition set_flag (fs : FlagSet) (key val : string) : option string * FlagSet :=
  match fs !! key with
  | None => (Some ("no such flag -" +:+ key), fs)
  | Some fl => let '(v, err) := fl_set fl val in (err, <[key := fl <| fl_value := v |>]> fs)
  end.

(** The text a setting gives its flag: a bare key sets a boolean flag. *)
Definition setting (fl : flag) (val : string) : string :=
  if decide (val = "") then if fl_isBool fl then "true" else "" else val.

Definition apply_line (cli : gset string) (ln : Z) (text : string) (fs : FlagSet) : option conf_error * FlagSet :=
  let line := TrimSpace text in
  if bool_decide (line = "") || HasPrefix "#" line || HasPrefix ";" line then (None, fs)
  else
    let '(rawKey, rawVal) := splitKV line in
    let key := TrimSpace (TrimPrefix "-" (TrimSpace rawKey)) in
    if decide (key = "") then (Some (EMissingKey ln), fs)
    else match fs !! key with
    | None => (Some (EUnknownKey ln key), fs)
    | Some fl =>
        if decide (key ∈ cli) then (None, fs)
        else
          let val := setting fl (unquote (TrimSpace rawVal)) in
          match set_flag fs key val with
          | (Some err, fs) => (Some (ESet ln key err), fs)
          | (None, fs) => (None, fs)
          end
    end.

(** The lines of the file, numbered from [ln + 1], and the error of the scanner after the last. *)
Fixpoint apply_lines (cli : gset string) (ln : Z) (ls : list string) (scanErr : option string) (fs : FlagSet)
  : option conf_error * FlagSet :=
  match ls with
  | [] => (EScan <$> scanErr, fs)
  | l :: ls =>
      match apply_line cli (ln + 1) l fs with
      | (Some err, fs) => (Some err, fs)
      | (None, fs) => apply_lines cli (ln + 1) ls scanErr fs
      end
  end.

Definition ApplyFile (file : result string (list byte)) (cli : gset string) (fs : FlagSet) : option conf_error * FlagSet :=
  match file with
  | Err e => (Some (EOpen e), fs)
  | Ok bs => let '(ls, err) := Scan MaxScanTokenSize bs in apply_lines cli 0 (String.string_of_list_byte <$> ls) err fs
  end.

(** ** The command line wins *)

Lemma apply_line_other cli ln text fs k :
  k ∈ cli → snd (apply_line cli ln text fs) !! k = fs !! k.
Proof.
  intros Hk. unfold apply_line. destruct (_ || _ || _); [done|]. destruct (splitKV _) as [rk rv].
  case_decide; [done|]. destruct (fs !! TrimSpace _) as [fl|] eqn:E; [|done]. case_decide as Hc; [done|].
  unfold set_flag. rewrite E. destruct (fl_set fl _) as [v [e|]]; simpl; rewrite lookup_insert_ne; congruence.
Qed.

Lemma apply_lines_other cli ln ls err fs k : k ∈ cli → snd (apply_lines cli ln ls err fs) !! k = fs !! k.
Proof.
  intros Hk. revert ln fs. induction ls as [|l ls IH]; intros ln fs; [done|]. simpl.
  pose proof (apply_line_other cli (ln + 1) l fs k Hk) as E.
  destruct (apply_line cli (ln + 1) l fs) as [[e|] fs']; simpl in *; [done|]. by rewrite IH.
Qed.

(** ** Writing a file *)

(** The line [k="v"]. *)
Definition setting_line (kv : string * string) : string :=
  kv.1 +:+ String "="%char (String quote (kv.2 +:+ chr quote)).

Definition render (kvs : list (string * string)) : list byte :=
  concat ((λ kv, String.list_byte_of_string (setting_line kv) ++ [nl]) <$> kvs).

(** A key that stands for itself: not empty, no space, no equals sign, and no marker in front. *)
Definition plain_key (k : string) : bool :=
  match k with
  | String c _ => negb (Ascii.eqb c "-"%char) && negb (Ascii.eqb c "#"%char) && negb (Ascii.eqb c ";"%char)
  | EmptyString => false
  end && no_space k && lacks "="%char k.

Lemma trim_right_snoc s c : is_space c = false → trim_right (s +:+ chr c) = s +:+ chr c.
Proof.
  intros Hc. induction s as [|a s IH]; simpl; [by rewrite Hc|].
  change (trim_right (s +:+ chr c)) with (trim_right (s +:+ chr c)). rewrite IH. by destruct s.
Qed.

Lemma TrimSpace_between a s c : is_space a = false → is_space c = false → TrimSpace (String a (s +:+ chr c)) = String a (s +:+ chr c).
Proof.
  intros Ha Hc. unfold TrimSpace. simpl trim_left. rewrite Ha. apply (trim_right_snoc (String a s) c Hc).
Qed.

Lemma split_last_snoc s c : split_last (s +:+ chr c) = Some (s, c).
Proof. induction s as [|a s IH]; [done|]. simpl. change (s +:+ chr c) with (s +:+ chr c). by rewrite IH. Qed.

Lemma unquote_quoted v : unquote (String quote (v +:+ chr quote)) = v.
Proof. unfold unquote. by rewrite split_last_snoc. Qed.

Lemma CutPrefix_chr a c s : CutPrefix (chr a) (String c s) = if Ascii.eqb c a then Some s else None.
Proof. unfold chr. cbn [CutPrefix]. rewrite Ascii.eqb_sym. by destruct s. Qed.

Lemma HasPrefix_chr a c s : HasPrefix (chr a) (String c s) = Ascii.eqb c a.
Proof. unfold HasPrefix. rewrite CutPrefix_chr. by destruct (Ascii.eqb c a). Qed.

(** A quoted setting assigns its value to its key, whatever the value is. *)
Lemma apply_setting_line cli ln k v fs :
  plain_key k = true →
  apply_line cli ln (setting_line (k, v)) fs =
  match fs !! k with
  | None => (Some (EUnknownKey ln k), fs)
  | Some fl =>
      if decide (k ∈ cli) then (None, fs)
      else match set_flag fs k (setting fl v) with
           | (Some err, fs) => (Some (ESet ln k err), fs)
           | (None, fs) => (None, fs)
           end
  end.
Proof.
  unfold plain_key. destruct k as [|c k]; [done|]. intros [[Hc Hsp]%andb_true_iff Heq]%andb_true_iff.
  apply andb_true_iff in Hc as [[Hd Hh]%andb_true_iff Hsc].
  unfold apply_line, setting_line. simpl fst. simpl snd. cbv zeta.
  assert (TrimSpace (String c k +:+ String "=" (String quote (v +:+ chr quote)))
          = String c k +:+ String "=" (String quote (v +:+ chr quote))) as Ht.
  { assert (String c k +:+ String "=" (String quote (v +:+ chr quote))
            = String c ((k +:+ String "=" (String quote v)) +:+ chr quote)) as -> by (by rewrite app_string_assoc).
    apply TrimSpace_between; [|done]. unfold no_space in Hsp. simpl in Hsp.
    apply andb_true_iff in Hsp as [Hs _]. by apply negb_true_iff in Hs. }
  apply negb_true_iff in Hd, Hh, Hsc. rewrite Ht. rewrite bool_decide_eq_false_2 by done.
  change (HasPrefix "#") with (HasPrefix (chr "#")). change (HasPrefix ";") with (HasPrefix (chr ";")).
  change (String c k +:+ ?x) with (String c (k +:+ x)) at 1 2. rewrite !HasPrefix_chr, Hh, Hsc. cbn [orb].
  unfold splitKV. rewrite cut_on_app by done. rewrite (TrimSpace_no_space (String c k)) by done.
  assert (TrimPrefix "-" (String c k) = String c k) as ->.
  { unfold TrimPrefix. change (CutPrefix "-") with (CutPrefix (chr "-")). by rewrite CutPrefix_chr, Hd. }
  rewrite (TrimSpace_no_space (String c k)) by done. rewrite decide_False by done.
  assert (TrimSpace (String quote (v +:+ chr quote)) = String quote (v +:+ chr quote)) as ->
    by (by apply TrimSpace_between).
  by rewrite unquote_quoted.
Qed.

(** The value the settings give to [k]: the last one. *)
Definition last_value (kvs : list (string * string)) (k : string) : option string :=
  foldl (λ acc kv, if decide (kv.1 = k) then Some kv.2 else acc) None kvs.

Definition assigned (cli : gset string) (kvs : list (string * string)) (k : string) (fl : flag) : flag :=
  if decide (k ∈ cli) then fl
  else match last_value kvs k with Some v => fl <| fl_value := fst (fl_set fl (setting fl v)) |> | None => fl end.

(** The settings in a file that can be applied: known plain keys, values that fit on a line and that
    their flags take. *)
Definition applicable (cli : gset string) (fs : FlagSet) (kv : string * string) : Prop :=
  plain_key kv.1 = true ∧ no_newline (String.list_byte_of_string (setting_line kv)) ∧
  Z.of_nat (length (String.list_byte_of_string (setting_line kv))) < MaxScanTokenSize ∧
  ∃ fl, fs !! kv.1 = Some fl ∧ (kv.1 ∉ cli → snd (fl_set fl (setting fl kv.2)) = None).

Lemma list_byte_app s1 s2 :
  String.list_byte_of_string (s1 +:+ s2) = String.list_byte_of_string s1 ++ String.list_byte_of_string s2.
Proof.
  unfold String.list_byte_of_string. assert (String.list_ascii_of_string (s1 +:+ s2)
    = String.list_ascii_of_string s1 ++ String.list_ascii_of_string s2) as ->; [|apply map_app].
  induction s1 as [|a s1 IH]; [done|]. cbn [String.list_ascii_of_string app]. rewrite <- IH. done.
Qed.

Lemma string_of_bytes s : String.string_of_list_byte (String.list_byte_of_string s) = s.
Proof. apply String.string_of_list_byte_of_string. Qed.

Lemma scan_render cli fs kvs :
  Forall (applicable cli fs) kvs →
  Scan MaxScanTokenSize (render kvs) = (String.list_byte_of_string <$> (setting_line <$> kvs), None).
Proof.
  induction 1 as [|kv kvs (Hk & Hn & Hl & _) _ IH]; [done|].
  change (render (kv :: kvs)) with ((String.list_byte_of_string (setting_line kv) ++ [nl]) ++ render kvs).
  rewrite <- app_assoc. change ([nl] ++ ?x) with (nl :: x). rewrite Scan_line, IH by done. rewrite !fmap_cons. do 2 f_equal.
  assert (setting_line kv = (kv.1 +:+ String "=" (String quote kv.2)) +:+ chr quote) as ->
    by (by rewrite app_string_assoc).
  rewrite list_byte_app. apply dropCR_other. done.
Qed.

Lemma assigned_snoc cli kvs kv k fl :
  assigned cli (kvs ++ [kv]) k fl =
  if decide (kv.1 = k) then if decide (k ∈ cli) then fl else fl <| fl_value := fst (fl_set fl (setting fl kv.2)) |>
  else assigned cli kvs k fl.
Proof. unfold assigned, last_value. rewrite foldl_snoc. by destruct (decide (kv.1 = k)); destruct (decide (k ∈ cli)). Qed.

(** [fl_set] and the kind of a flag do not change. *)
Lemma assigned_same cli kvs k fl :
  fl_set (assigned cli kvs k fl) = fl_set fl ∧ fl_isBool (assigned cli kvs k fl) = fl_isBool fl.
Proof. unfold assigned. case_decide; [done|]. by destruct (last_value kvs k). Qed.

Lemma apply_settings cli ln done kvs fs0 :
  Forall (applicable cli fs0) kvs →
  ∃ fs', apply_lines cli ln (setting_line <$> kvs) None (map_imap (λ k fl, Some (assigned cli done k fl)) fs0) = (None, fs') ∧
         fs' = map_imap (λ k fl, Some (assigned cli (done ++ kvs) k fl)) fs0.
Proof.
  revert ln done. induction kvs as [|[k v] kvs IH]; intros ln dn Hap.
  { rewrite app_nil_r. by eexists. }
  apply Forall_cons in Hap as [(Hk & _ & _ & fl & Hfl & Hset) Hap]. simpl in Hk, Hfl, Hset.
  rewrite fmap_cons. cbn [apply_lines]. rewrite apply_setting_line by done.
  rewrite map_lookup_imap, Hfl. cbn [option_bind mbind].
  destruct (assigned_same cli dn k fl) as [Es Eb].
  assert (map_imap (λ i f, Some (assigned cli (dn ++ [(k, v)]) i f)) fs0 =
          if decide (k ∈ cli) then map_imap (λ k fl, Some (assigned cli dn k fl)) fs0
          else <[k := (assigned cli dn k fl) <| fl_value := fst (fl_set fl (setting fl v)) |>]>
                 (map_imap (λ k fl, Some (assigned cli dn k fl)) fs0)) as Hmap.
  { apply map_eq. intros j. rewrite map_lookup_imap.
    destruct (decide (k = j)) as [<-|Hne].
    - rewrite Hfl. simpl. rewrite assigned_snoc. rewrite decide_True by done.
      destruct (decide (k ∈ cli)) as [Hin|Hni].
      + rewrite map_lookup_imap, Hfl. simpl. unfold assigned. by rewrite decide_True.
      + rewrite lookup_insert_eq. unfold assigned. rewrite decide_False by done. by destruct (last_value dn k), fl.
    - destruct (decide (k ∈ cli)); [|rewrite lookup_insert_ne by done]; rewrite map_lookup_imap;
        destruct (fs0 !! j); simpl; rewrite ?assigned_snoc; by rewrite ?decide_False. }
  destruct (IH (ln + 1) (dn ++ [(k, v)]) Hap) as (fs' & Hf & ->). rewrite Hmap in Hf.
  rewrite <- app_assoc in Hf. eexists. split; [|done]. destruct (decide (k ∈ cli)) as [Hin|Hni]; [exact Hf|].
  assert (fl_set (assigned cli dn k fl) (setting (assigned cli dn k fl) v) = fl_set fl (setting fl v)) as Eset
    by (unfold setting; by rewrite Es, Eb).
  unfold set_flag. rewrite map_lookup_imap, Hfl. cbn [option_bind mbind]. rewrite Eset.
  destruct (fl_set fl (setting fl v)) as [nv err]. simpl in Hset. rewrite (Hset Hni). exact Hf.
Qed.

(** ** Properties *)

(** C36. A configuration file means what it says: written as [key="value"] lines, it gives every flag
    the last value of its key - verbatim, whatever bytes but a newline it holds; [true] for an empty
    value of a boolean flag - and leaves alone the flags that were set on the command line and those it
    does not name; and no file at all, however it ends, changes a flag set on the command line. *)
Theorem config_file_applies cli fs kvs :
  Forall (applicable cli fs) kvs →
  ApplyFile (Ok (render kvs)) cli fs = (None, map_imap (λ k fl, Some (assigned cli kvs k fl)) fs) ∧
  ∀ file k, k ∈ cli → snd (ApplyFile file cli fs) !! k = fs !! k.
Proof.
  intros Hap. split.
  - unfold ApplyFile. rewrite (scan_render cli fs) by done. rewrite <- !list_fmap_compose.
    assert (String.string_of_list_byte ∘ String.list_byte_of_string ∘ setting_line <$> kvs = setting_line <$> kvs) as ->.
    { apply list_fmap_ext. intros i kv _. simpl. apply string_of_bytes. }
    destruct (apply_settings cli 0 [] kvs fs Hap) as (fs' & Hf & ->).
    assert (map_imap (λ k fl, Some (assigned cli [] k fl)) fs = fs) as E0; [|by rewrite E0 in Hf].
    apply map_eq. intros k. rewrite map_lookup_imap. destruct (fs !! k); [|done]. simpl. unfold assigned.
    by case_decide.
  - intros file k Hk. unfold ApplyFile. destruct file as [bs|]; [|done].
    destruct (Scan _ bs) as [ls err]. by apply apply_lines_other.
Qed.

(** ** A concrete file *)

Definition text_flag (v : string) (b : bool) : flag := mkFlag v b (λ s, (s, None)).
Definition demo_flags : FlagSet :=
  {["region" := text_flag "us-west" false; "token" := text_flag "" false; "direct" := text_flag "false" true]}%string.
Definition demo_settings : list (string * string) :=
  [("token", "a = 'b' # c "); ("direct", ""); ("region", "eu")]%string.

Lemma demo_applicable : Forall (applicable {["region"%string]} demo_flags) demo_settings.
Proof.
  repeat (apply Forall_cons; split); [..|apply Forall_nil; done];
    (split_and!; [vm_compute; reflexivity|vm_compute; repeat constructor|vm_compute; reflexivity
      |eexists; split; [vm_compute; reflexivity|done]]).
Qed.

Lemma config_file_applies_witness :
  ApplyFile (Ok (render demo_settings)) {["region"%string]} demo_flags
    = (None, map_imap (λ k fl, Some (assigned {["region"%string]} demo_settings k fl)) demo_flags) ∧
  ∀ file k, k ∈ ({["region"%string]} : gset string) → snd (ApplyFile file {["region"%string]} demo_flags) !! k = demo_flags !! k.
Proof. exact (config_file_applies {["region"%string]} demo_flags demo_settings demo_applicable). Defined.

(** The other forms of a line: no equals sign, a bare key, a leading hyphen, a comment. *)
Definition demo_after (l : string) : list (option string) :=
  (λ k, fl_value <$> snd (apply_line ∅ 1 l demo_flags) !! k) <$> ["region"; "token"; "direct"]%string.

Example line_forms :
  demo_after "  token  abc def " = Some <$> ["us-west"; "abc def"; "false"]%string ∧
  demo_after "-direct" = Some <$> ["us-west"; ""; "true"]%string ∧
  demo_after "; token = x" = Some <$> ["us-west"; ""; "false"]%string ∧
  fst (apply_line ∅ 7 "tokne = x" demo_flags) = Some (EUnknownKey 7 "tokne") ∧
  fst (apply_line ∅ 7 "= x" demo_flags) = Some (EMissingKey 7).
Proof. split_and!; vm_compute; reflexivity. Qed.
