(* ===== verification/Flags.v ===== *)
(** * Package flag: the command line

    [parse] is the loop of [FlagSet.Parse] on the flags of [Conf]: a flag is given as [-name value],
    [-name=value] or, if it is boolean, [-name]; two dashes count as one.  It returns the names that
    were set, which a configuration file does not override, and the flags with their values. *)
From S2P Require Import Prelude Strs Conf.
From Stdlib Require Import Strings.Ascii.

Open Scope string_scope.

Inductive flag_error := EBadSyntax (arg : string) | ENotDefined (name : string) | EHelp
| ENeedsArgument (name : string) | EInvalid (name value err : string).

(** The name and, after an equals sign, the value of an argument that is a flag. *)
Inductive argument := NotAFlag | Terminator | Bad | Flag (name : string) (value : option string).

Definition named (name : string) : argument :=
  match name with
  | EmptyString => Bad
  | String c _ =>
      if Ascii.eqb c "-" || Ascii.eqb c "=" then Bad
      else match cut_on "="%char name with Some (n, v) => Flag n (Some v) | None => Flag name None end
  end.
Definition classify (arg : string) : argument :=
  match arg with
  | String a (String b r) =>
      if Ascii.eqb a "-" then
        if Ascii.eqb b "-" then if decide (r = "") then Terminator else named r else named (String b r)
      else NotAFlag
  | _ => NotAFlag
  end.

Fixpoint parse (args : list string) (seen : gset string) (fs : FlagSet) : result flag_error (gset string * FlagSet) :=
  match args with
  | [] => Ok (seen, fs)
  | arg :: args =>
      match classify arg with
      | NotAFlag | Terminator => Ok (seen, fs)
      | Bad => Err (EBadSyntax arg)
      | Flag name value =>
          match fs !! name with
          | None => Err (if bool_decide (name = "help") || bool_decide (name = "h") then EHelp else ENotDefined name)
          | Some fl =>
              let set v := match set_flag fs name v with
                           | (Some e, _) => Err (EInvalid name v e)
                           | (None, fs) => Ok ({[name]} ∪ seen, fs)
                           end in
              if fl_isBool fl then
                let? '(seen, fs) := set (default "true" value) in parse args seen fs
              else match value, args with
              | Some v, _ => let? '(seen, fs) := set v in parse args seen fs
              | None, v :: args => let? '(seen, fs) := set v in parse args seen fs
              | None, [] => Err (ENeedsArgument name)
              end
          end
      end
  end.

(** ** Flags *)

Definition string_flag (value : string) : flag := mkFlag value false (λ v, (v, None)).

(** [strconv.ParseBool] *)
Definition ParseBool (s : string) : option bool :=
  if decide (s ∈ ["1"; "t"; "T"; "true"; "TRUE"; "True"]) then Some true
  else if decide (s ∈ ["0"; "f"; "F"; "false"; "FALSE"; "False"]) then Some false
  else None.
Definition bool_text (b : bool) : string := if b then "true" else "false".
Definition bool_flag (value : bool) : flag :=
  mkFlag (bool_text value) true (λ v, match ParseBool v with Some b => (bool_text b, None) | None => ("false", Some "parse error") end).

(** The value of a flag. *)
Definition str (fs : FlagSet) (name : string) : string := from_option fl_value "" (fs !! name).
Definition is_set (fs : FlagSet) (name : string) : bool := bool_decide (str fs name = "true").

(** A string flag followed by its value, whatever the value looks like. *)
Lemma parse_string arg name value v args seen fs :
  classify arg = Flag name None → fs !! name = Some (string_flag value) →
  parse (arg :: v :: args) seen fs = parse args ({[name]} ∪ seen) (<[name := string_flag v]> fs).
Proof. intros Hc Hf. simpl. rewrite Hc, Hf. simpl. unfold set_flag. by rewrite Hf. Qed.

Lemma parse_bool arg name value b args seen fs :
  classify arg = Flag name (Some (bool_text b)) ∨ classify arg = Flag name None ∧ b = true → fs !! name = Some (bool_flag value) →
  parse (arg :: args) seen fs = parse args ({[name]} ∪ seen) (<[name := bool_flag b]> fs).
Proof.
  intros Hc Hf. simpl. unfold set_flag. destruct Hc as [->|[-> ->]]; rewrite Hf; simpl; [by destruct b|done].
Qed.

(** What is not on the command line keeps its value. *)
Lemma set_flag_other fs name v e fs' k : set_flag fs name v = (e, fs') → k ≠ name → fs' !! k = fs !! k.
Proof.
  unfold set_flag. destruct (fs !! name) as [fl|]; [|by intros [= _ <-]]. destruct (fl_set fl v) as [v' err].
  intros [= _ <-] Hk. by rewrite lookup_insert_ne.
Qed.

Lemma parse_frame args seen fs seen' fs' k :
  parse args seen fs = Ok (seen', fs') → k ∉ seen' → seen ⊆ seen' ∧ fs' !! k = fs !! k.
Proof.
  intros Hp Hk. assert (∀ n args seen fs, (length args ≤ n)%nat → parse args seen fs = Ok (seen', fs') → seen ⊆ seen' ∧ fs' !! k = fs !! k) as Hall.
  { clear Hp args seen fs. induction n as [|n IH]; intros [|arg args] seen fs Hn Hp; simpl in Hn; try lia;
      [by injection Hp as <- <-..|]. simpl in Hp.
    destruct (classify arg) as [| | |name value]; [by injection Hp as <- <-..|done|].
    destruct (fs !! name) as [fl|] eqn:Hf; [|done].
    assert (∀ v args', (length args' ≤ n)%nat →
      rbind match set_flag fs name v with (Some e, _) => Err (EInvalid name v e) | (None, fs) => Ok ({[name]} ∪ seen, fs) end
        (λ '(seen, fs), parse args' seen fs) = Ok (seen', fs') → seen ⊆ seen' ∧ fs' !! k = fs !! k) as Hset.
    { intros v args' Hl. destruct (set_flag fs name v) as [[e|] fs1] eqn:Es; [done|]. simpl. intros Hr.
      destruct (IH _ _ _ Hl Hr) as [H1 H2]. split; [set_solver|]. rewrite H2. eapply set_flag_other; [done|]. set_solver. }
    destruct (fl_isBool fl); [by eapply Hset, Hp; lia|]. destruct value as [v|]; [by eapply Hset, Hp; lia|].
    destruct args as [|v args]; [done|]. simpl in Hn. eapply Hset, Hp. lia. }
  by eapply Hall.
Qed.
