(* ===== verification/Logx.v ===== *)
(** * internal/logx: where the log goes and in which form

    [Setup] gives the state of the standard logger: its flags, and whether a writer that makes JSON
    objects of its lines is in front of the output.  [open] is what opening the log file returns;
    [marshal] is the JSON of a map of strings. *)
From S2P Require Import Prelude Strs.
From Stdlib Require Import Strings.Ascii.

Open Scope string_scope.

Definition to_lower (c : ascii) : ascii :=
  let n := nat_of_ascii c in if ((65 <=? n) && (n <=? 90))%nat then ascii_of_nat (n + 32) else c.
(** [strings.ToLower] on ASCII. *)
Fixpoint ToLower (s : string) : string := match s with EmptyString => "" | String c s => String (to_lower c) (ToLower s) end.

(** [log.LstdFlags] *)
Definition LstdFlags : Z := 3.

Record logger := mkLogger {
  lg_file : option string;          (* stderr if there is none *)
  lg_flags : Z;
  lg_json : option string           (* the component of a [jsonWriter] *)
}.

Definition Setup (open : string → option string) (component file format : string) : result string logger :=
  match (if decide (file = "") then Ok None
         else match open file with Some e => Err ("open log file: " +:+ e) | None => Ok (Some file) end) with
  | Err e => Err e
  | Ok out =>
      let f := ToLower (TrimSpace format) in
      if bool_decide (f = "") || bool_decide (f = "text") then Ok (mkLogger out LstdFlags None)
      else if decide (f = "json") then Ok (mkLogger out 0 (Some component))
      else Err "unknown log type (want text|json)"
  end.

(** [strings.TrimRight(s, "\n")] *)
Definition newline : ascii := "010"%char.
Fixpoint trim_newlines (s : string) : string :=
  match s with
  | EmptyString => ""
  | String c r => match trim_newlines r with EmptyString => if Ascii.eqb c newline then "" else chr c | r' => String c r' end
  end.

Section writer.
Context (marshal : gmap string string → result string string).

(** [jsonWriter.Write]: the count or error, and what was written; [now] is the time as RFC 3339 text. *)
Definition Write (fails : option string) (component now p : string) : result string Z * string :=
  match marshal (<["time" := now]> (<["component" := component]> {["msg" := trim_newlines p]})) with
  | Err e => (Err e, "")
  | Ok b => match fails with Some e => (Err e, "") | None => (Ok (Z.of_nat (String.length p)), b +:+ String newline "") end
  end.

(** ** Properties *)

Lemma trim_newlines_line s : lacks newline s = true → trim_newlines (s +:+ String newline "") = s.
Proof.
  induction s as [|c s IH]; [done|]. simpl. unfold lacks in *. simpl. intros [Hc Hs]%andb_true_iff. rewrite (IH Hs).
  destruct s; [|done]. apply negb_true_iff in Hc. by rewrite Hc.
Qed.

(** One object per message: JSON has no line breaks in it, so what a log message writes is exactly one
    line, the object with the message as it was logged, and the logger is told that all was written. *)
Theorem one_line_per_message component now msg b :
  marshal (<["time" := now]> (<["component" := component]> {["msg" := msg]})) = Ok b → lacks newline b = true →
  lacks newline msg = true →
  let '(r, out) := Write None component now (msg +:+ String newline "") in
  r = Ok (Z.of_nat (String.length (msg +:+ String newline ""))) ∧ cut_on newline out = Some (b, "").
Proof.
  intros Hm Hb Hn. unfold Write. rewrite trim_newlines_line, Hm by done. split; [done|]. by apply cut_on_app.
Qed.
End writer.

Example formats :
  Setup (λ _, None) "broker" "" " JSON " = Ok (mkLogger None 0 (Some "broker")) ∧
  Setup (λ _, None) "broker" "b.log" "text" = Ok (mkLogger (Some "b.log") LstdFlags None) ∧
  Setup (λ _, None) "broker" "" "xml" = Err "unknown log type (want text|json)".
Proof. by vm_compute. Qed.
