(* ===== verification/TurnCred.v ===== *)
(** * Package internal/turncred: time-limited TURN credentials

    The username carries the expiry and the session; the password is the keyed hash of the username.
    [mac] stands for base64 of HMAC-SHA1; its comparison in constant time is equality. *)
From S2P Require Import Prelude Strs GoTime.

Open Scope Z_scope.

(** [t.Unix()]: seconds since 1970; a [Time] counts nanoseconds since year 1. *)
Definition unixToInternal : Z := 62135596800.
Definition Unix (t : Time) : Z := t / Second - unixToInternal.

Section turncred.
Context (mac : string → string → string).

Definition CredentialsAt (secret : string) (expiry : Time) (sessionID : string) : string * string :=
  let username := (itoa (Unix expiry) +:+ ":" +:+ sessionID) in
  (username, mac secret username).

Definition Credentials (now : Time) (secret : string) (ttl : Duration) (sessionID : string) : string * string :=
  CredentialsAt secret (Add now ttl) sessionID.

Definition Verify (secret username password : string) : bool := bool_decide (mac secret username = password).

(** What the TURN server reads back from a username: the expiry before the first colon, then the id. *)
Lemma Verify_CredentialsAt secret expiry sid :
  let '(u, p) := CredentialsAt secret expiry sid in
  Verify secret u p = true ∧ ∀ p', Verify secret u p' = true → p' = p.
Proof. simpl. unfold Verify. split; [by apply bool_decide_eq_true_2|]. by intros p' <-%bool_decide_eq_true. Qed.
End turncred.
