(* ===== verification/Oidc.v ===== *)
(** * Package internal/oidc: verification of ID tokens

    Parameters: the JSON decoders of the header, of the claims and of their members, and of the JWKS;
    [rsa_verify] (SHA-256 and RSASSA-PKCS1-v1_5); what the processor makes of a float that does not
    fit an [int64].  [http] is what a GET of the JWKS URL would return now: an error, or the status and
    the bytes that the one read of the body got. *)
From S2P Require Import Prelude Float64 GoTime Strs Codec TurnCred.
From Stdlib Require Import Strings.Ascii.

Open Scope Z_scope.

Record Claims := mkClaims {
  cl_Subject : string; cl_Email : string; cl_Issuer : string; cl_Audience : list string; cl_Expiry : Z
}.

Definition Identity (c : Claims) : string := if decide (cl_Email c = "") then cl_Subject c else cl_Email c.

Record PublicKey := mkKey { pk_N : Z; pk_E : Z }.

Record Verifier := mkVerifier {
  v_issuer : string; v_audience : string; v_keys : gmap string PublicKey; v_jwksURL : string
}.
#[export] Instance Verifier_eta : Eta Verifier := λ v, mkVerifier (v_issuer v) (v_audience v) (v_keys v) (v_jwksURL v).

Record jwk := mkJWK { k_Kty : string; k_Kid : string; k_N : string; k_E : string }.

Inductive oidc_error :=
| EMalformed | EBase64 | EJson | EAlg (alg : string) | EUnknownKey (kid : string) | ENoKey (kid : string)
| EFetch (err : string) | EStatus (code : Z) | EBadExponent (kid : string) | ENoKeys
| ESignature | EIssuer | EAudience | EExpired.


Section oidc.
Context (hdr_json : list byte → option (string * string)).             (* alg, kid *)
Context (claims_json : list byte → option (gmap string (list byte))).  (* the raw members *)
Context (json_string : list byte → option string).
Context (json_strings : list byte → list string).                      (* what is left in the slice *)
Context (json_float : list byte → option f64).
Context (jwks_json : list byte → option (list jwk)).
Context (rsa_verify : PublicKey → string → list byte → bool).
Context (out_of_range : f64 → Z).

Definition b64urlDecode (s : string) : option (list byte) := DecodeString url s.

(** The exponent, big-endian. *)
Definition exponent (eb : list byte) : Z := foldl (λ e b, i64 (Z.lor (Z.shiftl e 8) (b2z b))) 0 eb.

Fixpoint jwks_keys (ks : list jwk) (out : gmap string PublicKey) : result oidc_error (gmap string PublicKey) :=
  match ks with
  | [] => Ok out
  | k :: ks =>
      if decide (k_Kty k = "RSA") then
        match b64urlDecode (k_N k), b64urlDecode (k_E k) with
        | Some nb, Some eb =>
            if exponent eb =? 0 then Err (EBadExponent (k_Kid k))
            else jwks_keys ks (<[k_Kid k := mkKey (be_decode nb) (exponent eb)]> out)
        | _, _ => Err EBase64
        end
      else jwks_keys ks out
  end.

Definition parseJWKS (data : list byte) : result oidc_error (gmap string PublicKey) :=
  match jwks_json data with
  | None => Err EJson
  | Some ks =>
      match jwks_keys ks ∅ with
      | Err e => Err e
      | Ok out => if decide (out = ∅) then Err ENoKeys else Ok out
      end
  end.

Definition NewStaticVerifier (issuer audience : string) (jwksJSON : list byte) : result oidc_error Verifier :=
  match parseJWKS jwksJSON with
  | Err e => Err e
  | Ok keys => Ok (mkVerifier issuer audience keys "")
  end.

Definition NewURLVerifier (issuer audience jwksURL : string) : Verifier := mkVerifier issuer audience ∅ jwksURL.

Definition refresh (http : result string (Z * list byte)) (v : Verifier) : option oidc_error * Verifier :=
  match http with
  | Err e => (Some (EFetch e), v)
  | Ok (status, bs) =>
      if negb (status =? 200) then (Some (EStatus status), v)
      else match parseJWKS bs with
           | Err e => (Some e, v)
           | Ok keys => (None, v <| v_keys := keys |>)
           end
  end.

Definition keyFor (http : result string (Z * list byte)) (kid : string) (v : Verifier)
  : result oidc_error PublicKey * Verifier :=
  match v_keys v !! kid with
  | Some k => (Ok k, v)
  | None =>
      if decide (v_jwksURL v = "") then (Err (EUnknownKey kid), v)
      else match refresh http v with
           | (Some e, v) => (Err e, v)
           | (None, v) => (match v_keys v !! kid with Some k => Ok k | None => Err (ENoKey kid) end, v)
           end
  end.

(** An absent member is an empty [RawMessage]. *)
Definition jsonStr (r : option (list byte)) : string :=
  match r with
  | None | Some [] => ""
  | Some r => default "" (json_string r)
  end.

Definition parseAud (r : option (list byte)) : list string :=
  match r with
  | None | Some [] => []
  | Some r => match json_string r with Some s => [s] | None => json_strings r end
  end.

(** [int64(f)]: towards zero if that fits. *)
Definition to_int64 (f : f64) : Z :=
  let z := f64_trunc f in if (- 2 ^ 63 <=? z) && (z <? 2 ^ 63) then z else out_of_range f.

Definition parseExp (r : option (list byte)) : Z :=
  match r with
  | None | Some [] => 0
  | Some r => match json_float r with Some f => to_int64 f | None => 0 end
  end.

Definition contains (ss : list string) (s : string) : bool := existsb (λ x, bool_decide (x = s)) ss.

Definition claims_of (m : gmap string (list byte)) : Claims :=
  mkClaims (jsonStr (m !! "sub")) (jsonStr (m !! "email")) (jsonStr (m !! "iss")) (parseAud (m !! "aud"))
    (parseExp (m !! "exp")).

(** The checks on the claims. *)
Definition check_claims (now : Time) (v : Verifier) (c : Claims) : result oidc_error Claims :=
  if decide (cl_Issuer c ≠ v_issuer v) then Err EIssuer
  else if negb (bool_decide (v_audience v = "")) && negb (contains (cl_Audience c) (v_audience v)) then Err EAudience
  else if (cl_Expiry c =? 0) || (cl_Expiry c <=? Unix now) then Err EExpired
  else Ok c.

(** [Verify] from the signature on. *)
Definition verify_signed (now : Time) (v : Verifier) (key : PublicKey) (p0 p1 p2 : string) : result oidc_error Claims :=
  match b64urlDecode p2 with
  | None => Err EBase64
  | Some sig =>
      if rsa_verify key (p0 +:+ "." +:+ p1) sig then
        match b64urlDecode p1 with
        | None => Err EBase64
        | Some payload =>
            match claims_json payload with
            | None => Err EJson
            | Some m => check_claims now v (claims_of m)
            end
        end
      else Err ESignature
  end.

Definition Verify (http : result string (Z * list byte)) (now : Time) (raw : string) (v : Verifier)
  : result oidc_error Claims * Verifier :=
  match split_on "."%char raw with
  | [p0; p1; p2] =>
      match b64urlDecode p0 with
      | None => (Err EBase64, v)
      | Some hdrBytes =>
          match hdr_json hdrBytes with
          | None => (Err EJson, v)
          | Some (alg, kid) =>
              if decide (alg = "RS256") then
                match keyFor http kid v with
                | (Err e, v) => (Err e, v)
                | (Ok key, v) => (verify_signed now v key p0 p1 p2, v)
                end
              else (Err (EAlg alg), v)
          end
      end
  | _ => (Err EMalformed, v)
  end.

(** ** What a verified token is *)

(** [raw] is a token signed by [key] with the claims [c] under the key id [kid]. *)
Definition signed_token (raw kid : string) (key : PublicKey) (c : Claims) : Prop :=
  ∃ p0 p1 p2 hdr sig payload m,
    split_on "."%char raw = [p0; p1; p2] ∧ b64urlDecode p0 = Some hdr ∧ hdr_json hdr = Some ("RS256"%string, kid) ∧
    b64urlDecode p2 = Some sig ∧ rsa_verify key (p0 +:+ "." +:+ p1) sig = true ∧
    b64urlDecode p1 = Some payload ∧ claims_json payload = Some m ∧ c = claims_of m.

(** The claims are meant for [v] and still good. *)
Definition acceptable (now : Time) (v : Verifier) (c : Claims) : Prop :=
  cl_Issuer c = v_issuer v ∧ (v_audience v = "" ∨ v_audience v ∈ cl_Audience c) ∧
  cl_Expiry c ≠ 0 ∧ Unix now < cl_Expiry c.

Lemma contains_spec ss s : contains ss s = true ↔ s ∈ ss.
Proof.
  unfold contains. rewrite existsb_exists. split.
  - intros (x & Hx & <-%bool_decide_eq_true). by apply list_elem_of_In.
  - intros Hs. exists s. split; [by apply list_elem_of_In|by apply bool_decide_eq_true].
Qed.

Lemma check_claims_spec now v c c' : check_claims now v c = Ok c' ↔ c' = c ∧ acceptable now v c.
Proof.
  unfold check_claims, acceptable. case_decide as Hi; [split; [done|naive_solver]|].
  destruct (decide (v_audience v = "")) as [Ha|Ha].
  - rewrite (bool_decide_eq_true_2 _ Ha). simpl.
    destruct (Z.eqb_spec (cl_Expiry c) 0), (Z.leb_spec (cl_Expiry c) (Unix now)); simpl; split; try done;
      try (intros [= <-]; split_and!; auto); intros (-> & _ & _ & ? & ?); lia || done.
  - rewrite (bool_decide_eq_false_2 _ Ha). simpl. destruct (contains (cl_Audience c) (v_audience v)) eqn:Ec; simpl.
    + apply contains_spec in Ec.
      destruct (Z.eqb_spec (cl_Expiry c) 0), (Z.leb_spec (cl_Expiry c) (Unix now)); simpl; split; try done;
        try (intros [= <-]; split_and!; auto); intros (-> & _ & _ & ? & ?); lia || done.
    + split; [done|]. intros (_ & _ & [?|Hin] & _); [done|]. apply contains_spec in Hin. congruence.
Qed.

(** Keys only ever come from a JWKS that the URL served. *)
Lemma keyFor_spec http kid v k v' :
  keyFor http kid v = (Ok k, v') →
  v_keys v' !! kid = Some k ∧ v_issuer v' = v_issuer v ∧ v_audience v' = v_audience v ∧
  (v' = v ∨ v_jwksURL v ≠ "" ∧ v_keys v !! kid = None ∧
            ∃ bs, http = Ok (200, bs) ∧ parseJWKS bs = Ok (v_keys v')).
Proof.
  unfold keyFor. destruct (v_keys v !! kid) as [k0|] eqn:Ek; [intros [= <- <-]; auto|].
  case_decide as Hu; [done|]. unfold refresh. destruct http as [[status bs]|]; [|done].
  destruct (Z.eqb_spec status 200) as [->|]; [|done]. simpl. destruct (parseJWKS bs) as [keys|] eqn:Ep; [|done].
  simpl. destruct (keys !! kid) as [k1|] eqn:E1; [|done]. intros [= <- <-]. simpl. split_and!; eauto 6.
Qed.

(** ** Properties *)

(** C19. A token is accepted exactly if it is genuine, meant for us and current: [Verify] returns the
    claims [c] if and only if the token has three parts, its header names RS256 and a key id for which
    a key is known - from the verifier's set, or from a JWKS fetched now with status 200 - its
    signature verifies under this key, and [c] are its claims, with our issuer, our audience among
    theirs (if one is configured) and an expiry in the future. *)
Theorem verify_exactly http now raw v c :
  fst (Verify http now raw v) = Ok c ↔
  ∃ kid key v', keyFor http kid v = (Ok key, v') ∧ v_keys v' !! kid = Some key ∧
    (v' = v ∨ v_jwksURL v ≠ "" ∧ ∃ bs, http = Ok (200, bs) ∧ parseJWKS bs = Ok (v_keys v')) ∧
    signed_token raw kid key c ∧ acceptable now v c.
Proof.
  unfold Verify, signed_token. split.
  - intros HV. destruct (split_on _ raw) as [|p0 [|p1 [|p2 [|]]]] eqn:Es; try done.
    destruct (b64urlDecode p0) as [hdr|] eqn:E0; [|done]. destruct (hdr_json hdr) as [[alg kid]|] eqn:Eh; [|done].
    case_decide as Ha; [subst alg|done]. destruct (keyFor http kid v) as [[key|] v'] eqn:Ek; [|done]. simpl in HV.
    destruct (keyFor_spec _ _ _ _ _ Ek) as (Hk & Hi & Hau & Hv). unfold verify_signed in HV.
    destruct (b64urlDecode p2) as [sig|] eqn:E2; [|done]. destruct (rsa_verify _ _ _) eqn:Er; [|done].
    destruct (b64urlDecode p1) as [payload|] eqn:E1; [|done]. destruct (claims_json payload) as [m|] eqn:Em; [|done].
    apply check_claims_spec in HV as [-> Hacc]. unfold acceptable in Hacc. rewrite Hi, Hau in Hacc.
    exists kid, key, v'. split; [done|]. split; [done|]. split; [naive_solver|]. split; [|exact Hacc].
    exists p0, p1, p2, hdr, sig, payload, m. done.
  - intros (kid & key & v' & Ek & Hk & Hv & (p0 & p1 & p2 & hdr & sig & payload & m & -> & -> & -> & E2 & Er & E1 & Em & ->) & Hacc).
    rewrite decide_True, Ek by done. simpl. unfold verify_signed. rewrite E2, Er, E1, Em.
    destruct (keyFor_spec _ _ _ _ _ Ek) as (_ & Hi & Hau & _). apply check_claims_spec. split; [done|].
    unfold acceptable in *. by rewrite Hi, Hau.
Qed.
End oidc.

(** ** A concrete token *)

Module Demo.
(** A header that names RS256 and key [k1]; claims whose members are all [x]; keys that sign with one
    byte. *)
Definition hdr (b : list byte) : option (string * string) :=
  match b with [x01] => Some ("RS256", "k1")%string | [x02] => Some ("none", "k1")%string | _ => None end.
Definition members (b : list byte) : option (gmap string (list byte)) :=
  Some {["iss" := b; "sub" := b; "exp" := b]}%string.
Definition str (b : list byte) : option string := Some "me"%string.
Definition float (b : list byte) : option f64 := Some (f64_of_Z 1000).
Definition sign (k : PublicKey) (input : string) (sig : list byte) : bool := bool_decide (sig = [z2b (pk_E k)]).
Definition verifier : Verifier := mkVerifier "me" "" {["k1"%string := mkKey 5 7]} "".
Definition verify (raw : string) : result oidc_error Claims :=
  fst (Verify hdr members str (λ _, []) float (λ _, None) sign (λ _, 0) (Err "offline") (unixToInternal * Second) raw verifier).

Definition token (h s : byte) : string :=
  EncodeToString url [h] +:+ "." +:+ EncodeToString url [x2a] +:+ "." +:+ EncodeToString url [s].

Example verdicts :
  verify (token x01 x07) = Ok (mkClaims "me" "" "me" [] 1000) ∧
  verify (token x01 x08) = Err ESignature ∧
  verify (token x02 x07) = Err (EAlg "none") ∧
  verify "a.b" = Err EMalformed.
Proof. split_and!; vm_compute; reflexivity. Qed.
End Demo.
