(* ===== verification/Socks.v ===== *)
(** * Package internal/socks: the SOCKS5 handshake

    A connection is the bytes the client sends before it waits for an answer; [handle] returns the
    bytes written to the client and what it does next: close, or splice the rest of the stream with
    the upstream connection it dialled.  Parameters: [net.ParseIP], the text of an IPv6 address, the
    two resolvers and the dialler, and whether the writes that are checked succeed. *)
From S2P Require Import Prelude Strs Netip Proto.
From Stdlib Require Import Strings.Ascii.

Open Scope Z_scope.

Definition ver5 : byte := x05.
Definition cmdConnect : byte := x01.
Definition atypIPv4 : byte := x01.
Definition atypDomain : byte := x03.
Definition atypIPv6 : byte := x04.
Definition repSuccess : byte := x00.
Definition repGenFailure : byte := x01.
Definition repHostUnreach : byte := x04.
Definition repCmdNotSupp : byte := x07.
Definition repAddrNotSupp : byte := x08.
Definition methodNoAuth : byte := x00.
Definition methodNoneMatch : byte := xff.

Inductive socks_error := EIO (e : io_error) | EVersion (b : byte) | ENoMethod | errCmdNotSupported | errAddrNotSupported.

(** ** Reading from the client: a state monad over the rest of the stream, with errors *)

Definition reader (A : Type) : Type := list byte → result socks_error A * list byte.

Definition rret {A} (a : A) : reader A := λ r, (Ok a, r).
Definition rfail {A} (e : socks_error) : reader A := λ r, (Err e, r).
Definition rthen {A B} (m : reader A) (k : A → reader B) : reader B :=
  λ r, match m r with (Ok a, r) => k a r | (Err e, r) => (Err e, r) end.
Notation "x ⇐ m ; k" := (rthen m (λ x, k)) (at level 100, m at next level, right associativity).

Definition readFull (n : nat) : reader (list byte) :=
  λ r, match ReadFull n r with (Ok b, r) => (Ok b, r) | (Err e, r) => (Err (EIO e), r) end.

Definition at_ (b : list byte) (i : nat) : byte := default x00 (b !! i).

Section socks.
Context (ip6_string : list byte → string) (parse_ip : string → bool).
Context (tunnel_lookup system_lookup : string → list string).   (* no address: the lookup failed *)
Context (dial : string → bool).

(** ** The greeting *)

Definition negotiateAuth (wok : bool) (r : list byte) : result socks_error unit * list byte * list byte :=
  match (head ⇐ readFull 2;
         if Byte.eqb (at_ head 0) ver5 then readFull (Z.to_nat (b2z (at_ head 1))) else rfail (EVersion (at_ head 0))) r with
  | (Err e, r) => (Err e, [], r)
  | (Ok methods, r) =>
      if existsb (λ m, Byte.eqb m methodNoAuth) methods
      then (if wok then Ok tt else Err (EIO (ErrWrite "write")), [ver5; methodNoAuth], r)
      else (Err ENoMethod, [ver5; methodNoneMatch], r)
  end.

(** ** The request *)

(** [net.IP(b).String()] of four bytes. *)
Definition ip4_string (b : list byte) : string :=
  match AddrFrom4 (b2z (at_ b 0)) (b2z (at_ b 1)) (b2z (at_ b 2)) (b2z (at_ b 3)) with
  | Addr4 z => String4 z
  | _ => ""
  end.

Definition readHost (atyp : byte) : reader string :=
  if Byte.eqb atyp atypIPv4 then b ⇐ readFull 4; rret (ip4_string b)
  else if Byte.eqb atyp atypIPv6 then b ⇐ readFull 16; rret (ip6_string b)
  else if Byte.eqb atyp atypDomain then
    l ⇐ readFull 1; b ⇐ readFull (Z.to_nat (b2z (at_ l 0))); rret (String.string_of_list_byte b)
  else rfail errAddrNotSupported.

Definition readRequest : reader (string * string) :=
  head ⇐ readFull 4;
  if negb (Byte.eqb (at_ head 0) ver5) then rfail (EVersion (at_ head 0))
  else if negb (Byte.eqb (at_ head 1) cmdConnect) then rfail errCmdNotSupported
  else
    host ⇐ readHost (at_ head 3);
    pb ⇐ readFull 2;
    rret (host, itoa (be_decode pb)).

Definition writeReply (code : byte) : list byte := [ver5; code; x00; atypIPv4; x00; x00; x00; x00; x00; x00].

(** [net.JoinHostPort] *)
Definition JoinHostPort (host port : string) : string :=
  if lacks ":"%char host then host +:+ ":" +:+ port else "[" +:+ host +:+ "]:" +:+ port.

(** The tunnel's resolver, then the system's. *)
Definition resolve (host : string) : option string :=
  match tunnel_lookup host with
  | ip :: _ => Some ip
  | [] => head (system_lookup host)
  end.

Inductive outcome := Closed | Spliced (target : string) (rest : list byte).

Definition error_reply (e : socks_error) : byte :=
  match e with
  | errCmdNotSupported => repCmdNotSupp
  | errAddrNotSupported => repAddrNotSupp
  | _ => repGenFailure
  end.

Definition connect (wok : bool) (host port : string) (rest : list byte) : list byte * outcome :=
  match (if parse_ip host then Some host else resolve host) with
  | None => (writeReply repHostUnreach, Closed)
  | Some ip =>
      let target := JoinHostPort ip port in
      if dial target then (writeReply repSuccess, if wok then Spliced target rest else Closed)
      else (writeReply repHostUnreach, Closed)
  end.

Definition handle (wok1 wok2 : bool) (input : list byte) : list byte * outcome :=
  match negotiateAuth wok1 input with
  | (Err _, out, _) => (out, Closed)
  | (Ok _, out, r) =>
      match readRequest r with
      | (Err e, _) => (out ++ writeReply (error_reply e), Closed)
      | (Ok (host, port), r) => let '(out', o) := connect wok2 host port r in (out ++ out', o)
      end
  end.

(** ** What a client sends *)

Inductive address := AIPv4 (a b c d : byte) | AIPv6 (bs : list byte) | ADomain (name : list byte) .

Definition encode_address (a : address) : list byte :=
  match a with
  | AIPv4 a b c d => [atypIPv4; a; b; c; d]
  | AIPv6 bs => atypIPv6 :: bs
  | ADomain name => atypDomain :: z2b (Z.of_nat (length name)) :: name
  end.

Definition host_of (a : address) : string :=
  match a with
  | AIPv4 a b c d => ip4_string [a; b; c; d]
  | AIPv6 bs => ip6_string bs
  | ADomain name => String.string_of_list_byte name
  end.

Definition wf_address (a : address) : Prop :=
  match a with
  | AIPv4 _ _ _ _ => True
  | AIPv6 bs => length bs = 16%nat
  | ADomain name => (length name ≤ 255)%nat
  end.

Definition greeting (methods : list byte) : list byte := [ver5; z2b (Z.of_nat (length methods))] ++ methods.
Definition request (cmd : byte) (a : address) (port : Z) : list byte := [ver5; cmd; x00] ++ encode_address a ++ be_encode 2 port.

Lemma readFull_app l r : readFull (length l) (l ++ r) = (Ok l, r).
Proof. unfold readFull. by rewrite ReadFull_app. Qed.

Lemma byte_length (l : list byte) : (length l ≤ 255)%nat → Z.to_nat (b2z (z2b (Z.of_nat (length l)))) = length l.
Proof. intros Hl. rewrite b2z_z2b, Z.mod_small by lia. lia. Qed.

Lemma read_greeting wok methods r :
  (length methods ≤ 255)%nat →
  negotiateAuth wok (greeting methods ++ r) =
  if existsb (λ m, Byte.eqb m methodNoAuth) methods
  then (if wok then Ok tt else Err (EIO (ErrWrite "write")), [ver5; methodNoAuth], r)
  else (Err ENoMethod, [ver5; methodNoneMatch], r).
Proof.
  intros Hl. unfold negotiateAuth, greeting, rthen. rewrite <- app_assoc.
  rewrite (readFull_app [ver5; _]). change (at_ [ver5; ?b] 1) with b. change (Byte.eqb _ ver5) with true. cbv iota.
  rewrite byte_length, readFull_app by done. done.
Qed.

Lemma read_host a r :
  wf_address a →
  ∃ atyp bs, encode_address a = atyp :: bs ∧ readHost atyp (bs ++ r) = (Ok (host_of a), r).
Proof.
  intros Ha. destruct a as [a b c d|bs|name]; simpl in Ha.
  - exists atypIPv4, [a; b; c; d]. split; [done|]. unfold readHost, rthen. change (Byte.eqb atypIPv4 atypIPv4) with true. cbv iota beta.
    by rewrite (readFull_app [a; b; c; d]).
  - exists atypIPv6, bs. split; [done|]. unfold readHost, rthen. change (Byte.eqb atypIPv6 atypIPv4) with false.
    change (Byte.eqb atypIPv6 atypIPv6) with true. cbv iota beta.
    rewrite <- Ha, readFull_app. done.
  - exists atypDomain, (z2b (Z.of_nat (length name)) :: name). split; [done|]. unfold readHost, rthen.
    change (Byte.eqb atypDomain atypIPv4) with false. change (Byte.eqb atypDomain atypIPv6) with false.
    change (Byte.eqb atypDomain atypDomain) with true. cbv iota beta. change ((?x :: name) ++ r) with ([x] ++ name ++ r). rewrite (readFull_app [_]).
    change (at_ [?b] 0) with b. rewrite byte_length, readFull_app by done. done.
Qed.

Lemma read_request cmd a port r :
  wf_address a → 0 ≤ port < 65536 →
  readRequest (request cmd a port ++ r) =
  if Byte.eqb cmd cmdConnect then (Ok (host_of a, itoa port), r)
  else (Err errCmdNotSupported, tail (encode_address a) ++ be_encode 2 port ++ r).
Proof.
  intros Ha Hp. destruct (read_host a (be_encode 2 port ++ r) Ha) as (atyp & bs & He & Hh).
  unfold request, readRequest, rthen. rewrite He. rewrite <- !app_assoc.
  change ([ver5; cmd; x00] ++ (atyp :: bs) ++ ?x) with ([ver5; cmd; x00; atyp] ++ bs ++ x).
  rewrite (readFull_app [ver5; cmd; x00; atyp]). 
  change (at_ [ver5; cmd; x00; atyp] 0) with ver5. change (at_ [ver5; cmd; x00; atyp] 1) with cmd.
  change (at_ [ver5; cmd; x00; atyp] 3) with atyp. change (Byte.eqb ver5 ver5) with true. cbn [negb].
  destruct (Byte.eqb cmd cmdConnect); cbn [negb]; [|done]. rewrite Hh.
  pose proof (readFull_app (be_encode 2 port) r) as Hr. rewrite length_be_encode in Hr. rewrite Hr.
  unfold rret. do 3 f_equal. rewrite be_decode_encode, Z.mod_small by (simpl; lia). done.
Qed.

(** ** Properties *)

(** The proxy connects where it was asked to, and says what happened: for every client that offers
    at most 255 methods and then asks for an address and port, [handle] refuses the greeting unless it
    offers no authentication; refuses commands but CONNECT; otherwise it dials exactly the requested
    host and port - an address as it is, a name by the first address of the tunnel's resolver or else
    the system's - and reports success only if that worked, in which case everything the client sent
    after the request is left for the upstream. *)
Theorem handshake_is_served methods cmd a port rest :
  (length methods ≤ 255)%nat → wf_address a → 0 ≤ port < 65536 →
  handle true true (greeting methods ++ request cmd a port ++ rest) =
  if negb (existsb (λ m, Byte.eqb m methodNoAuth) methods) then ([ver5; methodNoneMatch], Closed)
  else if negb (Byte.eqb cmd cmdConnect) then ([ver5; methodNoAuth] ++ writeReply repCmdNotSupp, Closed)
  else
    let ip := if parse_ip (host_of a) then Some (host_of a)
              else head (tunnel_lookup (host_of a) ++ system_lookup (host_of a)) in
    match ip with
    | Some ip => if dial (JoinHostPort ip (itoa port))
                 then ([ver5; methodNoAuth] ++ writeReply repSuccess, Spliced (JoinHostPort ip (itoa port)) rest)
                 else ([ver5; methodNoAuth] ++ writeReply repHostUnreach, Closed)
    | None => ([ver5; methodNoAuth] ++ writeReply repHostUnreach, Closed)
    end.
Proof.
  intros Hm Ha Hp. unfold handle. rewrite read_greeting by done.
  destruct (existsb _ methods); [|done]. cbn [negb]. rewrite read_request by done.
  destruct (Byte.eqb cmd cmdConnect); [|done]. cbn [negb]. unfold connect, resolve.
  destruct (parse_ip (host_of a)).
  - by destruct (dial _).
  - destruct (tunnel_lookup (host_of a)) as [|ip ips]; simpl; [|by destruct (dial _)].
    destruct (head (system_lookup (host_of a))); [|done]. by destruct (dial _).
Qed.
End socks.

(** ** A concrete handshake *)

Lemma handshake_is_served_witness :
  handle (λ _, "") (λ h, bool_decide (h = "10.0.0.7")) (λ _, []) (λ _, ["192.0.2.9"%string]) (λ _, true) true true
    (greeting [x00] ++ request cmdConnect (ADomain [x61; x62]) 443 ++ [x2a])
  = ([ver5; methodNoAuth] ++ writeReply repSuccess, Spliced (JoinHostPort "192.0.2.9" (itoa 443)) [x2a]).
Proof.
  rewrite (handshake_is_served (λ _, "") (λ h, bool_decide (h = "10.0.0.7")) (λ _, []) (λ _, ["192.0.2.9"%string]) (λ _, true)
             [x00] cmdConnect (ADomain [x61; x62]) 443 [x2a]); [vm_compute; reflexivity|simpl; lia..].
Defined.
