(* ===== verification/SocksServer.v ===== *)
(** * Package internal/socks: the server, its sockets, and the splice

    [New] with the socket options that bind the proxy's connections to the tunnel on each system, the
    accept loop, and the two copies that run after a handshake ([Socks.handle]), as a step relation.
    What the kernel answers to setsockopt and connect is an argument. *)
From S2P Require Import Prelude Strs Netip Proto Socks.

Open Scope Z_scope.

(** ** bind_linux.go, bind_darwin.go, bind_windows.go, bind_other.go *)

Inductive sockopt :=
| SO_BINDTODEVICE (ifName : string)
| IP_BOUND_IF (idx : Z) | IPV6_BOUND_IF (idx : Z)
| IP_UNICAST_IF (value : Z) | IPV6_UNICAST_IF (value : Z).

(** The two options of Windows have this number; [SetsockoptInt] takes its value from memory. *)
Definition ipUnicastIF : Z := 31.
Definition ipv6UnicastIF : Z := 31.

Inductive family := IPv4 | IPv6.

(** A socket for targets of one address family, and what the system does with it: an error of
    [RawConn.Control] and those of setsockopt. *)
Record socket := mkSocket { sk_family : family; sk_control : option string; sk_setsockopt : sockopt → option string }.

(** A control function: its error, and the options the socket has afterwards. *)
Definition control : Type := socket → option string * list sockopt.

(** A mandatory option, then one whose error is ignored. *)
Definition set_options (must : sockopt) (may : list sockopt) : control := λ s,
  match sk_control s with
  | Some e => (Some e, [])
  | None =>
      match sk_setsockopt s must with
      | Some e => (Some e, [])
      | None => (None, must :: filter (λ o, sk_setsockopt s o = None) may)
      end
  end.

Definition bindControl_linux (ifName : string) : result string control := Ok (set_options (SO_BINDTODEVICE ifName) []).

Definition bindControl_darwin (interfaceByName : string → result string Z) (ifName : string) : result string control :=
  match interfaceByName ifName with
  | Err e => Err ("socks: interface " +:+ ifName +:+ ": " +:+ e)
  | Ok idx => Ok (set_options (IP_BOUND_IF idx) [IPV6_BOUND_IF idx])
  end.

(** [binary.LittleEndian.Uint32] *)
Definition le_decode (l : list byte) : Z := be_decode (rev l).

(** htonl, as the code writes it. *)
Definition htonl (idx : Z) : Z := le_decode (be_encode 4 (u32 idx)).

Definition bindControl_windows (interfaceByName : string → result string Z) (ifName : string) : result string control :=
  match interfaceByName ifName with
  | Err e => Err ("socks: interface " +:+ ifName +:+ ": " +:+ e)
  | Ok idx => Ok (set_options (IP_UNICAST_IF (htonl idx)) [IPV6_UNICAST_IF idx])
  end.

Definition bindControl_other (ifName : string) : result string control :=
  Err "socks: per-interface binding is not supported on this platform".

(** ** The server *)

(** The listener's address, the dialler's and the resolver's control functions with their timeouts. *)
Record Server := mkServer { sv_ln : string; sv_dialer : control * Z; sv_resolver : control * Z }.

Definition New (bindControl : string → result string control) (listen : string → result string string) (addr ifName : string)
  : result string Server :=
  let? ctrl := bindControl ifName in
  let? ln := listen addr in
  Ok (mkServer ln (ctrl, 30) (ctrl, 10)).

Definition Addr (s : Server) : string := sv_ln s.

(** [DialContext] of a dialler with a control function, which runs before the connection is made: the
    options of the socket that is connected. *)
Definition DialContext (ctrl : control) (s : socket) (connect : list sockopt → bool) : option (list sockopt) :=
  match ctrl s with
  | (Some _, _) => None
  | (None, opts) => if connect opts then Some opts else None
  end.

(** The connections [Serve] hands to goroutines until Accept fails: its error ends it. *)
Fixpoint Serve {C E} (accepts : list (result E C)) : list C * option E :=
  match accepts with
  | [] => ([], None)
  | Err e :: _ => ([], Some e)
  | Ok c :: accepts => let '(cs, e) := Serve accepts in (c :: cs, e)
  end.

(** ** The splice *)

(** One of the two copies: what its source has still to give, and what its destination got. *)
Record copying := mkCopying { cp_in : list byte; cp_out : list byte }.
(** [sp_over]: one copy has ended, [handle] has returned and closed both connections. *)
Record splicing := mkSplicing { sp_up : copying; sp_down : copying; sp_over : bool }.

Inductive side := Up | Down.
(** A copy reads [n] bytes and writes them, or only [m] of them, which ends it; a copy reads the end of
    its source; a copy fails to read. *)
Inductive move := Copied (n : nat) | ShortWrite (n m : nat) | Eof | ReadError.

Definition copy_move (mv : move) (c : copying) : copying * bool :=
  match mv with
  | Copied n => (mkCopying (drop n (cp_in c)) (cp_out c ++ take n (cp_in c)), false)
  | ShortWrite n m => (mkCopying (drop n (cp_in c)) (cp_out c ++ take (Nat.min m n) (cp_in c)), true)
  | Eof => (c, bool_decide (cp_in c = []))
  | ReadError => (c, true)
  end.

Definition splice (s : splicing) (l : side * move) : splicing :=
  if sp_over s then s
  else match l with
       | (Up, mv) => let '(c, o) := copy_move mv (sp_up s) in mkSplicing c (sp_down s) o
       | (Down, mv) => let '(c, o) := copy_move mv (sp_down s) in mkSplicing (sp_up s) c o
       end.

Definition start (fromClient fromUpstream : list byte) : splicing :=
  mkSplicing (mkCopying fromClient []) (mkCopying fromUpstream []) false.

(** ** Properties *)

(** The bytes of an integer option in the memory of a little-endian machine. *)
Definition le_encode (n : nat) (z : Z) : list byte := rev (be_encode n z).

(** Windows wants the index of IP_UNICAST_IF in network byte order. *)
Lemma htonl_in_memory idx : le_encode 4 (htonl idx) = be_encode 4 (u32 idx).
Proof.
  unfold le_encode, htonl, le_decode. pose proof (be_encode_decode (rev (be_encode 4 (u32 idx)))) as E.
  rewrite length_rev, length_be_encode in E. by rewrite E, rev_involutive.
Qed.

Inductive system := Linux | Darwin | Windows | Other.

Definition bindControl (sys : system) (interfaceByName : string → result string Z) (ifName : string) : result string control :=
  match sys with
  | Linux => bindControl_linux ifName
  | Darwin => bindControl_darwin interfaceByName ifName
  | Windows => bindControl_windows interfaceByName ifName
  | Other => bindControl_other ifName
  end.

#[export] Instance sockopt_eq_dec : EqDecision sockopt.
Proof. solve_decision. Defined.

(** The option makes a socket of the family send through the interface, as each system documents it:
    SO_BINDTODEVICE is an option of any socket, the others are options of IPv4 or of IPv6.  Windows wants
    the index in network byte order for IPv4 and in the host's for IPv6. *)
Definition binds (sys : system) (interfaceByName : string → result string Z) (ifName : string) (fam : family) (o : sockopt) : Prop :=
  match sys, fam, o with
  | Linux, _, SO_BINDTODEVICE n => n = ifName
  | Darwin, IPv4, IP_BOUND_IF i | Darwin, IPv6, IPV6_BOUND_IF i => interfaceByName ifName = Ok i
  | Windows, IPv4, IP_UNICAST_IF v => ∃ i, interfaceByName ifName = Ok i ∧ le_encode 4 v = be_encode 4 (u32 i)
  | Windows, IPv6, IPV6_UNICAST_IF i => interfaceByName ifName = Ok i
  | _, _, _ => False
  end.

(** The system takes the option for IPv6, whose error the code ignores. *)
Definition takes_ipv6 (sys : system) (interfaceByName : string → result string Z) (ifName : string) (s : socket) : Prop :=
  match sys, interfaceByName ifName with
  | Darwin, Ok i => sk_setsockopt s (IPV6_BOUND_IF i) = None
  | Windows, Ok i => sk_setsockopt s (IPV6_UNICAST_IF i) = None
  | _, _ => False
  end.

Lemma set_options_spec must may s opts :
  set_options must may s = (None, opts) → ∀ o, o ∈ opts ↔ o = must ∨ o ∈ may ∧ sk_setsockopt s o = None.
Proof.
  unfold set_options. intros E o. repeat case_match; simplify_eq. rewrite elem_of_cons, list_elem_of_filter. tauto.
Qed.

(** An IPv4 socket is bound by the mandatory option, an IPv6 one by the other if it was taken. *)
Ltac by_family s Ho o4 o6 :=
  destruct (sk_family s) eqn:?; split; [by right; left|intros _|intros (o & [->|[->%list_elem_of_singleton ?]]%Ho & Hb)|];
  [exists o4; split; [apply Ho; by left|simpl; eauto]|done|by right; right|
   intros [?|[?|?]]; [done|done|]; exists o6; split; [apply Ho; right; split; [by left|done]|done]].

Lemma bindControl_binds sys byName ifName ctrl s opts :
  bindControl sys byName ifName = Ok ctrl → ctrl s = (None, opts) →
  ((∃ o, o ∈ opts ∧ binds sys byName ifName (sk_family s) o) ↔
   sys = Linux ∨ sk_family s = IPv4 ∨ takes_ipv6 sys byName ifName s).
Proof.
  destruct sys; simpl; unfold takes_ipv6, bindControl_linux, bindControl_darwin, bindControl_windows, bindControl_other; intros E Hs.
  - injection E as <-. pose proof (set_options_spec _ _ _ _ Hs) as Ho. split; [by left|intros _].
    eexists. split; [apply Ho; by left|]. simpl. by destruct (sk_family s).
  - destruct (byName ifName) as [i|] eqn:Ei; [|done]. injection E as <-. pose proof (set_options_spec _ _ _ _ Hs) as Ho.
    by_family s Ho (IP_BOUND_IF i) (IPV6_BOUND_IF i).
  - destruct (byName ifName) as [i|] eqn:Ei; [|done]. injection E as <-. pose proof (set_options_spec _ _ _ _ Hs) as Ho.
    pose proof (htonl_in_memory i) as Hh. by_family s Ho (IP_UNICAST_IF (htonl i)) (IPV6_UNICAST_IF i).
  - done.
Qed.

(** C37. What the proxy binds to the tunnel: on every system a server that starts - and none starts, nor
    listens, where sockets cannot be bound - makes each of its connections, and each query of its own
    resolver, on a socket that an option of the socket's family binds to the tunnel's interface, if the
    system is Linux or the target an IPv4 address; if that option cannot be set the connection is not
    made.  A connection to an IPv6 address on macOS or Windows is bound exactly if the system takes the
    option for IPv6.  (The Windows index is in network byte order in memory for IP_UNICAST_IF.)  And a
    name that the tunnel's resolver knows is not asked of the system's, which is not bound. *)
Theorem proxy_sockets_are_bound sys byName listen addr ifName srv s connect opts :
  New (bindControl sys byName) listen addr ifName = Ok srv →
  (DialContext (fst (sv_dialer srv)) s connect = Some opts ∨ DialContext (fst (sv_resolver srv)) s connect = Some opts) →
  ((∃ o, o ∈ opts ∧ binds sys byName ifName (sk_family s) o) ↔
   sys = Linux ∨ sk_family s = IPv4 ∨ takes_ipv6 sys byName ifName s) ∧
  (∀ tun_lookup system1 system2 host, tun_lookup host ≠ [] →
     resolve tun_lookup system1 host = resolve tun_lookup system2 host).
Proof.
  unfold New. intros E Hd. split.
  2: { intros tun s1 s2 host Hn. unfold resolve. by destruct (tun host). }
  destruct (bindControl sys byName ifName) as [ctrl|] eqn:Eb; [|done]. simpl in E.
  destruct (listen addr); simplify_eq/=. unfold DialContext in Hd.
  destruct (ctrl s) as [[e|] opts'] eqn:Ec; [by destruct Hd|]. destruct (connect opts'); [|by destruct Hd].
  eapply bindControl_binds; [done|]. destruct Hd; by simplify_eq.
Qed.

(** A proxy on macOS or Windows connects to an IPv6 address outside the tunnel when the system refuses
    the option for IPv6. *)
Theorem ipv6_leaves_tunnel sys byName listen addr ifName srv connect :
  sys = Darwin ∨ sys = Windows → New (bindControl sys byName) listen addr ifName = Ok srv → (∀ opts, connect opts = true) →
  ∃ s opts, DialContext (fst (sv_dialer srv)) s connect = Some opts ∧ ∀ o, o ∈ opts → ¬ binds sys byName ifName (sk_family s) o.
Proof.
  intros Hsys E Hc. unfold New in E. destruct (bindControl sys byName ifName) as [ctrl|] eqn:Eb; [|done]. simpl in E.
  destruct (listen addr); simplify_eq/=.
  pose (s := mkSocket IPv6 None (λ o, match o with IPV6_BOUND_IF _ | IPV6_UNICAST_IF _ => Some "EINVAL" | _ => None end)).
  assert (∃ opts, ctrl s = (None, opts)) as [opts Eo].
  { destruct Hsys as [->| ->]; simpl in Eb; unfold bindControl_darwin, bindControl_windows in Eb;
      destruct (byName ifName); simplify_eq; by eexists. }
  exists s, opts. unfold DialContext. rewrite Eo, Hc. split; [done|]. intros o Ho Hb.
  assert (∃ o, o ∈ opts ∧ binds sys byName ifName (sk_family s) o) as Hx by eauto.
  apply (bindControl_binds _ _ _ _ _ _ Eb Eo) in Hx. unfold takes_ipv6 in Hx.
  destruct Hsys as [->| ->], (byName ifName); naive_solver.
Qed.

Definition demo_interfaces (n : string) : result string Z := if decide (n = "Revquic") then Ok 258 else Err "no such interface".
Definition demo_socket : socket := mkSocket IPv6 None (λ _, None).
Definition demo_server : Server :=
  mkServer "127.0.0.1:1080" (set_options (IP_UNICAST_IF (htonl 258)) [IPV6_UNICAST_IF 258], 30)
    (set_options (IP_UNICAST_IF (htonl 258)) [IPV6_UNICAST_IF 258], 10).

Lemma proxy_sockets_are_bound_witness :
  ∃ o, o ∈ [IP_UNICAST_IF (htonl 258); IPV6_UNICAST_IF 258] ∧ binds Windows demo_interfaces "Revquic" IPv6 o.
Proof.
  apply (proj1 (proxy_sockets_are_bound Windows demo_interfaces Ok "127.0.0.1:1080" "Revquic" demo_server demo_socket
           (λ opts, negb (bool_decide (opts = @nil sockopt)))
           [IP_UNICAST_IF (htonl 258); IPV6_UNICAST_IF 258] eq_refl
           ltac:(left; vm_compute; reflexivity))).
  right. right. reflexivity.
Defined.

Lemma ipv6_leaves_tunnel_witness :
  ∃ s opts, DialContext (fst (sv_dialer demo_server)) s (λ _, true) = Some opts ∧
    ∀ o, o ∈ opts → ¬ binds Windows demo_interfaces "Revquic" (sk_family s) o.
Proof.
  apply (ipv6_leaves_tunnel Windows demo_interfaces Ok "127.0.0.1:1080" "Revquic" demo_server (λ _, true));
    [by right|reflexivity|done].
Defined.

Lemma New_unsupported byName listen addr ifName : is_ok (New (bindControl Other byName) listen addr ifName) = false.
Proof. done. Qed.

(** A copy keeps its bytes in order; nothing is lost before it ends. *)
Lemma copy_move_spec mv c :
  let '(c', over) := copy_move mv c in
  ∃ lost, cp_out c' ++ lost ++ cp_in c' = cp_out c ++ cp_in c ∧ (over = false → lost = []) ∧
    (mv = Eof → over = true → cp_in c = []).
Proof.
  destruct mv as [n|n m| |]; simpl.
  - exists []. split_and!; [|done..]. simpl. by rewrite <- app_assoc, take_drop.
  - exists (drop (Nat.min m n) (take n (cp_in c))). split_and!; [|done..].
    rewrite <- app_assoc. f_equal. rewrite (app_assoc (take _ _)). 
    rewrite <- (take_drop n (cp_in c)) at 4. f_equal. rewrite <- (take_drop (Nat.min m n) (take n (cp_in c))) at 2.
    by rewrite take_take, (Nat.min_l (Nat.min m n)) by lia.
  - exists []. split; [done|]. split; [done|]. by intros _ ?%bool_decide_eq_true.
  - by exists [].
Qed.

(** [c] is copying the stream [all]. *)
Definition copies (all : list byte) (over : bool) (c : copying) : Prop :=
  cp_out c `prefix_of` all ∧ (over = false → cp_out c ++ cp_in c = all).

Lemma copy_move_copies all mv c : copies all false c → copies all (snd (copy_move mv c)) (fst (copy_move mv c)).
Proof.
  intros [_ Hc]. specialize (Hc eq_refl). pose proof (copy_move_spec mv c) as Hs. destruct (copy_move mv c) as [c' o].
  destruct Hs as (lost & Hl & Ho & _). rewrite Hc in Hl. split; simpl; [by exists (lost ++ cp_in c')|].
  intros ->. by rewrite (Ho eq_refl) in Hl.
Qed.

Lemma splice_run up down ls :
  let s := foldl splice (start up down) ls in copies up (sp_over s) (sp_up s) ∧ copies down (sp_over s) (sp_down s).
Proof.
  assert (∀ s, copies up (sp_over s) (sp_up s) ∧ copies down (sp_over s) (sp_down s) →
    let s := foldl splice s ls in copies up (sp_over s) (sp_up s) ∧ copies down (sp_over s) (sp_down s)) as Hrun.
  { induction ls as [|[sd mv] ls IH]; intros s Hs; [done|]. apply IH. unfold splice.
    destruct (sp_over s) eqn:Eo; [by rewrite Eo|]. destruct Hs as [Hu Hd].
    assert (∀ all c o, copies all false c → copies all o c) as Hweak by (intros ??? [? Hc]; split; auto).
    destruct sd; [pose proof (copy_move_copies up mv (sp_up s) Hu)|pose proof (copy_move_copies down mv (sp_down s) Hd)];
      destruct (copy_move mv _) as [c o]; simpl in *; auto. }
  apply Hrun. split; (split; [apply prefix_nil|done]).
Qed.

(** The handshake reads a prefix of the client's stream and leaves the rest. *)
Definition leaves_suffix {A} (m : reader A) : Prop := ∀ r, snd (m r) `suffix_of` r.

Lemma leaves_rthen {A B} (m : reader A) (k : A → reader B) :
  leaves_suffix m → (∀ a, leaves_suffix (k a)) → leaves_suffix (rthen m k).
Proof.
  intros Hm Hk r. unfold rthen. specialize (Hm r). destruct (m r) as [[a|e] r']; [|done].
  etrans; [apply Hk|done].
Qed.
Lemma leaves_readFull n : leaves_suffix (readFull n).
Proof. intros r. unfold readFull, ReadFull. repeat case_match; simplify_eq/=; try done; apply suffix_drop || apply suffix_nil. Qed.

Lemma leaves_request ip6 : leaves_suffix (readRequest ip6).
Proof.
  unfold readRequest, readHost. repeat (apply leaves_rthen || (intros ?) || apply leaves_readFull || case_match); done.
Qed.

Lemma handle_suffix ip6 parse_ip tun_lookup sys_lookup dial wok1 wok2 input out target rest :
  Socks.handle ip6 parse_ip tun_lookup sys_lookup dial wok1 wok2 input = (out, Spliced target rest) → rest `suffix_of` input.
Proof.
  unfold Socks.handle, negotiateAuth. intros E.
  match goal with _ : context [rthen ?m ?k input] |- _ => assert (leaves_suffix (rthen m k)) as Hg end.
  { apply leaves_rthen; [apply leaves_readFull|]. intros hd. clear E. case_match; [apply leaves_readFull|]. intros r. by exists []. }
  specialize (Hg input). destruct (rthen _ _ input) as [[methods|] r]; [|done]. simpl in Hg.
  pose proof (leaves_request ip6 r) as Hr. destruct (existsb _ _), wok1; try done.
  destruct (readRequest ip6 r) as [[[host port]|] r']; [|done]. simpl in Hr.
  unfold connect in E. repeat case_match; simplify_eq; by etrans.
Qed.

(** However the two directions progress, each destination has got a prefix of its source; nothing is lost
    before a copy ends, and the end of the client's stream finds all of it delivered. *)
Definition transparent (up down : list byte) (s : splicing) : Prop :=
  cp_out (sp_up s) `prefix_of` up ∧ cp_out (sp_down s) `prefix_of` down ∧
  (sp_over s = false →
     cp_out (sp_up s) ++ cp_in (sp_up s) = up ∧ cp_out (sp_down s) ++ cp_in (sp_down s) = down ∧
     (sp_over (splice s (Up, Eof)) = true → cp_out (sp_up (splice s (Up, Eof))) = up)).

Lemma splice_transparent up down ls : transparent up down (foldl splice (start up down) ls).
Proof.
  destruct (splice_run up down ls) as [[Hup Hu] [Hdp Hd]]. set (s := foldl splice (start up down) ls) in *.
  split_and!; [done|done|]. intros Ho. rewrite Ho in *. split_and!; [auto|auto|]. unfold splice. rewrite Ho. simpl.
  intros Hin%bool_decide_eq_true. specialize (Hu eq_refl). by rewrite Hin, app_nil_r in Hu.
Qed.

(** After any handshake the stream that is spliced is the part of the client's that was not read. *)
Theorem splice_starts_after_handshake ip6 parse_ip tun_lookup sys_lookup dial input out target rest more down ls :
  Socks.handle ip6 parse_ip tun_lookup sys_lookup dial true true input = (out, Spliced target rest) →
  rest `suffix_of` input ∧ transparent (rest ++ more) down (foldl splice (start (rest ++ more) down) ls).
Proof. intros Hh. split; [by eapply handle_suffix|apply splice_transparent]. Qed.

Lemma splice_starts_after_handshake_witness :
  [x2a] `suffix_of` greeting [x00] ++ request cmdConnect (AIPv4 x0a x00 x00 x07) 443 ++ [x2a].
Proof.
  exact (proj1 (splice_starts_after_handshake (λ _, "") (λ _, true) (λ _, []) (λ _, []) (λ _, true)
    (greeting [x00] ++ request cmdConnect (AIPv4 x0a x00 x00 x07) 443 ++ [x2a]) _ _ [x2a] [] [x2b; x2c]
    [(Down, Copied 1); (Up, Copied 1)] eq_refl)).
Defined.

(** C38. A proxied connection is what the client asked for: for every client that offers at most 255
    methods and then asks for an address and port, the greeting is refused unless it offers no
    authentication, and commands but CONNECT are; otherwise exactly the requested host and port are
    dialled - an address as it is, a name by the first address of the tunnel's resolver or else the
    system's - and success is reported only if that worked.  Then, however the two directions progress,
    the upstream has got a prefix of exactly the bytes the client sent after its request, and the client a
    prefix of the upstream's; nothing is lost while both copies run, and if the splice ends with the end
    of the client's stream the upstream has got all of it. *)
Theorem proxied_connection ip6 parse_ip tun_lookup sys_lookup dial methods cmd a port rest :
  (length methods ≤ 255)%nat → wf_address a → 0 ≤ port < 65536 →
  Socks.handle ip6 parse_ip tun_lookup sys_lookup dial true true (greeting methods ++ request cmd a port ++ rest) =
  (if negb (existsb (λ m, Byte.eqb m methodNoAuth) methods) then ([ver5; methodNoneMatch], Closed)
   else if negb (Byte.eqb cmd cmdConnect) then ([ver5; methodNoAuth] ++ writeReply repCmdNotSupp, Closed)
   else
     let ip := if parse_ip (host_of ip6 a) then Some (host_of ip6 a)
               else head (tun_lookup (host_of ip6 a) ++ sys_lookup (host_of ip6 a)) in
     match ip with
     | Some ip => if dial (JoinHostPort ip (itoa port))
                  then ([ver5; methodNoAuth] ++ writeReply repSuccess, Spliced (JoinHostPort ip (itoa port)) rest)
                  else ([ver5; methodNoAuth] ++ writeReply repHostUnreach, Closed)
     | None => ([ver5; methodNoAuth] ++ writeReply repHostUnreach, Closed)
     end) ∧
  ∀ more down ls, transparent (rest ++ more) down (foldl splice (start (rest ++ more) down) ls).
Proof. intros Hm Ha Hp. split; [by apply handshake_is_served|]. intros. apply splice_transparent. Qed.

Lemma proxied_connection_witness :
  Socks.handle (λ _, "") (λ h, bool_decide (h = "10.0.0.7")) (λ _, []) (λ _, ["192.0.2.9"%string]) (λ _, true) true true
    (greeting [x00] ++ request cmdConnect (ADomain [x61; x62]) 443 ++ [x2a])
  = ([ver5; methodNoAuth] ++ writeReply repSuccess, Spliced (JoinHostPort "192.0.2.9" (itoa 443)) [x2a]).
Proof.
  rewrite (proj1 (proxied_connection (λ _, "") (λ h, bool_decide (h = "10.0.0.7")) (λ _, []) (λ _, ["192.0.2.9"%string]) (λ _, true)
             [x00] cmdConnect (ADomain [x61; x62]) 443 [x2a] ltac:(simpl; lia) ltac:(simpl; lia) ltac:(lia))). vm_compute. reflexivity.
Defined.

(** A client that has sent all it has and closes its side ends the splice: what the upstream has still to
    say is lost. *)
Theorem half_close_truncates :
  let s := foldl splice (start [x2a] [x2b; x2c]) [(Up, Copied 1); (Down, Copied 1); (Up, Eof); (Down, Copied 1)] in
  sp_over s = true ∧ cp_out (sp_down s) = [x2b].
Proof. done. Qed.
