(* ===== verification/Quicx.v ===== *)
(** * internal/quicx/quicx.go: TLS and QUIC configurations

    A [tlsConfig] has the fields of [tls.Config] that the package sets.  Keys, certificates and the
    verification of chains belong to crypto/tls and crypto/x509: [x509] is the record of the calls made
    to them.  Files are given by what reading them returns. *)
From S2P Require Import Prelude GoTime Proto.

Open Scope Z_scope.

Inductive ExtKeyUsage := ServerAuth | ClientAuth.
#[export] Instance ExtKeyUsage_eq_dec : EqDecision ExtKeyUsage.
Proof. solve_decision. Defined.

Inductive quicx_error := errBadCA | errNoPeerCert | ECrypto (e : string) | EFile (e : string).

(** The library's calls: a pool is the list of its certificates. *)
Record x509 (leaf cert : Type) := mkX509 {
  X509KeyPair : list byte → list byte → result string leaf;
  AppendCertsFromPEM : list byte → list cert;             (* those found; none is a failure *)
  ParseCertificate : list byte → result string cert;
  VerifyCert : cert → list cert → list cert → ExtKeyUsage → option string;  (* roots, intermediates *)
  VerifyHostname : cert → string → option string
}.
Arguments X509KeyPair {leaf cert}. Arguments AppendCertsFromPEM {leaf cert}.
Arguments ParseCertificate {leaf cert}. Arguments VerifyCert {leaf cert}. Arguments VerifyHostname {leaf cert}.

Record tlsConfig (leaf cert : Type) := mkTLS {
  t_Certificates : list leaf;
  t_InsecureSkipVerify : bool;
  t_VerifyPeerCertificate : option (list (list byte) → option quicx_error);
  t_ClientCAs : option (list cert);
  t_RequireClientCert : bool;             (* ClientAuth: tls.RequireAndVerifyClientCert *)
  t_RootCAs : option (list cert);
  t_ServerName : string;
  t_NextProtos : list string;
  t_TLS13 : bool                          (* MinVersion: tls.VersionTLS13 *)
}.
Arguments mkTLS {leaf cert}. Arguments t_Certificates {leaf cert}. Arguments t_InsecureSkipVerify {leaf cert}.
Arguments t_VerifyPeerCertificate {leaf cert}. Arguments t_ClientCAs {leaf cert}. Arguments t_RequireClientCert {leaf cert}.
Arguments t_RootCAs {leaf cert}. Arguments t_ServerName {leaf cert}. Arguments t_NextProtos {leaf cert}. Arguments t_TLS13 {leaf cert}.

(** [Config] of QUIC. *)
Record quicConfig := mkQuicConfig { EnableDatagrams : bool; KeepAlivePeriod : Duration; MaxIdleTimeout : Duration }.
Definition Config : quicConfig := mkQuicConfig true (5 * Second) (20 * Second).

(** [quietDatagramBufWarning]: the environment variable after a call; [done] is the [sync.Once]. *)
Definition quietDatagramBufWarning (done : bool) (var : string) : bool * string :=
  (true, if done then var else if decide (var = "") then "true" else var).

(** [DialDatagram] and [ListenDatagram]: QUIC over a packet connection, with the program's configuration;
    the warning about buffers is silenced before.  [open] is what quic-go does. *)
Definition DialDatagram {T C R} (open : C → string → T → quicConfig → R) (env : bool * string) (pc : C) (remote : string) (tlsConf : T)
  : R * (bool * string) :=
  let env := quietDatagramBufWarning (fst env) (snd env) in (open pc remote tlsConf Config, env).
Definition ListenDatagram {T C R} (open : C → T → quicConfig → R) (env : bool * string) (pc : C) (tlsConf : T) : R * (bool * string) :=
  let env := quietDatagramBufWarning (fst env) (snd env) in (open pc tlsConf Config, env).

Section configs.
Context {leaf cert : Type} (x : x509 leaf cert).

(** The loop of [verifyChain] that parses the certificates. *)
Fixpoint parseAll (raws : list (list byte)) : result string (list cert) :=
  match raws with
  | [] => Ok []
  | raw :: raws =>
      match ParseCertificate x raw with
      | Err e => Err e
      | Ok c => match parseAll raws with Err e => Err e | Ok cs => Ok (c :: cs) end
      end
  end.

Definition verifyChain (roots : list cert) (eku : ExtKeyUsage) (rawCerts : list (list byte)) : option quicx_error :=
  match rawCerts with
  | [] => Some errNoPeerCert
  | _ =>
      match parseAll rawCerts with
      | Err e => Some (ECrypto e)
      | Ok [] => Some errNoPeerCert       (* not reached *)
      | Ok (c :: inter) => ECrypto <$> VerifyCert x c roots inter eku
      end
  end.

(** The key pair and the CA pool that every mutual-TLS configuration starts from. *)
Definition keys (caPEM certPEM keyPEM : list byte) : result quicx_error (leaf * list cert) :=
  match X509KeyPair x certPEM keyPEM with
  | Err e => Err (ECrypto e)
  | Ok lf => match AppendCertsFromPEM x caPEM with [] => Err errBadCA | pool => Ok (lf, pool) end
  end.

Definition ServerMTLS (caPEM certPEM keyPEM : list byte) : result quicx_error (tlsConfig leaf cert) :=
  let? '(lf, pool) := keys caPEM certPEM keyPEM in Ok (mkTLS [lf] false None (Some pool) true None "" [ALPN] true).

Definition ClientMTLS (caPEM certPEM keyPEM : list byte) (serverName : string) : result quicx_error (tlsConfig leaf cert) :=
  let? '(lf, pool) := keys caPEM certPEM keyPEM in Ok (mkTLS [lf] false None None false (Some pool) serverName [ALPN] true).

Definition ClientMTLSNoSNI (caPEM certPEM keyPEM : list byte) : result quicx_error (tlsConfig leaf cert) :=
  let? '(lf, pool) := keys caPEM certPEM keyPEM in
  Ok (mkTLS [lf] true (Some (verifyChain pool ServerAuth)) None false None "" [ALPN] true).

(** The three files, read in this order. *)
Definition readPEM {T} (ca cert key : result string (list byte)) (k : list byte → list byte → list byte → result quicx_error T)
  : result quicx_error T :=
  match ca with
  | Err e => Err (EFile e)
  | Ok ca => match cert with Err e => Err (EFile e) | Ok cert => match key with Err e => Err (EFile e) | Ok key => k ca cert key end end
  end.

Definition ServerMTLSFromFiles (ca cert key : result string (list byte)) := readPEM ca cert key ServerMTLS.
Definition ClientMTLSFromFiles (ca cert key : result string (list byte)) (serverName : string) :=
  readPEM ca cert key (λ a c k, ClientMTLS a c k serverName).
Definition ClientMTLSNoSNIFromFiles (ca cert key : result string (list byte)) := readPEM ca cert key ClientMTLSNoSNI.

(** The development configurations; [selfSigned] is the certificate made for the server. *)
Definition ServerTLS (selfSigned : result string leaf) : result quicx_error (tlsConfig leaf cert) :=
  match selfSigned with
  | Err e => Err (ECrypto e)
  | Ok lf => Ok (mkTLS [lf] false None None false None "" [ALPN] true)
  end.
Definition ClientTLS : tlsConfig leaf cert := mkTLS [] true None None false None "" [ALPN] true.

(** ** Who is let in *)

(** What crypto/tls checks of a peer: a server that requires certificates verifies them against
    [ClientCAs]; a client verifies against [RootCAs], and that the leaf is for the name it asked for -
    [ServerName], or the host it dialled if that is empty - unless it skips that, and runs the callback
    if there is one. *)
Definition server_accepts (cfg : tlsConfig leaf cert) (raws : list (list byte)) : bool :=
  if t_RequireClientCert cfg then
    match t_ClientCAs cfg with Some pool => bool_decide (verifyChain pool ClientAuth raws = None) | None => false end
  else true.
Definition is_for (name : string) (raws : list (list byte)) : bool :=
  match parseAll raws with Ok (c :: _) => bool_decide (VerifyHostname x c name = None) | _ => false end.
Definition client_accepts (cfg : tlsConfig leaf cert) (host : string) (raws : list (list byte)) : bool :=
  let name := if decide (t_ServerName cfg = "") then host else t_ServerName cfg in
  (t_InsecureSkipVerify cfg ||
   match t_RootCAs cfg with Some pool => is_for name raws && bool_decide (verifyChain pool ServerAuth raws = None) | None => false end) &&
  match t_VerifyPeerCertificate cfg with Some f => bool_decide (f raws = None) | None => true end.

(** A peer whose certificates parse and whose first chains to the pool through the others. *)
Definition trusted (pool : list cert) (eku : ExtKeyUsage) (raws : list (list byte)) : Prop :=
  ∃ c inter, Forall2 (λ raw c, ParseCertificate x raw = Ok c) raws (c :: inter) ∧ VerifyCert x c pool inter eku = None.

Lemma parseAll_ok raws cs : parseAll raws = Ok cs ↔ Forall2 (λ raw c, ParseCertificate x raw = Ok c) raws cs.
Proof.
  revert cs. induction raws as [|raw raws IH]; intros cs; simpl.
  - split; [intros [= <-]; constructor|]. by intros ->%Forall2_nil_inv_l.
  - destruct (ParseCertificate x raw) as [c|] eqn:E.
    + destruct (parseAll raws) as [cs'|] eqn:Ep.
      * split; [intros [= <-]; constructor; [done|by apply IH]|]. intros (c' & cs'' & Hc & Hcs & ->)%Forall2_cons_inv_l.
        rewrite Hc in E. injection E as ->. apply IH in Hcs. by injection Hcs as ->.
      * split; [done|]. intros (c' & cs'' & _ & Hcs & ->)%Forall2_cons_inv_l. by apply IH in Hcs.
    + split; [done|]. intros (c' & cs'' & Hc & _ & ->)%Forall2_cons_inv_l. congruence.
Qed.

Lemma verifyChain_spec pool eku raws : verifyChain pool eku raws = None ↔ trusted pool eku raws.
Proof.
  unfold verifyChain, trusted. destruct raws as [|raw raws].
  - split; [done|]. intros (c & inter & H & _). by apply Forall2_nil_inv_l in H.
  - set (rs := raw :: raws). destruct (parseAll rs) as [cs|] eqn:E.
    + apply parseAll_ok in E. destruct cs as [|c inter]; [by apply Forall2_nil_inv_r in E|]. split.
      * intros Hv. exists c, inter. split; [done|]. by destruct (VerifyCert x c pool inter eku).
      * intros (c' & inter' & H & Hv). assert (c' :: inter' = c :: inter) as [= -> ->].
        { apply parseAll_ok in H, E. congruence. }
        by rewrite Hv.
    + split; [done|]. intros (c & inter & H & _). apply parseAll_ok in H. congruence.
Qed.

(** ** Properties *)

(** Mutual TLS lets in only what the CA vouches for: a configuration built from a CA and a key pair
    is TLS 1.3 with the program's protocol, presents the key pair, and accepts exactly the peers whose
    certificates parse and whose leaf the library verifies against that CA for the right usage - the
    server for clients, the client for servers of the right name, and on the direct path for servers
    whatever their name, although that configuration switches the library's own verification off. *)
Theorem mtls_trusts_the_ca_only ca certPEM key lf pool name host raws :
  name ≠ "" → keys ca certPEM key = Ok (lf, pool) →
  ∃ srv cli dir, ServerMTLS ca certPEM key = Ok srv ∧ ClientMTLS ca certPEM key name = Ok cli ∧
    ClientMTLSNoSNI ca certPEM key = Ok dir ∧
    (server_accepts srv raws = true ↔ trusted pool ClientAuth raws) ∧
    (client_accepts cli host raws = true ↔ is_for name raws = true ∧ trusted pool ServerAuth raws) ∧
    (client_accepts dir host raws = true ↔ trusted pool ServerAuth raws) ∧
    Forall (λ cfg, t_TLS13 cfg = true ∧ t_NextProtos cfg = [ALPN] ∧ t_Certificates cfg = [lf]) [srv; cli; dir] ∧
    AppendCertsFromPEM x ca = pool ∧ pool ≠ [].
Proof.
  intros Hn Hk. unfold ServerMTLS, ClientMTLS, ClientMTLSNoSNI. rewrite Hk. simpl. eexists _, _, _.
  do 3 (split; [reflexivity|]). unfold server_accepts, client_accepts. simpl.
  split_and!.
  - by rewrite bool_decide_eq_true, verifyChain_spec.
  - rewrite decide_False by done. by rewrite andb_true_r, andb_true_iff, bool_decide_eq_true, verifyChain_spec.
  - by rewrite bool_decide_eq_true, verifyChain_spec.
  - by repeat constructor.
  - unfold keys in Hk. destruct (X509KeyPair x certPEM key); [|done]. destruct (AppendCertsFromPEM x ca); [done|]. by injection Hk.
  - unfold keys in Hk. destruct (X509KeyPair x certPEM key); [|done]. destruct (AppendCertsFromPEM x ca); [done|]. by injection Hk as _ <-.
Qed.
End configs.

(** ** A library in which a certificate is a list of bytes, trusted if it is in the pool *)

Definition demo_x509 : x509 unit (list byte) :=
  mkX509 _ _ (λ _ _, Ok tt) (λ pem, [pem]) (λ raw, Ok raw)
    (λ c roots _ _, if decide (c ∈ roots) then None else Some "unknown authority")
    (λ _ name, if decide (name = "broker"%string) then None else Some "not valid for this name").

Lemma mtls_trusts_the_ca_only_witness :
  ∃ srv cli dir, ServerMTLS demo_x509 [x01] [] [] = Ok srv ∧ ClientMTLS demo_x509 [x01] [] [] "broker" = Ok cli ∧
    ClientMTLSNoSNI demo_x509 [x01] [] [] = Ok dir ∧
    (server_accepts demo_x509 srv [[x02]] = true ↔ trusted demo_x509 [[x01]] ClientAuth [[x02]]) ∧
    (client_accepts demo_x509 cli "" [[x02]] = true ↔ is_for demo_x509 "broker" [[x02]] = true ∧ trusted demo_x509 [[x01]] ServerAuth [[x02]]) ∧
    (client_accepts demo_x509 dir "" [[x02]] = true ↔ trusted demo_x509 [[x01]] ServerAuth [[x02]]) ∧
    Forall (λ cfg, t_TLS13 cfg = true ∧ t_NextProtos cfg = [ALPN] ∧ t_Certificates cfg = [tt]) [srv; cli; dir] ∧
    AppendCertsFromPEM demo_x509 [x01] = [[x01]] ∧ [[x01]] ≠ [].
Proof. by apply (mtls_trusts_the_ca_only demo_x509 [x01] [] [] tt [[x01]] "broker" "" [[x02]]). Defined.
