(* ===== verification/Pki.v ===== *)
(** * internal/pki and cmd/revquic-certgen: the certificates of mutual TLS

    Keys, signatures, PEM and the encoding of certificates belong to the standard library's crypto
    packages: the class [Crypto] has the calls made to them, [CryptoLaws] what their documentation
    promises.  As in Go, a [Certificate] is both a template and what parsing returns.  The randomness
    and the clock readings of a call are the fields of [rnd].  The theorem composes the files that
    certgen writes with the configurations [Quicx] makes of them. *)
From S2P Require Import Prelude GoTime Strs Proto Quicx.
From Stdlib Require Import Ascii.

Open Scope string_scope.
Open Scope list_scope.
Open Scope Z_scope.

Inductive KeyUsage := KeyUsageCertSign | KeyUsageCRLSign | KeyUsageDigitalSignature.
#[export] Instance KeyUsage_eq_dec : EqDecision KeyUsage.
Proof. solve_decision. Defined.

(** The fields of [x509.Certificate] that the program sets in templates, with those that only a parsed
    certificate has: the issuer's name, the public key and the encoding. *)
Record Certificate (pub : Type) := mkCertificate {
  c_SerialNumber : Z;
  c_CommonName : string;
  c_Organization : list string;
  c_NotBefore : Time;
  c_NotAfter : Time;
  c_KeyUsage : list KeyUsage;
  c_ExtKeyUsage : list ExtKeyUsage;
  c_BasicConstraintsValid : bool;
  c_IsCA : bool;
  c_MaxPathLenZero : bool;
  c_DNSNames : list string;
  c_IPAddresses : list string;
  c_Issuer : string * list string;
  c_PublicKey : option pub;
  c_Raw : list byte
}.
Arguments mkCertificate {pub}. Arguments c_SerialNumber {pub}. Arguments c_CommonName {pub}. Arguments c_Organization {pub}.
Arguments c_NotBefore {pub}. Arguments c_NotAfter {pub}. Arguments c_KeyUsage {pub}. Arguments c_ExtKeyUsage {pub}.
Arguments c_BasicConstraintsValid {pub}. Arguments c_IsCA {pub}. Arguments c_MaxPathLenZero {pub}. Arguments c_DNSNames {pub}.
Arguments c_IPAddresses {pub}. Arguments c_Issuer {pub}. Arguments c_PublicKey {pub}. Arguments c_Raw {pub}.

Definition template {pub} (sn : Z) (cn : string) (org : list string) (notBefore notAfter : Time) (usage : list KeyUsage)
  (eku : list ExtKeyUsage) (constraints ca zero : bool) (dns ips : list string) : Certificate pub :=
  mkCertificate sn cn org notBefore notAfter usage eku constraints ca zero dns ips ("", []) None [].

Class Crypto (priv pub : Type) := {
  Public : priv → pub;
  MarshalECPrivateKey : priv → result string (list byte);
  ParseECPrivateKey : list byte → result string priv;
  EncodeToMemory : string → list byte → list byte;     (* a PEM block of a type *)
  Decode : list byte → option (list byte);              (* the bytes of the first PEM block *)
  CreateCertificate : Z → Certificate pub → Certificate pub → pub → priv → result string (list byte);
  CheckSignature : list byte → pub → bool;
  cr_KeyPair : list byte → list byte → result string (list (list byte) * priv);
  cr_Pool : list byte → list (Certificate pub);
  cr_Parse : list byte → result string (Certificate pub);
  cr_Verify : Time → Certificate pub → list (Certificate pub) → list (Certificate pub) → ExtKeyUsage → option string;
  cr_VerifyHostname : Certificate pub → string → option string;
  is_ip : string → bool                                 (* [net.ParseIP] reads it, in brackets or not *)
}.

(** The calls of [Quicx] at a reading of the clock. *)
Definition library {priv pub} `{Crypto priv pub} (now : Time) : x509 (list (list byte) * priv) (Certificate pub) :=
  mkX509 _ _ cr_KeyPair cr_Pool cr_Parse (cr_Verify now) cr_VerifyHostname.

(** The files of a directory, with their modes. *)
Notation files := (gmap string (list byte * Z)) (only parsing).

(** ** Issuing *)

Section pki.
Context {priv pub : Type} `{Crypto priv pub}.

(** What one call draws: the key, the serial number, the signature's randomness, two clock readings. *)
Record rnd := mkRnd {
  r_key : result string priv; r_serial : result string Z; r_seed : Z; r_now : Time; r_later : Time
}.

Definition marshalKey (key : priv) : result string (list byte) :=
  let? der := MarshalECPrivateKey key in Ok (EncodeToMemory "EC PRIVATE KEY" der).

Definition certPEM (der : list byte) : list byte := EncodeToMemory "CERTIFICATE" der.

Definition GenerateCA (r : rnd) (commonName : string) (validFor : Duration) : result string (list byte * list byte) :=
  let? key := r_key r in
  let? sn := r_serial r in
  let tmpl := template sn commonName ["Revquic"] (Add (r_now r) (- Minute)) (Add (r_later r) validFor)
                [KeyUsageCertSign; KeyUsageCRLSign; KeyUsageDigitalSignature] [] true true true [] [] in
  let? der := CreateCertificate (r_seed r) tmpl tmpl (Public key) key in
  let? keyPEM := marshalKey key in
  Ok (certPEM der, keyPEM).

Definition parseCA (caCertPEM caKeyPEM : list byte) : result string (Certificate pub * priv) :=
  match Decode caCertPEM with
  | None => Err "pki: bad CA cert PEM"
  | Some cb =>
      let? cert := cr_Parse cb in
      match Decode caKeyPEM with
      | None => Err "pki: bad CA key PEM"
      | Some kb => let? key := ParseECPrivateKey kb in Ok (cert, key)
      end
  end.

Definition usages (server client : bool) : list ExtKeyUsage :=
  (if server then [ServerAuth] else []) ++ (if client then [ClientAuth] else []).

Definition IssueLeaf (r : rnd) (caCertPEM caKeyPEM : list byte) (commonName : string) (dnsNames ipSANs : list string)
  (server client : bool) (validFor : Duration) : result string (list byte * list byte) :=
  let? '(caCert, caKey) := parseCA caCertPEM caKeyPEM in
  let? key := r_key r in
  let? sn := r_serial r in
  let tmpl := template sn commonName ["Revquic"] (Add (r_now r) (- Minute)) (Add (r_later r) validFor)
                [KeyUsageDigitalSignature] (usages server client) false false false dnsNames ipSANs in
  let? der := CreateCertificate (r_seed r) tmpl caCert (Public key) caKey in
  let? keyPEM := marshalKey key in
  Ok (certPEM der, keyPEM).

(** [selfSigned] of quicx, the certificate of the development server. *)
Definition selfSigned (r : rnd) : result string (list (list byte) * priv) :=
  let? key := r_key r in
  let tmpl := template 1 "revquic-spike" [] (Add (r_now r) (- Hour)) (Add (r_later r) (24 * Hour))
                [KeyUsageDigitalSignature; KeyUsageCertSign] [ServerAuth; ClientAuth] false true false ["localhost"] [] in
  let? der := CreateCertificate (r_seed r) tmpl tmpl (Public key) key in
  Ok ([der], key).

(** ** revquic-certgen *)

(** The effects of main: a call that fails ends the program. *)
Definition M (A : Type) : Type := files → result string A * files.
#[global] Instance M_ret : MRet M := λ A a fs, (Ok a, fs).
#[global] Instance M_bind : MBind M := λ A B k m fs, match m fs with (Ok a, fs) => k a fs | (Err e, fs) => (Err e, fs) end.

Definition lift {A} (r : result string A) : M A := λ fs, (r, fs).

(** The modes 0644 and 0600. *)
Definition public_mode : Z := 6 * 64 + 4 * 8 + 4.
Definition private_mode : Z := 6 * 64.

(** How a file is written: [umask] is the process's, [fails] the error with which writing a file ends, if
    it does, and what the file holds then, if it could be opened.  [os.WriteFile] gives its mode to a
    file that it creates; one that exists keeps its own. *)
Record disk := mkDisk { umask : Z; fails : string → option (string * option (list byte)) }.

Definition write (d : disk) (name : string) (data : list byte) (mode : Z) : M unit := λ fs,
  let mode := from_option snd (Z.land mode (Z.lnot (umask d))) (fs !! name) in
  match fails d name with
  | Some (e, None) => (Err e, fs)
  | Some (e, Some rest) => (Err e, <[name := (rest, mode)]> fs)
  | None => (Ok tt, <[name := (data, mode)]> fs)
  end.

Definition splitCSV (s : string) : list string :=
  List.filter (λ p, negb (bool_decide (p = ""))) (TrimSpace <$> split_on ","%char s).

(** One pass of the loop over [specs]. *)
Definition leaf_files (d : disk) (ca : list byte * list byte) (r : rnd) (who : string)
  (server client : bool) (valid : Duration) : M unit :=
  kp ← lift (IssueLeaf r (fst ca) (snd ca) who [] [] server client valid);
  write d (who +:+ "-cert.pem") (fst kp) public_mode;;
  write d (who +:+ "-key.pem") (snd kp) private_mode.

Definition certgen (mkdir : option string) (d : disk) (brokerSANs : string) (validDays : Z)
  (r_ca r_broker r_node r_client : rnd) : M unit :=
  lift (match mkdir with Some e => Err e | None => Ok tt end);;
  let valid := i64 (validDays * 24 * Hour) in
  ca ← lift (GenerateCA r_ca "Revquic CA" valid);
  write d "ca.pem" (fst ca) public_mode;;
  write d "ca-key.pem" (snd ca) private_mode;;
  kp ← lift (IssueLeaf r_broker (fst ca) (snd ca) "broker" (splitCSV brokerSANs) ["127.0.0.1"] true false valid);
  write d "broker-cert.pem" (fst kp) public_mode;;
  write d "broker-key.pem" (snd kp) private_mode;;
  leaf_files d ca r_node "node" true true valid;;
  leaf_files d ca r_client "client" false true valid.
End pki.
Arguments rnd : clear implicits.

(** ** What the library promises *)

(** A parsed certificate: what the template said, to the second. *)
Definition parsed {pub} (tmpl parent : Certificate pub) (pk : pub) (der : list byte) : Certificate pub :=
  mkCertificate (c_SerialNumber tmpl) (c_CommonName tmpl) (c_Organization tmpl) (Truncate (c_NotBefore tmpl) Second)
    (Truncate (c_NotAfter tmpl) Second) (c_KeyUsage tmpl) (c_ExtKeyUsage tmpl) (c_BasicConstraintsValid tmpl) (c_IsCA tmpl)
    (c_MaxPathLenZero tmpl) (c_DNSNames tmpl) (c_IPAddresses tmpl) (c_CommonName parent, c_Organization parent) (Some pk) der.

Definition within {pub} (now : Time) (c : Certificate pub) : Prop := c_NotBefore c ≤ now ≤ c_NotAfter c.

(** A CA certificate that may sign, is valid and restricts no usage. *)
Definition can_sign {pub} (now : Time) (root : Certificate pub) : Prop :=
  c_BasicConstraintsValid root = true ∧ c_IsCA root = true ∧ KeyUsageCertSign ∈ c_KeyUsage root ∧
  c_ExtKeyUsage root = [] ∧ within now root.

Definition vouches {priv pub} `{Crypto priv pub} (now : Time) (root c : Certificate pub) (eku : ExtKeyUsage) : Prop :=
  can_sign now root ∧ within now c ∧ eku ∈ c_ExtKeyUsage c ∧
  c_Issuer c = (c_CommonName root, c_Organization root) ∧
  ∃ pk, c_PublicKey root = Some pk ∧ CheckSignature (c_Raw c) pk = true.

Class CryptoLaws (priv pub : Type) `{Crypto priv pub} := {
  pem_roundtrip ty b : Decode (EncodeToMemory ty b) = Some b;
  key_roundtrip k der : MarshalECPrivateKey k = Ok der → ParseECPrivateKey der = Ok k;
  parse_created seed tmpl parent pk k der :
    CreateCertificate seed tmpl parent pk k = Ok der → cr_Parse der = Ok (parsed tmpl parent pk der);
  created_signed seed tmpl parent pk k der :
    CreateCertificate seed tmpl parent pk k = Ok der → CheckSignature der (Public k) = true;
  pool_of_pem der c : cr_Parse der = Ok c → cr_Pool (EncodeToMemory "CERTIFICATE" der) = [c];
  key_pair der c k kder :
    cr_Parse der = Ok c → c_PublicKey c = Some (Public k) → MarshalECPrivateKey k = Ok kder →
    cr_KeyPair (EncodeToMemory "CERTIFICATE" der) (EncodeToMemory "EC PRIVATE KEY" kder) = Ok ([der], k);
  verify_accepts now c root roots inter eku :
    root ∈ roots → vouches now root c eku → cr_Verify now c roots inter eku = None;
  verify_usage now c roots inter eku :
    cr_Verify now c roots inter eku = None → c_ExtKeyUsage c = [] ∨ eku ∈ c_ExtKeyUsage c;
  loopback_ip : is_ip "127.0.0.1" = true;
  host_ip c ip : is_ip ip = true → ip ∈ c_IPAddresses c → cr_VerifyHostname c ip = None;
  host_dns c name : is_ip name = false → name ≠ "" → name ≠ "." → name ∈ c_DNSNames c → cr_VerifyHostname c name = None;
  host_none c name : c_DNSNames c = [] → c_IPAddresses c = [] → cr_VerifyHostname c name ≠ None
}.

Section issuing.
Context {priv pub : Type} `{CryptoLaws priv pub}.
Notation rnd := (rnd priv).

(** A CA that can issue until a time. *)
Definition authority (now : Time) (cp kp : list byte) (root : Certificate pub) (key : priv) : Prop :=
  parseCA cp kp = Ok (root, key) ∧ cr_Pool cp = [root] ∧ c_PublicKey root = Some (Public key) ∧ can_sign now root.

(** A leaf as the configurations use it: a key pair whose certificate is good for exactly its usages. *)
Definition issued (now : Time) (root : Certificate pub) (eku : list ExtKeyUsage) (dns ips : list string) (cp kp : list byte) : Prop :=
  ∃ der c k, cr_KeyPair cp kp = Ok ([der], k) ∧ cr_Parse der = Ok c ∧ c_DNSNames c = dns ∧ c_IPAddresses c = ips ∧
    ∀ u, verifyChain (library now) [root] u [der] = None ↔ u ∈ eku.

(** The times between which what a call issues is valid. *)
Definition valid_at (now : Time) (validFor : Duration) (r : rnd) : Prop :=
  Truncate (Add (r_now r) (- Minute)) Second ≤ now ≤ Truncate (Add (r_later r) validFor) Second.

Ltac ok_step H := match type of H with
  | rbind ?r _ = Ok _ => let E := fresh "E" in destruct r eqn:E; simpl in H; [|discriminate H]
  end.

Lemma GenerateCA_authority now r cn v cp kp :
  GenerateCA r cn v = Ok (cp, kp) → valid_at now v r → ∃ root key, authority now cp kp root key.
Proof.
  unfold GenerateCA, marshalKey. intros E Hv. repeat ok_step E. injection E as <- <-.
  ok_step E3. injection E3 as <-. pose proof (parse_created _ _ _ _ _ _ E2) as Hp.
  eexists _, _. unfold authority, parseCA, certPEM. rewrite !pem_roundtrip, Hp. simpl.
  rewrite (key_roundtrip _ _ E). simpl. split_and!; [done|by apply pool_of_pem|done|].
  unfold can_sign, within. simpl. split_and!; [done..|constructor|done|apply Hv|apply Hv].
Qed.

Lemma IssueLeaf_issued now root key r ca cak cn dns ips server client v cp kp :
  authority now ca cak root key → IssueLeaf r ca cak cn dns ips server client v = Ok (cp, kp) →
  valid_at now v r → (server || client) = true → issued now root (usages server client) dns ips cp kp.
Proof.
  intros (Hpa & _ & Hk & Hs) E Hv Hu. unfold IssueLeaf, marshalKey in E. rewrite Hpa in E. simpl in E.
  repeat ok_step E. injection E as <- <-. ok_step E3. injection E3 as <-.
  pose proof (parse_created _ _ _ _ _ _ E2) as Hp. pose proof (created_signed _ _ _ _ _ _ E2) as Hsig.
  eexists _, _, _. split_and!; [by eapply key_pair|done|done|done|].
  intros u. unfold verifyChain. simpl. rewrite Hp. split.
  - destruct (cr_Verify now _ [root] [] u) eqn:Ev; [done|]. intros _.
    apply verify_usage in Ev as [Ev|Ev]; [|done]. by destruct server, client.
  - intros Hin. rewrite (verify_accepts _ _ root); [done|constructor|].
    split_and!; [done|apply Hv|done|done|by exists (Public key)].
Qed.

(** The configurations made of issued files. *)
Lemma keys_issued now root eku dns ips ca cp kp :
  cr_Pool ca = [root] → issued now root eku dns ips cp kp →
  ∃ der c k, keys (library now) ca cp kp = Ok (([der], k), [root]) ∧ cr_Parse der = Ok c ∧ c_DNSNames c = dns ∧ c_IPAddresses c = ips ∧
    ∀ u, verifyChain (library now) [root] u [der] = None ↔ u ∈ eku.
Proof. intros Hp (der & c & k & Hk & Hc & Hd & Hi & Hu). exists der, c, k. unfold keys. simpl. by rewrite Hk, Hp. Qed.

(** The contents of a file. *)
Definition contents (fs : files) (name : string) : result string (list byte) :=
  match fs !! name with Some (data, _) => Ok data | None => Err "no such file" end.

(** The certificates an end presents. *)
Definition presented (cfg : tlsConfig (list (list byte) * priv) (Certificate pub)) : list (list byte) :=
  match t_Certificates cfg with lf :: _ => fst lf | [] => [] end.

Ltac name_files :=
  change ("node" +:+ "-cert.pem") with "node-cert.pem" in *; change ("node" +:+ "-key.pem") with "node-key.pem" in *;
  change ("client" +:+ "-cert.pem") with "client-cert.pem" in *; change ("client" +:+ "-key.pem") with "client-key.pem" in *;
  change ("broker" +:+ "-cert.pem") with "broker-cert.pem" in *; change ("broker" +:+ "-key.pem") with "broker-key.pem" in *.

Definition key_files : list string := ["ca-key.pem"; "broker-key.pem"; "node-key.pem"; "client-key.pem"].

(** Nobody but the owner has a permission. *)
Definition private (mode : Z) : Prop := Z.land mode (7 * 8 + 7) = 0.

Lemma umask_private m u : private m → private (Z.land m (Z.lnot u)).
Proof. unfold private. intros Hm. by rewrite <- Z.land_assoc, (Z.land_comm (Z.lnot u)), Z.land_assoc, Hm. Qed.

(** What a run of certgen that ends well has written. *)
Lemma certgen_files d sans days r_ca r_b r_n r_c fs0 fs :
  certgen None d sans days r_ca r_b r_n r_c fs0 = (Ok tt, fs) →
  let valid := i64 (days * 24 * Hour) in
  ∃ ca cak bc bk nc nk cc ck,
    GenerateCA r_ca "Revquic CA" valid = Ok (ca, cak) ∧
    IssueLeaf r_b ca cak "broker" (splitCSV sans) ["127.0.0.1"] true false valid = Ok (bc, bk) ∧
    IssueLeaf r_n ca cak "node" [] [] true true valid = Ok (nc, nk) ∧
    IssueLeaf r_c ca cak "client" [] [] false true valid = Ok (cc, ck) ∧
    (contents fs <$> ["ca.pem"; "broker-cert.pem"; "broker-key.pem"; "node-cert.pem"; "node-key.pem"; "client-cert.pem"; "client-key.pem"]) =
      (Ok <$> [ca; bc; bk; nc; nk; cc; ck]) ∧
    Forall (λ f, snd <$> fs !! f = Some (from_option snd (Z.land private_mode (Z.lnot (umask d))) (fs0 !! f))) key_files.
Proof.
  intros E valid. unfold certgen, leaf_files, lift, write, mbind, M_bind in E. fold valid in E. name_files. simpl in E.
  destruct (GenerateCA r_ca _ valid) as [[ca cak]|]; [|done]. simpl in E.
  destruct (fails d "ca.pem") as [[? []]|]; [done..|]. destruct (fails d "ca-key.pem") as [[? []]|]; [done..|].
  destruct (IssueLeaf r_b _ _ _ _ _ _ _ valid) as [[bc bk]|] eqn:Eb; [|done]. simpl in E.
  destruct (fails d "broker-cert.pem") as [[? []]|]; [done..|]. destruct (fails d "broker-key.pem") as [[? []]|]; [done..|].
  destruct (IssueLeaf r_n _ _ _ _ _ _ _ valid) as [[nc nk]|] eqn:En; [|done]. simpl in E.
  destruct (fails d "node-cert.pem") as [[? []]|]; [done..|]. destruct (fails d "node-key.pem") as [[? []]|]; [done..|].
  destruct (IssueLeaf r_c _ _ _ _ _ _ _ valid) as [[cc ck]|] eqn:Ec; [|done]. simpl in E.
  destruct (fails d "client-cert.pem") as [[? []]|]; [done..|]. destruct (fails d "client-key.pem") as [[? []]|]; [done..|]. injection E as <-.
  exists ca, cak, bc, bk, nc, nk, cc, ck. split_and!; try done.
  - unfold contents. simpl. by simplify_map_eq.
  - repeat constructor; by simplify_map_eq.
Qed.

(** The names under which the broker's certificate is good: those asked for, and the loopback address. *)
Definition broker_name (sans name : string) : Prop :=
  name = "127.0.0.1" ∨ (name ∈ splitCSV sans ∧ is_ip name = false ∧ name ≠ ".").

Lemma splitCSV_nonempty sans name : name ∈ splitCSV sans → name ≠ "".
Proof. unfold splitCSV. intros [_ Hn]%list_elem_of_In%filter_In ->. done. Qed.

End issuing.

(** ** A library without secrets

    Keys are numbers, an encoded certificate is its fields with the key that signed it, and a chain is
    verified by looking for a root that vouches.  It satisfies the laws. *)

Definition usage_code (u : KeyUsage) : nat :=
  match u with KeyUsageCertSign => 0 | KeyUsageCRLSign => 1 | KeyUsageDigitalSignature => 2 end.
Definition code_usage (n : nat) : KeyUsage :=
  match n with 0 => KeyUsageCertSign | 1 => KeyUsageCRLSign | _ => KeyUsageDigitalSignature end%nat.
Definition is_server (e : ExtKeyUsage) : bool := match e with ServerAuth => true | ClientAuth => false end.
Definition eku_of (b : bool) : ExtKeyUsage := if b then ServerAuth else ClientAuth.


Notation tree := (gen_tree (string + Z)) (only parsing).
Definition of_int (z : Z) : tree := GenLeaf (inr z).
Definition to_int (t : tree) : Z := match t with GenLeaf (inr z) => z | _ => 0 end.
Definition of_str (s : string) : tree := GenLeaf (inl s).
Definition to_str (t : tree) : string := match t with GenLeaf (inl s) => s | _ => "" end.
Definition of_list {A} (f : A → tree) (l : list A) : tree := GenNode 0 (f <$> l).
Definition to_list {A} (f : tree → A) (t : tree) : list A := match t with GenNode _ l => f <$> l | _ => [] end.
Definition of_bool (b : bool) : tree := of_int (Z.b2z b).
Definition to_bool (t : tree) : bool := to_int t =? 1.
Definition of_usage (u : KeyUsage) : tree := of_int (Z.of_nat (usage_code u)).
Definition to_usage (t : tree) : KeyUsage := code_usage (Z.to_nat (to_int t)).
Definition of_eku (e : ExtKeyUsage) : tree := of_bool (is_server e).
Definition to_eku (t : tree) : ExtKeyUsage := eku_of (to_bool t).

Definition fields_of (c : Certificate Z) (signer : Z) : tree :=
  GenNode 0 [of_int (c_SerialNumber c); of_str (c_CommonName c); of_list of_str (c_Organization c); of_int (c_NotBefore c);
    of_int (c_NotAfter c); of_list of_usage (c_KeyUsage c); of_list of_eku (c_ExtKeyUsage c);
    of_bool (c_BasicConstraintsValid c); of_bool (c_IsCA c); of_bool (c_MaxPathLenZero c); of_list of_str (c_DNSNames c);
    of_list of_str (c_IPAddresses c); of_str (fst (c_Issuer c)); of_list of_str (snd (c_Issuer c));
    of_list of_int (option_list (c_PublicKey c)); of_int signer].
Definition of_fields (der : list byte) (t : tree) : option (Certificate Z * Z) :=
  match t with
  | GenNode _ [sn; cn; o; nb; na; ku; eku; bc; ca; z; dns; ips; icn; io; pk; signer] =>
      Some (mkCertificate (to_int sn) (to_str cn) (to_list to_str o) (to_int nb) (to_int na) (to_list to_usage ku)
        (to_list to_eku eku) (to_bool bc) (to_bool ca) (to_bool z) (to_list to_str dns) (to_list to_str ips)
        (to_str icn, to_list to_str io) (head (to_list to_int pk)) der, to_int signer)
  | _ => None
  end.

Lemma to_of_list {A} (f : A → tree) g l : (∀ a, g (f a) = a) → to_list g (of_list f l) = l.
Proof. intros Hf. simpl. rewrite <- list_fmap_compose. rewrite <- (list_fmap_id l) at 2. apply list_fmap_ext. intros; apply Hf. Qed.

Lemma of_fields_of der c signer :
  of_fields der (fields_of c signer) = Some (mkCertificate (c_SerialNumber c) (c_CommonName c) (c_Organization c) (c_NotBefore c)
    (c_NotAfter c) (c_KeyUsage c) (c_ExtKeyUsage c) (c_BasicConstraintsValid c) (c_IsCA c) (c_MaxPathLenZero c) (c_DNSNames c)
    (c_IPAddresses c) (c_Issuer c) (c_PublicKey c) der, signer).
Proof.
  assert (∀ b, to_bool (of_bool b) = b) as Hb by by intros [].
  unfold of_fields, fields_of. rewrite !to_of_list, !Hb by by (done || intros []). simpl.
  by destruct c as [? ? ? ? ? ? ? ? ? ? ? ? [] [] ?].
Qed.

Fixpoint bits (p : positive) : list byte :=
  match p with xH => [] | xO p => x00 :: bits p | xI p => x01 :: bits p end.
Fixpoint unbits (l : list byte) : positive :=
  match l with [] => xH | x00 :: l => xO (unbits l) | _ :: l => xI (unbits l) end.
Lemma unbits_bits p : unbits (bits p) = p.
Proof. induction p; simpl; congruence. Qed.

Definition toy_der (c : Certificate Z) (signer : Z) : list byte := bits (encode (fields_of c signer)).
Definition toy_read (der : list byte) : option (Certificate Z * Z) := decode (A := tree) (unbits der) ≫= of_fields der.
Definition toy_parse (der : list byte) : result string (Certificate Z) :=
  match toy_read der with Some (c, _) => Ok c | None => Err "asn1: syntax error" end.
Definition toy_signed (der : list byte) (pk : Z) : bool :=
  match toy_read der with Some (_, signer) => bool_decide (signer = pk) | None => false end.
Definition toy_marshal (k : Z) : list byte := bits (encode k).
Definition toy_key (der : list byte) : result string Z :=
  match decode (A := Z) (unbits der) with Some k => Ok k | None => Err "asn1: syntax error" end.

Definition toy_withinb (now : Time) (c : Certificate Z) : bool := (c_NotBefore c <=? now) && (now <=? c_NotAfter c).
Definition toy_vouchesb (now : Time) (c : Certificate Z) (eku : ExtKeyUsage) (root : Certificate Z) : bool :=
  c_BasicConstraintsValid root && c_IsCA root && bool_decide (KeyUsageCertSign ∈ c_KeyUsage root) &&
  bool_decide (c_ExtKeyUsage root = []) && toy_withinb now root && toy_withinb now c &&
  bool_decide (eku ∈ c_ExtKeyUsage c) && bool_decide (c_Issuer c = (c_CommonName root, c_Organization root)) &&
  match c_PublicKey root with Some pk => toy_signed (c_Raw c) pk | None => false end.

#[local] Instance toy : Crypto Z Z := {
  Public := λ k, k;
  MarshalECPrivateKey := λ k, Ok (toy_marshal k);
  ParseECPrivateKey := toy_key;
  EncodeToMemory := λ _ b, b;
  Decode := Some;
  CreateCertificate := λ _ tmpl parent pk k, Ok (toy_der (parsed tmpl parent pk []) k);
  CheckSignature := toy_signed;
  cr_KeyPair := λ cp kp, match toy_key kp with Ok k => Ok ([cp], k) | Err e => Err e end;
  cr_Pool := λ pem, match toy_parse pem with Ok c => [c] | Err _ => [] end;
  cr_Parse := toy_parse;
  cr_Verify := λ now c roots _ eku, if existsb (toy_vouchesb now c eku) roots then None else Some "x509: unknown authority";
  cr_VerifyHostname := λ c name, if decide (name ∈ c_IPAddresses c ++ c_DNSNames c) then None else Some "x509: not valid for this name";
  is_ip := λ name, bool_decide (name = "127.0.0.1")
}.

Lemma toy_read_der tmpl parent pk k :
  toy_read (toy_der (parsed tmpl parent pk []) k) =
    Some (parsed tmpl parent pk (toy_der (parsed tmpl parent pk []) k), k).
Proof.
  set (der := toy_der _ k). assert (decode (A := tree) (unbits der) = Some (fields_of (parsed tmpl parent pk []) k)) as E
    by (unfold der, toy_der; by rewrite unbits_bits, decode_encode).
  unfold toy_read. rewrite E. exact (of_fields_of der (parsed tmpl parent pk []) k).
Qed.

Lemma toy_key_marshal k : toy_key (toy_marshal k) = Ok k.
Proof. unfold toy_key, toy_marshal. by rewrite unbits_bits, decode_encode. Qed.

#[local] Instance toy_laws : CryptoLaws Z Z.
Proof.
  split; cbn [toy Public MarshalECPrivateKey ParseECPrivateKey EncodeToMemory Decode CreateCertificate CheckSignature
    cr_KeyPair cr_Pool cr_Parse cr_Verify cr_VerifyHostname is_ip].
  - done.
  - intros k der [= <-]. apply toy_key_marshal.
  - intros seed tmpl parent pk k der [= <-]. unfold toy_parse. by rewrite toy_read_der.
  - intros seed tmpl parent pk k der [= <-]. unfold toy_signed. rewrite toy_read_der. by apply bool_decide_eq_true.
  - by intros der c ->.
  - intros der c k kder _ _ [= <-]. by rewrite toy_key_marshal.
  - intros now c root roots inter eku Hr ((Hv & Hc & Hs & He & [Hn1 Hn2]) & [Hm1 Hm2] & Hu & Hi & pk & Hpk & Hsig).
    replace (existsb _ _) with true; [done|]. symmetry. apply existsb_exists. exists root. split; [by apply list_elem_of_In|].
    unfold toy_vouchesb, toy_withinb. simpl in Hsig. rewrite Hpk, Hsig, Hv, Hc, !bool_decide_eq_true_2 by done.
    by rewrite !(proj2 (Z.leb_le _ _)) by done.
  - intros now c roots inter eku. destruct (existsb _ _) eqn:E; [|done]. intros _. right.
    apply existsb_exists in E as (root & _ & E). unfold toy_vouchesb in E. rewrite !andb_true_iff in E.
    destruct E as [[[_ E] _] _]. by apply bool_decide_eq_true in E.
  - done.
  - intros c ip _ Hin. rewrite decide_True; [done|]. set_solver.
  - intros c name _ _ _ Hin. rewrite decide_True; [done|]. set_solver.
  - intros c name -> ->. by rewrite decide_False by apply not_elem_of_nil.
Qed.

Definition demo_rnd (k : Z) : rnd Z := mkRnd (Ok k) (Ok (k + 100)) 0 (1000 * Second) (1000 * Second).
(** A directory with an old key that everybody may read. *)
Definition demo_dir : files := {["node-key.pem" := ([], public_mode)]}.
Definition demo_disk : disk := mkDisk (2 * 8 + 2) (λ _, None).
Definition demo_certgen : result string unit * files :=
  certgen None demo_disk "server, localhost,,broker" 1 (demo_rnd 1) (demo_rnd 2) (demo_rnd 3) (demo_rnd 4) demo_dir.

