(* ===== verification/Explain.v ===== *)
(** * internal/quicx/explain.go: telling the user why the broker cannot be reached

    An error is its text and what the code asks of it ([errors.As], [errors.Is]): the text of a DNS
    error in its chain, whether it is a deadline, whether it is a network timeout.  [quoted] is the
    verb [%q]. *)
From S2P Require Import Prelude Strs.
From Stdlib Require Import Strings.Ascii.

Open Scope string_scope.

Record go_error := mkError { er_text : string; er_dns : option string; er_deadline : bool; er_timeout : bool }.

(** [strings.Contains] *)
Fixpoint Contains (sub s : string) : bool :=
  HasPrefix sub s || match s with EmptyString => false | String _ s => Contains sub s end.

(** What is before and after the last [c]. *)
Fixpoint cut_last (c : ascii) (s : string) : option (string * string) :=
  match s with
  | EmptyString => None
  | String a r =>
      match cut_last c r with
      | Some (l, r) => Some (String a l, r)
      | None => if Ascii.eqb a c then Some ("", r) else None
      end
  end.

(** [net.SplitHostPort]; [None] is an error. *)
Definition SplitHostPort (s : string) : option (string * string) :=
  match cut_last ":" s with
  | None => None
  | Some (host, port) =>
      match s with
      | String "["%char r =>
          match cut_on "]" r with
          | Some (host, String ":"%char port) =>
              if lacks ":" port && lacks "[" host && lacks "[" port && lacks "]" port then Some (host, port) else None
          | _ => None
          end
      | _ => if lacks ":" host && lacks "[" s && lacks "]" s then Some (host, port) else None
      end
  end.

Definition hostPort (addr : string) : string * string :=
  match SplitHostPort addr with
  | Some (h, p) => if decide (p = "") then (if decide (addr = "") then "(unset)" else addr, "4242") else (h, p)
  | None => (if decide (addr = "") then "(unset)" else addr, "4242")
  end.

Definition isTimeout (err : go_error) : bool := er_timeout err.

Definition Explain (quoted : string → string) (err : option go_error) (brokerAddr : string) : string :=
  match err with
  | None => ""
  | Some err =>
      let raw := er_text err in
      let '(host, port) := hostPort brokerAddr in
      match er_dns err with
      | Some dns => "cannot resolve broker host " +:+ quoted host +:+ " (" +:+ dns +:+ ") — check the address, your DNS, and that you have internet"
      | None =>
          if Contains "x509" raw || Contains "certificate" raw || Contains "tls:" raw || Contains "CRYPTO_ERROR" raw then
            "TLS handshake with broker " +:+ brokerAddr +:+ " failed (" +:+ raw +:+ ") — check -tls-ca/-tls-cert/-tls-key, that -tls-server-name matches the broker certificate SAN, and that the broker requires/accepts your cert"
          else if Contains "connection refused" raw then
            "broker " +:+ brokerAddr +:+ " refused the connection — is the broker running and listening on UDP port " +:+ port +:+ "?"
          else if Contains "no route to host" raw || Contains "network is unreachable" raw then
            "network unreachable while reaching broker " +:+ brokerAddr +:+ " — is your internet/VPN up?"
          else if er_deadline err || isTimeout err || Contains "no recent network activity" raw || Contains "handshake" raw then
            "no response from broker " +:+ brokerAddr +:+ " — it may be down, UDP port " +:+ port +:+ " may be blocked by a firewall, or there is no network route to it (Revquic uses QUIC over UDP, not TCP)"
          else "could not reach broker " +:+ brokerAddr +:+ ": " +:+ raw
      end
  end.

(** ** Properties *)

Lemma HasPrefix_app p s : HasPrefix p (p +:+ s) = true.
Proof. unfold HasPrefix. by rewrite CutPrefix_app. Qed.

Lemma Contains_app pre sub s : Contains sub (pre +:+ sub +:+ s) = true.
Proof.
  induction pre as [|a pre IH]; simpl.
  - destruct (sub +:+ s) eqn:E; simpl; rewrite <- E, HasPrefix_app; done.
  - rewrite IH. apply orb_true_r.
Qed.

(** The text always says which broker is meant: it contains the address that was dialled, or, when the
    name could not be resolved, the quoted host of the address. *)
Theorem explain_names_the_broker quoted err addr :
  Contains (match er_dns err with Some _ => quoted (fst (hostPort addr)) | None => addr end)
    (Explain quoted (Some err) addr) = true.
Proof.
  unfold Explain. destruct (hostPort addr) as [host port]. destruct (er_dns err) as [dns|]; [apply Contains_app|].
  repeat (match goal with |- context [if ?b then _ else _] => destruct b end); apply Contains_app.
Qed.

(** The bare timeout of quic-go is explained. *)
Example timeout_explained :
  Explain id (Some (mkError "timeout: no recent network activity" None false true)) "vpn.example.org:4242" =
  "no response from broker vpn.example.org:4242 — it may be down, UDP port 4242 may be blocked by a firewall, or there is no network route to it (Revquic uses QUIC over UDP, not TCP)".
Proof. vm_compute. reflexivity. Qed.

Example host_ports :
  hostPort "[2001:db8::1]:443" = ("2001:db8::1", "443") ∧ hostPort "2001:db8::1" = ("2001:db8::1", "4242") ∧
  hostPort "broker" = ("broker", "4242") ∧ hostPort "broker:" = ("broker:", "4242") ∧ hostPort "" = ("(unset)", "4242").
Proof. by vm_compute. Qed.
