(* ===== verification/Shutdown.v ===== *)
(** * internal/shutdown: leaving on a signal

    The goroutine of [OnSignals]: a termination request exits at once, an interactive key only when it
    is pressed again within the window.  Each signal comes with the reading of the clock. *)
From S2P Require Import Prelude GoTime.

Open Scope Z_scope.

Inductive Signal := SIGINT | SIGTERM | SIGTSTP.
#[export] Instance Signal_eq_dec : EqDecision Signal.
Proof. solve_decision. Defined.

(** The signals that are subscribed to, with and without job control. *)
Definition interactiveSignals (unix : bool) : list Signal := if unix then [SIGINT; SIGTERM; SIGTSTP] else [SIGINT; SIGTERM].

Definition keyName (s : Signal) : string :=
  match s with SIGINT => "Ctrl-C" | SIGTSTP => "Ctrl-Z" | SIGTERM => "terminated" end.

(** The same on Windows, which has no Ctrl-Z; the text of a signal that is not subscribed to is not used. *)
Definition keyName_windows (s : Signal) : string := match s with SIGINT => "Ctrl-C" | _ => "terminated" end.
Definition keyHint (unix : bool) : string := if unix then "Ctrl-C / Ctrl-Z" else "Ctrl-C".

Definition effective (window : Duration) : Duration := if window <=? 0 then 3 * Second else window.

(** One signal: [None] if the handler exits, or the time it remembers; the zero time is no time. *)
Definition onSignal (window : Duration) (last : Time) (s : Signal) (now : Time) : option Time :=
  if decide (s = SIGTERM) then None
  else if negb (last =? 0) && (Sub now last <=? window) then None
  else Some now.

(** How many signals are only hinted at before the handler exits; [None] if it does not. *)
Fixpoint hints (window : Duration) (last : Time) (sigs : list (Signal * Time)) : option nat :=
  match sigs with
  | [] => None
  | (s, now) :: sigs =>
      match onSignal window last s now with
      | None => Some 0%nat
      | Some last => S <$> hints window last sigs
      end
  end.

Definition OnSignals (window : Duration) (sigs : list (Signal * Time)) : option nat := hints (effective window) 0 sigs.

(** ** What makes the handler exit *)

(** The [i]-th signal is a termination request, or a press within the window after the one before it. *)
Definition exits_at (window : Duration) (sigs : list (Signal * Time)) (i : nat) : Prop :=
  ∃ s t, sigs !! i = Some (s, t) ∧
    (s = SIGTERM ∨ ∃ j s' t', i = S j ∧ sigs !! j = Some (s', t') ∧ Sub t t' ≤ effective window).

(** The same, after a press at [last] (none if it is zero). *)
Definition exits_after (window : Duration) (last : Time) (sigs : list (Signal * Time)) (i : nat) : Prop :=
  ∃ s t, sigs !! i = Some (s, t) ∧
    (s = SIGTERM ∨
     match i with
     | O => last ≠ 0 ∧ Sub t last ≤ window
     | S j => ∃ s' t', sigs !! j = Some (s', t') ∧ Sub t t' ≤ window
     end).

Lemma onSignal_exits window last s now sigs :
  onSignal window last s now = None ↔ exits_after window last ((s, now) :: sigs) 0.
Proof.
  unfold onSignal, exits_after. simpl. case_decide as Hs; [naive_solver|].
  destruct (Z.eqb_spec last 0), (Z.leb_spec (Sub now last) window); simpl; naive_solver lia.
Qed.

Lemma exits_after_tail window last s now sigs i :
  now ≠ 0 → exits_after window last ((s, now) :: sigs) (S i) ↔ exits_after window now sigs i.
Proof. intros Hn. unfold exits_after. simpl. destruct i; naive_solver. Qed.

Lemma hints_spec window last sigs n :
  Forall (λ st, st.2 ≠ 0) sigs →
  hints window last sigs = Some n ↔
  exits_after window last sigs n ∧ ∀ i, (i < n)%nat → ¬ exits_after window last sigs i.
Proof.
  intros Hz. revert last n. induction Hz as [|[s now] sigs Hn _ IH]; intros last n; simpl.
  { split; [done|]. intros [(s & t & Hs & _) _]. by destruct n. }
  simpl in Hn. pose proof (onSignal_exits window last s now sigs) as H0. destruct (onSignal window last s now) as [l|] eqn:E.
  - assert (l = now) as -> by (unfold onSignal in E; case_decide; [done|]; destruct (_ && _); [done|]; by injection E).
    assert (¬ exits_after window last ((s, now) :: sigs) 0) as Hno by (intros ?%H0; done).
    rewrite fmap_Some. setoid_rewrite IH. split.
    + intros (k & [Hk Hlt] & ->). split; [by apply exits_after_tail|]. intros [|i] Hi; [done|].
      rewrite exits_after_tail by done. apply Hlt. lia.
    + intros [Hk Hlt]. destruct n as [|k]; [done|]. exists k. split; [|done]. split; [by eapply exits_after_tail|].
      intros i Hi. rewrite <- exits_after_tail by done. apply Hlt. lia.
  - assert (exits_after window last ((s, now) :: sigs) 0) as Hex by (by apply H0). split.
    + intros [= <-]. split; [done|]. lia.
    + intros [Hk Hlt]. destruct n as [|k]; [done|]. by destruct (Hlt 0%nat ltac:(lia)).
Qed.

(** ** Properties *)

(** The program leaves exactly when it is told to: the handler exits with the first signal that is a
    termination request or a key pressed within the window (3 s if none is given) after the signal before
    it, and with no other - a single accidental key never ends it. *)
Theorem exits_exactly_when_confirmed window sigs n :
  Forall (λ st, st.2 ≠ 0) sigs →
  OnSignals window sigs = Some n ↔
  exits_at window sigs n ∧ ∀ i, (i < n)%nat → ¬ exits_at window sigs i.
Proof.
  intros Hz. unfold OnSignals. rewrite hints_spec by done.
  assert (∀ i, exits_after (effective window) 0 sigs i ↔ exits_at window sigs i) as He.
  { intros i. unfold exits_after, exits_at. destruct i as [|j]; [naive_solver|].
    split; intros (s & t & Hs & [H|H]); exists s, t; (split; [done|]); [by left|right|by left|right]; naive_solver. }
  by setoid_rewrite He.
Qed.

Lemma exits_exactly_when_confirmed_witness :
  let sigs := [(SIGINT, 10 * Second); (SIGTSTP, 20 * Second); (SIGINT, 22 * Second); (SIGTERM, 30 * Second)] in
  OnSignals 0 sigs = Some 2%nat ↔
  exits_at 0 sigs 2 ∧ ∀ i, (i < 2)%nat → ¬ exits_at 0 sigs i.
Proof. apply exits_exactly_when_confirmed. repeat constructor; done. Defined.

Example confirmed : OnSignals 0 [(SIGINT, 10 * Second); (SIGTSTP, 20 * Second); (SIGINT, 22 * Second)] = Some 2%nat.
Proof. reflexivity. Qed.
