(* ===== verification/Tunnel.v ===== *)
(** * internal/tunnel: TUN devices

    [Device] is generic in the platform's backend, a class here as it is an interface there.  The
    backend for Windows is modelled with its lock: [Read] is cut where it does not hold it, and runs
    interleaved with [Write] and [Close] ([wexec]); what wintun.dll answers is part of the labels, and
    the calls made to it are kept, to be judged by the life of its handles ([check]).  The library for
    the other systems (water) is an instance of the class. *)
From S2P Require Import Prelude.

Open Scope Z_scope.

(** ** tun.go *)

(** The per-platform implementation: [b_Read n] reads one packet into a buffer of [n] bytes. *)
Class backend (B : Type) := {
  b_Name : B → string;
  b_Read : nat → B → result string (list byte) * B;
  b_Write : list byte → B → result string Z * B;
  b_Close : B → option string * B
}.

Section device.
Context {B : Type} `{backend B}.

Record Device := mkDevice { d_b : B }.

Definition Name (d : Device) : string := b_Name (d_b d).
Definition Read (n : nat) (d : Device) : result string (list byte) * Device :=
  let '(r, b) := b_Read n (d_b d) in (r, mkDevice b).
Definition Write (p : list byte) (d : Device) : result string Z * Device :=
  let '(r, b) := b_Write p (d_b d) in (r, mkDevice b).
Definition Close (d : Device) : option string * Device :=
  let '(r, b) := b_Close (d_b d) in (r, mkDevice b).

Definition bufSize : nat := 65535.

(** [PumpToSender] for as many rounds as [ctx] has elements, each whether the context was cancelled;
    [None] if it is still running then.  [w] is the world of the sender. *)
Fixpoint PumpToSender {W} (SendDatagram : list byte → W → option string * W) (encode : list byte → list byte)
    (ctx : list (option string)) (d : Device) (w : W) : option string * Device * W :=
  match ctx with
  | [] => (None, d, w)
  | Some e :: _ => (Some e, d, w)
  | None :: ctx =>
      match Read bufSize d with
      | (Err e, d) => (Some e, d, w)
      | (Ok [], d) => PumpToSender SendDatagram encode ctx d w
      | (Ok pkt, d) => PumpToSender SendDatagram encode ctx d (snd (SendDatagram (encode pkt) w))
      end
  end.

(** ** tun_other.go and tun_windows.go *)

(** [Open]: the device of what the platform's library opened. *)
Definition Open (opened : result string B) : result string Device :=
  match opened with Err e => Err e | Ok b => Ok (mkDevice b) end.
End device.
Arguments Device : clear implicits.

(** [waterBackend] hands every call to its interface, which is given as a backend. *)
Record waterBackend (I : Type) := mkWater { ifce : I }.
Arguments mkWater {I} ifce.
Arguments ifce {I} w.
#[export] Instance water_backend {I} `{backend I} : backend (waterBackend I) := {
  b_Name w := b_Name (ifce w);
  b_Read n w := let '(r, i) := b_Read n (ifce w) in (r, mkWater i);
  b_Write p w := let '(r, i) := b_Write p (ifce w) in (r, mkWater i);
  b_Close w := let '(r, i) := b_Close (ifce w) in (r, mkWater i)
}.

(** ** wintun_windows.go *)

Definition wintunRingCapacity : Z := 0x400000.

(** Calls to the DLL, with the handles they return; [Access] is the copy out of the ring.  The wait for
    the read event, which is Windows' own, has a beginning and an end. *)
Inductive dllcall :=
| CreateAdapter (name type : string) (adapter : Z)
| CloseAdapter (adapter : Z)
| StartSession (adapter capacity session : Z)
| EndSession (session : Z)
| GetReadWaitEvent (session event : Z)
| WaitForSingleObject (event : Z)
| WaitEnded (event : Z)
| AllocateSendPacket (session size ptr : Z)
| SendPacket (session ptr : Z) (data : list byte)
| ReceivePacket (session ptr : Z)
| Access (ptr : Z)
| ReleaseReceivePacket (session ptr : Z).

Record wintunBackend := mkWintun {
  w_name : string; w_adapter : Z; w_session : Z; w_readEvent : Z; w_closed : bool
}.
#[export] Instance wintunBackend_eta : Eta wintunBackend :=
  λ w, mkWintun (w_name w) (w_adapter w) (w_session w) (w_readEvent w) (w_closed w).

(** What the DLL answers to [wintunOpen]: the error of loading it, then the handles, 0 for a failure. *)
Record dll_open := mkDll { dl_load : option string; dl_adapter : Z; dl_session : Z; dl_event : Z; dl_errno : string }.

Definition wintunOpen (dll : dll_open) (name : string) : result string wintunBackend * list dllcall :=
  match dl_load dll with
  | Some e => (Err ("load wintun.dll: " +:+ e), [])
  | None =>
      let c1 := CreateAdapter name "Revquic" (dl_adapter dll) in
      if decide (dl_adapter dll = 0) then (Err ("WintunCreateAdapter: " +:+ dl_errno dll), [c1])
      else
        let c2 := StartSession (dl_adapter dll) wintunRingCapacity (dl_session dll) in
        if decide (dl_session dll = 0)
        then (Err ("WintunStartSession: " +:+ dl_errno dll), [c1; c2; CloseAdapter (dl_adapter dll)])
        else (Ok (mkWintun name (dl_adapter dll) (dl_session dll) (dl_event dll) false),
              [c1; c2; GetReadWaitEvent (dl_session dll) (dl_event dll)])
  end.

(** An answer to WintunReceivePacket: a packet in the ring, ERROR_NO_MORE_ITEMS, or another error. *)
Inductive recv := Packet (ptr : positive) (data : list byte) | NoMoreItems | RecvErr (e : string).

(** Where a call of [Read] is: about to lock; without the lock and with a packet, about to wait for the
    event, or waiting for it; or at its end. *)
Inductive reader :=
| RLocking | RHolds (ptr : Z) (data : list byte) | REmpty | RWaiting | RDone (r : result string (list byte)).

(** The part of a round of [Read] under the lock. *)
Definition read_locked (ans : recv) (w : wintunBackend) : reader * list dllcall :=
  if w_closed w then (RDone (Err "tun closed"), [])
  else match ans with
       | Packet ptr data => (RHolds (Zpos ptr) data, [ReceivePacket (w_session w) (Zpos ptr)])
       | NoMoreItems => (REmpty, [ReceivePacket (w_session w) 0])
       | RecvErr e => (RDone (Err ("WintunReceivePacket: " +:+ e)), [ReceivePacket (w_session w) 0])
       end.

(** The copy of the packet into a buffer of [n] bytes, and its release: without the lock. *)
Definition read_copy (n : nat) (ptr : Z) (data : list byte) (w : wintunBackend) : reader * list dllcall :=
  (RDone (Ok (take n data)), [Access ptr; ReleaseReceivePacket (w_session w) ptr]).

(** The wait for the read event, without the lock: it begins, and it ends with an error or the next
    round. *)
Definition read_wait (w : wintunBackend) : reader * list dllcall := (RWaiting, [WaitForSingleObject (w_readEvent w)]).
Definition read_woken (err : option string) (w : wintunBackend) : reader * list dllcall :=
  (match err with Some e => RDone (Err e) | None => RLocking end, [WaitEnded (w_readEvent w)]).

(** [Write], which holds the lock throughout; [ptr] is what the DLL allocates. *)
Definition wintunWrite (ptr : Z) (errno : string) (p : list byte) (w : wintunBackend) : result string Z * list dllcall :=
  if w_closed w then (Err "tun closed", [])
  else
    let c := AllocateSendPacket (w_session w) (Z.of_nat (length p)) ptr in
    if decide (ptr = 0) then (Err ("WintunAllocateSendPacket: " +:+ errno), [c])
    else (Ok (Z.of_nat (length p)), [c; SendPacket (w_session w) ptr p]).

(** [Close], which holds the lock throughout. *)
Definition wintunClose (w : wintunBackend) : wintunBackend * list dllcall :=
  if w_closed w then (w, [])
  else
    let w := w <| w_closed := true |> in
    let '(w, c1) := if decide (w_session w = 0) then (w, []) else (w <| w_session := 0 |>, [EndSession (w_session w)]) in
    let '(w, c2) := if decide (w_adapter w = 0) then (w, []) else (w <| w_adapter := 0 |>, [CloseAdapter (w_adapter w)]) in
    (w, c1 ++ c2).

(** ** One reader, any writers and closers *)

Inductive wlabel :=
| LRead                                  (* the pump calls [Read] again *)
| LLocked (ans : recv)
| LCopy (n : nat)
| LWait
| LWoken (err : option string)
| LWrite (ptr : Z) (errno : string) (p : list byte)
| LClose.

(** [ws_raced]: the device was closed while [Read] used the session without the lock. *)
Record wsys := mkWsys { ws_w : wintunBackend; ws_reader : reader; ws_calls : list dllcall; ws_raced : bool }.

(** [Read] has given up the lock and still uses the packet or the event. *)
Definition exposed (r : reader) : bool := match r with RHolds _ _ | REmpty | RWaiting => true | _ => false end.

(** A label that is not enabled changes nothing. *)
Definition wexec (s : wsys) (l : wlabel) : wsys :=
  let '(mkWsys w r cs raced) := s in
  match l, r with
  | LRead, RDone _ => mkWsys w RLocking cs raced
  | LLocked ans, RLocking => let '(r, c) := read_locked ans w in mkWsys w r (cs ++ c) raced
  | LCopy n, RHolds ptr data => let '(r, c) := read_copy n ptr data w in mkWsys w r (cs ++ c) raced
  | LWait, REmpty => let '(r, c) := read_wait w in mkWsys w r (cs ++ c) raced
  | LWoken err, RWaiting => let '(r, c) := read_woken err w in mkWsys w r (cs ++ c) raced
  | LWrite ptr errno p, _ => mkWsys w r (cs ++ snd (wintunWrite ptr errno p w)) raced
  | LClose, _ => let '(w', c) := wintunClose w in mkWsys w' r (cs ++ c) (raced || negb (w_closed w) && exposed r)
  | _, _ => s
  end.

Definition wrun (s : wsys) (ls : list wlabel) : wsys := foldl wexec s ls.

(** ** The life of the DLL's handles *)

(** Open adapters and sessions, the packets that were received from a session and not released, and
    the events of sessions. *)
Record life := mkLife { lf_adapters : gset Z; lf_sessions : gset Z; lf_ring : gmap Z Z; lf_events : gmap Z Z }.

(** A handle that is used has been returned and not closed, an event for as long as it is waited for;
    memory of the ring and the event go with their session. *)
Definition check (l : life) (c : dllcall) : option life :=
  let '(mkLife ads ses ring evs) := l in
  match c with
  | CreateAdapter _ _ a => Some (mkLife (if decide (a = 0) then ads else {[a]} ∪ ads) ses ring evs)
  | CloseAdapter a => if decide (a ∈ ads) then Some (mkLife (ads ∖ {[a]}) ses ring evs) else None
  | StartSession a _ s =>
      if decide (a ∈ ads) then Some (mkLife ads (if decide (s = 0) then ses else {[s]} ∪ ses) ring evs) else None
  | EndSession s =>
      if decide (s ∈ ses)
      then Some (mkLife ads (ses ∖ {[s]}) (filter (λ '(_, s'), s' ≠ s) ring) (filter (λ '(_, s'), s' ≠ s) evs))
      else None
  | GetReadWaitEvent s ev => if decide (s ∈ ses) then Some (mkLife ads ses ring (<[ev := s]> evs)) else None
  | WaitForSingleObject ev | WaitEnded ev => if decide (is_Some (evs !! ev)) then Some l else None
  | AllocateSendPacket s _ _ | SendPacket s _ _ => if decide (s ∈ ses) then Some l else None
  | ReceivePacket s ptr =>
      if decide (s ∈ ses) then Some (mkLife ads ses (if decide (ptr = 0) then ring else <[ptr := s]> ring) evs) else None
  | Access ptr => if decide (is_Some (ring !! ptr)) then Some l else None
  | ReleaseReceivePacket s ptr =>
      if decide (s ∈ ses ∧ ring !! ptr = Some s) then Some (mkLife ads ses (delete ptr ring) evs) else None
  end.

Definition nothing : life := mkLife ∅ ∅ ∅ ∅.
Definition check_all (cs : list dllcall) : option life := foldl (λ l c, l ≫= λ l, check l c) (Some nothing) cs.

Lemma check_all_app cs1 cs2 : check_all (cs1 ++ cs2) = foldl (λ l c, l ≫= λ l, check l c) (check_all cs1) cs2.
Proof. apply foldl_app. Qed.

(** What is alive, by the state of the backend with adapter [a], session [ss] and event [ev]. *)
Definition alive (a ss ev : Z) (closed : bool) (r : reader) : life :=
  if closed then nothing
  else mkLife {[a]} {[ss]} (match r with RHolds ptr _ => {[ptr := ss]} | _ => ∅ end) {[ev := ss]}.

(** While the device was not closed under the reader: its calls are right, and [Read] uses no session
    without the lock once it is closed. *)
Definition wok (a ss ev : Z) (s : wsys) : Prop :=
  ws_raced s = false →
  check_all (ws_calls s) = Some (alive a ss ev (w_closed (ws_w s)) (ws_reader s)) ∧
  (exposed (ws_reader s) = true → w_closed (ws_w s) = false) ∧
  w_readEvent (ws_w s) = ev ∧
  (w_adapter (ws_w s), w_session (ws_w s)) = if w_closed (ws_w s) then (0, 0) else (a, ss).

Lemma open_wok dll name w cs :
  wintunOpen dll name = (Ok w, cs) →
  w_adapter w ≠ 0 ∧ w_session w ≠ 0 ∧
  wok (w_adapter w) (w_session w) (w_readEvent w) (mkWsys w RLocking cs false).
Proof.
  unfold wintunOpen. intros E. repeat case_match; simplify_eq. split_and!; [done|done|]. intros _. simpl.
  split; [|done]. unfold check_all, alive. simpl.
  rewrite !(decide_False (P := dl_adapter dll = 0)), !(decide_False (P := dl_session dll = 0)) by done.
  rewrite decide_True by set_solver. simpl. rewrite decide_True by set_solver. by rewrite !(right_id_L ∅ (∪)).
Qed.

Lemma wexec_raced s l : ws_raced s = true → ws_raced (wexec s l) = true.
Proof.
  destruct s as [w r cs raced]. simpl. intros ->. destruct l, r; simpl; try done;
    repeat (case_match || destruct (read_locked _ _) || destruct (wintunClose _)); done.
Qed.

(** The calls of [cs] are right for what is alive. *)
Definition checked (l : life) (cs : list dllcall) : option life := foldl (λ l c, l ≫= λ l, check l c) (Some l) cs.

Lemma read_locked_ok ans a ev w :
  w_closed w = false →
  let '(r, cs) := read_locked ans w in
  checked (alive a (w_session w) ev false RLocking) cs = Some (alive a (w_session w) ev false r).
Proof.
  intros Hc. unfold read_locked. rewrite Hc. destruct ans; unfold checked; simpl; by rewrite decide_True by set_solver.
Qed.

Lemma read_copy_ok n ptr data a ev w :
  checked (alive a (w_session w) ev false (RHolds ptr data)) (snd (read_copy n ptr data w)) =
  Some (alive a (w_session w) ev false RLocking).
Proof.
  unfold checked, alive. simpl. rewrite decide_True by (rewrite lookup_singleton_eq; done). simpl.
  rewrite decide_True by (split; [set_solver|by rewrite lookup_singleton_eq]). by rewrite delete_singleton_eq.
Qed.

(** An event of an open session can be waited for. *)
Lemma wait_ok a ss r w c :
  c = WaitForSingleObject (w_readEvent w) ∨ c = WaitEnded (w_readEvent w) →
  checked (alive a ss (w_readEvent w) false r) [c] = Some (alive a ss (w_readEvent w) false r).
Proof.
  unfold checked, alive. intros [->| ->]; simpl; by rewrite decide_True by (by rewrite lookup_singleton_eq).
Qed.

Lemma write_ok ptr errno p a ev r w :
  w_closed w = false →
  checked (alive a (w_session w) ev false r) (snd (wintunWrite ptr errno p w)) = Some (alive a (w_session w) ev false r).
Proof.
  intros Hc. unfold wintunWrite. rewrite Hc. unfold checked, alive.
  case_decide; simpl; rewrite !decide_True by set_solver; simpl; rewrite ?decide_True by set_solver; done.
Qed.

Lemma close_ok ev r w :
  w_closed w = false → w_adapter w ≠ 0 → w_session w ≠ 0 → exposed r = false →
  let '(w', cs) := wintunClose w in
  checked (alive (w_adapter w) (w_session w) ev false r) cs = Some nothing ∧
  w_closed w' = true ∧ w_adapter w' = 0 ∧ w_session w' = 0 ∧ w_readEvent w' = w_readEvent w.
Proof.
  intros Hc Ha Hs Hr. unfold wintunClose. rewrite Hc. simpl. rewrite !decide_False by done. simpl.
  split; [|done]. unfold checked, alive. simpl. rewrite decide_True by set_solver. simpl.
  rewrite decide_True by set_solver. rewrite !difference_diag_L, map_filter_singleton_False by tauto.
  by destruct r.
Qed.

(** A closed device makes no calls. *)
Lemma wexec_closed s l :
  w_closed (ws_w s) = true → exposed (ws_reader s) = false →
  ws_w (wexec s l) = ws_w s ∧ ws_calls (wexec s l) = ws_calls s ∧ exposed (ws_reader (wexec s l)) = false.
Proof.
  destruct s as [w r cs raced]; simpl. intros Hc Hr.
  destruct l, r; simpl in *; try done; unfold read_locked, wintunWrite, wintunClose; rewrite Hc; simpl; by rewrite ?app_nil_r.
Qed.

Lemma wexec_open a ss ev s l :
  a ≠ 0 → ss ≠ 0 → w_closed (ws_w s) = false → wok a ss ev s → ws_raced s = false → wok a ss ev (wexec s l).
Proof.
  destruct s as [w r cs raced]; simpl. intros Ha Hss Ew Hok ->. destruct (Hok eq_refl) as (Hc & _ & <- & Hw).
  simpl in *. rewrite Ew in Hc, Hw. injection Hw as <- <-.
  assert (∀ cs', check_all (cs ++ cs') = checked (alive (w_adapter w) (w_session w) (w_readEvent w) false r) cs') as Happ
    by (intros; by rewrite check_all_app, Hc).
  destruct l as [|ans|n| |err|ptr errno p|]; simpl.
  - destruct r; intros _; simpl; by rewrite Ew.
  - destruct r; try (intros _; simpl; by rewrite Ew).
    pose proof (read_locked_ok ans (w_adapter w) (w_readEvent w) w Ew) as Hl. destruct (read_locked ans w) as [r cs'].
    intros _; simpl. by rewrite Ew, Happ, Hl.
  - destruct r as [|ptr data| | |]; try (intros _; simpl; by rewrite Ew).
    intros _. cbn -[read_copy]. by rewrite Ew, Happ, (read_copy_ok n ptr data).
  - destruct r; try (intros _; simpl; by rewrite Ew).
    intros _; simpl. rewrite Ew, Happ, wait_ok by auto. done.
  - destruct r; try (intros _; simpl; by rewrite Ew).
    intros _; simpl. rewrite Ew, Happ, wait_ok by auto. by destruct err.
  - intros _. simpl. by rewrite Ew, Happ, write_ok.
  - destruct (exposed r) eqn:Hr.
    { destruct (wintunClose w) as [w' cs']. rewrite Ew. by intros Hn. }
    pose proof (close_ok (w_readEvent w) r w Ew Ha Hss Hr) as Hl. destruct (wintunClose w) as [w' cs'].
    destruct Hl as (Hl & Hcl & Hwa' & Hws' & Hev). intros _. simpl. rewrite Hcl, Happ, Hl, Hwa', Hws', Hev, Hr. done.
Qed.

Lemma wexec_wok a ss ev s l : a ≠ 0 → ss ≠ 0 → wok a ss ev s → wok a ss ev (wexec s l).
Proof.
  intros Ha Hss Hok. destruct (ws_raced s) eqn:Er.
  { intros Hr. by rewrite wexec_raced in Hr. }
  destruct (w_closed (ws_w s)) eqn:Ew; [|by apply wexec_open].
  destruct (Hok Er) as (Hc & He & Hev & Hw). rewrite Ew in *.
  assert (exposed (ws_reader s) = false) as Hx by (destruct (exposed _); [by discriminate He|done]).
  destruct (wexec_closed s l Ew Hx) as (E1 & E2 & E3). intros _. rewrite E1, E2, E3, Ew, Hc. done.
Qed.

(** ** Properties *)

(** The datagrams of the pump: what the device yields until it fails, without the empty reads. *)
Fixpoint packets {B} `{backend B} (rounds : nat) (d : Device B) : list (list byte) :=
  match rounds with
  | O => []
  | S rounds =>
      match Read bufSize d with
      | (Err _, _) => []
      | (Ok [], d) => packets rounds d
      | (Ok pkt, d) => pkt :: packets rounds d
      end
  end.

(** While it is not cancelled the pump hands every packet of the device to the sender once and in
    order, encoded; a packet that cannot be sent is dropped and the pump goes on. *)
Theorem pump_forwards_packets {B W} `{backend B} SendDatagram encode rounds (d : Device B) (w : W) :
  let '(_, _, w') := PumpToSender SendDatagram encode (replicate rounds None) d w in
  w' = foldl (λ w pkt, snd (SendDatagram (encode pkt) w)) w (packets rounds d).
Proof.
  revert d w. induction rounds as [|n IH]; intros d w; simpl; [done|].
  destruct (Read bufSize d) as [[[|b pkt]|e] d']; [apply IH|apply IH|done].
Qed.

(** C39. The Windows device closes what it opened, once, and uses nothing it has closed: from any
    successful open, for any interleaving of a reader with writers and closers in which the device is
    not closed while [Read] is without the lock between its call to the driver and the release of the
    packet or the end of the wait, every call is made with handles that were opened and not closed, every
    packet is copied while the ring is there and released to its session, and the event is there for as
    long as it is waited for; when the device is closed no handle is left, and from then on a call does
    not reach the driver: reads and writes fail with an error. *)
Theorem wintun_handles_are_live dll name w cs ls :
  wintunOpen dll name = (Ok w, cs) →
  let s := wrun (mkWsys w RLocking cs false) ls in
  ws_raced s = false →
  check_all (ws_calls s) =
    Some (alive (w_adapter w) (w_session w) (w_readEvent w) (w_closed (ws_w s)) (ws_reader s)) ∧
  (w_closed (ws_w s) = true →
     (∀ l, ws_calls (wexec s l) = ws_calls s) ∧
     (∀ ans, fst (read_locked ans (ws_w s)) = RDone (Err "tun closed")) ∧
     (∀ ptr errno p, fst (wintunWrite ptr errno p (ws_w s)) = Err "tun closed")).
Proof.
  intros Ho s Hr. destruct (open_wok dll name w cs Ho) as (Ha & Hs & H0).
  assert (wok (w_adapter w) (w_session w) (w_readEvent w) s) as Hok.
  { subst s. clear Hr. unfold wrun. revert H0. generalize (mkWsys w RLocking cs false).
    induction ls as [|l ls IH]; intros s0 H0; [done|]. by apply IH, wexec_wok. }
  destruct (Hok Hr) as (Hc & Hx & _). split; [done|]. intros Hcl.
  split; [|unfold read_locked, wintunWrite; by rewrite Hcl].
  intros l. apply wexec_closed; [done|]. destruct (exposed (ws_reader s)); [|done].
  rewrite Hcl in Hx. by discriminate Hx.
Qed.

Definition demo_dll : dll_open := mkDll None 11 22 33 "".
Definition demo_backend : wintunBackend := mkWintun "Revquic" 11 22 33 false.
Definition demo_calls : list dllcall := [CreateAdapter "Revquic" "Revquic" 11; StartSession 11 0x400000 22; GetReadWaitEvent 22 33].
Definition demo_uses : list wlabel :=
  [LLocked (Packet 7 [x45]); LWrite 8 "" [x45; x00]; LCopy 65535; LRead; LLocked NoMoreItems; LWait; LWoken None; LClose;
   LLocked NoMoreItems; LClose].

Lemma wintun_handles_are_live_witness :
  check_all (ws_calls (wrun (mkWsys demo_backend RLocking demo_calls false) demo_uses)) = Some nothing.
Proof. exact (proj1 (wintun_handles_are_live demo_dll "Revquic" demo_backend demo_calls demo_uses eq_refl eq_refl)). Defined.

(** [Read] copies and releases its packet without the lock: a [Close] in between ends the session, so
    that the copy reads memory that is gone. *)
Theorem close_frees_a_packet_in_use :
  check_all (ws_calls (wrun (mkWsys demo_backend RLocking demo_calls false) [LLocked (Packet 7 [x45]); LClose; LCopy 65535])) = None.
Proof. vm_compute. reflexivity. Qed.

(** [Read] waits for the event without the lock, too: a [Close] before the wait, or during it, ends the
    session the event belongs to. *)
Theorem close_takes_the_event_in_use :
  check_all (ws_calls (wrun (mkWsys demo_backend RLocking demo_calls false) [LLocked NoMoreItems; LClose; LWait])) = None ∧
  check_all (ws_calls (wrun (mkWsys demo_backend RLocking demo_calls false)
                         [LLocked NoMoreItems; LWait; LClose; LWoken None])) = None.
Proof. split; vm_compute; reflexivity. Qed.
