(* ===== verification/Ice.v ===== *)
(** * internal/ice, internal/icewire, internal/directlink: negotiating a direct path

    The ICE agent is an interface of the source ([Agent]); here it is a class over the agent's state,
    implemented by code outside the repository (pion).  The calls to QUIC return what [quic_env] says.
    [Negotiate] runs its reader of signals concurrently with the wait for the peer's credentials and
    with the calls that follow: the signals handled before [Connect] is called, those handled during the
    call and those handled after it, up to the look at the selected pair, are arguments. *)
From S2P Require Import Prelude Strs.

Open Scope Z_scope.

(** ** ice.go *)

Inductive Role := RoleControlling | RoleControlled.

(** A string in the source: [CandidateOther] is any that is not one of the constants. *)
Inductive CandidateType := CandidateHost | CandidateServerReflexive | CandidatePeerReflexive | CandidateRelay | CandidateOther (s : string).
#[export] Instance CandidateType_eq_dec : EqDecision CandidateType.
Proof. solve_decision. Defined.

Record Candidate := mkCandidate {
  ca_Type : CandidateType; ca_Foundation : string; ca_Protocol : string; ca_Address : string; ca_Port : Z;
  ca_Priority : Z; ca_Raw : string
}.
Record Credentials := mkCredentials { cr_Ufrag : string; cr_Pwd : string }.

Inductive SignalKind := SignalCandidate | SignalCredentials | SignalRole | SignalEnd | SignalOther (s : string).
Record Signal := mkSignal {
  sg_SessionID : string; sg_Nonce : string; sg_Kind : SignalKind; sg_Candidate : option Candidate;
  sg_Creds : option Credentials; sg_Role : string
}.

(** The methods of [Agent] that the program calls; a connected path has the address of its peer.  [Connect]
    takes long, and candidates may be added meanwhile, so its call and its return are apart. *)
Class Agent (A : Type) := {
  LocalCredentials : A → result string Credentials * A;
  GatherCandidates : A → option string * A;
  AddRemoteCandidate : Candidate → A → option string * A;
  ConnectBegin : Credentials → A → A;              (* [Connect] is called *)
  ConnectEnd : A → result string string * A;       (* the pending call returns *)
  SelectedPair : A → option (CandidateType * CandidateType)
}.

(** ** packetconn.go *)

(** [NewPacketConn]: the synthetic remote and local addresses, and the next value of [pcSeq]. *)
Record packetConn := mkPacketConn { pc_remote : string; pc_local : string }.

Definition NewPacketConn (peerAddr : string) (pcSeq : Z) : packetConn * Z :=
  let peerAddr := if decide (peerAddr = "") then "ice-peer" else peerAddr in
  let seq := u64 (pcSeq + 1) in
  (mkPacketConn peerAddr ("ice-local-" +:+ itoa seq), seq).

(** [ReadFrom] reports the remote address whatever was read, so that QUIC finds the connection. *)
Definition ReadFrom {E} (read : result E (list byte)) (p : packetConn) : result E (list byte) * string := (read, pc_remote p).

(** [WriteTo] writes to the ICE path whatever address it is given. *)
Definition WriteTo {R} (write : list byte → R) (b : list byte) (addr : string) (p : packetConn) : R := write b.
Definition LocalAddr (p : packetConn) : string := pc_local p.
Definition RemoteAddr (p : packetConn) : string := pc_remote p.

(** ** directlink.go *)

Inductive link_error := ErrRelayPair | EAgent (e : string) | EQuic (e : string) | ESend (e : string) | ECancelled.

(** What dialing, listening and accepting return. *)
Record quic_env := mkQuic {
  q_dial : string → result string positive;      (* by the remote address *)
  q_listen : option string;
  q_accept : result string positive
}.

(** What [Establish] closes on its way out. *)
Inductive closed := CloseConn | ClosePacketConn | CloseListener.

Section directlink.
Context {A : Type} `{Agent A} (q : quic_env).

Definition is_relay_pair (pair : option (CandidateType * CandidateType)) : bool :=
  match pair with
  | Some (lt, rt) => bool_decide (lt = CandidateRelay) || bool_decide (rt = CandidateRelay)
  | None => false
  end.

(** [during] and [late] are what others do to the agent while [Connect] runs, and between its return and
    the look at the pair. *)
Definition Establish (during late : A → A) (role : Role) (remote : Credentials) (p2pOnly : bool) (pcSeq : Z) (a : A)
  : result link_error positive * list closed * A * Z :=
  match ConnectEnd (during (ConnectBegin remote a)) with
  | (Err e, a) => (Err (EAgent e), [], a, pcSeq)
  | (Ok peer, a) =>
      let a := late a in
      if p2pOnly && is_relay_pair (SelectedPair a) then (Err ErrRelayPair, [CloseConn], a, pcSeq)
      else
        let '(pc, pcSeq) := NewPacketConn peer pcSeq in
        match role with
        | RoleControlling =>
            match q_dial q (pc_remote pc) with
            | Err e => (Err (EQuic e), [ClosePacketConn], a, pcSeq)
            | Ok qc => (Ok qc, [], a, pcSeq)
            end
        | RoleControlled =>
            match q_listen q with
            | Some e => (Err (EQuic e), [ClosePacketConn], a, pcSeq)
            | None =>
                match q_accept q with
                | Err e => (Err (EQuic e), [CloseListener; ClosePacketConn], a, pcSeq)
                | Ok qc => (Ok qc, [], a, pcSeq)
                end
            end
        end
  end.

(** ** icewire.go *)

(** The reader of signals: the agent, whether credentials were passed on, and the channel of capacity 1
    that takes them. *)
Record reader := mkReader { rd_agent : A; rd_sent : bool; rd_chan : list Credentials }.

(** [None]: the send on the channel blocks. *)
Definition onSignal (sig : Signal) (r : reader) : option reader :=
  match sg_Kind sig, sg_Creds sig, sg_Candidate sig with
  | SignalCredentials, Some c, _ =>
      if rd_sent r then Some r
      else if decide (length (rd_chan r) < 1)%nat then Some (mkReader (rd_agent r) true (rd_chan r ++ [c])) else None
  | SignalCandidate, _, Some c => Some (mkReader (snd (AddRemoteCandidate c (rd_agent r))) (rd_sent r) (rd_chan r))
  | _, _, _ => Some r
  end.

Fixpoint onSignals (sigs : list Signal) (r : reader) : option reader :=
  match sigs with
  | [] => Some r
  | sig :: sigs => match onSignal sig r with Some r => onSignals sigs r | None => None end
  end.

(** The reader once it has passed credentials on: it only feeds candidates to the agent. *)
Definition feed (sigs : list Signal) (a : A) : A :=
  match onSignals sigs (mkReader a true []) with Some r => rd_agent r | None => a end.

Definition credentials_signal (sid : string) (c : Credentials) : Signal :=
  mkSignal sid "" SignalCredentials None (Some c) "".

(** The callback for local candidates; nil means that gathering is complete. *)
Definition onCandidate (sid : string) (c : option Candidate) : list Signal :=
  match c with Some c => [mkSignal sid "" SignalCandidate (Some c) None ""] | None => [] end.

Inductive outcome := Blocked | Waiting | Done (r : result link_error positive) (cl : list closed) (a : A).

(** [Negotiate] with the signals [sigs] handled until [Connect] is called, or until the context ends the
    wait if [cancelled]; [during] and [late] are the signals handled during and after that call.  The
    first component are the signals sent before the wait. *)
Definition Negotiate (sendErr : option string) (role : Role) (sid : string) (sigs during late : list Signal) (cancelled p2pOnly : bool)
    (pcSeq : Z) (a : A) : list Signal * outcome :=
  match LocalCredentials a with
  | (Err e, a) => ([], Done (Err (EAgent e)) [] a)
  | (Ok creds, a) =>
      let out := [credentials_signal sid creds] in
      match sendErr with
      | Some e => (out, Done (Err (ESend e)) [] a)
      | None =>
          match GatherCandidates a with
          | (Some e, a) => (out, Done (Err (EAgent e)) [] a)
          | (None, a) =>
              (out,
               match onSignals sigs (mkReader a false []) with
               | None => Blocked
               | Some r =>
                   if cancelled then Done (Err ECancelled) [] (rd_agent r)
                   else match rd_chan r with
                        | [] => Waiting
                        | remote :: _ =>
                            let '(res, cl, a, _) := Establish (feed during) (feed late) role remote p2pOnly pcSeq (rd_agent r) in
                            Done res cl a
                        end
               end)
          end
      end
  end.

(** ** What the signals amount to *)

Definition creds_of (sig : Signal) : option Credentials :=
  match sg_Kind sig with SignalCredentials => sg_Creds sig | _ => None end.
Definition candidate_of (sig : Signal) : option Candidate :=
  match sg_Kind sig with SignalCandidate => sg_Candidate sig | _ => None end.
Definition add_candidates (cs : list Candidate) (a : A) : A := foldl (λ a c, snd (AddRemoteCandidate c a)) a cs.

Lemma onSignals_spec sigs (a : A) (sent : bool) (ch : list Credentials) :
  length ch = (if sent then 1 else 0)%nat →
  onSignals sigs (mkReader a sent ch) =
  Some (let cs := omap creds_of sigs in
        let ch' := if sent then ch else take 1 cs in
        mkReader (add_candidates (omap candidate_of sigs) a) (negb (bool_decide (ch' = []))) ch').
Proof.
  revert a sent ch. induction sigs as [|sig sigs IH]; intros a sent ch Hch; simpl.
  - destruct sent, ch as [|c [|]]; done.
  - destruct sig as [sd nonce k cand cr role]; destruct k, cand as [c|], cr as [cd|]; simpl; try (by rewrite IH).
    all: unfold onSignal; simpl; destruct sent; [by rewrite IH|]; destruct ch; [|done];
      rewrite decide_True by (simpl; lia); by rewrite IH.
Qed.

(** Feeding goes on whatever arrives. *)
Lemma onSignals_sent sigs (a : A) ch :
  onSignals sigs (mkReader a true ch) = Some (mkReader (add_candidates (omap candidate_of sigs) a) true ch).
Proof.
  revert a. induction sigs as [|sig sigs IH]; intros a; [done|]. simpl.
  destruct sig as [sd nonce k cand cr role]; destruct k, cand as [c|], cr as [cd|]; unfold onSignal; simpl; by rewrite IH.
Qed.

Lemma feed_spec sigs (a : A) : feed sigs a = add_candidates (omap candidate_of sigs) a.
Proof. unfold feed. by rewrite onSignals_sent. Qed.

Lemma Establish_ext during late during' late' role remote p2pOnly pcSeq (a : A) :
  (∀ a, during a = during' a) → (∀ a, late a = late' a) →
  Establish during late role remote p2pOnly pcSeq a = Establish during' late' role remote p2pOnly pcSeq a.
Proof. intros E1 E2. unfold Establish. rewrite E1. destruct (ConnectEnd _) as [[] ?]; [|done]. by rewrite E2. Qed.

(** The negotiation waits for the first credentials, then establishes the path with them. *)
Lemma negotiate_spec role sid sigs during late p2pOnly pcSeq creds (a a1 a2 : A) :
  LocalCredentials a = (Ok creds, a1) → GatherCandidates a1 = (None, a2) →
  let a3 := add_candidates (omap candidate_of sigs) a2 in
  Negotiate None role sid sigs during late false p2pOnly pcSeq a =
    ([credentials_signal sid creds],
     match head (omap creds_of sigs) with
     | None => Waiting
     | Some remote => let '(res, cl, a4, _) := Establish (feed during) (feed late) role remote p2pOnly pcSeq a3 in Done res cl a4
     end).
Proof.
  intros Hl Hg a3. unfold Negotiate. rewrite Hl, Hg, onSignals_spec by done. simpl. fold a3.
  by destruct (omap creds_of sigs).
Qed.

(** A peer-to-peer caller never gets a connection over a pair known to be relayed. *)
Lemma establish_p2p during late role remote p2pOnly pcSeq (a : A) :
  let '(res, cl, a', _) := Establish during late role remote p2pOnly pcSeq a in
  (p2pOnly = true → is_relay_pair (SelectedPair a') = true → ∀ qc, res ≠ Ok qc) ∧
  (res = Err ErrRelayPair → p2pOnly = true ∧ is_relay_pair (SelectedPair a') = true ∧ cl = [CloseConn]).
Proof.
  unfold Establish. destruct (ConnectEnd _) as [[peer|e] a4]; [|done]. cbv zeta. generalize (late a4). clear a4. intros a4.
  destruct (p2pOnly && is_relay_pair (SelectedPair a4)) eqn:E.
  - apply andb_true_iff in E as [-> Hr]. by split.
  - assert (p2pOnly = true → is_relay_pair (SelectedPair a4) = true → False) as Hno
      by (intros -> Hr; by rewrite Hr in E).
    destruct (NewPacketConn peer pcSeq) as [pc seq].
    destruct role; [destruct (q_dial q _)|destruct (q_listen q); [|destruct (q_accept q)]]; split; try done;
      intros ? ? ? _; by apply Hno.
Qed.

Lemma negotiate_p2p sendErr role sid sigs during late cancelled pcSeq (a a' : A) out qc cl :
  Negotiate sendErr role sid sigs during late cancelled true pcSeq a = (out, Done (Ok qc) cl a') → is_relay_pair (SelectedPair a') = false.
Proof.
  unfold Negotiate. intros E. repeat case_match; simplify_eq.
  match goal with H : Establish ?d ?l role ?r true pcSeq ?x = _ |- _ =>
    pose proof (establish_p2p d l role r true pcSeq x) as Hp; rewrite H in Hp end.
  destruct Hp as [Hp _]. destruct (is_relay_pair (SelectedPair a')); [|done]. by destruct (Hp eq_refl eq_refl qc).
Qed.

End directlink.

(** The local address of a packet connection is new as long as the counter does not wrap. *)
Lemma local_addresses_differ p1 p2 n1 n2 :
  0 ≤ n1 < 2 ^ 64 - 1 → 0 ≤ n2 < 2 ^ 64 - 1 → n1 ≠ n2 →
  pc_local (fst (NewPacketConn p1 n1)) ≠ pc_local (fst (NewPacketConn p2 n2)).
Proof.
  intros H1 H2 Hne E. unfold NewPacketConn in E. cbn [fst pc_local] in E.
  apply (f_equal (CutPrefix "ice-local-")) in E. rewrite !CutPrefix_app in E. injection E as E%itoa_inj.
  unfold u64 in E. rewrite !Z.mod_small in E by lia. lia.
Qed.

(** ** A concrete agent that records the candidates it is given *)

#[local] Instance recording : Agent (list Candidate) := {
  LocalCredentials a := (Ok (mkCredentials "me" "pw"), a);
  GatherCandidates a := (None, a);
  AddRemoteCandidate c a := (None, a ++ [c]);
  ConnectBegin r a := a;
  ConnectEnd a := (Ok "1.2.3.4:5", a);
  SelectedPair a := Some (CandidateHost, if decide (a = []) then CandidateHost else CandidateRelay)
}.
Definition dial_ok : quic_env := mkQuic (λ _, Ok 1%positive) None (Ok 2%positive).
Definition relayed : Candidate := mkCandidate CandidateRelay "" "udp" "5.6.7.8" 3478 1 "".
Definition peer_signals : list Signal :=
  [mkSignal "1" "" SignalCandidate (Some relayed) None ""; credentials_signal "1" (mkCredentials "a" "x");
   credentials_signal "1" (mkCredentials "b" "y")].

Example relay_pair_refused :
  snd (Negotiate dial_ok None RoleControlling "1" (drop 1 peer_signals) (take 1 peer_signals) [] false true 0 []) = Done (Err ErrRelayPair) [CloseConn] [relayed].
Proof. reflexivity. Qed.
