(* ===== verification/Pion.v ===== *)
(** * internal/ice/pion_adapter.go: the ICE agent of the program

    The adapter makes an agent of the pion library an [Agent] of [Ice].  The library itself is behind
    the class [Pion]: [P] is the state of one of its agents and [C] its candidates; [PionLaws] says that
    a candidate's text can be read back and what the names of the types are. *)
From Stdlib Require Import Strings.Ascii.
From S2P Require Import Prelude GoTime Strs Ice.

Open Scope Z_scope.

(** ** What the adapter uses of pion and stun *)

(** [stun.URI]: where the server is, and the credentials to be used there. *)
Record URI := mkURI { u_scheme : string; u_host : string; u_port : Z; u_Username : string; u_Password : string }.

Inductive PionType := TypeUnspecified | TypeHost | TypeServerReflexive | TypePeerReflexive | TypeRelay.
Inductive NetworkType := NetworkTypeUDP4 | NetworkTypeUDP6 | NetworkTypeTCP4 | NetworkTypeTCP6.
Inductive MulticastDNSMode := MulticastDNSModeDisabled | MulticastDNSModeQueryOnly | MulticastDNSModeQueryAndGather.
#[export] Instance PionType_eq_dec : EqDecision PionType.
Proof. solve_decision. Defined.

Record AgentConfig := mkAgentConfig {
  ac_Urls : list URI;
  ac_NetworkTypes : list NetworkType;
  ac_CandidateTypes : list PionType;
  ac_MulticastDNSMode : MulticastDNSMode;
  ac_IncludeLoopback : bool;
  ac_KeepaliveInterval : Duration;
  ac_FailedTimeout : Duration;
  ac_DisconnectedTimeout : Duration
}.

Class Pion (P C : Type) := {
  ParseURI : string → result string URI;
  NewAgent : AgentConfig → result string P;
  GetLocalUserCredentials : P → result string (string * string) * P;
  p_GatherCandidates : P → option string * P;
  p_AddRemoteCandidate : C → P → option string * P;
  p_Dial : string → string → P → P;                      (* Dial is called *)
  p_Accept : string → string → P → P;                    (* Accept is called *)
  p_Connected : P → result string string * P;            (* that call returns the path, by its remote address *)
  p_Restart : string → string → P → option string * P;
  GetSelectedCandidatePair : P → result string (option (C * C));
  p_Close : P → option string * P;
  TypeString : PionType → string;
  c_Type : C → PionType;
  c_Foundation : C → string;
  c_NetworkShort : C → string;
  c_Address : C → string;
  c_Port : C → Z;
  c_Priority : C → Z;
  Marshal : C → string;
  UnmarshalCandidate : string → result string C;
  Equal : C → C → Prop
}.

Class PionLaws (P C : Type) `{Pion P C} := {
  Unmarshal_Marshal c : ∃ c', UnmarshalCandidate (Marshal c) = Ok c' ∧ Equal c c';
  String_unspecified : TypeString TypeUnspecified ≠ "relay";
  String_host : TypeString TypeHost = "host";
  String_srflx : TypeString TypeServerReflexive = "srflx";
  String_prflx : TypeString TypePeerReflexive = "prflx";
  String_relay : TypeString TypeRelay = "relay"
}.

(** ** The adapter *)

Record PionConfig := mkPionConfig {
  pcf_Role : Role;
  pcf_STUNURLs : list string;
  pcf_TURNURLs : list string;
  pcf_TURNUser : string;
  pcf_TURNPass : string;
  pcf_KeepaliveInterval : Duration;
  pcf_FailedTimeout : Duration;
  pcf_DisconnectedTimeout : Duration;
  pcf_DisableMDNS : bool;
  pcf_IncludeLoopback : bool
}.

(** [CandidateType(s)]: the string type of [Ice]. *)
Definition candidateType (s : string) : CandidateType :=
  if decide (s = "host") then CandidateHost
  else if decide (s = "srflx") then CandidateServerReflexive
  else if decide (s = "prflx") then CandidatePeerReflexive
  else if decide (s = "relay") then CandidateRelay
  else CandidateOther s.

Section adapter.
Context {P C : Type} `{Pion P C}.

Record pionAgent := mkPionAgent { pa_agent : P; pa_role : Role }.

(** The two loops over URLs: [edit] is what is done to a parsed one. *)
Fixpoint parse_urls (edit : URI → URI) (us : list string) (urls : list URI) : result string (list URI) :=
  match us with
  | [] => Ok urls
  | u :: us => match ParseURI u with Ok uri => parse_urls edit us (urls ++ [edit uri]) | Err e => Err e end
  end.

Definition orDuration (d def : Duration) : Duration := if decide (d = 0) then def else d.

Definition turn_login (cfg : PionConfig) (u : URI) : URI :=
  mkURI (u_scheme u) (u_host u) (u_port u) (pcf_TURNUser cfg) (pcf_TURNPass cfg).

Definition NewPionAgent (cfg : PionConfig) : result string pionAgent :=
  let candTypes := [TypeHost] in
  let? urls := parse_urls id (pcf_STUNURLs cfg) [] in
  let candTypes := candTypes ++ if decide (pcf_STUNURLs cfg = []) then [] else [TypeServerReflexive] in
  let? urls := parse_urls (turn_login cfg) (pcf_TURNURLs cfg) urls in
  let candTypes := candTypes ++ if decide (pcf_TURNURLs cfg = []) then [] else [TypeRelay] in
  let ka := orDuration (pcf_KeepaliveInterval cfg) (1 * Second) in
  let ft := orDuration (pcf_FailedTimeout cfg) (10 * Second) in
  let dt := orDuration (pcf_DisconnectedTimeout cfg) (5 * Second) in
  let mdns := if pcf_DisableMDNS cfg then MulticastDNSModeDisabled else MulticastDNSModeQueryAndGather in
  let? a := NewAgent (mkAgentConfig urls [NetworkTypeUDP4; NetworkTypeUDP6] candTypes mdns (pcf_IncludeLoopback cfg) ka ft dt) in
  Ok (mkPionAgent a (pcf_Role cfg)).

Definition fromPion (c : C) : Candidate :=
  mkCandidate (candidateType (TypeString (c_Type c))) (c_Foundation c) (c_NetworkShort c) (c_Address c) (c_Port c)
    (c_Priority c) (Marshal c).

Definition with_agent {R} (p : pionAgent) (r : R * P) : R * pionAgent := (fst r, mkPionAgent (snd r) (pa_role p)).

Definition LocalCredentials (p : pionAgent) : result string Credentials * pionAgent :=
  with_agent p (match GetLocalUserCredentials (pa_agent p) with
                | (Err e, a) => (Err e, a)
                | (Ok (uf, pw), a) => (Ok (mkCredentials uf pw), a)
                end).

(** What the library calls with a new candidate, and with nil at the end. *)
Definition OnCandidate {R} (cb : option Candidate → R) (c : option C) : R :=
  match c with None => cb None | Some c => cb (Some (fromPion c)) end.

Definition GatherCandidates (p : pionAgent) : option string * pionAgent := with_agent p (p_GatherCandidates (pa_agent p)).

Definition AddRemoteCandidate (c : Candidate) (p : pionAgent) : option string * pionAgent :=
  match UnmarshalCandidate (ca_Raw c) with
  | Err e => (Some e, p)
  | Ok pc => with_agent p (p_AddRemoteCandidate pc (pa_agent p))
  end.

Definition Connect (remote : Credentials) (p : pionAgent) : pionAgent :=
  mkPionAgent (match pa_role p with
               | RoleControlling => p_Dial (cr_Ufrag remote) (cr_Pwd remote) (pa_agent p)
               | RoleControlled => p_Accept (cr_Ufrag remote) (cr_Pwd remote) (pa_agent p)
               end) (pa_role p).
Definition Connected (p : pionAgent) : result string string * pionAgent := with_agent p (p_Connected (pa_agent p)).

Definition Restart (p : pionAgent) : option string * pionAgent := with_agent p (p_Restart "" "" (pa_agent p)).

Definition SelectedPair (p : pionAgent) : option (CandidateType * CandidateType) :=
  match GetSelectedCandidatePair (pa_agent p) with
  | Err _ | Ok None => None
  | Ok (Some (local, remote)) =>
      Some (candidateType (TypeString (c_Type local)), candidateType (TypeString (c_Type remote)))
  end.

Definition Close (p : pionAgent) : option string * pionAgent := with_agent p (p_Close (pa_agent p)).

#[export] Instance pion_is_agent : Agent pionAgent := {
  Ice.LocalCredentials := LocalCredentials;
  Ice.GatherCandidates := GatherCandidates;
  Ice.AddRemoteCandidate := AddRemoteCandidate;
  Ice.ConnectBegin := Connect;
  Ice.ConnectEnd := Connected;
  Ice.SelectedPair := SelectedPair
}.
End adapter.
Arguments pionAgent : clear implicits.

(** ** Theorems *)

Section theory.
Context {P C : Type} `{PionLaws P C}.

(** The error of the first URL that is not one. *)
Definition first_error (us : list string) : option string :=
  head (omap (λ u, match ParseURI u with Err e => Some e | Ok _ => None end) us).

Lemma first_error_cons u us :
  first_error (u :: us) = match ParseURI u with Err e => Some e | Ok _ => first_error us end.
Proof. unfold first_error. simpl. by destruct (ParseURI u). Qed.

Lemma parse_urls_spec edit us urls :
  match first_error us with
  | Some e => parse_urls edit us urls = Err e
  | None => ∃ xs, Forall2 (λ u x, ParseURI u = Ok x) us xs ∧ parse_urls edit us urls = Ok (urls ++ (edit <$> xs))
  end.
Proof.
  revert urls. induction us as [|u us IH]; intros urls; simpl.
  { exists []. by rewrite app_nil_r. }
  rewrite first_error_cons. destruct (ParseURI u) as [x|e] eqn:E; [|done].
  specialize (IH (urls ++ [edit x])). destruct (first_error us); [done|].
  destruct IH as (xs & Hxs & ->). exists (x :: xs). split; [by constructor|]. by rewrite <- app_assoc.
Qed.

Lemma first_error_app us1 us2 : first_error (us1 ++ us2) = match first_error us1 with Some e => Some e | None => first_error us2 end.
Proof. unfold first_error. rewrite omap_app. by destruct (omap _ us1). Qed.

Lemma relay_type_iff (t : PionType) : candidateType (TypeString t) = CandidateRelay ↔ t = TypeRelay.
Proof.
  unfold candidateType. pose proof String_unspecified.
  destruct t; rewrite ?String_host, ?String_srflx, ?String_prflx, ?String_relay; simpl; repeat case_decide; split; congruence.
Qed.

Lemma pair_not_relayed (a : pionAgent P) l r :
  is_relay_pair (Ice.SelectedPair a) = false → GetSelectedCandidatePair (pa_agent a) = Ok (Some (l, r)) →
  c_Type l ≠ TypeRelay ∧ c_Type r ≠ TypeRelay.
Proof.
  cbn [Ice.SelectedPair pion_is_agent]. unfold SelectedPair. intros Hp Hpair. rewrite Hpair in Hp.
  apply orb_false_iff in Hp as [Hl%bool_decide_eq_false Hr%bool_decide_eq_false].
  split; intros Ht%relay_type_iff; auto.
Qed.

(** An agent is what its configuration asks for, or there is none: the first URL that cannot be
    parsed, STUN before TURN, is the error; otherwise, and if the library accepts it, the agent gathers
    over UDP host candidates always, server-reflexive ones exactly if there is a STUN URL and relayed
    ones exactly if there is a TURN URL; it uses all URLs in order, the user's credentials with the TURN
    servers only, and no interval of zero. *)
Theorem agent_is_as_configured (cfg : PionConfig) :
  match first_error (pcf_STUNURLs cfg ++ pcf_TURNURLs cfg) with
  | Some e => NewPionAgent cfg = Err e
  | None => ∃ stun turn ac,
      Forall2 (λ u x, ParseURI u = Ok x) (pcf_STUNURLs cfg) stun ∧
      Forall2 (λ u x, ParseURI u = Ok x) (pcf_TURNURLs cfg) turn ∧
      NewPionAgent cfg = match NewAgent ac with Ok a => Ok (mkPionAgent a (pcf_Role cfg)) | Err e => Err e end ∧
      ac_Urls ac = stun ++ (turn_login cfg <$> turn) ∧
      (∀ t, t ∈ ac_CandidateTypes ac ↔
         t = TypeHost ∨ t = TypeServerReflexive ∧ pcf_STUNURLs cfg ≠ [] ∨ t = TypeRelay ∧ pcf_TURNURLs cfg ≠ []) ∧
      ac_NetworkTypes ac = [NetworkTypeUDP4; NetworkTypeUDP6] ∧
      (ac_MulticastDNSMode ac = MulticastDNSModeQueryAndGather ↔ pcf_DisableMDNS cfg = false) ∧
      ac_KeepaliveInterval ac ≠ 0 ∧ ac_FailedTimeout ac ≠ 0 ∧ ac_DisconnectedTimeout ac ≠ 0
  end.
Proof.
  rewrite first_error_app. pose proof (parse_urls_spec id (pcf_STUNURLs cfg) []) as Hs.
  unfold NewPionAgent. destruct (first_error (pcf_STUNURLs cfg)); [by rewrite Hs|].
  destruct Hs as (stun & Hstun & ->). simpl. pose proof (parse_urls_spec (turn_login cfg) (pcf_TURNURLs cfg) (id <$> stun)) as Ht.
  destruct (first_error (pcf_TURNURLs cfg)); [by rewrite Ht|]. destruct Ht as (turn & Hturn & ->). simpl.
  exists stun, turn. eexists. split_and!; [done|done|reflexivity|..]; simpl.
  - by rewrite list_fmap_id.
  - intros t. repeat case_decide; set_solver.
  - done.
  - by destruct (pcf_DisableMDNS cfg).
  - unfold orDuration, Second. by case_decide.
  - unfold orDuration, Second. by case_decide.
  - unfold orDuration, Second. by case_decide.
Qed.

(** ** Two peers *)

(** What a peer sends: its credentials, then each candidate it finds ([None] at the end). *)
Definition peer_stream (sid : string) (creds : Credentials) (found : list (option C)) : list Signal :=
  credentials_signal sid creds :: (found ≫= OnCandidate (onCandidate sid)).

Lemma peer_creds sid creds found : omap creds_of (peer_stream sid creds found) = [creds].
Proof.
  unfold peer_stream. simpl. f_equal. induction found as [|[c|] found IH]; [done|..]; by rewrite bind_cons.
Qed.

Lemma peer_candidates sid creds found :
  omap candidate_of (peer_stream sid creds found) = fromPion <$> omap id found.
Proof.
  unfold peer_stream. simpl. induction found as [|[c|] found IH]; [done|..]; rewrite bind_cons; simpl; [by f_equal|done].
Qed.

(** The library is given candidates. *)
Definition given (cs : list C) (p : pionAgent P) : pionAgent P :=
  mkPionAgent (foldl (λ a c, snd (p_AddRemoteCandidate c a)) (pa_agent p) cs) (pa_role p).

(** What is fed to the library when candidates [cs] of the peer arrive. *)
Lemma add_candidates_pion (cs : list C) :
  ∃ cs', Forall2 Equal cs cs' ∧ ∀ p, add_candidates (fromPion <$> cs) p = given cs' p.
Proof.
  induction cs as [|c cs (cs' & Hcs & Hf)]; [exists []; split; [constructor|by intros []]|].
  destruct (Unmarshal_Marshal c) as (c' & E & Hc). exists (c' :: cs'). split; [by constructor|]. intros p.
  assert (Ice.AddRemoteCandidate (fromPion c) p = with_agent p (p_AddRemoteCandidate c' (pa_agent p))) as Hadd.
  { simpl. unfold AddRemoteCandidate. simpl. by rewrite E. }
  unfold add_candidates in *. simpl.
  change (AddRemoteCandidate (fromPion c) p) with (Ice.AddRemoteCandidate (fromPion c) p). by rewrite Hadd, Hf.
Qed.

(** C25. Two peers that exchange their signals negotiate with each other's data: an agent that is sent
    the stream of its peer - the credentials, then the candidates as they are found - waits until the
    credentials have come and connects with them; however the reader of the signals and the connecting
    are interleaved, the library is given candidates equal to the peer's, each once and in their order:
    those handled before it is told to connect, then those handled while it does, then those handled
    after it has; and in peer-to-peer mode the connection that the agent returns does not run over a
    pair of which the library says that an end is relayed. *)
Theorem peers_meet_over_pion (q : quic_env) role sid sid' creds (found : list (option C)) before during late rest p2pOnly pcSeq local
    (p p1 p2 : pionAgent P) :
  LocalCredentials p = (Ok local, p1) → GatherCandidates p1 = (None, p2) →
  peer_stream sid' creds found = before ++ during ++ late ++ rest →
  let negotiated := Negotiate q None role sid before during late false p2pOnly pcSeq p in
  (before = [] → negotiated = ([credentials_signal sid local], Waiting)) ∧
  (before ≠ [] → ∃ cs1 cs2 cs3,
    Forall2 Equal (take (length (cs1 ++ cs2 ++ cs3)) (omap id found)) (cs1 ++ cs2 ++ cs3) ∧
    (rest = [] → length (cs1 ++ cs2 ++ cs3) = length (omap id found)) ∧
    let '(res, cl, p4, _) := Establish q (given cs2) (given cs3) role creds p2pOnly pcSeq (given cs1 p2) in
    negotiated = ([credentials_signal sid local], Done res cl p4) ∧
    (∀ qc l r, res = Ok qc → p2pOnly = true → GetSelectedCandidatePair (pa_agent p4) = Ok (Some (l, r)) →
       c_Type l ≠ TypeRelay ∧ c_Type r ≠ TypeRelay)).
Proof.
  intros Hl Hg Hst negotiated.
  pose proof (negotiate_spec q role sid before during late p2pOnly pcSeq local p p1 p2 Hl Hg) as Hn. fold negotiated in Hn.
  split; [by intros ->|]. intros Hb.
  assert (head (omap creds_of before) = Some creds) as Hc.
  { destruct before as [|sig before]; [done|]. unfold peer_stream in Hst. simpl in Hst. injection Hst as <- _. done. }
  rewrite Hc in Hn. pose proof (peer_candidates sid' creds found) as Hpc. rewrite Hst, !omap_app in Hpc. symmetry in Hpc.
  apply fmap_app_inv in Hpc as (l1 & lr1 & E1 & Hpc & Hf). symmetry in Hpc.
  apply fmap_app_inv in Hpc as (l2 & lr2 & E2 & Hpc & ->). symmetry in Hpc.
  apply fmap_app_inv in Hpc as (l3 & l4 & E3 & E4 & ->).
  destruct (add_candidates_pion l1) as (cs1 & F1 & A1). destruct (add_candidates_pion l2) as (cs2 & F2 & A2).
  destruct (add_candidates_pion l3) as (cs3 & F3 & A3). exists cs1, cs2, cs3.
  assert (Forall2 Equal (l1 ++ l2 ++ l3) (cs1 ++ cs2 ++ cs3)) as HF by (by repeat apply Forall2_app).
  rewrite <- (Forall2_length _ _ _ HF), Hf. split; [|split].
  { assert (l1 ++ l2 ++ l3 ++ l4 = (l1 ++ l2 ++ l3) ++ l4) as -> by (by rewrite <- !app_assoc). rewrite take_app_length. exact HF. }
  { intros ->. simpl in E4. symmetry in E4. apply fmap_nil_inv in E4 as ->. by rewrite app_nil_r. }
  cbv zeta in Hn. rewrite E1, A1 in Hn. rewrite (Establish_ext q _ _ (given cs2) (given cs3)) in Hn
    by (intros; by rewrite feed_spec, ?E2, ?E3, ?A2, ?A3).
  pose proof (establish_p2p q (given cs2) (given cs3) role creds p2pOnly pcSeq (given cs1 p2)) as Hp.
  destruct (Establish _ _ _ _ _ _ _ _) as [[[res cl] p4] seq']. split; [exact Hn|].
  intros qc l r -> ->. apply pair_not_relayed. destruct Hp as [Hp _].
  destruct (is_relay_pair _); [|done]. by destruct (Hp eq_refl eq_refl qc).
Qed.
End theory.

(** ** A library that keeps what it is given *)

Definition demo_string (t : PionType) : string :=
  match t with
  | TypeUnspecified => "unknown" | TypeHost => "host" | TypeServerReflexive => "srflx"
  | TypePeerReflexive => "prflx" | TypeRelay => "relay"
  end.
Definition demo_type (s : string) : option PionType :=
  if decide (s = "unknown") then Some TypeUnspecified else if decide (s = "host") then Some TypeHost
  else if decide (s = "srflx") then Some TypeServerReflexive else if decide (s = "prflx") then Some TypePeerReflexive
  else if decide (s = "relay") then Some TypeRelay else None.

(** A candidate is a type and an address; an agent is the list of its peer's candidates. *)
#[local] Instance demo_pion : Pion (list (PionType * string)) (PionType * string) := {
  ParseURI u := match cut_on ":"%char u with Some (s, h) => Ok (mkURI s h 3478 "" "") | None => Err u end;
  NewAgent _ := Ok [];
  GetLocalUserCredentials a := (Ok ("me", "pw"), a);
  p_GatherCandidates a := (None, a);
  p_AddRemoteCandidate c a := (None, a ++ [c]);
  p_Dial uf pw a := a;
  p_Accept uf pw a := a;
  p_Connected a := (Ok "peer", a);
  p_Restart _ _ a := (None, a);
  GetSelectedCandidatePair a := Ok (match a with c :: _ => Some ((TypeHost, "10.0.0.1"), c) | [] => None end);
  p_Close a := (None, []);
  TypeString := demo_string;
  c_Type := fst;
  c_Foundation _ := "1";
  c_NetworkShort _ := "udp";
  c_Address := snd;
  c_Port _ := 4000;
  c_Priority _ := 1;
  Marshal c := demo_string (fst c) +:+ String " "%char (snd c);
  UnmarshalCandidate s := match cut_on " "%char s with
                          | Some (t, a) => match demo_type t with Some t => Ok (t, a) | None => Err s end
                          | None => Err s
                          end;
  Equal := (=)
}.
#[local] Instance demo_pion_laws : PionLaws (list (PionType * string)) (PionType * string).
Proof. split; try done. intros [t a]. exists (t, a). split; [|done]. by destruct t. Qed.

Definition demo_found : list (option (PionType * string)) :=
  [Some (TypeHost, "10.0.0.2"); Some (TypeRelay, "5.6.7.8"); None].
Definition demo_agent : pionAgent (list (PionType * string)) := mkPionAgent [] RoleControlling.

(** The credentials come alone; the first candidate arrives while the agent connects. *)
Definition demo_stream : list Signal := peer_stream "2" (mkCredentials "a" "x") demo_found.

Example demo_negotiation :
  snd (Negotiate dial_ok None RoleControlling "1" (take 1 demo_stream) (take 1 (drop 1 demo_stream)) (drop 2 demo_stream) false true 0 demo_agent) =
  Done (Ok 1%positive) [] (mkPionAgent [(TypeHost, "10.0.0.2"); (TypeRelay, "5.6.7.8")] RoleControlling).
Proof. reflexivity. Qed.

Lemma peers_meet_over_pion_witness :
  let negotiated := Negotiate dial_ok None RoleControlling "1" (take 1 demo_stream) (take 1 (drop 1 demo_stream)) (drop 2 demo_stream) false true 0 demo_agent in
  ∃ cs1 cs2 cs3,
    Forall2 Equal (take (length (cs1 ++ cs2 ++ cs3)) (omap id demo_found)) (cs1 ++ cs2 ++ cs3) ∧
    (@nil Signal = [] → length (cs1 ++ cs2 ++ cs3) = length (omap id demo_found)) ∧
    let '(res, cl, p4, _) := Establish dial_ok (given cs2) (given cs3) RoleControlling (mkCredentials "a" "x") true 0 (given cs1 demo_agent) in
    negotiated = ([credentials_signal "1" (mkCredentials "me" "pw")], Done res cl p4) ∧
    (∀ qc l r, res = Ok qc → true = true → GetSelectedCandidatePair (pa_agent p4) = Ok (Some (l, r)) →
       c_Type l ≠ TypeRelay ∧ c_Type r ≠ TypeRelay).
Proof.
  refine (proj2 (peers_meet_over_pion dial_ok RoleControlling "1" "2" (mkCredentials "a" "x") demo_found (take 1 demo_stream)
           (take 1 (drop 1 demo_stream)) (drop 2 demo_stream) [] true 0 (mkCredentials "me" "pw") demo_agent demo_agent demo_agent _ _ _) _);
    [reflexivity..|discriminate].
Defined.

(** A URL without a scheme: no agent. *)
Example bad_url_refused :
  NewPionAgent (mkPionConfig RoleControlled ["stun:b:3478"; "broker"] ["turn"] "" "" 0 0 0 false false) = Err "broker".
Proof. reflexivity. Qed.
