(* ===== verification/Netcfg.v ===== *)
(** * internal/netcfg: host network configuration, common parts

    Commands are argument vectors.  [run] executes one on the host: the host's state and what a command
    does to it are outside the repository, so [run] is a parameter of every operation, and the files
    [NetLinux], [NetDarwin] and [NetWindows] state what their theorems rely on as a class with laws. *)
From S2P Require Import Prelude Strs Netip.
From Stdlib Require Import Strings.Ascii.

Open Scope Z_scope.

(** [net.ParseCIDR]: an IPv4 address with its prefix length, or what the library says of an IPv6 one
    (the texts of the address, the network, the mask and the network's address). *)
Inductive cidr := Cidr4 (ip bits : Z) | Cidr6 (local network mask base : string).

Definition mask_bits (s : string) : option Z :=
  if decide (s = "") then None
  else if string_forall is_digit s then let n := digits_val 0 s in if n <=? 32 then Some n else None else None.

Definition ParseCIDR (parse6 : string → option cidr) (s : string) : option cidr :=
  match cut_on "/"%char s with
  | Some (a, m) =>
      match parseIPv4 a, mask_bits m with
      | Some (Addr4 z), Some n => Some (Cidr4 z n)
      | Some _, _ => None
      | None, _ => parse6 s
      end
  | None => None
  end.

Definition network4 (ip bits : Z) : Z := Z.shiftl (Z.shiftr ip (32 - bits)) (32 - bits).

(** [gateway] and [winGateway]: the last byte of the network's address, incremented. *)
Definition gateway4 (ip bits : Z) : Z :=
  let n := network4 ip bits in n - n mod 256 + u8 (n mod 256 + 1).

Definition local_text (c : cidr) : string := match c with Cidr4 ip _ => String4 ip | Cidr6 l _ _ _ => l end.
Definition network_text (c : cidr) : string :=
  match c with Cidr4 ip n => String4 (network4 ip n) +:+ "/" +:+ itoa n | Cidr6 _ n _ _ => n end.
Definition mask_text (c : cidr) : string :=
  match c with Cidr4 _ n => String4 (2 ^ 32 - 2 ^ (32 - n)) | Cidr6 _ _ m _ => m end.
Definition gateway (c : cidr) : string :=
  match c with Cidr4 ip n => String4 (gateway4 ip n) | Cidr6 _ _ _ b => b end.

(** The gateway of a network that leaves room for two addresses is its first host. *)
Lemma gateway4_first_host ip bits : 0 ≤ ip → 0 ≤ bits < 32 → gateway4 ip bits = network4 ip bits + 1.
Proof.
  intros Hip Hb. unfold gateway4, network4, u8. rewrite Z.shiftl_mul_pow2, Z.shiftr_div_pow2 by lia.
  set (q := ip / 2 ^ (32 - bits)). assert (∃ k, q * 2 ^ (32 - bits) = 2 * k) as [k ->].
  { exists (q * 2 ^ (31 - bits)). replace (32 - bits) with (Z.succ (31 - bits)) by lia. rewrite Z.pow_succ_r by lia. lia. }
  change (2 ^ 8) with 256. Z.div_mod_to_equations. lia.
Qed.

Section commands.
Context {H : Type} (run : list string → H → option string * H).

Fixpoint runAll (cmds : list (list string)) (h : H) : option string * H :=
  match cmds with
  | [] => (None, h)
  | c :: cmds => match run c h with (Some e, h) => (Some e, h) | (None, h) => runAll cmds h end
  end.

(** Best effort: errors are ignored. *)
Definition runEach (cmds : list (list string)) (h : H) : H := foldl (λ h c, snd (run c h)) h cmds.

(** A chain of commands each of which must succeed. *)
Lemma runAll_app cs1 cs2 h :
  runAll (cs1 ++ cs2) h = match runAll cs1 h with (None, h) => runAll cs2 h | (Some e, h) => (Some e, h) end.
Proof.
  revert h. induction cs1 as [|c cs1 IH]; intros h; simpl; [done|]. destruct (run c h) as [[e|] h']; [done|apply IH].
Qed.
End commands.
