(* ===== verification/NetLinux.v ===== *)
(** * internal/netcfg/netcfg_linux.go: addresses, routes, NAT and isolation with ip and iptables

    [IpHost] is what the theorems rely on: the route a destination has, and the rules of the FORWARD
    chain, after the commands the package runs - if they succeed - and after the end of the program
    whose TUN device it was (ip-route(8), ip-address(8), iptables(8), the kernel's tuntap). *)
From S2P Require Import Prelude Strs Netcfg.

Open Scope Z_scope.
Open Scope string_scope.
Open Scope list_scope.

Section linux.
Context {H : Type} (run : list string → H → option string * H).

Definition AddrUp (ifName cidr : string) (mtu : Z) : H → option string * H :=
  runAll run [["ip"; "addr"; "add"; cidr; "dev"; ifName]; ["ip"; "link"; "set"; "dev"; ifName; "mtu"; itoa mtu];
              ["ip"; "link"; "set"; "dev"; ifName; "up"]].

Definition AddHostRoute (brokerIP viaGateway devName : string) : H → option string * H :=
  run ["ip"; "route"; "add"; brokerIP +:+ "/32"; "via"; viaGateway; "dev"; devName].

Definition SetDefaultRoute (ifName : string) : H → option string * H :=
  run ["ip"; "route"; "replace"; "default"; "dev"; ifName].

Definition Cleanup (ifName brokerIP gw gwDev : string) (full : bool) (h : H) : H :=
  let h := if decide (brokerIP = "") then h else snd (run ["ip"; "route"; "del"; brokerIP +:+ "/32"] h) in
  if full then
    if bool_decide (gw ≠ "") && bool_decide (gwDev ≠ "")
    then snd (run ["ip"; "route"; "replace"; "default"; "via"; gw; "dev"; gwDev] h)
    else snd (run ["ip"; "route"; "del"; "default"; "dev"; ifName] h)
  else h.

(** [ip_forward]: the contents of /proc/sys/net/ipv4/ip_forward, if it can be read. *)
Definition EnableForwarding (ip_forward : option string) (h : H) : option string * H :=
  match ip_forward with
  | Some b => if decide (TrimSpace b = "1") then (None, h) else run ["sysctl"; "-w"; "net.ipv4.ip_forward=1"] h
  | None => run ["sysctl"; "-w"; "net.ipv4.ip_forward=1"] h
  end.

Definition Masquerade (srcCIDR uplinkIface : string) : H → option string * H :=
  runAll run [["iptables"; "-t"; "nat"; "-A"; "POSTROUTING"; "-s"; srcCIDR; "-o"; uplinkIface; "-j"; "MASQUERADE"];
              ["iptables"; "-A"; "FORWARD"; "-o"; uplinkIface; "-j"; "ACCEPT"];
              ["iptables"; "-A"; "FORWARD"; "-i"; uplinkIface; "-m"; "state"; "--state"; "RELATED,ESTABLISHED"; "-j"; "ACCEPT"]].

Definition private_ranges : list string := ["10.0.0.0/8"; "172.16.0.0/12"; "192.168.0.0/16"; "169.254.0.0/16"].

Definition Isolate (vpnCIDR : string) : H → option string * H :=
  runAll run ((λ c, ["iptables"; "-I"; "FORWARD"; "-s"; vpnCIDR; "-d"; c; "-j"; "DROP"]) <$> vpnCIDR :: private_ranges).
End linux.

(** ** What the commands do *)

(** A route, given by its arguments, goes through a device. *)
Fixpoint through (ifName : string) (args : list string) : bool :=
  match args with
  | "dev" :: ((d :: _) as args) => bool_decide (d = ifName) || through ifName args
  | _ :: args => through ifName args
  | [] => false
  end.
Definition via_dev (ifName : string) (r : option (list string)) : bool := from_option (through ifName) false r.

Class IpHost (H : Type) := {
  run : list string → H → option string * H;
  route : H → string → option (list string);     (* the arguments a destination is routed with *)
  forward : H → list (list string);              (* the FORWARD chain, first rule first *)
  tun_closed : string → H → H;                   (* the program that opened this TUN device has ended *)
  route_add d args h h' :
    run ("ip" :: "route" :: "add" :: d :: args) h = (None, h') →
    ∀ k, route h' k = if decide (k = d) then Some args else route h k;
  route_replace d args h h' :
    run ("ip" :: "route" :: "replace" :: d :: args) h = (None, h') →
    ∀ k, route h' k = if decide (k = d) then Some args else route h k;
  route_del d h h' :
    run ["ip"; "route"; "del"; d] h = (None, h') → ∀ k, route h' k = if decide (k = d) then None else route h k;
  addr_add cidr ifName h k :
    let h' := snd (run ["ip"; "addr"; "add"; cidr; "dev"; ifName] h) in
    route h' k = route h k ∨ (route h k = None ∧ via_dev ifName (route h' k) = true);
  link_set ifName args h k :
    let h' := snd (run ("ip" :: "link" :: "set" :: "dev" :: ifName :: args) h) in
    route h' k = route h k ∨ (route h k = None ∧ via_dev ifName (route h' k) = true);
  tun_closed_route ifName h k : route (tun_closed ifName h) k = if via_dev ifName (route h k) then None else route h k;
  other_commands c h : head c ≠ Some "iptables" → forward (snd (run c h)) = forward h;
  nat_append args h : forward (snd (run ("iptables" :: "-t" :: "nat" :: args) h)) = forward h;
  chain_append rule h h' : run ("iptables" :: "-A" :: "FORWARD" :: rule) h = (None, h') → forward h' = forward h ++ [rule];
  chain_insert rule h h' : run ("iptables" :: "-I" :: "FORWARD" :: rule) h = (None, h') → forward h' = rule :: forward h
}.

Section properties.
Context {H : Type} `{IpHost H}.

Definition drop_rule (vpnCIDR dst : string) : list string := ["-s"; vpnCIDR; "-d"; dst; "-j"; "DROP"].

(** Inserting rules one after the other puts the last first. *)
Lemma insert_rules rules h h' :
  runAll run ((λ r, "iptables" :: "-I" :: "FORWARD" :: r) <$> rules) h = (None, h') → forward h' = reverse rules ++ forward h.
Proof.
  revert h. induction rules as [|r rules IH]; intros h E; simpl in E; [by injection E as <-|].
  destruct (run ("iptables" :: "-I" :: "FORWARD" :: r) h) as [[e|] h1] eqn:E1; [done|].
  rewrite (IH _ E), (chain_insert _ _ _ E1), reverse_cons, <- app_assoc. done.
Qed.

(** Commands other than iptables leave the chain alone. *)
Lemma runAll_forward cmds h e h' :
  Forall (λ c, head c ≠ Some "iptables") cmds → runAll run cmds h = (e, h') → forward h' = forward h.
Proof.
  intros Hc. revert h. induction Hc as [|c cmds Hc _ IH]; intros h E; simpl in E; [by injection E as _ <-|].
  pose proof (other_commands c h Hc) as Ho. destruct (run c h) as [[e1|] h1]; simpl in Ho.
  - injection E as _ <-. done.
  - by rewrite (IH _ E).
Qed.

Lemma AddrUp_forward ifName cidr mtu h e h' : AddrUp run ifName cidr mtu h = (e, h') → forward h' = forward h.
Proof. apply runAll_forward. by repeat constructor. Qed.

Lemma EnableForwarding_forward f h e h' : EnableForwarding run f h = (e, h') → forward h' = forward h.
Proof.
  pose proof (other_commands ["sysctl"; "-w"; "net.ipv4.ip_forward=1"] h ltac:(done)) as Ho.
  unfold EnableForwarding. destruct f; [case_decide|]; intros E; rewrite ?E in Ho; try done; by injection E as _ <-.
Qed.

(** After NAT and isolation the FORWARD chain starts with the rules that drop, and ends with those that
    accept. *)
Lemma isolation_rules vpn uplink h h1 h2 :
  Masquerade run vpn uplink h = (None, h1) → Isolate run vpn h1 = (None, h2) →
  ∃ accepts, forward h2 = reverse (drop_rule vpn <$> vpn :: private_ranges) ++ forward h ++ accepts ∧
    length accepts = 2%nat.
Proof.
  intros HM HI. unfold Isolate in HI.
  change ((λ c, ["iptables"; "-I"; "FORWARD"; "-s"; vpn; "-d"; c; "-j"; "DROP"]) <$> vpn :: private_ranges)
    with ((λ r, "iptables" :: "-I" :: "FORWARD" :: r) <$> (drop_rule vpn <$> vpn :: private_ranges)) in HI.
  rewrite (insert_rules _ _ _ HI). unfold Masquerade in HM. cbn [runAll] in HM.
  pose proof (nat_append ["-A"; "POSTROUTING"; "-s"; vpn; "-o"; uplink; "-j"; "MASQUERADE"] h) as Hn.
  destruct (run _ h) as [[e|] h3]; [done|]. simpl in Hn.
  destruct (run _ h3) as [[e|] h4] eqn:E4; [done|]. destruct (run _ h4) as [[e|] h5] eqn:E5; [done|].
  injection HM as <-. rewrite (chain_append _ _ _ E5), (chain_append _ _ _ E4), Hn, <- app_assoc. simpl.
  by eexists.
Qed.

(** Bringing an interface up adds routes through it to destinations that had none, and no others. *)
Definition added_by (ifName : string) (h h' : H) : Prop :=
  ∀ k, route h' k = route h k ∨ (route h k = None ∧ via_dev ifName (route h' k) = true).

Lemma added_by_trans ifName h1 h2 h3 : added_by ifName h1 h2 → added_by ifName h2 h3 → added_by ifName h1 h3.
Proof.
  intros H12 H23 k. destruct (H12 k) as [<-|[Hn Ht]]; [apply H23|].
  destruct (H23 k) as [->|[Hn' _]]; [by right|]. by rewrite Hn' in Ht.
Qed.

Lemma AddrUp_added ifName cidr mtu h : added_by ifName h (snd (AddrUp run ifName cidr mtu h)).
Proof.
  unfold AddrUp. cbn [runAll]. pose proof (addr_add cidr ifName h) as H1. destruct (run _ h) as [[e|] h1]; [exact H1|].
  pose proof (link_set ifName ["mtu"; itoa mtu] h1) as H2. destruct (run _ h1) as [[e|] h2]; [by eapply added_by_trans|].
  pose proof (link_set ifName ["up"] h2) as H3. destruct (run _ h2) as [[e|] h3];
    (eapply added_by_trans; [exact H1|eapply added_by_trans; [exact H2|exact H3]]).
Qed.

(** The commands that undo a full tunnel. *)
Definition undo (brokerIP gw dev : string) : list (list string) :=
  [["ip"; "route"; "del"; brokerIP +:+ "/32"]; ["ip"; "route"; "replace"; "default"; "via"; gw; "dev"; dev]].

Lemma Cleanup_undo tun brokerIP gw dev h h' :
  brokerIP ≠ "" → gw ≠ "" → dev ≠ "" → runAll run (undo brokerIP gw dev) h = (None, h') →
  Cleanup run tun brokerIP gw dev true h = h' ∧
  ∀ k, route h' k = if decide (k = "default") then Some ["via"; gw; "dev"; dev]
                    else if decide (k = brokerIP +:+ "/32") then None else route h k.
Proof.
  intros Hb Hg Hd E. unfold undo in E. cbn [runAll] in E. unfold Cleanup.
  rewrite decide_False, !bool_decide_eq_true_2 by done. cbn [andb].
  destruct (run ["ip"; "route"; "del"; _] h) as [[e|] h1] eqn:E1; [done|]. simpl.
  destruct (run _ h1) as [[e|] h2] eqn:E2; [done|]. injection E as <-. split; [done|]. intros k.
  rewrite (route_replace _ _ _ _ E2), (route_del _ _ _ E1). done.
Qed.

(** The tunnel's routes are undone.  When the host's default route goes through the gateway, there is
    no route of its own to the broker and none through the TUN device, and the commands succeed, then
    a full tunnel is set up with the broker still reached through that gateway and everything else
    through the tunnel; and when the program has ended and the cleanup has run, in either order, every
    destination has the route it had. *)
Theorem cleanup_restores_routes tun brokerIP gw dev h h0 h1 h2 :
  brokerIP ≠ "" → gw ≠ "" → dev ≠ "" →
  route h "default" = Some ["via"; gw; "dev"; dev] → route h (brokerIP +:+ "/32") = None →
  (∀ k, via_dev tun (route h k) = false) → added_by tun h h0 →
  AddHostRoute run brokerIP gw dev h0 = (None, h1) → SetDefaultRoute run tun h1 = (None, h2) →
  route h2 "default" = Some ["dev"; tun] ∧ route h2 (brokerIP +:+ "/32") = Some ["via"; gw; "dev"; dev] ∧
  ∀ (early : bool) h3, runAll run (undo brokerIP gw dev) (if early then h2 else tun_closed tun h2) = (None, h3) →
    Cleanup run tun brokerIP gw dev true (if early then h2 else tun_closed tun h2) = h3 ∧
    ∀ k, route (if early then tun_closed tun h3 else h3) k = route h k.
Proof.
  intros Hb Hg Hd Hdef Hnew Hno Hup E1 E2. unfold AddHostRoute, SetDefaultRoute in *.
  pose proof (route_add _ _ _ _ E1) as R1. pose proof (route_replace _ _ _ _ E2) as R2.
  set (b := brokerIP +:+ "/32") in *. assert (b ≠ "default") as Hne by congruence.
  split; [by rewrite R2, decide_True|]. split; [by rewrite R2, decide_False, R1, decide_True|].
  intros early h3 E3. destruct (Cleanup_undo tun _ _ _ _ _ Hb Hg Hd E3) as [HC R3]. split; [done|]. intros k.
  pose proof (Hno "default") as Hgw. rewrite Hdef in Hgw.
  assert (∀ x, x ≠ "default" → x ≠ b → (if via_dev tun (route h2 x) then None else route h2 x) = route h x) as Hk.
  { intros x Hx1 Hx2. rewrite R2, decide_False, R1, decide_False by done.
    destruct (Hup x) as [->|[-> ->]]; [by rewrite Hno|done]. }
  destruct early.
  - rewrite tun_closed_route, R3. destruct (decide (k = "default")) as [->|]; [by rewrite Hgw|].
    destruct (decide (k = brokerIP +:+ "/32")) as [->|]; [done|]. by apply Hk.
  - rewrite R3, tun_closed_route. destruct (decide (k = "default")) as [->|]; [done|].
    destruct (decide (k = brokerIP +:+ "/32")) as [->|]; [done|]. by apply Hk.
Qed.
End properties.

(** ** A concrete host *)

Definition host : Type := gmap string (list string) * list (list string).

Definition host_run (c : list string) (h : host) : option string * host :=
  match c with
  | "ip" :: "route" :: "add" :: d :: args =>
      match h.1 !! d with Some _ => (Some "File exists", h) | None => (None, (<[d := args]> h.1, h.2)) end
  | "ip" :: "route" :: "replace" :: d :: args => (None, (<[d := args]> h.1, h.2))
  | ["ip"; "route"; "del"; d] =>
      match h.1 !! d with Some _ => (None, (delete d h.1, h.2)) | None => (Some "No such process", h) end
  | ["ip"; "addr"; "add"; cidr; "dev"; ifName] =>
      match h.1 !! cidr with Some _ => (None, h) | None => (None, (<[cidr := ["dev"; ifName]]> h.1, h.2)) end
  | "iptables" :: "-A" :: "FORWARD" :: rule => (None, (h.1, h.2 ++ [rule]))
  | "iptables" :: "-I" :: "FORWARD" :: rule => (None, (h.1, rule :: h.2))
  | _ => (None, h)
  end.

Definition host_closed (ifName : string) (h : host) : host := (filter (λ kr, through ifName kr.2 = false) h.1, h.2).

#[export] Program Instance host_IpHost : IpHost host :=
  {| run := host_run; route h d := h.1 !! d; forward := snd; tun_closed := host_closed |}.
Next Obligation.
  intros d args [t f] h' E k. simpl in *. destruct (t !! d); [done|]. injection E as <-. simpl.
  case_decide; [subst; apply lookup_insert_eq|by rewrite lookup_insert_ne].
Qed.
Next Obligation.
  intros d args [t f] h' E k. injection E as <-. simpl.
  case_decide; [subst; apply lookup_insert_eq|by rewrite lookup_insert_ne].
Qed.
Next Obligation.
  intros d [t f] h' E k. simpl in *. destruct (t !! d); [|done]. injection E as <-. simpl.
  case_decide; [subst; apply lookup_delete_eq|by rewrite lookup_delete_ne].
Qed.
Next Obligation.
  intros cidr ifName [t f] k. simpl. destruct (t !! cidr) eqn:E; [by left|]. simpl.
  destruct (decide (cidr = k)) as [->|]; [right|left; by rewrite lookup_insert_ne]. split; [done|].
  rewrite lookup_insert_eq. simpl. by rewrite bool_decide_eq_true_2.
Qed.
Next Obligation. intros ifName args [t f] k. by left. Qed.
Next Obligation.
  intros ifName [t f] k. simpl. destruct (t !! k) as [args|] eqn:E; simpl.
  - destruct (through ifName args) eqn:Et.
    + apply map_lookup_filter_None. right. intros x Hx. simpl. congruence.
    + by apply map_lookup_filter_Some.
  - apply map_lookup_filter_None. by left.
Qed.
Next Obligation.
  intros c [t f] Hc. unfold host_run. repeat (case_match; try done).
Qed.
Next Obligation. intros args [t f]. done. Qed.
Next Obligation. intros rule [t f] h'. by intros [= <-]. Qed.
Next Obligation. intros rule [t f] h'. by intros [= <-]. Qed.

Definition demo_host : host := ({[ "default" := ["via"; "192.168.1.1"; "dev"; "eth0"] ]}, [["-j"; "LOG"]]).

Lemma demo_no_tun k : via_dev "tun0" (route demo_host k) = false.
Proof.
  simpl. destruct (decide (k = "default")) as [->|]; [done|]. by rewrite lookup_singleton_ne.
Qed.

Lemma cleanup_restores_routes_witness :
  let h0 := snd (AddrUp run "tun0" "10.99.0.2/24" 1200 demo_host) in
  let h1 := snd (AddHostRoute run "203.0.113.5" "192.168.1.1" "eth0" h0) in
  let h2 := snd (SetDefaultRoute run "tun0" h1) in
  route h2 "default" = Some ["dev"; "tun0"] ∧ route h2 ("203.0.113.5" +:+ "/32") = Some ["via"; "192.168.1.1"; "dev"; "eth0"] ∧
  ∀ (early : bool) h3, runAll run (undo "203.0.113.5" "192.168.1.1" "eth0") (if early then h2 else tun_closed "tun0" h2) = (None, h3) →
    Cleanup run "tun0" "203.0.113.5" "192.168.1.1" "eth0" true (if early then h2 else tun_closed "tun0" h2) = h3 ∧
    ∀ k, route (if early then tun_closed "tun0" h3 else h3) k = route demo_host k.
Proof.
  intros h0 h1 h2. apply (cleanup_restores_routes "tun0" "203.0.113.5" "192.168.1.1" "eth0" demo_host h0 h1 h2); try done.
  - apply demo_no_tun.
  - apply AddrUp_added.
Defined.
