(* ===== verification/NetDarwin.v ===== *)
(** * internal/netcfg/netcfg_darwin.go: the client's data plane on macOS

    Command vectors for ifconfig(8) and route(8).  The full tunnel overrides the default route with two
    halves of the address space; the class states what adding and deleting routes does. *)
From S2P Require Import Prelude Strs Netip Netcfg.

Open Scope Z_scope.
Open Scope string_scope.
Open Scope list_scope.
Open Scope Z_scope.

Definition addrUpCmds (parse6 : string → option cidr) (ifName cidr : string) (mtu : Z) : option (list (list string)) :=
  match ParseCIDR parse6 cidr with
  | None => None
  | Some c =>
      Some ([["ifconfig"; ifName; "inet"; local_text c; gateway c; "up"]] ++
            (if 0 <? mtu then [["ifconfig"; ifName; "mtu"; itoa mtu]] else []) ++
            [["route"; "-n"; "add"; "-net"; network_text c; "-interface"; ifName]])
  end.

Definition addHostRouteCmds (brokerIP viaGateway : string) : list (list string) :=
  [["route"; "-n"; "add"; "-host"; brokerIP; viaGateway]].

Definition setDefaultRouteCmds (ifName : string) : list (list string) :=
  [["route"; "-n"; "add"; "-net"; "0.0.0.0/1"; "-interface"; ifName];
   ["route"; "-n"; "add"; "-net"; "128.0.0.0/1"; "-interface"; ifName]].

Definition unsupportedDarwin (op : string) : string :=
  "netcfg." +:+ op +:+ ": exit-side NAT is Linux-only — run the exit node on Linux".

Section darwin.
Context {H : Type} (run : list string → H → option string * H).

Definition AddrUp (parse6 : string → option cidr) (ifName cidr : string) (mtu : Z) (h : H) : option string * H :=
  match addrUpCmds parse6 ifName cidr mtu with
  | None => (Some "parse cidr", h)
  | Some cmds => runAll run cmds h
  end.

Definition AddHostRoute (brokerIP viaGateway devName : string) : H → option string * H :=
  runAll run (addHostRouteCmds brokerIP viaGateway).

Definition SetDefaultRoute (ifName : string) : H → option string * H := runAll run (setDefaultRouteCmds ifName).

Definition Cleanup (ifName brokerIP gw gwDev : string) (full : bool) : H → H :=
  runEach run ((if full then [["route"; "-n"; "delete"; "-net"; "0.0.0.0/1"]; ["route"; "-n"; "delete"; "-net"; "128.0.0.0/1"]]
                else []) ++
               (if decide (brokerIP = "") then [] else [["route"; "-n"; "delete"; "-host"; brokerIP]])).

Definition EnableForwarding (h : H) : option string * H := (Some (unsupportedDarwin "EnableForwarding"), h).
Definition Masquerade (srcCIDR uplinkIface : string) (h : H) : option string * H := (Some (unsupportedDarwin "Masquerade"), h).
Definition Isolate (vpnCIDR : string) (h : H) : option string * H := (Some (unsupportedDarwin "Isolate"), h).
End darwin.

(** ** Adding and deleting routes, of networks and of hosts *)

Class RouteHost (H : Type) := {
  run : list string → H → option string * H;
  route : H → string * string → option (list string);       (* by kind and destination *)
  route_add kind d args h h' :
    run ("route" :: "-n" :: "add" :: kind :: d :: args) h = (None, h') →
    ∀ k, route h' k = if decide (k = (kind, d)) then Some args else route h k;
  route_delete kind d h :
    route h (kind, d) ≠ None → ∃ h', run ["route"; "-n"; "delete"; kind; d] h = (None, h') ∧
      ∀ k, route h' k = if decide (k = (kind, d)) then None else route h k
}.

(** If the tunnel's routes were added, no other route was touched, and the cleanup gives the routes
    there were before. *)
Theorem darwin_cleanup_restores {H} `{RouteHost H} tun brokerIP gw dev (h : H) :
  brokerIP ≠ "" → route h ("-host", brokerIP) = None → route h ("-net", "0.0.0.0/1") = None →
  route h ("-net", "128.0.0.0/1") = None →
  let '(e1, h1) := AddHostRoute run brokerIP gw dev h in
  let '(e2, h2) := SetDefaultRoute run tun h1 in
  e1 = None → e2 = None →
  (∀ k, k ∉ [("-host", brokerIP); ("-net", "0.0.0.0/1"); ("-net", "128.0.0.0/1")] → route h2 k = route h k) ∧
  ∀ k, route (Cleanup run tun brokerIP gw dev true h2) k = route h k.
Proof.
  intros Hb N0 N1 N2. unfold AddHostRoute, SetDefaultRoute, Cleanup, addHostRouteCmds, setDefaultRouteCmds, runEach.
  cbn [runAll]. destruct (run _ h) as [[e|] h1] eqn:E1; [by repeat case_match|].
  destruct (run _ h1) as [[e|] h2] eqn:E2; [done|]. destruct (run _ h2) as [[e|] h3] eqn:E3; [done|]. intros _ _.
  pose proof (route_add _ _ _ _ _ E1) as R1. pose proof (route_add _ _ _ _ _ E2) as R2. pose proof (route_add _ _ _ _ _ E3) as R3.
  rewrite decide_False by done. cbn [foldl app].
  destruct (route_delete "-net" "0.0.0.0/1" h3) as (h4 & -> & R4);
    [by rewrite R3, decide_False, R2, decide_True|]. cbn [snd].
  destruct (route_delete "-net" "128.0.0.0/1" h4) as (h5 & -> & R5);
    [by rewrite R4, decide_False, R3, decide_True|]. cbn [snd].
  destruct (route_delete "-host" brokerIP h5) as (h6 & -> & R6);
    [by rewrite R5, decide_False, R4, decide_False, R3, decide_False, R2, decide_False, R1, decide_True|]. cbn [snd].
  split.
  - intros k Hk. rewrite !not_elem_of_cons in Hk. destruct Hk as (K1 & K2 & K3 & _).
    by rewrite R3, R2, R1, !decide_False.
  - intros k. rewrite R6, R5, R4, R3, R2, R1. repeat case_decide; subst; congruence.
Qed.

(** The vectors of the package's own tests. *)
Example darwin_test_vectors :
  addrUpCmds (λ _, None) "utun4" "10.99.0.2/24" 1350 =
    Some [["ifconfig"; "utun4"; "inet"; "10.99.0.2"; "10.99.0.1"; "up"]; ["ifconfig"; "utun4"; "mtu"; "1350"];
          ["route"; "-n"; "add"; "-net"; "10.99.0.0/24"; "-interface"; "utun4"]].
Proof. vm_compute. reflexivity. Qed.
