(* ===== verification/NetWindows.v ===== *)
(** * internal/netcfg/netcfg_windows.go and netcfg_wincmds.go: the data plane on Windows

    Command vectors for netsh, route and PowerShell, and the operations that run them.  [winState] keeps
    the next hop that [AddrUp] derived for [SetDefaultRoute]. *)
From S2P Require Import Prelude Strs Netip Netcfg.

Open Scope Z_scope.
Open Scope string_scope.
Open Scope list_scope.
Open Scope Z_scope.

(** The first host of the network, in text; an IPv6 network's own address. *)
Definition winGateway (c : cidr) : string := match c with Cidr4 ip n => String4 (gateway4 ip n) | Cidr6 _ _ _ b => b end.

Definition winAddrUpCmds (parse6 : string → option cidr) (ifName cidr : string) (mtu : Z)
  : option (list (list string) * string) :=
  match ParseCIDR parse6 cidr with
  | None => None
  | Some c =>
      Some ([["netsh"; "interface"; "ip"; "set"; "address"; "name=" +:+ ifName; "source=static";
              "addr=" +:+ local_text c; "mask=" +:+ mask_text c]] ++
            (if 0 <? mtu then
               [["netsh"; "interface"; "ipv4"; "set"; "subinterface"; ifName; "mtu=" +:+ itoa mtu; "store=active"]]
             else []),
            winGateway c)
  end.

Definition winHostRouteCmds (brokerIP viaGateway : string) : list (list string) :=
  [["route"; "add"; brokerIP; "mask"; "255.255.255.255"; viaGateway; "metric"; "1"]].

Definition winDefaultRouteCmds (ifName gw : string) : list (list string) :=
  [["netsh"; "interface"; "ipv4"; "add"; "route"; "prefix=0.0.0.0/1"; "interface=" +:+ ifName; "nexthop=" +:+ gw];
   ["netsh"; "interface"; "ipv4"; "add"; "route"; "prefix=128.0.0.0/1"; "interface=" +:+ ifName; "nexthop=" +:+ gw]].

Definition winNatName : string := "Revquic".

Definition winCleanupCmds (ifName brokerIP : string) (full : bool) : list (list string) :=
  (if full then
     [["netsh"; "interface"; "ipv4"; "delete"; "route"; "prefix=0.0.0.0/1"; "interface=" +:+ ifName];
      ["netsh"; "interface"; "ipv4"; "delete"; "route"; "prefix=128.0.0.0/1"; "interface=" +:+ ifName]]
   else []) ++
  (if decide (brokerIP = "") then [] else [["route"; "delete"; brokerIP]]).

Definition ps (cmd : string) : list string := ["powershell"; "-NoProfile"; "-NonInteractive"; "-Command"; cmd].

Definition winFirewallRuleCmds (vpnCIDR : string) : list (list string) :=
  [ps ("$n='Revquic-VPN'; " +:+
       "Remove-NetFirewallRule -DisplayName $n -ErrorAction SilentlyContinue; " +:+
       "New-NetFirewallRule -DisplayName $n -Direction Inbound  -Action Allow -RemoteAddress " +:+ vpnCIDR +:+
       " -Profile Any -ErrorAction Stop | Out-Null; " +:+
       "New-NetFirewallRule -DisplayName $n -Direction Outbound -Action Allow -RemoteAddress " +:+ vpnCIDR +:+
       " -Profile Any -ErrorAction Stop | Out-Null")].

Definition winEnableForwardingCmds : list (list string) :=
  [ps "Set-NetIPInterface -AddressFamily IPv4 -Forwarding Enabled"].

Definition winMasqueradeCmds (srcCIDR : string) : list (list string) :=
  [ps ("Start-Service WinNat -ErrorAction SilentlyContinue; " +:+
       "try { Remove-NetNat -Name " +:+ winNatName +:+ " -Confirm:$false -ErrorAction SilentlyContinue } catch {}; " +:+
       "try { New-NetNat -Name " +:+ winNatName +:+ " -InternalIPInterfaceAddressPrefix " +:+ srcCIDR +:+
       " -ErrorAction Stop | Out-Null } " +:+
       "catch { Write-Error ('WinNAT is required for the Windows exit but is unavailable: ' + $_.Exception.Message + " +:+
       "' -- New-NetNat/WinNAT is missing on this Windows edition (e.g. Home) or the WinNat service/driver is not installed. " +:+
       "Install/enable WinNAT (Windows Pro/Enterprise/Server, or enable the Hyper-V/WinNat feature), or run the exit on Linux (WSL2, Docker, or a VM).'); exit 1 }")].

Section windows.
Context {H : Type} (run : list string → H → option string * H).

(** The state of the host with [winState.gw]. *)
Definition AddrUp (parse6 : string → option cidr) (ifName cidr : string) (mtu : Z) (hg : H * string) : option string * (H * string) :=
  match winAddrUpCmds parse6 ifName cidr mtu with
  | None => (Some "parse cidr", hg)
  | Some (cmds, gw) => let '(e, h) := runAll run cmds hg.1 in (e, (h, gw))
  end.

Definition AddHostRoute (brokerIP viaGateway devName : string) : H → option string * H :=
  runAll run (winHostRouteCmds brokerIP viaGateway).

Definition SetDefaultRoute (ifName : string) (hg : H * string) : option string * (H * string) :=
  let '(e, h) := runAll run (winDefaultRouteCmds ifName hg.2) hg.1 in (e, (h, hg.2)).

Definition Cleanup (ifName brokerIP gw gwDev : string) (full : bool) : H → H :=
  runEach run (winCleanupCmds ifName brokerIP full).

Definition EnableForwarding : H → option string * H := runAll run winEnableForwardingCmds.

(** A missing NAT is an error, a missing firewall rule only logged. *)
Definition Masquerade (srcCIDR uplinkIface : string) (h : H) : option string * H :=
  match runAll run (winMasqueradeCmds srcCIDR) h with
  | (Some e, h) => (Some e, h)
  | (None, h) => (None, snd (runAll run (winFirewallRuleCmds srcCIDR) h))
  end.

Definition Isolate (vpnCIDR : string) (h : H) : option string * H := (None, h).
End windows.

(** ** What is asked of the host *)

(** The routes that the commands add and delete, by the words that name them. *)
Definition added (c : list string) : option (list string) :=
  match c with
  | ["netsh"; "interface"; "ipv4"; "add"; "route"; p; i; _] => Some [p; i]
  | "route" :: "add" :: d :: _ => Some [d]
  | _ => None
  end.
Definition deleted (c : list string) : option (list string) :=
  match c with
  | ["netsh"; "interface"; "ipv4"; "delete"; "route"; p; i] => Some [p; i]
  | ["route"; "delete"; d] => Some [d]
  | _ => None
  end.

(** The cleanup deletes exactly the routes that were added, and the tunnel's next hop is the gateway of
    the network [AddrUp] configured. *)
Theorem windows_cleanup_complete parse6 tun brokerIP via ip bits cidr mtu :
  brokerIP ≠ "" → ParseCIDR parse6 cidr = Some (Cidr4 ip bits) → 0 ≤ ip → 0 ≤ bits < 32 →
  ∃ cmds, winAddrUpCmds parse6 tun cidr mtu = Some (cmds, String4 (network4 ip bits + 1)) ∧
  omap deleted (winCleanupCmds tun brokerIP true) ≡ₚ
  omap added (winHostRouteCmds brokerIP via ++ winDefaultRouteCmds tun (String4 (network4 ip bits + 1))).
Proof.
  intros Hb Hp Hip Hbits. unfold winAddrUpCmds, winCleanupCmds. rewrite Hp. eexists. split.
  - simpl. by rewrite gateway4_first_host.
  - rewrite decide_False by done. exact (Permutation_app_comm [_; _] [_]).
Qed.

Example windows_test_vectors :
  winAddrUpCmds (λ _, None) "Revquic" "10.99.0.2/24" 1350 =
    Some ([["netsh"; "interface"; "ip"; "set"; "address"; "name=Revquic"; "source=static"; "addr=10.99.0.2";
            "mask=255.255.255.0"];
           ["netsh"; "interface"; "ipv4"; "set"; "subinterface"; "Revquic"; "mtu=1350"; "store=active"]], "10.99.0.1").
Proof. vm_compute. reflexivity. Qed.
