(* ===== verification/NetOther.v ===== *)
(** * internal/netcfg/netcfg_other.go: systems without a data plane

    Every operation fails with an error that names it and the system; the cleanup does nothing. *)
From S2P Require Import Prelude.

Open Scope string_scope.

Section other.
Context {H : Type} (goos : string).

Definition unsupported (op : string) : string :=
  "netcfg." +:+ op +:+ ": unsupported on " +:+ goos +:+ " (Phase 0 requires Linux)".

Definition AddrUp (ifName cidr : string) (mtu : Z) (h : H) : option string * H := (Some (unsupported "AddrUp"), h).
Definition AddHostRoute (brokerIP viaGateway devName : string) (h : H) : option string * H := (Some (unsupported "AddHostRoute"), h).
Definition SetDefaultRoute (ifName : string) (h : H) : option string * H := (Some (unsupported "SetDefaultRoute"), h).
Definition EnableForwarding (h : H) : option string * H := (Some (unsupported "EnableForwarding"), h).
Definition Masquerade (srcCIDR uplinkIface : string) (h : H) : option string * H := (Some (unsupported "Masquerade"), h).
Definition Isolate (vpnCIDR : string) (h : H) : option string * H := (Some (unsupported "Isolate"), h).
Definition Cleanup (ifName brokerIP gw gwDev : string) (full : bool) (h : H) : H := h.

End other.
