(* ===== verification/Broker.v ===== *)
(** * cmd/revquic-broker: the broker

    State.  The maps of the Go [broker] hold pointers, so exits and sessions live in heaps; an
    [exitNode] that was replaced in [exits] stays in the heap of the handler that still uses it.  A
    QUIC connection is identified with a number [conn]; its control stream, and the [ctrlWriter]
    around it, are identified with the connection.  The address pool, the user registry and the
    history store are used through their interfaces.

    Blocks.  A handler is cut where it releases [b.mu] and at its atomic operations between: the
    authentication, the selection of an exit, the id, the address, the entry in the table and the
    count of a new session, its start, its suspension.  Each block is a function on the state that also
    returns what it sends ([out]); what a block does to the tracker and the connections after it gave
    up the lock is part of it.  The step relation [bstep] interleaves the blocks of all handlers, the
    timers and the relay. *)
From S2P Require Import Prelude Float64 FloatTheory Strs GoTime Netip Proto IPPool LB AdminAPI UserStore QoS TurnCred.

Open Scope Z_scope.

Notation conn := positive (only parsing).

Record exitNode := mkExitNode {
  ex_nodeID : string;
  ex_name : string;
  ex_region : string;
  ex_conn : conn;
  ex_capacity : Z;
  ex_connectedAt : Time;
  ex_osInfo : string;
  ex_active : Z;
  ex_cpu : f64;
  ex_mem : f64;
  ex_disk : f64
}.
#[export] Instance exitNode_eta : Eta exitNode :=
  λ e, mkExitNode (ex_nodeID e) (ex_name e) (ex_region e) (ex_conn e) (ex_capacity e) (ex_connectedAt e)
         (ex_osInfo e) (ex_active e) (ex_cpu e) (ex_mem e) (ex_disk e).

Definition setSysStat (cpu mem disk : f64) (e : exitNode) : exitNode :=
  e <| ex_cpu := cpu |> <| ex_mem := mem |> <| ex_disk := disk |>.

Definition sysStat (e : exitNode) : f64 * f64 * f64 := (ex_cpu e, ex_mem e, ex_disk e).

Record session := mkSession {
  s_id : Z;
  s_region : string;
  s_clientIP : string;
  s_clientAddr : Addr;
  s_username : string;
  s_userID : string;
  s_name : string;
  s_resumeKey : string;
  s_suspended : bool;
  s_parkedAt : Time;
  s_nodeID : string;
  s_startedAt : Time;
  s_clientConn : option conn;
  s_exitConn : option conn;
  s_clientCW : option conn;
  s_exitCW : option conn
}.
#[export] Instance session_eta : Eta session :=
  λ s, mkSession (s_id s) (s_region s) (s_clientIP s) (s_clientAddr s) (s_username s) (s_userID s) (s_name s)
         (s_resumeKey s) (s_suspended s) (s_parkedAt s) (s_nodeID s) (s_startedAt s) (s_clientConn s)
         (s_exitConn s) (s_clientCW s) (s_exitCW s).

(** A pending [time.AfterFunc]: the arguments of its [expirePark]. *)
Record timer := mkTimer { t_key : string; t_sid : Z; t_deadline : Time }.

(** What a handler sends. *)
Inductive out :=
| OCtrl (c : conn) (m : Control)
| ODatagram (c : conn) (dg : list byte)
| OClose (c : conn) (code : Z) (reason : string)
| OPublish (ev : AdminAPI.Event).

(** [netip.Addr.String] of the addresses the pool hands out: it is [10.99.0.0/24], so they are IPv4. *)
Definition addr_string (a : Addr) : string :=
  match a with Addr4 z => String4 z | _ => "invalid IP" end.

Section broker.
Context {S P U : Type} `{HistoryStore S} `{AddressPool P} `{UserRegistry U}.
(** The OIDC verifier, if one is configured: the identity claimed by a verified token. *)
Context (oidcVerifier : option (string → result string string)).
(** Base64 of HMAC-SHA1; [conn.RemoteAddr().String()]; [rand.Intn]. *)
Context (mac : string → string → string) (remoteAddr : conn → string) (intn : nat → nat).

Record broker := mkBroker {
  exit_heap : gmap positive exitNode;
  session_heap : gmap positive session;
  exits : gmap string positive;
  sessions : gmap Z positive;
  parked : gmap string positive;
  resumeTTL : Duration;
  nextSession : Z;
  ipPool : P;
  users : U;
  nodeSecret : string;
  turnSecret : string;
  turnURL : string;
  stunURL : string;
  qos : Tracker S;
  lbStrategy : Strategy;
  rr : Z;
  armed : list timer;        (* timers that have not fired *)
  fired : list timer         (* fired timers whose expirePark has not run *)
}.
#[export] Instance broker_eta : Eta broker :=
  λ b, mkBroker (exit_heap b) (session_heap b) (exits b) (sessions b) (parked b) (resumeTTL b) (nextSession b)
         (ipPool b) (users b) (nodeSecret b) (turnSecret b) (turnURL b) (stunURL b) (qos b) (lbStrategy b) (rr b)
         (armed b) (fired b).

Definition newBroker (pool : P) (users : U) (nodeSecret : string) : broker :=
  mkBroker ∅ ∅ ∅ ∅ ∅ Hour 0 pool users nodeSecret "" "" "" (QoS.New QoS.DefaultHistory) LeastConn 0 [] [].

(** What main sets in the broker before it serves: the tracker comes with its store and history. *)
Record settings := mkSettings {
  set_lbStrategy : Strategy;
  set_resumeTTL : Duration;
  set_qos : Tracker S;
  set_turnSecret : string;
  set_turnURL : string;
  set_stunURL : string
}.
Definition configure (st : settings) (b : broker) : broker :=
  b <| lbStrategy := set_lbStrategy st |> <| resumeTTL := set_resumeTTL st |> <| qos := set_qos st |>
    <| turnSecret := set_turnSecret st |> <| turnURL := set_turnURL st |> <| stunURL := set_stunURL st |>.

Definition sidName (sid : Z) : string := itoa sid.

(** ** Views *)

Definition deviceView (now : Time) (b : broker) (ex : exitNode) : DeviceView :=
  let active := ex_active ex in
  let loadPct := if 0 <? ex_capacity ex
                 then fmul (fdiv (f64_of_Z active) (f64_of_Z (ex_capacity ex))) (f64_of_Z 100) else f64_zero in
  let '(cpu, mem, disk) := sysStat ex in
  let bps := from_option xs_ThroughputBps f64_zero (ExitOne (ex_nodeID ex) (qos b)) in
  mkDeviceView (ex_nodeID ex) (ex_name ex) (ex_region ex) NodeOnline "" "" (ex_osInfo ex)
    (remoteAddr (ex_conn ex)) (ex_capacity ex) active loadPct cpu mem disk bps 0 (ex_connectedAt ex) now
    (mkDeviceConfigSummary (ex_region ex) (ex_capacity ex) "quic-datagram" "relay" "" "").

Definition path_name (p : DataPath) : string := match p with PathRelay => "relay" | PathDirect => "direct" end.

Definition sessionView (now : Time) (b : broker) (s : session) : AdminAPI.Session :=
  let base := mkSessionView (sidName (s_id s)) (s_userID s) (s_username s) (s_name s) (s_nodeID s) (s_region s)
                "relay" "active" (s_startedAt s) 0 0 f64_zero 0 "" "" "" f64_zero f64_zero f64_zero in
  match QoS.Session now (sidName (s_id s)) (qos b) with
  | None => base
  | Some st =>
      base <| sv_BytesUp := st_BytesUp st |> <| sv_BytesDown := st_BytesDown st |>
           <| sv_ThroughputBps := st_ThroughputBps st |> <| sv_RTTms := st_RTTms st |>
           <| sv_Host := st_Host st |> <| sv_TunName := st_TunName st |> <| sv_OS := st_OS st |>
           <| sv_CPUPct := st_CPUPct st |> <| sv_MemPct := st_MemPct st |> <| sv_DiskPct := st_DiskPct st |>
           <| sv_Mode := path_name (st_Path st) |>
           <| sv_State := if st_Degraded st then "degraded"%string else "active"%string |>
  end.

Definition ListNodes (now : Time) (b : broker) : list DeviceView :=
  deviceView now b <$> omap (λ kl, exit_heap b !! kl.2) (map_to_list (exits b)).

Definition ListSessions (now : Time) (b : broker) : list AdminAPI.Session :=
  sessionView now b <$> omap (λ kl, session_heap b !! kl.2) (map_to_list (sessions b)).

Definition node_event (ty : EventType) (now : Time) (v : DeviceView) : AdminAPI.Event :=
  AdminAPI.mkEvent ty now None (Some v) "" None.
Definition session_event (ty : EventType) (now : Time) (v : AdminAPI.Session) : AdminAPI.Event :=
  AdminAPI.mkEvent ty now None None "" (Some v).

(** ** Exit nodes *)

Definition error_msg (e : string) : Control := (control MsgError) <| c_Error := e |>.

(** [handleExit] up to its read loop: the new exit object, unless the node token is wrong. *)
Definition registerExit (now : Time) (c : conn) (msg : Control) (b : broker)
  : option positive * broker * list out :=
  if negb (bool_decide (c_Token msg = nodeSecret b)) then (None, b, [OCtrl c (error_msg "bad node token")])
  else
    let cap := if c_Capacity msg =? 0 then 100 else c_Capacity msg in
    let ex := mkExitNode (c_NodeID msg) (c_Name msg) (c_Region msg) c cap now (c_OS msg) 0 f64_zero f64_zero f64_zero in
    let l := fresh (dom (exit_heap b)) in
    let b := b <| exit_heap ::= <[l := ex]> |> <| exits ::= <[ex_nodeID ex := l]> |> in
    let b := b <| qos ::= NodeUp now (ex_nodeID ex) (ex_region ex) now |> in
    (Some l, b, [OCtrl c (control MsgRegisterOK); OPublish (node_event EvNodeConnected now (deviceView now b ex))]).

Definition report_of (m : Control) : report :=
  mkReport (c_BytesUp m) (c_BytesDown m) (c_ThroughputBps m) (c_Drops m) (c_RTTms m) (c_Direct m) (c_Host m)
    (c_TunName m) (c_OS m) (c_CPUPct m) (c_MemPct m) (c_DiskPct m).

Definition ingestReport (now : Time) (m : Control) (b : broker) : broker :=
  b <| qos ::= Report now (sidName (c_SessionID m)) (report_of m) |>.

Definition pong (m : Control) : Control :=
  (control MsgPong) <| c_SessionID := c_SessionID m |> <| c_TS := c_TS m |>.

(** The session a session id stands for. *)
Definition live_session (b : broker) (sid : Z) : option session := sessions b !! sid ≫= λ l, session_heap b !! l.

(** One message in the read loop of [handleExit], for the exit object [l]. *)
Definition exitMessage (now : Time) (l : positive) (m : Control) (b : broker) : broker * list out :=
  match exit_heap b !! l with
  | None => (b, [])
  | Some ex =>
      match c_Type m with
      | MsgSignal =>
          (b, match live_session b (c_SessionID m) ≫= s_clientCW with Some c => [OCtrl c m] | None => [] end)
      | MsgReport => (ingestReport now m b, [])
      | MsgPing => (b, [OCtrl (ex_conn ex) (pong m)])
      | MsgNodeStatus =>
          let ex := setSysStat (c_CPUPct m) (c_MemPct m) (c_DiskPct m) ex in
          let b := b <| exit_heap ::= <[l := ex]> |> in
          (b, [OPublish (node_event EvNodeUpdated now (deviceView now b ex))])
      | _ => (b, [])
      end
  end.

(** The sessions [failExit] disconnects. *)
Definition affected (nodeID : string) (b : broker) : list session :=
  filter (λ s, s_nodeID s = nodeID) (omap (λ kl, session_heap b !! kl.2) (map_to_list (sessions b))).

Definition failExit (ex : exitNode) (b : broker) : list out :=
  affected (ex_nodeID ex) b ≫= λ s : session,
    (match s_clientCW s with
     | Some c => [OCtrl c (error_msg ("exit node " +:+ ex_nodeID ex +:+ " disconnected; please reconnect"))]
     | None => []
     end) ++
    (match s_clientConn s with Some c => [OClose c 0 "exit node disconnected"] | None => [] end).

(** [handleExit] after its read loop ended. *)
Definition exitGone (now : Time) (l : positive) (b : broker) : broker * list out :=
  match exit_heap b !! l with
  | None => (b, [])
  | Some ex =>
      let b := b <| exits ::= delete (ex_nodeID ex) |> <| qos ::= NodeDown now (ex_nodeID ex) |> in
      (b, OPublish (AdminAPI.mkEvent EvNodeDisconnected now None None (ex_nodeID ex) None) :: failExit ex b)
  end.

(** ** Clients *)

Definition authenticate (msg : Control) (b : broker) : result string User :=
  match oidcVerifier with
  | Some verify =>
      match verify (c_Token msg) with
      | Err e => Err ("oidc: " +:+ e)
      | Ok identity =>
          match reg_authorize identity (c_RequestedRegion msg) (users b) with
          | Ok u => Ok u
          | Err e => Err (error_string e)
          end
      end
  | None =>
      match reg_authenticate (c_Token msg) (c_RequestedRegion msg) (users b) with
      | Ok u => Ok u
      | Err e => Err (error_string e)
      end
  end.

Definition exitInfo (e : exitNode) : ExitInfo :=
  mkExitInfo (ex_nodeID e) (ex_name e) (ex_region e) (ex_osInfo e) (ex_active e) (ex_capacity e).

(** The registered exits, in iteration order. *)
Definition exit_list (b : broker) : list exitNode := omap (λ kl, exit_heap b !! kl.2) (map_to_list (exits b)).

Definition exitList (region : string) (b : broker) : list ExitInfo :=
  exitInfo <$> filter (λ e, ex_region e = region) (exit_list b).

(** [tryResume] up to the point where it gives up the lock: the session and the exit to reattach to. *)
Definition tryResume (now : Time) (resumeKey username : string) (c : conn) (b : broker)
  : option (positive * positive * broker) :=
  match parked b !! resumeKey with
  | None => None
  | Some ls =>
      match session_heap b !! ls with
      | None => None
      | Some ps =>
          if negb (bool_decide (s_username ps = username)) || (resumeTTL b <=? Sub now (s_parkedAt ps)) then None
          else match exits b !! s_nodeID ps with
          | None => None
          | Some le =>
              match exit_heap b !! le with
              | None => None
              | Some ex =>
                  let ps' := ps <| s_suspended := false |> <| s_clientConn := Some c |> <| s_clientCW := Some c |>
                                <| s_exitConn := Some (ex_conn ex) |> <| s_exitCW := Some (ex_conn ex) |> in
                  Some (ls, le,
                    b <| armed ::= filter (λ t, t_sid t ≠ s_id ps) |>
                      <| parked ::= delete resumeKey |>
                      <| session_heap ::= <[ls := ps']> |>
                      <| sessions ::= <[s_id ps := ls]> |>)
              end
          end
      end
  end.

Definition lb_node (e : exitNode) : Node := mkNode (ex_nodeID e) (ex_region e) (ex_active e) (ex_capacity e).

(** The exit a new session goes to: the named one if it is usable, else the balancer's choice. *)
Definition chooseExit (msg : Control) (b : broker) : result string positive * broker :=
  if decide (c_RequestedExit msg = "") then
    let '(chosen, rr') := Pick (lbStrategy b) (c_RequestedRegion msg) (lb_node <$> exit_list b) (Some (rr b)) intn in
    let b := b <| rr := default 0 rr' |> in
    match chosen ≫= λ id, exits b !! id with
    | Some l => (Ok l, b)
    | None => (Err ("no exit available in region " +:+ c_RequestedRegion msg), b)
    end
  else
    match exits b !! c_RequestedExit msg ≫= λ l, e ← exit_heap b !! l; Some (l, e) with
    | Some (l, e) =>
        if bool_decide (ex_region e = c_RequestedRegion msg) &&
           ((ex_capacity e =? 0) || (ex_active e <? ex_capacity e))
        then (Ok l, b)
        else (Err ("requested exit " +:+ c_RequestedExit msg +:+ " unavailable in region " +:+ c_RequestedRegion msg), b)
    | None => (Err ("requested exit " +:+ c_RequestedExit msg +:+ " unavailable in region " +:+ c_RequestedRegion msg), b)
    end.

Inductive selection :=
| Listed (l : list ExitInfo)
| Resumed (s e : positive)
| Selected (e : positive)
| Refused (err : string).

(** The part of [handleClient] that holds the lock. *)
Definition selectExit (now : Time) (c : conn) (msg : Control) (user : User) (b : broker) : selection * broker :=
  if c_ListExits msg then (Listed (exitList (c_RequestedRegion msg) b), b)
  else
    match (if decide (c_ResumeKey msg = "") then None
           else tryResume now (c_ResumeKey msg) (u_Username user) c b) with
    | Some (ls, le, b) => (Resumed ls le, b)
    | None =>
        match chooseExit msg b with
        | (Ok l, b) => (Selected l, b)
        | (Err e, b) => (Refused e, b)
        end
    end.

Definition newSession (now : Time) (c : conn) (msg : Control) (user : User) (ex : exitNode) (sid : Z) (a : Addr)
  : session :=
  mkSession sid (ex_region ex) (addr_string a) a (u_Username user) (u_ID user) (c_Name msg)
    (c_ResumeKey msg) false 0 (ex_nodeID ex) now (Some c) (Some (ex_conn ex)) (Some c) (Some (ex_conn ex)).

(** The rest of [handleClient] does not hold the lock throughout: these are its atomic pieces. *)

(** [b.nextSession.Add(1)] *)
Definition nextSessionID (b : broker) : Z * broker :=
  let sid := u64 (nextSession b + 1) in (sid, b <| nextSession := sid |>).

(** [b.ipPool.Allocate()] *)
Definition allocateAddr (b : broker) : option Addr * broker :=
  match pool_allocate (ipPool b) with
  | Some (a, pool) => (Some a, b <| ipPool := pool |>)
  | None => (None, b)
  end.

(** The session object, and its entry in the table under [b.mu]; [None] if the exit is a nil pointer. *)
Definition publishSession (now : Time) (c : conn) (msg : Control) (user : User) (le : positive) (sid : Z) (a : Addr)
    (b : broker) : option (positive * broker) :=
  match exit_heap b !! le with
  | None => None
  | Some ex =>
      let ls := fresh (dom (session_heap b)) in
      Some (ls, b <| session_heap ::= <[ls := newSession now c msg user ex sid a]> |> <| sessions ::= <[sid := ls]> |>)
  end.

(** [ex.active.Add(1)] *)
Definition add_active (le : positive) (b : broker) : broker :=
  b <| exit_heap ::= alter (λ e : exitNode, e <| ex_active ::= λ a, a + 1 |>) le |>.

(** [b.qos.Connect] of the new session *)
Definition reportConnect (now : Time) (ls : positive) (b : broker) : broker :=
  match session_heap b !! ls with
  | None => b
  | Some s => b <| qos ::= Connect now (sidName (s_id s)) (s_nodeID s) (s_region s) (s_username s) (s_startedAt s) |>
  end.

(** All of them, without interference. *)
Definition admitSession (now : Time) (c : conn) (msg : Control) (user : User) (le : positive) (b : broker)
  : result string positive * broker :=
  let '(sid, b) := nextSessionID b in
  match allocateAddr b with
  | (None, b) => (Err "exit address pool exhausted", b)
  | (Some a, b) =>
      match publishSession now c msg user le sid a b with
      | None => (Err "no such exit", b)            (* never selected *)
      | Some (ls, b) => (Ok ls, reportConnect now ls (add_active le b))
      end
  end.

(** ** The life of a session *)

Definition session_start (ty : MsgType) (now : Time) (b : broker) (s : session) : Control :=
  let m := (control ty) <| c_SessionID := s_id s |> <| c_ClientIP := s_clientIP s |>
             <| c_Netmask := "255.255.255.0" |> <| c_MTU := SafeTunnelMTU |> in
  if decide (turnSecret b = "") then m
  else
    let '(tu, tp) := Credentials mac now (turnSecret b) Hour (sidName (s_id s)) in
    m <| c_StunURL := stunURL b |> <| c_TurnURL := turnURL b |> <| c_TurnUser := tu |> <| c_TurnPass := tp |>.

(** [ex.active.Add(-1)] *)
Definition drop_active (le : positive) (b : broker) : broker :=
  b <| exit_heap ::= alter (λ e : exitNode, e <| ex_active ::= λ a, a - 1 |>) le |>.

Definition exit_conn (b : broker) (le : positive) : list conn := from_option (λ e, [ex_conn e]) [] (exit_heap b !! le).

Definition session_msg (ty : MsgType) (sid : Z) : Control := (control ty) <| c_SessionID := sid |>.

Definition endSession (ls le : positive) (b : broker) : broker * list out :=
  match session_heap b !! ls with
  | None => (b, [])
  | Some s =>
      match sessions b !! s_id s with
      | None => (b, [])
      | Some _ =>
          (drop_active le (b <| sessions ::= delete (s_id s) |>
                             <| ipPool ::= λ p, pool_release p (s_clientAddr s) |>),
           (λ c, OCtrl c (session_msg MsgSessionEnd (s_id s))) <$> exit_conn b le)
      end
  end.

(** [runSession] up to its relay loop; [werr]: the write to the exit failed.  The result tells
    whether the session runs. *)
Definition startSession (now : Time) (werr : bool) (c : conn) (ls le : positive) (b : broker)
  : bool * broker * list out :=
  match session_heap b !! ls with
  | None => (false, b, [])
  | Some s =>
      if werr then
        let '(b, outs) := endSession ls le b in (false, b, OCtrl c (error_msg "exit unavailable") :: outs)
      else
        (true, b,
         ((λ ec, OCtrl ec (session_start MsgSessionStart now b s)) <$> exit_conn b le) ++
         [OCtrl c (session_start MsgConnectOK now b s);
          OPublish (session_event EvSessionStarted now (sessionView now b s))])
  end.

(** One message in the client's control loop. *)
Definition clientMessage (now : Time) (c : conn) (le : positive) (m : Control) (b : broker) : broker * list out :=
  match c_Type m with
  | MsgSignal => (b, (λ ec, OCtrl ec m) <$> exit_conn b le)
  | MsgReport => (ingestReport now m b, [])
  | MsgPing => (b, [OCtrl c (pong m)])
  | _ => (b, [])
  end.

(** The error with which a connection ended, if it is an application error. *)
Definition clientClosedIntentionally (code : option Z) : bool :=
  match code with Some z => z =? CloseClientShutdown | None => false end.

Definition suspendSession (now : Time) (ls le : positive) (intentional : bool) (b : broker) : broker * list out :=
  match session_heap b !! ls with
  | None => (b, [])
  | Some s =>
      match sessions b !! s_id s with
      | None => (b, [])
      | Some _ =>
          let b := drop_active le (b <| sessions ::= delete (s_id s) |>) in
          if negb intentional && negb (bool_decide (s_resumeKey s = "")) && (0 <? resumeTTL b) then
            let s := s <| s_suspended := true |> <| s_parkedAt := now |> in
            (b <| session_heap ::= <[ls := s]> |> <| parked ::= <[s_resumeKey s := ls]> |>
               <| armed ::= cons (mkTimer (s_resumeKey s) (s_id s) (Add now (resumeTTL b))) |>,
             (λ c, OCtrl c (session_msg MsgSessionSuspend (s_id s))) <$> exit_conn b le)
          else
            let b := b <| ipPool ::= λ p, pool_release p (s_clientAddr s) |>
                       <| qos ::= Disconnect now (sidName (s_id s)) |> in
            (b, ((λ c, OCtrl c (session_msg MsgSessionEnd (s_id s))) <$> exit_conn b le) ++
                [OPublish (session_event EvSessionEnded now (sessionView now b s))])
      end
  end.

Definition expirePark (now : Time) (resumeKey : string) (sid : Z) (b : broker) : broker * list out :=
  match parked b !! resumeKey ≫= λ l, session_heap b !! l with
  | None => (b, [])
  | Some s =>
      if negb (s_id s =? sid) || negb (s_suspended s) then (b, [])
      else
        let b := b <| parked ::= delete resumeKey |> <| ipPool ::= λ p, pool_release p (s_clientAddr s) |>
                   <| qos ::= Disconnect now (sidName sid) |> in
        (b, ((λ c, OCtrl c (session_msg MsgSessionEnd sid)) <$>
               from_option (exit_conn b) [] (exits b !! s_nodeID s)) ++
            [OPublish (session_event EvSessionEnded now (sessionView now b s))])
  end.

(** One datagram received on connection [c]. *)
Definition relayDatagram (now : Time) (c : conn) (dg : list byte) (b : broker) : broker * list out :=
  match DecodeDatagram dg with
  | Err _ => (b, [])
  | Ok (sid, pkt) =>
      match live_session b sid with
      | None => (b, [])
      | Some s =>
          let from_exit := bool_decide (s_exitConn s = Some c) in
          let b := b <| qos ::= AddBytes now (sidName sid) (negb from_exit) (Z.of_nat (length pkt)) |> in
          (b, match (if from_exit then s_clientConn s else s_exitConn s) with
              | Some peer => [ODatagram peer dg]
              | None => []
              end)
      end
  end.

(** ** A client served without interference: [handleClient] up to the relay loop *)

Definition handleClient (now : Time) (werr : bool) (c : conn) (msg : Control) (b : broker)
  : option (positive * positive) * broker * list out :=
  match authenticate msg b with
  | Err e => (None, b, [OCtrl c (error_msg e)])
  | Ok user =>
      match selectExit now c msg user b with
      | (Listed l, b) => (None, b, [OCtrl c ((control MsgConnectOK) <| c_ExitList := l |>)])
      | (Refused e, b) => (None, b, [OCtrl c (error_msg e)])
      | (Resumed ls le, b) =>
          let '(ok, b, outs) := startSession now werr c ls le (add_active le b) in
          (if ok then Some (ls, le) else None, b, outs)
      | (Selected le, b) =>
          match admitSession now c msg user le b with
          | (Err e, b) => (None, b, [OCtrl c (error_msg e)])
          | (Ok ls, b) =>
              let '(ok, b, outs) := startSession now werr c ls le b in
              (if ok then Some (ls, le) else None, b, outs)
          end
      end
  end.

(** [handleConn] on the first message of a connection. *)
Definition handleConn (now : Time) (werr : bool) (c : conn) (msg : Control) (b : broker) : broker * list out :=
  match c_Type msg with
  | MsgRegister => let '(_, b, outs) := registerExit now c msg b in (b, outs)
  | MsgConnect => let '(_, b, outs) := handleClient now werr c msg b in (b, outs)
  | _ => (b, [OCtrl c (error_msg "unexpected first message")])
  end.
End broker.
