(* ===== verification/BrokerSys.v ===== *)
(** * The broker under concurrency: invariants of the interleaved system

    A configuration is the broker's state together with its handlers in flight: exits whose read loop
    runs, clients that have been given an exit and are on their way to a session ([admission]: they
    have nothing yet, an id, or an id and an address), and sessions with the handler of a client
    connection ([attachment]: the session and exit objects it holds, and whether it has counted the
    session on the exit).  [bstep] lets any of them, a timer, or a datagram go next. *)
From S2P Require Import Prelude Float64 Strs GoTime Netip Proto IPPool LB AdminAPI UserStore QoS TurnCred Broker.

Open Scope Z_scope.

Section system.
Context {S P U : Type} `{HistoryStore S} `{AddressPool P} `{UserRegistry U}.
Context (oidcVerifier : option (string → result string string)).
Context (remoteAddr : positive → string) (intn : nat → nat).
Notation broker := (broker (S := S) (P := P) (U := U)).

(** A client that has been given the exit [w_exit] and waits to be admitted. *)
Record waiting := mkWaiting { w_conn : positive; w_msg : Control; w_user : User; w_exit : positive }.

(** What such a client holds already. *)
Inductive admission :=
| Waiting (w : waiting)
| Numbered (w : waiting) (sid : Z)
| Addressed (w : waiting) (sid : Z) (a : Addr).

(** What the handler of a session in the table still has to do before it serves: count it on the exit
    ([new]: and then report it), report it to the tracker, nothing. *)
Inductive stage := Uncounted (new : bool) | Unreported | Serving.
Record attachment := mkAttachment { at_session : positive; at_exit : positive; at_stage : stage }.

Definition counted (a : attachment) : bool := match at_stage a with Uncounted _ => false | _ => true end.

Record config := mkConfig {
  br : broker;
  handlers : list positive;             (* exit objects with a running read loop *)
  selected : list admission;
  attached : list attachment
}.

Inductive bstep : config → config → Prop :=
| st_register now c msg l b b' hs sel att outs :
    registerExit remoteAddr now c msg b = (Some l, b', outs) →
    bstep (mkConfig b hs sel att) (mkConfig b' (l :: hs) sel att)
| st_exit_message now l m b hs sel att :
    l ∈ hs → bstep (mkConfig b hs sel att) (mkConfig (fst (exitMessage remoteAddr now l m b)) hs sel att)
| st_exit_gone now l b hs1 hs2 sel att :
    bstep (mkConfig b (hs1 ++ l :: hs2) sel att) (mkConfig (fst (exitGone now l b)) (hs1 ++ hs2) sel att)
| st_select now c msg u le b b' hs sel att :
    authenticate oidcVerifier msg b = Ok u → selectExit intn now c msg u b = (Selected le, b') →
    bstep (mkConfig b hs sel att) (mkConfig b' hs (Waiting (mkWaiting c msg u le) :: sel) att)
| st_resume now c msg u ls le b b' hs sel att :
    authenticate oidcVerifier msg b = Ok u → selectExit intn now c msg u b = (Resumed ls le, b') →
    bstep (mkConfig b hs sel att) (mkConfig b' hs sel (mkAttachment ls le (Uncounted false) :: att))
| st_refuse now c msg u e b b' hs sel att :
    authenticate oidcVerifier msg b = Ok u → selectExit intn now c msg u b = (Refused e, b') →
    bstep (mkConfig b hs sel att) (mkConfig b' hs sel att)
| st_number w sid b b' hs sel1 sel2 att :
    nextSession b + 1 < 2 ^ 64 → nextSessionID b = (sid, b') →
    bstep (mkConfig b hs (sel1 ++ Waiting w :: sel2) att) (mkConfig b' hs (sel1 ++ Numbered w sid :: sel2) att)
| st_allocate w sid a b b' hs sel1 sel2 att :
    allocateAddr b = (Some a, b') →
    bstep (mkConfig b hs (sel1 ++ Numbered w sid :: sel2) att) (mkConfig b' hs (sel1 ++ Addressed w sid a :: sel2) att)
| st_exhausted w sid b b' hs sel1 sel2 att :
    allocateAddr b = (None, b') →
    bstep (mkConfig b hs (sel1 ++ Numbered w sid :: sel2) att) (mkConfig b' hs (sel1 ++ sel2) att)
| st_publish now w sid a ls b b' hs sel1 sel2 att :
    publishSession now (w_conn w) (w_msg w) (w_user w) (w_exit w) sid a b = Some (ls, b') →
    bstep (mkConfig b hs (sel1 ++ Addressed w sid a :: sel2) att)
          (mkConfig b' hs (sel1 ++ sel2) (mkAttachment ls (w_exit w) (Uncounted true) :: att))
| st_count ls le new b hs sel att1 att2 :
    bstep (mkConfig b hs sel (att1 ++ mkAttachment ls le (Uncounted new) :: att2))
          (mkConfig (add_active le b) hs sel (att1 ++ mkAttachment ls le (if new then Unreported else Serving) :: att2))
| st_report now ls le b hs sel att1 att2 :
    bstep (mkConfig b hs sel (att1 ++ mkAttachment ls le Unreported :: att2))
          (mkConfig (reportConnect now ls b) hs sel (att1 ++ mkAttachment ls le Serving :: att2))
| st_start_failed ls le b hs sel att1 att2 :
    bstep (mkConfig b hs sel (att1 ++ mkAttachment ls le Serving :: att2))
          (mkConfig (fst (endSession ls le b)) hs sel (att1 ++ att2))
| st_suspend now intentional ls le b hs sel att1 att2 :
    bstep (mkConfig b hs sel (att1 ++ mkAttachment ls le Serving :: att2))
          (mkConfig (fst (suspendSession now ls le intentional b)) hs sel (att1 ++ att2))
| st_timer now t ts1 ts2 b hs sel att :
    armed b = ts1 ++ t :: ts2 → t_deadline t ≤ now →
    bstep (mkConfig b hs sel att)
          (mkConfig (b <| armed := ts1 ++ ts2 |> <| fired ::= cons t |>) hs sel att)
| st_expire now t ts1 ts2 b hs sel att :
    fired b = ts1 ++ t :: ts2 →
    bstep (mkConfig b hs sel att)
          (mkConfig (fst (expirePark now (t_key t) (t_sid t) (b <| fired := ts1 ++ ts2 |>))) hs sel att)
| st_relay now c dg b hs sel att :
    bstep (mkConfig b hs sel att) (mkConfig (fst (relayDatagram now c dg b)) hs sel att)
| st_client_message now c le m b hs sel att :
    bstep (mkConfig b hs sel att) (mkConfig (fst (clientMessage now c le m b)) hs sel att)
| st_admin u b hs sel att :            (* the admin API changes the user registry *)
    bstep (mkConfig b hs sel att) (mkConfig (b <| users := u |>) hs sel att).

(** A broker that starts with any settings. *)
Definition initial (st : settings) (pool : P) (u : U) (secret : string) : config :=
  mkConfig (configure st (newBroker pool u secret)) [] [] [].

(** ** The invariant *)

(** [l] is a session the broker still answers for: live, or parked for resumption. *)
Definition holds (b : broker) (l : positive) (s : session) : Prop :=
  session_heap b !! l = Some s ∧
  (sessions b !! s_id s = Some l ∨ parked b !! s_resumeKey s = Some l).

(** The handlers that have counted their session on [le]. *)
Definition on_exit (le : positive) (att : list attachment) : Z :=
  Z.of_nat (length (filter (λ a, at_exit a = le ∧ counted a = true) att)).

Record binv (c : config) : Prop := {
  bi_live : ∀ sid l, sessions (br c) !! sid = Some l →
    ∃ s, session_heap (br c) !! l = Some s ∧ s_id s = sid ∧ s_suspended s = false;
  bi_park : ∀ k l, parked (br c) !! k = Some l →
    ∃ s, session_heap (br c) !! l = Some s ∧ s_resumeKey s = k ∧ s_suspended s = true;
  bi_ids : ∀ l1 l2 s1 s2, session_heap (br c) !! l1 = Some s1 → session_heap (br c) !! l2 = Some s2 →
    s_id s1 = s_id s2 → l1 = l2;
  bi_next : 0 ≤ nextSession (br c) ∧ ∀ l s, session_heap (br c) !! l = Some s → s_id s ≤ nextSession (br c);
  bi_used : ∀ l s, holds (br c) l s → s_clientAddr s ∈ pool_used (ipPool (br c));
  bi_addr : ∀ l1 l2 s1 s2, holds (br c) l1 s1 → holds (br c) l2 s2 → s_clientAddr s1 = s_clientAddr s2 → l1 = l2;
  bi_timer : ∀ k l s, parked (br c) !! k = Some l → session_heap (br c) !! l = Some s →
    ∃ t, t ∈ armed (br c) ++ fired (br c) ∧ t_key t = k ∧ t_sid t = s_id s
}.

(** The handlers' share of the invariant. *)
Record ainv (c : config) : Prop := {
  ai_live : ∀ a, a ∈ attached c →
    ∃ s, session_heap (br c) !! at_session a = Some s ∧ sessions (br c) !! s_id s = Some (at_session a);
  ai_nodup : NoDup (at_session <$> attached c);
  ai_all : ∀ sid l, sessions (br c) !! sid = Some l → l ∈ at_session <$> attached c;
  ai_exit : ∀ a, a ∈ attached c → is_Some (exit_heap (br c) !! at_exit a);
  ai_active : ∀ le ex, exit_heap (br c) !! le = Some ex → ex_active ex = on_exit le (attached c)
}.

(** The ids and the addresses of clients on their way to a session. *)
Definition pend_id (p : admission) : option Z :=
  match p with Waiting _ => None | Numbered _ sid | Addressed _ sid _ => Some sid end.
Definition pend_addr (p : admission) : option Addr := match p with Addressed _ _ a => Some a | _ => None end.

(** Their share: no session and no other of them has these ids and addresses. *)
Record pinv (c : config) : Prop := {
  pi_ids : NoDup (omap pend_id (selected c));
  pi_new : ∀ id, id ∈ omap pend_id (selected c) →
    id ≤ nextSession (br c) ∧ ∀ l s, session_heap (br c) !! l = Some s → s_id s ≠ id;
  pi_addrs : NoDup (omap pend_addr (selected c));
  pi_used : ∀ a, a ∈ omap pend_addr (selected c) →
    a ∈ pool_used (ipPool (br c)) ∧ ∀ l s, holds (br c) l s → s_clientAddr s ≠ a
}.

Definition inv (c : config) : Prop := binv c ∧ ainv c ∧ pinv c.

Lemma start_inv st pool u secret : inv (initial st pool u secret).
Proof.
  split_and!; constructor; unfold holds; simpl; intros *; rewrite ?lookup_empty, ?elem_of_nil; try done; try constructor; naive_solver.
Qed.

(** ** Blocks that leave the sessions alone *)

(** The state the invariant reads, but for the active counts. *)
Definition same_sessions (b b' : broker) : Prop :=
  session_heap b' = session_heap b ∧ sessions b' = sessions b ∧ parked b' = parked b ∧
  ipPool b' = ipPool b ∧ armed b' = armed b ∧ fired b' = fired b ∧ nextSession b' = nextSession b.

Lemma binv_frame b b' hs hs' sel sel' att att' :
  same_sessions b b' → binv (mkConfig b hs sel att) → binv (mkConfig b' hs' sel' att').
Proof.
  intros (E1 & E2 & E3 & E4 & E5 & E6 & E7) []. unfold holds in *.
  constructor; unfold holds; simpl in *; rewrite ?E1, ?E2, ?E3, ?E4, ?E5, ?E6, ?E7; done.
Qed.

Lemma ainv_frame b b' hs hs' sel sel' att :
  same_sessions b b' →
  (∀ le ex', exit_heap b' !! le = Some ex' →
     (∃ ex, exit_heap b !! le = Some ex ∧ ex_active ex' = ex_active ex) ∨
     (exit_heap b !! le = None ∧ ex_active ex' = 0)) →
  (∀ le, is_Some (exit_heap b !! le) → is_Some (exit_heap b' !! le)) →
  ainv (mkConfig b hs sel att) → ainv (mkConfig b' hs' sel' att).
Proof.
  intros (E1 & E2 & E3 & E4 & E5 & E6 & E7) Hex Hmono [A1 A2 A3 A4 A5]. simpl in *.
  constructor; simpl; rewrite ?E1, ?E2; try done.
  - eauto.
  - intros le ex' [(ex & He & ->)|[He ->]]%Hex; [by apply A5|]. unfold on_exit.
    replace (filter _ att) with ([] : list attachment); [done|].
    symmetry. apply elem_of_nil_inv. intros p [[<- _] Hin]%list_elem_of_filter.
    destruct (A4 _ Hin) as [? Hs]. congruence.
Qed.

(** Ids and addresses stay reserved when no session gains one and the pool keeps them. *)
Lemma pinv_frame b b' hs sel att hs' att' :
  pinv (mkConfig b hs sel att) → nextSession b ≤ nextSession b' →
  (∀ l s', session_heap b' !! l = Some s' → ∃ s, session_heap b !! l = Some s ∧ s_id s' = s_id s) →
  (∀ l s', holds b' l s' → ∃ s, holds b l s ∧ s_clientAddr s' = s_clientAddr s) →
  (∀ a, a ∈ omap pend_addr sel → a ∈ pool_used (ipPool b) → a ∈ pool_used (ipPool b')) →
  pinv (mkConfig b' hs' sel att').
Proof.
  intros [P1 P2 P3 P4] Hn Hid Hold Hpool. constructor; simpl in *; try done.
  - intros id [Hle Hs]%P2. split; [lia|]. intros l s' (s & Hl & ->)%Hid. eauto.
  - intros a Ha. destruct (P4 _ Ha) as [Hu Hh]. split; [by apply Hpool|]. intros l s' (s & Hs & ->)%Hold. eauto.
Qed.

Lemma pinv_same b b' hs sel att hs' att' :
  same_sessions b b' → pinv (mkConfig b hs sel att) → pinv (mkConfig b' hs' sel att').
Proof.
  intros (E1 & E2 & E3 & E4 & E5 & E6 & E7) Hp. eapply pinv_frame; [exact Hp|..]; unfold holds; rewrite ?E1, ?E2, ?E3, ?E4, ?E7; eauto.
  lia.
Qed.

(** A client that waits, or gives up, holds nothing. *)
Lemma pinv_wait b hs sel att w : pinv (mkConfig b hs sel att) → pinv (mkConfig b hs (Waiting w :: sel) att).
Proof. by intros []. Qed.

Lemma omap_middle {A B} (f : A → option B) l1 x l2 :
  omap f (l1 ++ x :: l2) = omap f l1 ++ option_list (f x) ++ omap f l2.
Proof. rewrite omap_app. simpl. by destruct (f x). Qed.

Lemma pinv_leave b hs sel1 p sel2 att :
  pinv (mkConfig b hs (sel1 ++ p :: sel2) att) → pinv (mkConfig b hs (sel1 ++ sel2) att).
Proof.
  intros [P1 P2 P3 P4]. simpl in *. rewrite !omap_middle in *.
  constructor; simpl; rewrite omap_app.
  - apply NoDup_app in P1 as (? & ? & (? & ? & ?)%NoDup_app). apply NoDup_app. set_solver.
  - intros id Hid. apply P2. set_solver.
  - apply NoDup_app in P3 as (? & ? & (? & ? & ?)%NoDup_app). apply NoDup_app. set_solver.
  - intros a Ha. apply P4. set_solver.
Qed.

(** ** Attaching a session *)

Lemma on_exit_cons a le att :
  on_exit le (a :: att) = on_exit le att + (if decide (at_exit a = le ∧ counted a = true) then 1 else 0).
Proof. unfold on_exit. rewrite filter_cons. case_decide; simpl; lia. Qed.

(** The handler of a session that was not live takes it over; it has not counted it. *)
Lemma ainv_attach b b' hs sel sel' att ls le new s :
  ainv (mkConfig b hs sel att) →
  session_heap b' !! ls = Some s → sessions b' = <[s_id s := ls]> (sessions b) →
  (∀ l, l ≠ ls → session_heap b' !! l = session_heap b !! l) →
  (∀ l s', l ≠ ls → session_heap b !! l = Some s' → s_id s' ≠ s_id s) →
  ls ∉ at_session <$> att →
  is_Some (exit_heap b !! le) → exit_heap b' = exit_heap b →
  ainv (mkConfig b' hs sel' (mkAttachment ls le (Uncounted new) :: att)).
Proof.
  intros [A1 A2 A3 A4 A5] Hs Hss Hh Hids Hnin He Heh. simpl in *. constructor; simpl.
  - intros a [->|Hin]%elem_of_cons; [exists s; by rewrite Hss, lookup_insert_eq|].
    destruct (A1 _ Hin) as (s' & Hs' & Hl').
    assert (at_session a ≠ ls) as Hne by (intros <-; apply Hnin, list_elem_of_fmap; eauto).
    exists s'. rewrite Hh, Hss, lookup_insert_ne by (done || intros E; by apply (Hids (at_session a) s')). done.
  - by constructor.
  - intros sid l. rewrite Hss. intros [[_ <-]|[_ Hl]]%lookup_insert_Some; [by left|right; eauto].
  - intros a [->|Hin]%elem_of_cons; rewrite Heh; [done|eauto].
  - intros e ex'. rewrite Heh, on_exit_cons. intros He'. rewrite decide_False by (by intros []). rewrite (A5 _ _ He'). lia.
Qed.

(** The part of the invariant that is not about addresses. *)
Record shape (b : broker) : Prop := {
  sh_live : ∀ sid l, sessions b !! sid = Some l →
    ∃ s, session_heap b !! l = Some s ∧ s_id s = sid ∧ s_suspended s = false;
  sh_park : ∀ k l, parked b !! k = Some l →
    ∃ s, session_heap b !! l = Some s ∧ s_resumeKey s = k ∧ s_suspended s = true;
  sh_ids : ∀ l1 l2 s1 s2, session_heap b !! l1 = Some s1 → session_heap b !! l2 = Some s2 →
    s_id s1 = s_id s2 → l1 = l2;
  sh_next : 0 ≤ nextSession b ∧ ∀ l s, session_heap b !! l = Some s → s_id s ≤ nextSession b;
  sh_timer : ∀ k l s, parked b !! k = Some l → session_heap b !! l = Some s →
    ∃ t, t ∈ armed b ++ fired b ∧ t_key t = k ∧ t_sid t = s_id s
}.

(** Addresses stay apart when no session gains one and the pool keeps those of the sessions left. *)
Lemma binv_shape b b' hs sel att hs' sel' att' :
  binv (mkConfig b hs sel att) → shape b' →
  (∀ l s', holds b' l s' → ∃ s, holds b l s ∧ s_clientAddr s' = s_clientAddr s) →
  (∀ l s', holds b' l s' → s_clientAddr s' ∈ pool_used (ipPool b) → s_clientAddr s' ∈ pool_used (ipPool b')) →
  binv (mkConfig b' hs' sel' att').
Proof.
  intros [] [] Hold Hpool. constructor; simpl; try done.
  - intros l s' Hl. apply (Hpool l); [done|]. destruct (Hold _ _ Hl) as (s & Hs & ->). eauto.
  - intros l1 l2 s1 s2 (t1 & H1' & ->)%Hold (t2 & H2' & ->)%Hold E. eauto.
Qed.

(** What [tryResume] does when it succeeds. *)
Lemma tryResume_spec now key user c (b : broker) ls le b' :
  tryResume now key user c b = Some (ls, le, b') →
  ∃ ps ex, parked b !! key = Some ls ∧ session_heap b !! ls = Some ps ∧ s_username ps = user ∧
    Sub now (s_parkedAt ps) < resumeTTL b ∧ exits b !! s_nodeID ps = Some le ∧ exit_heap b !! le = Some ex ∧
    b' = b <| armed ::= filter (λ t, t_sid t ≠ s_id ps) |>
           <| parked ::= delete key |>
           <| session_heap ::= <[ls := ps <| s_suspended := false |> <| s_clientConn := Some c |>
                <| s_clientCW := Some c |> <| s_exitConn := Some (ex_conn ex) |> <| s_exitCW := Some (ex_conn ex) |>]> |>
           <| sessions ::= <[s_id ps := ls]> |>.
Proof.
  unfold tryResume. destruct (parked b !! key) as [ls0|] eqn:Ep; [|done].
  destruct (session_heap b !! ls0) as [ps|] eqn:Es; [|done].
  destruct (negb _ || _) eqn:Ec; [done|]. apply orb_false_iff in Ec as [Eu Et].
  apply negb_false_iff, bool_decide_eq_true in Eu. apply Z.leb_gt in Et.
  destruct (exits b !! s_nodeID ps) as [le0|] eqn:Ee; [|done].
  destruct (exit_heap b !! le0) as [ex|] eqn:Eh; [|done]. intros [= <- <- <-].
  exists ps, ex. split_and!; done.
Qed.

Lemma selectExit_resumed now c msg u (b : broker) ls le b' :
  selectExit intn now c msg u b = (Resumed ls le, b') →
  tryResume now (c_ResumeKey msg) (u_Username u) c b = Some (ls, le, b').
Proof.
  unfold selectExit. destruct (c_ListExits msg); [done|].
  case_decide; [destruct (chooseExit intn msg b) as [[] ?]; done|].
  destruct (tryResume _ _ _ _ _) as [[[? ?] ?]|]; [by intros [= <- <- <-]|].
  destruct (chooseExit intn msg b) as [[] ?]; done.
Qed.

Lemma resume_inv now key user c (b : broker) ls le b' hs sel att :
  tryResume now key user c b = Some (ls, le, b') →
  inv (mkConfig b hs sel att) → inv (mkConfig b' hs sel (mkAttachment ls le (Uncounted false) :: att)).
Proof.
  intros (ps & ex & Hp & Hs & _ & _ & _ & He & ->)%tryResume_spec (B & A & Pn).
  pose proof B as [I1 I2 I3 I4 I5 I6 I7]. simpl in *.
  destruct (I2 _ _ Hp) as (ps_ & Hs0 & Hk & Hsus). rewrite Hs in Hs0. injection Hs0 as <-. subst key.
  assert (∀ sid l, sessions b !! sid = Some l → l ≠ ls) as Hnl.
  { intros sid l Hl ->. destruct (I1 _ _ Hl) as (s' & Hs' & _ & ?). congruence. }
  assert (∀ k l, parked b !! k = Some l → k ≠ s_resumeKey ps → l ≠ ls) as Hnp.
  { intros k l Hl Hne ->. destruct (I2 _ _ Hl) as (s' & Hs' & ? & _). congruence. }
  set (ps' := ps <| s_suspended := false |> <| s_clientConn := Some c |> <| s_clientCW := Some c |>
                <| s_exitConn := Some (ex_conn ex) |> <| s_exitCW := Some (ex_conn ex) |>).
  match goal with |- inv (mkConfig ?x _ _ _) =>
    assert (∀ l s', holds x l s' → ∃ s, holds b l s ∧ s_clientAddr s' = s_clientAddr s) as Hholds end.
  { intros l s' [Hl Hh]. simpl in *. apply lookup_insert_Some in Hl as [[<- <-]|[Hne Hl]].
    - exists ps. split; [|done]. split; [done|]. by right.
    - exists s'. split; [|done]. split; [done|]. destruct Hh as [Hh|Hh].
      + apply lookup_insert_Some in Hh as [[_ ?]|[_ ?]]; [done|by left].
      + apply lookup_delete_Some in Hh as [_ ?]. by right. }
  split_and!.
  - eapply (binv_shape b); [exact B|constructor; simpl|exact Hholds|done].
    + intros sid l [[<- <-]|[Hne Hl]]%lookup_insert_Some.
      * exists ps'. by rewrite lookup_insert_eq.
      * rewrite lookup_insert_ne by (apply not_eq_sym; eauto). eauto.
    + intros k l [Hne Hl]%lookup_delete_Some. rewrite lookup_insert_ne by (apply not_eq_sym; eauto). eauto.
    + intros l1 l2 s1 s2. rewrite !lookup_insert_Some. intros; destruct_or!; destruct_and!; simplify_eq; simpl in *; eauto.
      all: symmetry; eauto.
    + split; [apply I4|]. intros l s [[<- <-]|[_ Hl]]%lookup_insert_Some; simpl; by eapply I4.
    + intros k l s [Hne Hl]%lookup_delete_Some Hsl.
      rewrite lookup_insert_ne in Hsl by (apply not_eq_sym; eauto).
      destruct (I7 _ _ _ Hl Hsl) as (t & Hin & Hk' & Hsid). exists t. split; [|done].
      apply elem_of_app in Hin as [Hin|Hin]; apply elem_of_app; [left|by right].
      apply list_elem_of_filter. split; [|done]. rewrite Hsid. intros E.
      apply (Hnp _ _ Hl (not_eq_sym Hne)). eapply I3; eauto.
  - eapply (ainv_attach b _ hs sel sel att ls le false ps' A); simpl; try done.
    + apply lookup_insert_eq.
    + intros l Hne. by apply lookup_insert_ne.
    + intros l s' Hne Hl E. apply Hne. eapply I3; eauto.
    + intros (a & -> & Hin)%list_elem_of_fmap. destruct (ai_live _ A _ Hin) as (s' & Hs' & Hl').
      by eapply Hnl.
  - eapply pinv_frame; [exact Pn|done| |exact Hholds|done]. simpl.
    intros l s' [[<- <-]|[_ Hl]]%lookup_insert_Some; eauto.
Qed.

(** ** The way to a session *)

Lemma number_inv w sid (b b' : broker) hs sel1 sel2 att :
  nextSession b + 1 < 2 ^ 64 → nextSessionID b = (sid, b') →
  inv (mkConfig b hs (sel1 ++ Waiting w :: sel2) att) → inv (mkConfig b' hs (sel1 ++ Numbered w sid :: sel2) att).
Proof.
  unfold nextSessionID. intros Hn Heq ([I1 I2 I3 [I4 I4'] I5 I6 I7] & [] & [P1 P2 P3 P4]). simpl in *.
  assert (u64 (nextSession b + 1) = nextSession b + 1) as E by (unfold u64; apply Z.mod_small; lia).
  rewrite E in Heq. injection Heq as <- <-. rewrite !omap_middle in *. simpl in *.
  split_and!; constructor; simpl; rewrite ?omap_middle; simpl; try done.
  - split; [lia|]. intros l s Hl%I4'. lia.
  - apply NoDup_app in P1 as (? & Hd & ?). apply NoDup_app. split_and!; [done| |].
    + intros id Hid [->|Hin]%elem_of_cons; [|by apply (Hd id)].
      destruct (P2 (nextSession b + 1)) as [? _]; [set_solver|]. lia.
    + constructor; [|done]. intros Hin. destruct (P2 (nextSession b + 1)) as [? _]; [set_solver|]. lia.
  - intros id Hid. destruct (decide (id = nextSession b + 1)) as [->|Hne].
    + split; [lia|]. intros l s Hl%I4'. lia.
    + destruct (P2 id) as [? ?]; [set_solver|]. split; [lia|done].
Qed.

Lemma allocate_inv w sid a (b b' : broker) hs sel1 sel2 att :
  allocateAddr b = (Some a, b') →
  inv (mkConfig b hs (sel1 ++ Numbered w sid :: sel2) att) → inv (mkConfig b' hs (sel1 ++ Addressed w sid a :: sel2) att).
Proof.
  unfold allocateAddr. destruct (pool_allocate (ipPool b)) as [[a' pool]|] eqn:Hp; [|done]. intros [= -> <-].
  destruct (pool_allocate_used _ _ _ Hp) as [Hnew Hused].
  intros ([I1 I2 I3 I4 I5 I6 I7] & [] & [P1 P2 P3 P4]). simpl in *. rewrite !omap_middle in *. simpl in *.
  split_and!; constructor; simpl; rewrite ?omap_middle; simpl; try done.
  - intros l s Hh%I5. rewrite Hused. set_solver.
  - assert (∀ x, x ∈ omap pend_addr sel1 ++ omap pend_addr sel2 → x ≠ a) as Hd.
    { intros x [Hu _]%P4 ->. done. }
    apply NoDup_app in P3 as (? & ? & ?). apply NoDup_app. split_and!; [done| |constructor; [|done]]; set_solver.
  - intros x Hx. rewrite Hused. destruct (decide (x = a)) as [->|Hne].
    + split; [set_solver|]. intros l s Hh%I5 E. congruence.
    + destruct (P4 x) as [? ?]; [set_solver|]. split; [set_solver|done].
Qed.

Lemma publishSession_inv now c msg user le w sid a ls (b b' : broker) hs sel1 sel2 att :
  publishSession now c msg user le sid a b = Some (ls, b') →
  inv (mkConfig b hs (sel1 ++ Addressed w sid a :: sel2) att) →
  inv (mkConfig b' hs (sel1 ++ sel2) (mkAttachment ls le (Uncounted true) :: att)).
Proof.
  unfold publishSession. destruct (exit_heap b !! le) as [ex|] eqn:He; [|done]. intros [= <- <-] (B & A & Pn).
  pose proof B as [I1 I2 I3 I4 I5 I6 I7]. pose proof Pn as [P1 P2 P3 P4]. apply pinv_leave in Pn. simpl in *.
  rewrite !omap_middle in *. simpl in *. set (ls := fresh (dom (session_heap b))).
  remember (newSession now c msg user ex sid a) as s eqn:Es.
  assert (s_id s = sid ∧ s_clientAddr s = a ∧ s_suspended s = false) as (Hid & Ha & Hsus)
    by (by subst s). rewrite <- Hid. clear Es.
  assert (session_heap b !! ls = None) as Hfr by (apply not_elem_of_dom, is_fresh).
  destruct (P2 sid) as [Hsid Hids]; [set_solver|]. destruct (P4 a) as [Hau Hah]; [set_solver|].
  assert (∀ l s', session_heap b !! l = Some s' → l ≠ ls ∧ s_id s' ≠ s_id s) as Hold.
  { intros l s' Hl. split; [congruence|]. rewrite Hid. eauto. }
  match goal with |- inv (mkConfig ?x _ _ _) =>
    assert (∀ l s', holds x l s' → (l = ls ∧ s' = s) ∨ holds b l s') as Hholds end.
  { intros l s' [Hl Hh]. simpl in *. apply lookup_insert_Some in Hl as [[<- <-]|[Hne Hl]]; [by left|right].
    split; [done|]. destruct Hh as [Hh|Hh]; [left|by right].
    apply lookup_insert_Some in Hh as [[_ ?]|[_ ?]]; done. }
  split_and!; [constructor; simpl| |].
  - intros k l [[<- <-]|[_ Hl]]%lookup_insert_Some; [exists s; by rewrite lookup_insert_eq|].
    destruct (I1 _ _ Hl) as (s' & Hs' & ? & ?). exists s'. rewrite lookup_insert_ne; [done|].
    apply not_eq_sym. by eapply Hold.
  - intros k l Hl. destruct (I2 _ _ Hl) as (s' & Hs' & ? & ?). exists s'. rewrite lookup_insert_ne; [done|].
    apply not_eq_sym. by eapply Hold.
  - intros l1 l2 s1 s2. rewrite !lookup_insert_Some.
    intros [[<- <-]|[_ H1']] [[<- <-]|[_ H2']] E; try done; [| |eauto].
    + by destruct (Hold _ _ H2').
    + by destruct (Hold _ _ H1').
  - split; [apply I4|]. intros l s' [[<- <-]|[_ Hl]]%lookup_insert_Some; [lia|]. by eapply I4.
  - intros l s' [[-> ->]|Hh]%Hholds; [by rewrite Ha|eauto].
  - intros l1 l2 s1 s2 [[-> ->]|H1']%Hholds [[-> ->]|H2']%Hholds E; [done| | |eauto].
    + apply Hah in H2'. congruence.
    + apply Hah in H1'. congruence.
  - intros k l s' Hl [[<- <-]|[_ Hs]]%lookup_insert_Some; [|eauto].
    destruct (I2 _ _ Hl) as (? & ? & _). congruence.
  - eapply (ainv_attach b _ hs _ _ att ls le true s A); simpl; try done.
    + apply lookup_insert_eq.
    + intros l Hne. by apply lookup_insert_ne.
    + intros l s' _ Hl. by eapply Hold.
    + intros (x & El & Hin)%list_elem_of_fmap. destruct (ai_live _ A _ Hin) as (s' & Hs' & _). simpl in Hs'. congruence.
  - destruct Pn as [Q1 Q2 Q3 Q4]. simpl in *.
    apply NoDup_app in P1 as (_ & D1 & [D2 _]%NoDup_cons). apply NoDup_app in P3 as (_ & D3 & [D4 _]%NoDup_cons).
    constructor; simpl; try done.
    + intros id Hin. split; [by apply Q2|]. intros l s' [[<- <-]|[_ Hl]]%lookup_insert_Some; [|by eapply Q2].
      rewrite Hid. intros <-. rewrite omap_app in Hin. set_solver.
    + intros x Hin. split; [by apply Q4|]. intros l s' [[-> ->]|Hh]%Hholds; [|by eapply Q4].
      rewrite Ha. intros <-. rewrite omap_app in Hin. set_solver.
Qed.

(** ** Counting and detaching a session *)

Lemma on_exit_middle a le att1 att2 :
  on_exit le (att1 ++ a :: att2) = on_exit le (att1 ++ att2) + (if decide (at_exit a = le ∧ counted a = true) then 1 else 0).
Proof. unfold on_exit. rewrite !filter_app, filter_cons. case_decide; rewrite !length_app; simpl; lia. Qed.

(** A handler goes on to its next stage. *)
Lemma ainv_stage b b' hs sel att1 att2 ls le st st' :
  ainv (mkConfig b hs sel (att1 ++ mkAttachment ls le st :: att2)) →
  session_heap b' = session_heap b → sessions b' = sessions b →
  (∀ e, is_Some (exit_heap b !! e) → is_Some (exit_heap b' !! e)) →
  (∀ e ex', exit_heap b' !! e = Some ex' → ∃ ex, exit_heap b !! e = Some ex ∧
     ex_active ex' - on_exit e [mkAttachment ls le st'] = ex_active ex - on_exit e [mkAttachment ls le st]) →
  ainv (mkConfig b' hs sel (att1 ++ mkAttachment ls le st' :: att2)).
Proof.
  intros [A1 A2 A3 A4 A5] E1 E2 Hm Hc. simpl in *. rewrite fmap_app, fmap_cons in A2, A3.
  assert (∀ a, a ∈ att1 ++ mkAttachment ls le st' :: att2 → ∃ a', a' ∈ att1 ++ mkAttachment ls le st :: att2 ∧
    at_session a' = at_session a ∧ at_exit a' = at_exit a) as Hin.
  { intros a [?|[->|?]%elem_of_cons]%elem_of_app; [exists a|eexists (mkAttachment ls le st)|exists a]; set_solver. }
  constructor; simpl; rewrite ?E1, ?E2, ?fmap_app, ?fmap_cons; try done.
  - intros a (a' & Ha & <- & _)%Hin. eauto.
  - intros a (a' & Ha & _ & <-)%Hin. eauto.
  - intros e ex' (ex & He & Hd)%Hc. rewrite on_exit_middle. apply A5 in He. rewrite on_exit_middle in He.
    rewrite !on_exit_cons in Hd. lia.
Qed.

(** [ex.active.Add(1)] by the handler of a session it has just entered in the table. *)
Lemma count_inv ls le new (b : broker) hs sel att1 att2 :
  inv (mkConfig b hs sel (att1 ++ mkAttachment ls le (Uncounted new) :: att2)) →
  inv (mkConfig (add_active le b) hs sel (att1 ++ mkAttachment ls le (if new then Unreported else Serving) :: att2)).
Proof.
  intros (B & A & Pn). split_and!.
  - by apply (binv_frame b _ hs _ sel _ (att1 ++ mkAttachment ls le (Uncounted new) :: att2)).
  - eapply ainv_stage; [exact A|done|done|..]; simpl.
    + intros e. by rewrite lookup_alter_is_Some.
    + intros e ex' He. rewrite !on_exit_cons. simpl.
      assert (counted (mkAttachment ls le (if new then Unreported else Serving)) = true) as -> by (by destruct new).
      apply lookup_alter_Some in He as [(<- & ex & He & ->)|[Hne He]]; eexists; (split; [done|]); simpl.
      * rewrite decide_True, decide_False by naive_solver. lia.
      * rewrite !decide_False by naive_solver. lia.
  - by eapply (pinv_same b).
Qed.

Lemma report_inv now ls le (b : broker) hs sel att1 att2 :
  inv (mkConfig b hs sel (att1 ++ mkAttachment ls le Unreported :: att2)) →
  inv (mkConfig (reportConnect now ls b) hs sel (att1 ++ mkAttachment ls le Serving :: att2)).
Proof.
  assert (same_sessions b (reportConnect now ls b) ∧ exit_heap (reportConnect now ls b) = exit_heap b) as [Hs He].
  { unfold reportConnect. by destruct (session_heap b !! ls). }
  intros (B & A & Pn). split_and!; [by eapply binv_frame| |by eapply (pinv_same b)].
  destruct Hs as (E1 & E2 & _). eapply ainv_stage; [exact A|done|done|rewrite He..]; [done|].
  intros e ex' He'. rewrite !on_exit_cons. eauto.
Qed.

(** The handler of [ls] lets go of a session that leaves the live ones. *)
Lemma ainv_detach b b' hs sel att1 att2 ls le s :
  ainv (mkConfig b hs sel (att1 ++ mkAttachment ls le Serving :: att2)) →
  session_heap b !! ls = Some s → sessions b' = delete (s_id s) (sessions b) →
  (∀ l, l ≠ ls → session_heap b' !! l = session_heap b !! l) →
  (∀ l s', l ≠ ls → session_heap b !! l = Some s' → s_id s' ≠ s_id s) →
  (∀ l, sessions b !! s_id s = Some l → l = ls) →
  (∀ sid l, sessions b !! sid = Some l → sid ≠ s_id s → l ≠ ls) →
  exit_heap b' = alter (λ e : exitNode, e <| ex_active ::= λ a, a - 1 |>) le (exit_heap b) →
  ainv (mkConfig b' hs sel (att1 ++ att2)).
Proof.
  intros [A1 A2 A3 A4 A5] Hs Hss Hh Hids Hself Hother Heh. simpl in *. rewrite fmap_app, fmap_cons in A2, A3. simpl in *.
  apply NoDup_app in A2 as (N1 & Hd & [Hd2 N2]%NoDup_cons).
  assert (∀ a, a ∈ att1 ++ att2 → a ∈ att1 ++ mkAttachment ls le Serving :: att2 ∧ at_session a ≠ ls) as Hin.
  { intros a Hin. split; [set_solver|]. intros E.
    assert (ls ∈ at_session <$> (att1 ++ att2)) as Hf by (apply list_elem_of_fmap; eauto).
    rewrite fmap_app in Hf. set_solver. }
  constructor; simpl; rewrite ?fmap_app.
  - intros a [Hl Hne]%Hin. destruct (A1 _ Hl) as (s' & Hs' & Hl'). exists s'. rewrite Hh by done.
    rewrite Hss, lookup_delete_ne; [done|]. apply not_eq_sym. by apply (Hids (at_session a) s').
  - apply NoDup_app. split_and!; [done|set_solver|done].
  - intros sid l. rewrite Hss. intros [Hne Hl]%lookup_delete_Some. specialize (A3 _ _ Hl).
    assert (l ≠ ls) by (eapply Hother; [done|congruence]). set_solver.
  - intros a [Hl _]%Hin. rewrite Heh, lookup_alter_is_Some. eauto.
  - intros e ex'. rewrite Heh. intros He. apply lookup_alter_Some in He as [(<- & ex & He & ->)|[Hne He]].
    + simpl. rewrite (A5 _ _ He), on_exit_middle, decide_True by done. lia.
    + rewrite (A5 _ _ He), on_exit_middle, decide_False by naive_solver. lia.
Qed.

Section detach.
Context (b : broker) (hs : list positive) (sel : list admission) (att1 att2 : list attachment).
Context (ls le : positive).
Notation before := (mkConfig b hs sel (att1 ++ mkAttachment ls le Serving :: att2)).
Context (B : binv before) (A : ainv before) (Pn : pinv before).

(** An attached session is live, under its own id. *)
Lemma attached_live : ∃ s, session_heap b !! ls = Some s ∧ sessions b !! s_id s = Some ls ∧ s_suspended s = false.
Proof.
  destruct (ai_live _ A (mkAttachment ls le Serving)) as (s & Hs & Hl); [set_solver|]. simpl in *. exists s. split_and!; try done.
  destruct (bi_live _ B _ _ Hl) as (s' & Hs' & _ & ?). simpl in *. congruence.
Qed.

Lemma detach_ainv b' s :
  session_heap b !! ls = Some s → sessions b !! s_id s = Some ls →
  sessions b' = delete (s_id s) (sessions b) →
  (∀ l, l ≠ ls → session_heap b' !! l = session_heap b !! l) →
  exit_heap b' = alter (λ e : exitNode, e <| ex_active ::= λ a, a - 1 |>) le (exit_heap b) →
  ainv (mkConfig b' hs sel (att1 ++ att2)).
Proof.
  intros Hs Hl Hss Hh He. eapply (ainv_detach b b' hs sel att1 att2 ls le s A); try done.
  - intros l s' Hne Hl' E. apply Hne. by eapply (bi_ids _ B).
  - intros l Hl'. congruence.
  - intros sid l Hl' Hne ->. destruct (bi_live _ B _ _ Hl') as (s' & Hs' & Hid & _). simpl in *. congruence.
Qed.

(** The session ends: its address goes back to the pool. *)
Lemma release_inv b' s :
  session_heap b !! ls = Some s → sessions b !! s_id s = Some ls →
  session_heap b' = session_heap b → sessions b' = delete (s_id s) (sessions b) → parked b' = parked b →
  ipPool b' = pool_release (ipPool b) (s_clientAddr s) →
  armed b' = armed b → fired b' = fired b → nextSession b' = nextSession b →
  binv (mkConfig b' hs sel (att1 ++ att2)) ∧ pinv (mkConfig b' hs sel (att1 ++ att2)).
Proof.
  intros Hs Hl E1 E2 E3 E4 E5 E6 E7. destruct attached_live as (s0 & Hs0 & _ & Hsus).
  rewrite Hs in Hs0. injection Hs0 as <-.
  pose proof B as [I1 I2 I3 I4 I5 I6 I7]. simpl in *.
  assert (∀ l s', holds b' l s' → holds b l s' ∧ l ≠ ls) as Hold.
  { intros l s' [Hl' Hh]. rewrite E1 in Hl'. rewrite E2, E3 in Hh. destruct Hh as [[Hne Hh]%lookup_delete_Some|Hh].
    - split; [split; [done|by left]|]. intros ->. congruence.
    - split; [split; [done|by right]|]. intros ->. destruct (I2 _ _ Hh) as (? & ? & _ & ?). congruence. }
  split.
  - eapply (binv_shape b); [exact B|constructor; rewrite ?E1, ?E2, ?E3, ?E5, ?E6, ?E7; try done|..].
    + intros sid l [_ ?]%lookup_delete_Some. eauto.
    + intros l s' [Hh _]%Hold. eauto.
    + intros l s' Hh Hu. rewrite E4, pool_release_used. apply elem_of_difference. split; [done|].
      rewrite elem_of_singleton. intros Ea. destruct (Hold _ _ Hh) as [Hh' Hne]. apply Hne.
      eapply I6; [done| |done]. split; [done|by left].
  - eapply (pinv_frame b); [exact Pn|lia|rewrite E1; eauto|..].
    + intros l s' [Hh _]%Hold. eauto.
    + intros a Ha Hu. rewrite E4, pool_release_used. apply elem_of_difference. split; [done|].
      rewrite elem_of_singleton. intros ->. apply (pi_used _ Pn) in Ha as [_ Hn]. apply (Hn ls s); [|done].
      split; [done|by left].
Qed.

Lemma release_detach b' s :
  session_heap b !! ls = Some s → sessions b !! s_id s = Some ls →
  session_heap b' = session_heap b → sessions b' = delete (s_id s) (sessions b) → parked b' = parked b →
  ipPool b' = pool_release (ipPool b) (s_clientAddr s) →
  armed b' = armed b → fired b' = fired b → nextSession b' = nextSession b →
  exit_heap b' = alter (λ e : exitNode, e <| ex_active ::= λ a, a - 1 |>) le (exit_heap b) →
  inv (mkConfig b' hs sel (att1 ++ att2)).
Proof.
  intros Hs Hl E1 E2 E3 E4 E5 E6 E7 E8. destruct (release_inv b' s) as [? ?]; try done. split_and!; [done| |done].
  by eapply detach_ainv; [| | |rewrite E1|].
Qed.

Lemma endSession_inv : inv (mkConfig (fst (endSession ls le b)) hs sel (att1 ++ att2)).
Proof.
  destruct attached_live as (s & Hs & Hl & _). unfold endSession. rewrite Hs, Hl. by eapply release_detach.
Qed.

Lemma suspendSession_inv now intentional : inv (mkConfig (fst (suspendSession now ls le intentional b)) hs sel (att1 ++ att2)).
Proof.
  destruct attached_live as (s & Hs & Hl & Hsus). unfold suspendSession. rewrite Hs, Hl. cbv zeta.
  destruct (negb intentional && _ && _) eqn:Epark; simpl.
  2: { by eapply release_detach. }
  pose proof B as [I1 I2 I3 I4 I5 I6 I7]. simpl in *.
  match goal with |- inv (mkConfig ?x _ _ _) =>
    assert (∀ l s', holds x l s' → ∃ s, holds b l s ∧ s_clientAddr s' = s_clientAddr s) as Hholds end.
  { intros l s' [Hl' Hh]. simpl in *. apply lookup_insert_Some in Hl' as [[<- <-]|[Hne Hl']]; simpl in *.
    - exists s. split; [|done]. split; [done|by left].
    - exists s'. split; [|done]. split; [done|]. destruct Hh as [[_ ?]%lookup_delete_Some|Hh]; [by left|].
      apply lookup_insert_Some in Hh as [[_ ?]|[_ ?]]; [done|by right]. }
  split_and!; [|eapply (detach_ainv _ s); simpl; try done; intros l Hne; by apply lookup_insert_ne|].
  2: { eapply pinv_frame; [exact Pn|done| |exact Hholds|done]. simpl.
       intros l s' [[<- <-]|[_ Hl']]%lookup_insert_Some; eauto. }
  eapply (binv_shape b); [exact B|constructor; simpl|exact Hholds|done].
  - intros sid l [Hne Hl']%lookup_delete_Some. destruct (I1 _ _ Hl') as (s' & Hs' & Hid & Hsu).
    exists s'. rewrite lookup_insert_ne; [done|]. intros ->. congruence.
  - intros k l [[<- <-]|[Hne Hl']]%lookup_insert_Some; [eexists; by rewrite lookup_insert_eq|].
    destruct (I2 _ _ Hl') as (s' & Hs' & ? & ?). exists s'. rewrite lookup_insert_ne; [done|]. intros ->. congruence.
  - intros l1 l2 s1 s2. rewrite !lookup_insert_Some.
    intros [[<- <-]|[_ H1']] [[<- <-]|[_ H2']] E; simpl in *; eauto; symmetry; eauto.
  - split; [apply I4|]. intros l s' [[<- <-]|[_ Hl']]%lookup_insert_Some; simpl; by eapply I4.
  - intros k l s' [[<- <-]|[Hne Hl']]%lookup_insert_Some [[El <-]|[Hne' Hs']]%lookup_insert_Some; try done.
    + eexists. split; [by left|done].
    + subst l. destruct (I2 _ _ Hl') as (s2 & ? & _ & ?). congruence.
    + destruct (I7 _ _ _ Hl' Hs') as (t & Hin & ?). exists t. split; [by right|done].
Qed.
End detach.

(** ** Timers *)

Lemma elem_of_remove {A} (x t : A) l l1 l2 :
  x ∈ l ++ l1 ++ t :: l2 → x ≠ t → x ∈ l ++ l1 ++ l2.
Proof. rewrite !elem_of_app, elem_of_cons. naive_solver. Qed.

Lemma expirePark_inv now t ts1 ts2 (b : broker) hs sel att :
  fired b = ts1 ++ t :: ts2 → binv (mkConfig b hs sel att) →
  binv (mkConfig (fst (expirePark now (t_key t) (t_sid t) (b <| fired := ts1 ++ ts2 |>))) hs sel att).
Proof.
  intros Hf B. pose proof B as [I1 I2 I3 I4 I5 I6 I7]. simpl in *. unfold expirePark. simpl.
  assert (∀ b' : broker, session_heap b' = session_heap b → sessions b' = sessions b →
    nextSession b' = nextSession b → armed b' = armed b → fired b' = ts1 ++ ts2 →
    (∀ k l, parked b' !! k = Some l → parked b !! k = Some l) →
    (∀ l s, parked b' !! t_key t = Some l → session_heap b !! l = Some s → s_id s ≠ t_sid t) → shape b') as Hshape.
  { intros b' E1 E2 E3 E4 E5 Hp Hk. constructor; rewrite ?E1, ?E2, ?E3, ?E4, ?E5; try done.
    - intros k l Hl. apply I2. by apply Hp.
    - intros k l s Hl Hs. destruct (I7 _ _ _ (Hp _ _ Hl) Hs) as (t' & Hin & Hk' & Hsid). exists t'. split; [|done].
      rewrite Hf in Hin. eapply elem_of_remove; [done|]. intros ->. subst k. by eapply Hk. }
  destruct (parked b !! t_key t) as [l|] eqn:Ep; simpl.
  2: { eapply (binv_shape b); [exact B|apply Hshape; simpl; try done; congruence|..|done].
       intros l s Hh. by exists s. }
  destruct (I2 _ _ Ep) as (s & Hs & Hkey & Hsus). rewrite Hs. simpl.
  destruct (negb (s_id s =? t_sid t) || negb (s_suspended s)) eqn:Ec; simpl.
  - rewrite Hsus in Ec. simpl in Ec. rewrite orb_false_r in Ec. apply negb_true_iff, Z.eqb_neq in Ec.
    eapply (binv_shape b); [exact B|apply Hshape; simpl; try done; congruence|..|done].
    intros l' s' Hh. by exists s'.
  - eapply (binv_shape b); [exact B|apply Hshape; simpl; try done|..].
    + intros k l' [_ ?]%lookup_delete_Some. done.
    + intros l' s' Hl'. by rewrite lookup_delete_eq in Hl'.
    + intros l' s' [Hl' Hh]. simpl in *. exists s'. split; [|done]. split; [done|].
      destruct Hh as [?|[_ ?]%lookup_delete_Some]; [by left|by right].
    + intros l' s' [Hl' Hh] Hu. simpl in *. rewrite pool_release_used. apply elem_of_difference. split; [done|].
      rewrite elem_of_singleton. intros Ea.
      assert (l' = l) as ->.
      { eapply I6; [| |exact Ea].
        - split; [done|]. destruct Hh as [?|[_ ?]%lookup_delete_Some]; [by left|by right].
        - split; [done|]. right. by rewrite Hkey. }
      rewrite Hs in Hl'. injection Hl' as <-. destruct Hh as [Hh|[Hne _]%lookup_delete_Some].
      * destruct (I1 _ _ Hh) as (? & ? & _ & ?). congruence.
      * congruence.
Qed.

Lemma expirePark_exits now key sid (b : broker) :
  let b' := fst (expirePark now key sid b) in
  exit_heap b' = exit_heap b ∧ session_heap b' = session_heap b ∧ sessions b' = sessions b.
Proof. unfold expirePark. destruct (_ ≫= _); [|done]. by destruct (_ || _). Qed.

(** The address an expired session gives back is not one that a new client has been given. *)
Lemma expirePark_pinv now key sid (b : broker) hs sel att :
  (∀ l s, parked b !! key = Some l → session_heap b !! l = Some s → s_resumeKey s = key) →
  pinv (mkConfig b hs sel att) → pinv (mkConfig (fst (expirePark now key sid b)) hs sel att).
Proof.
  intros Hk Pn. unfold expirePark. destruct (parked b !! key) as [l|] eqn:Ep; [|done]. simpl.
  destruct (session_heap b !! l) as [s|] eqn:Es; [|done]. simpl. destruct (_ || _); [done|].
  eapply (pinv_frame b); [exact Pn|done|eauto|..]; simpl.
  - intros l' s' [Hl' Hh]. simpl in *. exists s'. split; [|done]. split; [done|].
    destruct Hh as [?|[_ ?]%lookup_delete_Some]; [by left|by right].
  - intros a Ha Hu. rewrite pool_release_used. apply elem_of_difference. split; [done|]. rewrite elem_of_singleton.
    intros ->. apply (pi_used _ Pn) in Ha as [_ Hn]. apply (Hn l s); [|done]. split; [done|]. right. by rewrite (Hk l s).
Qed.

Lemma timer_binv t ts1 ts2 (b : broker) hs sel att :
  armed b = ts1 ++ t :: ts2 → binv (mkConfig b hs sel att) →
  binv (mkConfig (b <| armed := ts1 ++ ts2 |> <| fired ::= cons t |>) hs sel att).
Proof.
  intros Ha []. constructor; simpl; try done. intros k l s Hl Hs.
  destruct (bi_timer0 _ _ _ Hl Hs) as (t' & Hin & ?). exists t'. split; [|done]. simpl in Hin. rewrite Ha in Hin.
  rewrite !elem_of_app, !elem_of_cons in *. naive_solver.
Qed.

Lemma ainv_same b b' hs sel att :
  exit_heap b' = exit_heap b → session_heap b' = session_heap b → sessions b' = sessions b →
  ainv (mkConfig b hs sel att) → ainv (mkConfig b' hs sel att).
Proof. intros E1 E2 E3 []. constructor; simpl in *; rewrite ?E1, ?E2, ?E3; done. Qed.

(** ** Every step preserves the invariant *)

Lemma chooseExit_frame msg (b : broker) : ∃ r, snd (chooseExit intn msg b) = b <| rr := r |>.
Proof.
  unfold chooseExit. assert (b = b <| rr := rr b |>) as Hb by (by destruct b).
  case_decide.
  - destruct (Pick _ _ _ _ _) as [ch r']. simpl. exists (default 0 r'). by destruct (ch ≫= _).
  - exists (rr b). destruct (_ ≫= _) as [[l e]|]; [destruct (_ && _)|]; done.
Qed.

Lemma selectExit_frame now c msg u (b : broker) sl b' :
  selectExit intn now c msg u b = (sl, b') → (∀ ls le, sl ≠ Resumed ls le) → ∃ r, b' = b <| rr := r |>.
Proof.
  unfold selectExit. assert (b = b <| rr := rr b |>) as Hb by (by destruct b).
  destruct (c_ListExits msg); [intros [= <- <-]; eauto|].
  destruct (if decide _ then _ else _) as [[[ls le] b1]|]; [intros [= <- <-] Hn; by destruct (Hn ls le)|].
  destruct (chooseExit_frame msg b) as [r Hr]. destruct (chooseExit intn msg b) as [[]]; simpl in *;
    intros [= <- <-] _; eauto.
Qed.

(** A step that only touches fields the invariant does not read. *)
Lemma frame_inv b b' hs hs' sel att :
  same_sessions b b' → exit_heap b' = exit_heap b → inv (mkConfig b hs sel att) → inv (mkConfig b' hs' sel att).
Proof.
  intros Hs He (B & A & Pn). split_and!; [by apply (binv_frame b _ hs _ sel _ att)| |by apply (pinv_same b _ hs sel att)].
  apply (ainv_frame b _ hs _ sel); [done| | |done]; rewrite He; eauto.
Qed.

(** The clients on their way to a session change, the broker does not. *)
Lemma select_inv (b : broker) hs sel sel' att :
  pinv (mkConfig b hs sel' att) → inv (mkConfig b hs sel att) → inv (mkConfig b hs sel' att).
Proof. intros Pn ([] & [] & _). split_and!; [by constructor..|done]. Qed.

Lemma registerExit_inv now c msg (b : broker) l b' outs hs hs' sel att :
  registerExit remoteAddr now c msg b = (Some l, b', outs) →
  inv (mkConfig b hs sel att) → inv (mkConfig b' hs' sel att).
Proof.
  unfold registerExit. destruct (negb _); [done|]. simpl. intros [= <- <- _] (B & A & Pn).
  assert (exit_heap b !! fresh (dom (exit_heap b)) = None) as Hf by (apply not_elem_of_dom, is_fresh).
  split_and!; [by apply (binv_frame b _ hs _ sel _ att)| |by apply (pinv_same b _ hs sel att)].
  apply (ainv_frame b _ hs _ sel); [done|..|done]; simpl.
  - intros le ex [[<- <-]|[_ He]]%lookup_insert_Some; [by right|]. left. eauto.
  - intros le [ex He]. rewrite lookup_insert_is_Some'. right. eauto.
Qed.

Lemma exitMessage_inv now l m (b : broker) hs sel att :
  inv (mkConfig b hs sel att) → inv (mkConfig (fst (exitMessage remoteAddr now l m b)) hs sel att).
Proof.
  intros I. unfold exitMessage. destruct (exit_heap b !! l) as [ex|] eqn:E; [|done].
  destruct (c_Type m); try done; simpl; [by apply (frame_inv b _ hs hs sel)|]. destruct I as (B & A & Pn).
  split_and!; [by apply (binv_frame b _ hs _ sel _ att)| |by apply (pinv_same b _ hs sel att)].
  apply (ainv_frame b _ hs _ sel); [done|..|done]; simpl.
  - intros le ex' [[<- <-]|[_ He]]%lookup_insert_Some; left; eauto.
  - intros le [ex' He]. rewrite lookup_insert_is_Some'. right. eauto.
Qed.

Lemma timers_inv now t ts1 ts2 (b : broker) hs sel att :
  fired b = ts1 ++ t :: ts2 → inv (mkConfig b hs sel att) →
  inv (mkConfig (fst (expirePark now (t_key t) (t_sid t) (b <| fired := ts1 ++ ts2 |>))) hs sel att).
Proof.
  intros Hf (B & A & Pn). split_and!; [by apply expirePark_inv| |].
  - pose proof (expirePark_exits now (t_key t) (t_sid t) (b <| fired := ts1 ++ ts2 |>)) as (E1 & E2 & E3).
    by apply (ainv_same b).
  - apply expirePark_pinv; simpl.
    + intros l s Hl Hs. destruct (bi_park _ B _ _ Hl) as (s' & Hs' & ? & _). simpl in *. congruence.
    + by eapply (pinv_frame b); [exact Pn|done|eauto|intros l s'; exists s'|].
Qed.

#[local] Hint Resolve registerExit_inv exitMessage_inv number_inv allocate_inv publishSession_inv count_inv report_inv timers_inv : core.

Lemma bstep_inv c c' : bstep c c' → inv c → inv c'.
Proof.
  intros Hst I. destruct Hst; eauto.
  - unfold exitGone. destruct (exit_heap b !! l); by eapply (frame_inv b).
  - destruct (selectExit_frame _ _ _ _ _ _ _ ltac:(eassumption)) as [r ->]; [done|].
    apply (frame_inv b _ hs); [done|done|]. eapply select_inv; [|exact I]. apply pinv_wait, I.
  - eapply resume_inv; [by eapply selectExit_resumed|done].
  - destruct (selectExit_frame _ _ _ _ _ _ _ ltac:(eassumption)) as [r ->]; [done|]. by eapply (frame_inv b).
  - match goal with Ha : allocateAddr _ = _ |- _ => revert Ha; unfold allocateAddr end.
    destruct (pool_allocate _) as [[]|]; intros [= <-]. eapply select_inv; [|exact I]. eapply pinv_leave, I.
  - destruct I as (B & A & Pn). by apply endSession_inv.
  - destruct I as (B & A & Pn). by apply suspendSession_inv.
  - destruct I as (B & A & Pn). split_and!; [by apply timer_binv|by apply (ainv_same b)|].
    by eapply (pinv_frame b); [exact Pn|done|eauto|intros l s'; exists s'|].
  - unfold relayDatagram. destruct (DecodeDatagram dg) as [[sid pkt]|]; [|done].
    destruct (live_session b sid); [|done]. by eapply (frame_inv b).
  - unfold clientMessage. destruct (c_Type m); try done. by eapply (frame_inv b).
  - by eapply (frame_inv b).
Qed.

(** Handlers of an exit are those that have counted and those that have not. *)
Lemma on_exit_split le att :
  on_exit le att = Z.of_nat (length (filter (λ a, at_exit a = le) att)) -
                   Z.of_nat (length (filter (λ a, at_exit a = le ∧ counted a = false) att)).
Proof.
  unfold on_exit. induction att as [|a att IH]; [done|]. rewrite !filter_cons.
  destruct (decide (at_exit a = le)) as [->|Hne]; destruct (counted a) eqn:E;
    repeat case_decide; simpl; try lia; exfalso; intuition congruence.
Qed.

Lemma bsteps_inv st pool u secret c : rtc bstep (initial st pool u secret) c → inv c.
Proof.
  intros Hst. pose proof (start_inv st pool u secret) as H0'.
  revert H0'. induction Hst; eauto using bstep_inv.
Qed.
End system.
