(* ===== verification/BrokerProps.v ===== *)
(** * What the broker guarantees, and where it falls short

    Theorems about the interleaved system of [BrokerSys] and about single blocks of [Broker]:
    addresses, load accounting, expiry, exit selection, resumption; and three behaviours
    that contradict what the code means to do. *)
From S2P Require Import Prelude Float64 Strs GoTime Netip Proto IPPool LB AdminAPI UserStore QoS TurnCred Broker BrokerSys.

Open Scope Z_scope.

Section props.
Context {S P U : Type} `{HistoryStore S} `{AddressPool P} `{UserRegistry U}.
Context (oidcVerifier : option (string → result string string)).
Context (remoteAddr : positive → string) (intn : nat → nat).
Notation broker := (broker (S := S) (P := P) (U := U)).
Notation bstep := (bstep (S := S) (P := P) (U := U) oidcVerifier remoteAddr intn).

(** ** Addresses and accounting *)

(** C1. No two clients ever have the same VPN address: in every reachable state of the broker, under
    any interleaving of its handlers and timers, distinct sessions that are live or parked have
    distinct ids and distinct addresses, and the pool holds each of these addresses as used - so it
    does not hand it out again. *)
Theorem addresses_never_shared st pool u secret c l1 l2 s1 s2 :
  rtc bstep (initial st pool u secret) c → holds (br c) l1 s1 → holds (br c) l2 s2 → l1 ≠ l2 →
  s_id s1 ≠ s_id s2 ∧ s_clientAddr s1 ≠ s_clientAddr s2 ∧
  s_clientAddr s1 ∈ pool_used (ipPool (br c)) ∧
  (∀ a pool', pool_allocate (ipPool (br c)) = Some (a, pool') → a ≠ s_clientAddr s1).
Proof.
  intros Hst H1' H2' Hne. destruct (bsteps_inv oidcVerifier remoteAddr intn _ _ _ _ _ Hst) as (B & _ & _).
  assert (s_clientAddr s1 ∈ pool_used (ipPool (br c))) as Hu by (by apply (bi_used _ B l1)).
  split_and!; try done.
  - intros E. apply Hne. by eapply (bi_ids _ B); [apply H1'|apply H2'|].
  - intros E. apply Hne. by eapply (bi_addr _ B).
  - intros a pool' Ha ->. by apply pool_allocate_used in Ha as [? _].
Qed.

(** C6. The load of an exit is exact: in every reachable state, under any interleaving, every live session
    has exactly one handler, and the active count of every exit object is the number of these handlers
    on it, less those that have entered their session in the table and are about to count it. *)
Theorem active_is_attached st pool u secret c :
  rtc bstep (initial st pool u secret) c →
  (∀ le ex, exit_heap (br c) !! le = Some ex →
     ex_active ex = Z.of_nat (length (filter (λ a, at_exit a = le) (attached c))) -
                    Z.of_nat (length (filter (λ a, at_exit a = le ∧ counted a = false) (attached c)))) ∧
  NoDup (at_session <$> attached c) ∧
  (∀ ls, ls ∈ at_session <$> attached c ↔ ∃ sid, sessions (br c) !! sid = Some ls).
Proof.
  intros Hst. destruct (bsteps_inv oidcVerifier remoteAddr intn _ _ _ _ _ Hst) as (B & A & _).
  split_and!; [intros le ex He; rewrite <- on_exit_split; by apply (ai_active _ A)|apply (ai_nodup _ A)|].
  intros ls. split.
  - intros (a & -> & Hin)%list_elem_of_fmap. destruct (ai_live _ A _ Hin) as (s & _ & Hl). eauto.
  - intros [sid Hl]. by eapply (ai_all _ A).
Qed.

(** C13. The tables of the broker stay well-formed: in every reachable state each entry of the live and
    of the parked table leads to a session object that carries that entry's key and whose suspended
    flag says which of the tables it is in, no object is in both or in one of them twice, and all ids
    are at most the counter. *)
Theorem tables_well_formed st pool u secret c :
  rtc bstep (initial st pool u secret) c →
  (∀ sid l, sessions (br c) !! sid = Some l →
     ∃ s, session_heap (br c) !! l = Some s ∧ s_id s = sid ∧ s_suspended s = false ∧ sid ≤ nextSession (br c)) ∧
  (∀ k l, parked (br c) !! k = Some l →
     ∃ s, session_heap (br c) !! l = Some s ∧ s_resumeKey s = k ∧ s_suspended s = true ∧ s_id s ≤ nextSession (br c)) ∧
  (∀ sid k l, sessions (br c) !! sid = Some l → parked (br c) !! k ≠ Some l) ∧
  (∀ sid1 sid2 l, sessions (br c) !! sid1 = Some l → sessions (br c) !! sid2 = Some l → sid1 = sid2) ∧
  (∀ k1 k2 l, parked (br c) !! k1 = Some l → parked (br c) !! k2 = Some l → k1 = k2).
Proof.
  intros Hst. destruct (bsteps_inv oidcVerifier remoteAddr intn _ _ _ _ _ Hst) as (B & _ & _).
  pose proof (bi_live _ B) as HL. pose proof (bi_park _ B) as HP. destruct (bi_next _ B) as [_ Hn].
  split_and!.
  - intros sid l Hl. destruct (HL _ _ Hl) as (s & Hs & <- & Hf). exists s. eauto.
  - intros k l Hl. destruct (HP _ _ Hl) as (s & Hs & <- & Hf). exists s. eauto.
  - intros sid k l (s & Hs & _ & Hf)%HL (s' & Hs' & _ & Hf')%HP. congruence.
  - intros sid1 sid2 l (s & Hs & <- & _)%HL (s' & Hs' & <- & _)%HL. congruence.
  - intros k1 k2 l (s & Hs & <- & _)%HP (s' & Hs' & <- & _)%HP. congruence.
Qed.

(** C7. A parked session does not stay forever: in every reachable state each parked session has a
    timer of its own, pending or fired; and when the [expirePark] of that timer runs, the session is
    no longer parked and its address is free again. *)
Theorem parked_sessions_expire st pool u secret c k l s now :
  rtc bstep (initial st pool u secret) c → parked (br c) !! k = Some l → session_heap (br c) !! l = Some s →
  (∃ t, t ∈ armed (br c) ++ fired (br c) ∧ t_key t = k ∧ t_sid t = s_id s) ∧
  let b' := fst (expirePark now k (s_id s) (br c)) in
  parked b' !! k = None ∧ s_clientAddr s ∉ pool_used (ipPool b').
Proof.
  intros Hst Hl Hs. destruct (bsteps_inv oidcVerifier remoteAddr intn _ _ _ _ _ Hst) as (B & _ & _).
  split; [by eapply (bi_timer _ B)|].
  destruct (bi_park _ B _ _ Hl) as (s' & Hs' & _ & Hsus). rewrite Hs in Hs'. injection Hs' as <-.
  unfold expirePark. rewrite Hl. simpl. rewrite Hs. simpl. rewrite Z.eqb_refl, Hsus. simpl.
  rewrite lookup_delete_eq, pool_release_used. set_solver.
Qed.

(** ** Selection *)

(** Registered exits are found under their own id. *)
Definition exits_ok (b : broker) : Prop :=
  ∀ id l, exits b !! id = Some l → ∃ ex, exit_heap b !! l = Some ex ∧ ex_nodeID ex = id.

(** C9. A client only gets an exit its user may use: if the broker selects an exit for a request,
    the user is enabled and permitted in the requested region, and the exit serves that region and
    had room when it was selected (a capacity of zero or below is no limit). *)
Theorem selected_exit_fits now c msg user le (b b' : broker) :
  (∀ n, 0 < n → intn n < n)%nat → 0 ≤ rr b → exits_ok b →
  authenticate oidcVerifier msg b = Ok user → selectExit intn now c msg user b = (Selected le, b') →
  permits user (c_RequestedRegion msg) ∧
  ∃ ex, exit_heap b !! le = Some ex ∧ exits b !! ex_nodeID ex = Some le ∧
        ex_region ex = c_RequestedRegion msg ∧ (ex_capacity ex ≤ 0 ∨ ex_active ex < ex_capacity ex).
Proof.
  intros Hintn Hrr Hex Hauth Hsel. split.
  { unfold authenticate in Hauth. destruct oidcVerifier as [verify|].
    - destruct (verify _); [|done]. destruct (reg_authorize _ _ _) eqn:E; [|done].
      injection Hauth as <-. by eapply reg_authorize_permits.
    - destruct (reg_authenticate _ _ _) eqn:E; [|done]. injection Hauth as <-. by eapply reg_authenticate_permits. }
  unfold selectExit in Hsel. destruct (c_ListExits msg); [done|].
  destruct (if decide _ then _ else _) as [[[]]|]; [done|].
  destruct (chooseExit intn msg b) as [[l|e] b1] eqn:E; [|done]. injection Hsel as -> _.
  unfold chooseExit in E. case_decide as Hreq.
  - assert (∀ x, Some (rr b) = Some x → 0 ≤ x) as Hc by (by intros x [= <-]).
    pose proof (Pick_spec (lbStrategy b) (c_RequestedRegion msg) (lb_node <$> exit_list b) (Some (rr b)) intn Hintn Hc) as Hp.
    destruct (Pick _ _ _ _ _) as [[id|] r']; simpl in *; [|done].
    destruct (exits b !! id) as [l'|] eqn:El; [|done]. injection E as -> _.
    destruct (Hex _ _ El) as (ex & He & Hid). destruct Hp as (n & Hn & Hnid & Hreg & Hcap).
    apply list_elem_of_fmap in Hn as (ex0 & -> & Hin). unfold exit_list in Hin.
    apply list_elem_of_omap in Hin as ([k l0] & Hkl%elem_of_map_to_list & Hl0). simpl in *.
    destruct (Hex _ _ Hkl) as (ex1 & He1 & Hk). assert (ex1 = ex0) as -> by congruence.
    assert (l0 = le) as -> by congruence. exists ex0. split_and!; try done. congruence.
  - destruct (exits b !! c_RequestedExit msg) as [l'|] eqn:El; [|done]. simpl in E.
    destruct (exit_heap b !! l') as [ex|] eqn:Eh; [|done]. simpl in E.
    destruct (_ && _) eqn:Ec; [|done]. injection E as -> _. destruct (Hex _ _ El) as (ex' & He & Hid).
    apply andb_true_iff in Ec as [Hr%bool_decide_eq_true Hcap]. exists ex. split_and!; try done; [congruence|].
    apply orb_true_iff in Hcap as [?%Z.eqb_eq|?%Z.ltb_lt]; lia.
Qed.

(** ** Resumption *)

(** C8. A dropped client finds its session again: if a session with a resume key was suspended by a
    drop, and the same user presents the key within the resume window while an exit with that node id
    is registered, then the same session - its id, its address, its exit's node id - is live again,
    bound to the new connection and to that exit's current connection. *)
Theorem resume_restores now1 now2 ls le le' ex s c user (b : broker) :
  let b1 := fst (suspendSession now1 ls le false b) in
  session_heap b !! ls = Some s → sessions b !! s_id s = Some ls → s_resumeKey s ≠ "" → 0 < resumeTTL b →
  Sub now2 now1 < resumeTTL b → s_username s = user →
  exits b !! s_nodeID s = Some le' → exit_heap b1 !! le' = Some ex →
  ∃ b2 s', tryResume now2 (s_resumeKey s) user c b1 = Some (ls, le', b2) ∧
    sessions b2 !! s_id s = Some ls ∧ session_heap b2 !! ls = Some s' ∧
    s_id s' = s_id s ∧ s_clientAddr s' = s_clientAddr s ∧ s_nodeID s' = s_nodeID s ∧
    s_startedAt s' = s_startedAt s ∧ s_suspended s' = false ∧
    s_clientConn s' = Some c ∧ s_exitConn s' = Some (ex_conn ex) ∧ ipPool b2 = ipPool b.
Proof.
  intros b1 Hs Hl Hk Httl Hsub Hu He Heh. unfold b1, suspendSession in *. rewrite Hs, Hl in *. cbv zeta in *.
  rewrite (bool_decide_eq_false_2 _ Hk) in *. change (resumeTTL (drop_active le _)) with (resumeTTL b) in *.
  rewrite (proj2 (Z.ltb_lt _ _) Httl) in *. simpl negb in *. simpl andb in *. cbv iota in *. simpl fst in *.
  unfold tryResume. simpl. rewrite lookup_insert_eq, lookup_insert_eq. simpl.
  rewrite (bool_decide_eq_true_2 _ Hu). simpl.
  rewrite (proj2 (Z.leb_gt _ _) Hsub). simpl. rewrite He. simpl in Heh. rewrite Heh.
  eexists _, _. split; [done|]. simpl. rewrite !lookup_insert_eq. done.
Qed.

(** ** Behaviours that contradict the code's intent *)

(** A stale exit handler unregisters its successor: after an exit re-registers under the same
    node id on a new connection, the end of the old connection removes the new registration, and
    every session on that node id is told to disconnect. *)
Theorem stale_exit_unregisters now1 now2 now3 c1 c2 m1 m2 (b b1 b2 : broker) l1 l2 o1 o2 :
  c_NodeID m1 = c_NodeID m2 →
  registerExit remoteAddr now1 c1 m1 b = (Some l1, b1, o1) →
  registerExit remoteAddr now2 c2 m2 b1 = (Some l2, b2, o2) →
  l1 ≠ l2 ∧ exits b2 !! c_NodeID m2 = Some l2 ∧
  exits (fst (exitGone now3 l1 b2)) !! c_NodeID m2 = None ∧
  (∀ s cw, s ∈ affected (c_NodeID m2) b2 → s_clientConn s = Some cw →
     OClose cw 0 "exit node disconnected" ∈ snd (exitGone now3 l1 b2)).
Proof.
  intros Hid. unfold registerExit. destruct (negb _); [done|]. intros [= <- <- _]. cbv zeta.
  destruct (negb _); [done|]. intros [= <- <- _]. simpl.
  set (l1 := fresh (dom (exit_heap b))). set (h1 := <[l1 := _]> (exit_heap b)). set (l2 := fresh (dom h1)).
  assert (l1 ≠ l2) as Hne.
  { intros E. assert (l2 ∉ dom h1) as Hf by apply is_fresh. apply Hf. rewrite <- E. unfold h1. set_solver. }
  split; [done|]. split; [by rewrite lookup_insert_eq|]. unfold exitGone. simpl.
  rewrite lookup_insert_ne by done. unfold h1. rewrite lookup_insert_eq. simpl. rewrite Hid.
  split; [by rewrite lookup_delete_eq|]. intros s cw Hs Hcw. right. unfold failExit.
  apply list_elem_of_bind. exists s. split; [|exact Hs]. rewrite Hcw. apply elem_of_app. right. by left.
Qed.

(** Two sessions with one resume key leak an address: when a session is parked under a key whose
    parked session it displaces, the displaced session's address stays used in the pool although no
    session holds it any more, and the timer of the displaced session frees nothing. *)
Theorem displaced_session_leaks c ls le l0 s s0 att1 att2 now now' st pool u secret :
  rtc bstep (initial st pool u secret) c → attached c = att1 ++ mkAttachment ls le Serving :: att2 →
  session_heap (br c) !! ls = Some s → s_resumeKey s ≠ "" → 0 < resumeTTL (br c) →
  parked (br c) !! s_resumeKey s = Some l0 → session_heap (br c) !! l0 = Some s0 →
  let b' := fst (suspendSession now ls le false (br c)) in
  s_clientAddr s0 ∈ pool_used (ipPool b') ∧
  (∀ l s', holds b' l s' → s_clientAddr s' ≠ s_clientAddr s0) ∧
  expirePark now' (s_resumeKey s) (s_id s0) b' = (b', []).
Proof.
  intros Hst Hatt Hs Hk Httl Hp Hs0 b'. destruct (bsteps_inv oidcVerifier remoteAddr intn _ _ _ _ _ Hst) as (B & A & _).
  pose proof B as [I1 I2 I3 I4 I5 I6 I7].
  destruct (I2 _ _ Hp) as (s0' & Hs0' & Hkey & Hsus). rewrite Hs0 in Hs0'. injection Hs0' as <-.
  destruct (ai_live _ A (mkAttachment ls le Serving)) as (s1 & Hs1 & Hl); [rewrite Hatt; set_solver|]. simpl in Hs1, Hl. rewrite Hs in Hs1. injection Hs1 as <-.
  assert (l0 ≠ ls) as Hne.
  { intros ->. destruct (I1 _ _ Hl) as (? & ? & _ & ?). congruence. }
  assert (holds (br c) l0 s0) as Hh0 by (split; [done|right; by rewrite Hkey]).
  unfold b', suspendSession. rewrite Hs, Hl. cbv zeta. rewrite (bool_decide_eq_false_2 _ Hk).
  change (resumeTTL (drop_active le _)) with (resumeTTL (br c)). rewrite (proj2 (Z.ltb_lt _ _) Httl). simpl.
  split_and!.
  - by apply I5 in Hh0.
  - intros l s' [Hl' Hh] Ea. simpl in *. apply lookup_insert_Some in Hl' as [[<- <-]|[Hne' Hl']].
    + apply Hne. apply (I6 l0 ls s0 s); [exact Hh0|split; [done|by left]|symmetry; exact Ea].
    + assert (holds (br c) l s' ∧ l ≠ l0) as [Hold Hn].
      { destruct Hh as [[Hni Hh]%lookup_delete_Some|Hh].
        - split; [split; [done|by left]|]. intros ->. destruct (I1 _ _ Hh) as (? & ? & _ & ?). congruence.
        - apply lookup_insert_Some in Hh as [[_ ?]|[Hnk Hh]]; [done|]. split; [split; [done|by right]|].
          intros ->. congruence. }
      apply Hn. by eapply I6.
  - unfold expirePark. simpl. rewrite lookup_insert_eq. simpl. rewrite lookup_insert_eq. simpl.
    destruct (Z.eqb_spec (s_id s) (s_id s0)) as [E|]; [|done]. exfalso. apply Hne. symmetry. by eapply I3.
Qed.

(** Resumption does not look at the requested region: a request that would resume a session
    resumes it whatever region it asks for and was authorised for, so the client is attached to the
    session's old exit even if its user is no longer permitted there. *)
Theorem resume_ignores_region now c msg region user ls le (b b' : broker) :
  selectExit intn now c msg user b = (Resumed ls le, b') →
  selectExit intn now c (msg <| c_RequestedRegion := region |>) user b = (Resumed ls le, b').
Proof.
  unfold selectExit. simpl. destruct (c_ListExits msg); [done|].
  case_decide; [by destruct (chooseExit intn msg b) as [[]]|].
  destruct (tryResume _ _ _ _ _) as [[[]]|]; [done|]. by destruct (chooseExit intn msg b) as [[]].
Qed.
End props.

(** ** A concrete broker: one exit, then Alice and Bob *)

#[local] Instance demo_registry : UserRegistry table := table_UserRegistry demo_hmac.
Notation demo_broker := (broker (S := list QoS.Event) (P := Pool) (U := table)).
Notation demo_config := (config (S := list QoS.Event) (P := Pool) (U := table)).

Definition demo_addr (c : positive) : string := "192.0.2.1:4242".
Definition demo_intn (n : nat) : nat := 0.
Definition node_msg (id region : string) : Control :=
  (control MsgRegister) <| c_Token := "node-secret" |> <| c_NodeID := id |> <| c_Region := region |> <| c_Capacity := 10 |>.
Definition client_msg (tok key : string) : Control :=
  (control MsgConnect) <| c_Token := tok |> <| c_RequestedRegion := "eu" |> <| c_ResumeKey := key |>.

Definition bob : User := mkUser "id-2" "bob" ["*"%string] UserEnabled 0 20 20.

Definition demo_settings : settings (S := list QoS.Event) :=
  mkSettings LeastConn Hour (QoS.New QoS.DefaultHistory) "" "" "".
Definition db0 : demo_broker := configure demo_settings (newBroker vpn_pool demo_table "node-secret").
Definition db1 : demo_broker := snd (fst (registerExit demo_addr 100 9 (node_msg "exit-a" "eu") db0)).
Definition db2 : demo_broker := snd (admitSession 200 11 (client_msg "tok-a" "k") alice 1 db1).
Definition db3 : demo_broker := snd (admitSession 300 12 (client_msg "tok-b" "k") bob 1 db2).
Definition db4 : demo_broker := fst (suspendSession 400 1 1 false db3).

Notation demo_step := (bstep (S := list QoS.Event) (P := Pool) (U := table) None demo_addr demo_intn).

Ltac by_computation := vm_compute; reflexivity.

Definition cfg3 : demo_config := mkConfig db3 [1%positive] [] [mkAttachment 2 1 Serving; mkAttachment 1 1 Serving].
Definition cfg4 : demo_config := mkConfig db4 [1%positive] [] [mkAttachment 2 1 Serving].

(** A client that is admitted without interference. *)
Lemma admit_steps now c msg u (b : demo_broker) sid a b1 b2 ls b3 b4 hs att :
  authenticate None msg b = Ok u → selectExit demo_intn now c msg u b = (Selected 1%positive, b) →
  nextSession b + 1 < 2 ^ 64 → nextSessionID b = (sid, b1) → allocateAddr b1 = (Some a, b2) →
  publishSession now c msg u 1 sid a b2 = Some (ls, b3) → b4 = reportConnect now ls (add_active 1 b3) →
  rtc demo_step (mkConfig b hs [] att) (mkConfig b4 hs [] (mkAttachment ls 1 Serving :: att)).
Proof.
  intros Hau Hs Hn H1 H2 H3 ->. set (w := mkWaiting c msg u 1).
  eapply rtc_l; [by eapply st_select|]. eapply rtc_l; [by eapply (st_number None demo_addr demo_intn w sid b b1 hs [] [] att)|].
  eapply rtc_l; [by eapply (st_allocate None demo_addr demo_intn w sid a b1 b2 hs [] [] att)|].
  eapply rtc_l; [by eapply (st_publish None demo_addr demo_intn now w sid a ls b2 b3 hs [] [] att)|].
  eapply rtc_l; [apply (st_count None demo_addr demo_intn ls 1 true b3 hs [] [] att)|].
  eapply rtc_l; [apply (st_report None demo_addr demo_intn now ls 1 _ hs [] [] att)|]. apply rtc_refl.
Qed.

Definition da (b : demo_broker) : demo_broker := snd (allocateAddr (snd (nextSessionID b))).

Lemma demo_run3 :
  rtc demo_step (initial demo_settings vpn_pool demo_table "node-secret") cfg3.
Proof.
  eapply rtc_l.
  { apply (st_register None demo_addr demo_intn 100 9 (node_msg "exit-a" "eu") 1 db0 db1 [] [] []
             (snd (registerExit demo_addr 100 9 (node_msg "exit-a" "eu") db0))). by_computation. }
  etransitivity.
  { apply (admit_steps 200 11 (client_msg "tok-a" "k") alice db1 1 (AddrFrom4 10 99 0 2) (snd (nextSessionID db1)) (da db1) 1
             (snd (default (1%positive, db1) (publishSession 200 11 (client_msg "tok-a" "k") alice 1 1 (AddrFrom4 10 99 0 2) (da db1))))
             db2); by_computation. }
  apply (admit_steps 300 12 (client_msg "tok-b" "k") bob db2 2 (AddrFrom4 10 99 0 3) (snd (nextSessionID db2)) (da db2) 2
           (snd (default (1%positive, db2) (publishSession 300 12 (client_msg "tok-b" "k") bob 1 2 (AddrFrom4 10 99 0 3) (da db2))))
           db3); by_computation.
Qed.

Lemma demo_run4 :
  rtc demo_step (initial demo_settings vpn_pool demo_table "node-secret") cfg4.
Proof.
  eapply rtc_r; [apply demo_run3|]. unfold cfg3, cfg4, db4.
  apply (st_suspend None demo_addr demo_intn 400 false 1 1 db3 [1%positive] [] [mkAttachment 2 1 Serving] []).
Qed.

Opaque db1 db2 db3 db4.

Definition sess_a : session := newSession 200 11 (client_msg "tok-a" "k") alice
  (mkExitNode "exit-a" "" "eu" 9 10 100 "" 0 f64_zero f64_zero f64_zero) 1 (AddrFrom4 10 99 0 2).
Definition sess_b : session := newSession 300 12 (client_msg "tok-b" "k") bob
  (mkExitNode "exit-a" "" "eu" 9 10 100 "" 0 f64_zero f64_zero f64_zero) 2 (AddrFrom4 10 99 0 3).

Definition parked_a : session := sess_a <| s_suspended := true |> <| s_parkedAt := 400 |>.
Definition exit_a : exitNode := mkExitNode "exit-a" "" "eu" 9 10 100 "" 1 f64_zero f64_zero f64_zero.

Lemma addresses_never_shared_witness :
  s_id sess_a ≠ s_id sess_b ∧ s_clientAddr sess_a ≠ s_clientAddr sess_b ∧
  s_clientAddr sess_a ∈ pool_used (ipPool (br cfg3)) ∧
  (∀ a pool', pool_allocate (ipPool (br cfg3)) = Some (a, pool') → a ≠ s_clientAddr sess_a).
Proof.
  apply (addresses_never_shared None demo_addr demo_intn demo_settings vpn_pool demo_table "node-secret" cfg3 1 2 sess_a sess_b
           demo_run3); [split; [|left]; by_computation..|done].
Defined.

Lemma active_is_attached_witness :
  (∀ le ex, exit_heap (br cfg3) !! le = Some ex →
     ex_active ex = Z.of_nat (length (filter (λ a, at_exit a = le) (attached cfg3))) -
                    Z.of_nat (length (filter (λ a, at_exit a = le ∧ counted a = false) (attached cfg3)))) ∧
  NoDup (at_session <$> attached cfg3) ∧
  (∀ ls, ls ∈ at_session <$> attached cfg3 ↔ ∃ sid, sessions (br cfg3) !! sid = Some ls).
Proof.
  exact (active_is_attached None demo_addr demo_intn demo_settings vpn_pool demo_table "node-secret" cfg3 demo_run3).
Defined.

Lemma tables_well_formed_witness :
  (∀ sid l, sessions (br cfg4) !! sid = Some l →
     ∃ s, session_heap (br cfg4) !! l = Some s ∧ s_id s = sid ∧ s_suspended s = false ∧ sid ≤ nextSession (br cfg4)) ∧
  (∀ k l, parked (br cfg4) !! k = Some l →
     ∃ s, session_heap (br cfg4) !! l = Some s ∧ s_resumeKey s = k ∧ s_suspended s = true ∧ s_id s ≤ nextSession (br cfg4)) ∧
  (∀ sid k l, sessions (br cfg4) !! sid = Some l → parked (br cfg4) !! k ≠ Some l) ∧
  (∀ sid1 sid2 l, sessions (br cfg4) !! sid1 = Some l → sessions (br cfg4) !! sid2 = Some l → sid1 = sid2) ∧
  (∀ k1 k2 l, parked (br cfg4) !! k1 = Some l → parked (br cfg4) !! k2 = Some l → k1 = k2).
Proof.
  exact (tables_well_formed None demo_addr demo_intn demo_settings vpn_pool demo_table "node-secret" cfg4 demo_run4).
Defined.

Lemma parked_sessions_expire_witness :
  (∃ t, t ∈ armed (br cfg4) ++ fired (br cfg4) ∧ t_key t = "k"%string ∧ t_sid t = s_id parked_a) ∧
  let b' := fst (expirePark 999 "k" (s_id parked_a) (br cfg4)) in
  parked b' !! "k"%string = None ∧ s_clientAddr parked_a ∉ pool_used (ipPool b').
Proof.
  apply (parked_sessions_expire None demo_addr demo_intn demo_settings vpn_pool demo_table "node-secret" cfg4 "k" 1
           parked_a 999 demo_run4); by_computation.
Defined.

Lemma selected_exit_fits_witness :
  permits alice (c_RequestedRegion (client_msg "tok-a" "k")) ∧
  ∃ ex, exit_heap db1 !! 1%positive = Some ex ∧ exits db1 !! ex_nodeID ex = Some 1%positive ∧
        ex_region ex = c_RequestedRegion (client_msg "tok-a" "k") ∧
        (ex_capacity ex ≤ 0 ∨ ex_active ex < ex_capacity ex).
Proof.
  apply (selected_exit_fits None demo_intn 200 11 (client_msg "tok-a" "k") alice 1 db1 db1).
  - unfold demo_intn. lia.
  - vm_compute. discriminate.
  - intros id l E. assert (exits db1 = {["exit-a"%string := 1%positive]}) as Hx by by_computation.
    rewrite Hx in E. apply lookup_singleton_Some in E as [<- <-]. eexists. split; by_computation.
  - by_computation.
  - by_computation.
Defined.

Lemma resume_restores_witness :
  let b1 := fst (suspendSession 400 1 1 false db3) in
  ∃ b2 s', tryResume 500 (s_resumeKey sess_a) "alice" 13 b1 = Some (1%positive, 1%positive, b2) ∧
    sessions b2 !! s_id sess_a = Some 1%positive ∧ session_heap b2 !! 1%positive = Some s' ∧
    s_id s' = s_id sess_a ∧ s_clientAddr s' = s_clientAddr sess_a ∧ s_nodeID s' = s_nodeID sess_a ∧
    s_startedAt s' = s_startedAt sess_a ∧ s_suspended s' = false ∧
    s_clientConn s' = Some 13%positive ∧ s_exitConn s' = Some (ex_conn exit_a) ∧ ipPool b2 = ipPool db3.
Proof.
  apply (resume_restores 400 500 1 1 1 exit_a sess_a 13 "alice" db3);
    try by_computation. vm_compute. discriminate.
Defined.

Definition re_registered : option positive * demo_broker * list out :=
  registerExit demo_addr 150 10 (node_msg "exit-a" "eu") db1.

Lemma stale_exit_unregisters_witness :
  let b2 := snd (fst re_registered) in
  1%positive ≠ 2%positive ∧ exits b2 !! c_NodeID (node_msg "exit-a" "eu") = Some 2%positive ∧
  exits (fst (exitGone 160 1 b2)) !! c_NodeID (node_msg "exit-a" "eu") = None ∧
  (∀ s cw, s ∈ affected (c_NodeID (node_msg "exit-a" "eu")) b2 → s_clientConn s = Some cw →
     OClose cw 0 "exit node disconnected" ∈ snd (exitGone 160 1 b2)).
Proof.
  apply (stale_exit_unregisters demo_addr 100 150 160 9 10 (node_msg "exit-a" "eu") (node_msg "exit-a" "eu")
           db0 db1 (snd (fst re_registered)) 1 2 (snd (registerExit demo_addr 100 9 (node_msg "exit-a" "eu") db0))
           (snd re_registered)); by_computation.
Defined.

Lemma displaced_session_leaks_witness :
  let b' := fst (suspendSession 450 2 1 false (br cfg4)) in
  s_clientAddr parked_a ∈ pool_used (ipPool b') ∧
  (∀ l s', holds b' l s' → s_clientAddr s' ≠ s_clientAddr parked_a) ∧
  expirePark 999 (s_resumeKey sess_b) (s_id parked_a) b' = (b', []).
Proof.
  apply (displaced_session_leaks None demo_addr demo_intn cfg4 2 1 1 sess_b parked_a [] [] 450 999 demo_settings vpn_pool
           demo_table "node-secret" demo_run4); try by_computation. vm_compute. discriminate.
Defined.

Definition resumed_a : selection * demo_broker := selectExit demo_intn 500 13 (client_msg "tok-a" "k") alice db4.

Lemma resume_ignores_region_witness :
  selectExit demo_intn 500 13 ((client_msg "tok-a" "k") <| c_RequestedRegion := "us" |>) alice db4
  = (Resumed 1 1, snd resumed_a).
Proof.
  apply (resume_ignores_region demo_intn 500 13 (client_msg "tok-a" "k") "us" alice 1 1 db4 (snd resumed_a)).
  by_computation.
Defined.
