(* ===== verification/BrokerMain.v ===== *)
(** * cmd/revquic-broker: from the flags to a broker that serves

    [startup] is main up to the accept loop: it opens the stores the flags ask for, seeds them, sets up
    the broker, its history, the verifier of ID tokens, the admin accounts and the TLS configuration;
    [log.Fatalf] is an error.  What the machine answers - databases, files, randomness, the clock - is
    the record [host]; the history stores are behind their interface.  A store of users is the table
    of [UserStore], with or without a file, or that of [SqlUsers]: both are [UserRegistry]s, so that the
    theorems of the broker hold for either. *)
From S2P Require Import Prelude GoTime Strs Netip Proto IPPool AdminAPI LB UserStore SqlUsers QoS AdminStore SqlAdmins Oidc Quicx Broker BrokerSys.
From Stdlib Require Import Strings.Ascii.

Open Scope string_scope.
Open Scope list_scope.
Open Scope Z_scope.

(** ** Flags *)

Record options := mkOptions {
  o_quic : string; o_http : string; o_httpTLSCert : string; o_httpTLSKey : string;
  o_adminToken : string; o_adminUser : string; o_adminPass : string; o_admindb : string;
  o_nodeToken : string; o_lb : string; o_resumeTTL : Duration;
  o_userdb : string; o_qosdb : string; o_credPepper : string; o_store : string;
  o_seedUser : string; o_seedOIDCUser : string;
  o_tlsCA : string; o_tlsCert : string; o_tlsKey : string;
  o_oidcIssuer : string; o_oidcAudience : string; o_oidcJWKSURL : string; o_oidcJWKSFile : string;
  o_turnSecret : string; o_turnURL : string; o_stunURL : string
}.

Definition defaults : options :=
  mkOptions ":4242" ":8080" "" "" "admin-secret" "admin" "admin" "" "node-secret" "least-conn" Hour "" "" "dev-pepper" "mem"
    "" "" "" "" "" "" "" "" "" "" "" "".

(** The fatal errors of main. *)
Inductive fatal :=
| FOpenUsers (e : string) | FNeedUserdb | FSeedUser (e : store_error) | FSeedOIDCUser (e : store_error)
| FOpenHistory (e : string)
| FJWKSFile (e : string) | FVerifier (e : oidc_error) | FNoJWKS
| FOpenAdmins (e : string) | FOpenAdminFile (e : admin_error) | FNeedAdmindb | FSeedAdmin (e : admin_error)
| FMTLS (e : quicx_error) | FTLS (e : quicx_error) | FListen (e : string).

Definition orDefault (s d : string) : string := if decide (s = "") then d else s.

Section main.
Context {S DU DA leaf cert : Type} `{HistoryStore S} `{UserDB DU} `{AdminDB DA}.
Context (hmac : string → string → string) (prf : string → list byte → list byte).
Context (json : list string → string) (regions_json : string → option (list string)).
Context (Format : Time → string) (Parse : string → option Time).
Context (jwks_json : list byte → option (list jwk)) (x : x509 leaf cert).

Record host := mkHost {
  h_userOS : UserStore.os_env; h_userFile : string → option (list byte);
  h_userDB : string → result string DU; h_userSchema : DU → option string * DU;
  h_adminOS : AdminStore.os_env; h_adminFile : string → option (list byte);
  h_adminDB : string → result string DA; h_adminSchema : DA → option string * DA;
  h_historyDB : string → result string S; h_historyFile : string → result string S;
  h_readFile : string → result string (list byte);
  h_seedID : string; h_seedOIDCID : string; h_now : Time; h_salt : option (list byte);
  h_selfSigned : result string leaf; h_listen : option string
}.

(** ** The stores *)

Inductive user_store := TableUsers (t : UserStore.table) | SqliteUsers (s : sqlStore (D := DU)).
Inductive admin_store := TableAdmins (t : AdminStore.table) | SqliteAdmins (d : DA).

Definition createUser (h : host) (newID : string) (inp : UserCreate) (us : user_store) : result store_error User * user_store :=
  match us with
  | TableUsers t => let '(r, t) := UserStore.Create hmac (h_userOS h) newID (h_now h) inp t in (r, TableUsers t)
  | SqliteUsers s => let '(r, s) := SqlUsers.Create hmac json Format newID (h_now h) inp s in (r, SqliteUsers s)
  end.
Definition authenticateUser (token region : string) (us : user_store) : result store_error User :=
  match us with
  | TableUsers t => UserStore.AuthenticateForRegion hmac token region t
  | SqliteUsers s => SqlUsers.AuthenticateForRegion hmac regions_json Parse token region s
  end.
Definition authorizeUser (username region : string) (us : user_store) : result store_error User :=
  match us with
  | TableUsers t => UserStore.AuthorizeUser username region t
  | SqliteUsers s => SqlUsers.AuthorizeUser regions_json Parse username region s
  end.
Definition listAdmins (ad : admin_store) : list Public :=
  match ad with TableAdmins t => AdminStore.List t | SqliteAdmins d => SqlAdmins.List d end.
Definition createAdmin (h : host) (username password role : string) (ad : admin_store) : result admin_error Public * admin_store :=
  match ad with
  | TableAdmins t => let '(r, t) := AdminStore.Create prf (h_adminOS h) (h_salt h) (h_now h) username password role t in (r, TableAdmins t)
  | SqliteAdmins d => let '(r, d) := SqlAdmins.Create prf Format (h_salt h) (h_now h) username password role d in (r, SqliteAdmins d)
  end.
Definition verifyAdmin (username password : string) (ad : admin_store) : result admin_error Public :=
  match ad with
  | TableAdmins t => AdminStore.Verify prf username password t
  | SqliteAdmins d => SqlAdmins.Verify prf username password d
  end.

Definition openUsers (o : options) (h : host) : result fatal user_store :=
  if decide (o_store o = "sqlite") then
    match SqlUsers.NewSQLite (h_userDB h (orDefault (o_userdb o) "users.db")) (h_userSchema h) (o_credPepper o) with
    | Err e => Err (FOpenUsers e)
    | Ok s => Ok (SqliteUsers s)
    end
  else if decide (o_store o = "file") then
    if decide (o_userdb o = "") then Err FNeedUserdb
    else match UserStore.NewFile (h_userOS h) (o_userdb o) (o_credPepper o) (h_userFile h (o_userdb o)) with
         | Err e => Err (FOpenUsers (error_string e))
         | Ok t => Ok (TableUsers t)
         end
  else Ok (TableUsers (UserStore.New (o_credPepper o))).

(** One of the two seeds: [spec] is a name or token and, after a colon, regions. *)
Definition seed (h : host) (newID spec : string) (mk : string → list string → UserCreate) (failed : store_error → fatal)
  (us : user_store) : result fatal user_store :=
  if decide (spec = "") then Ok us
  else match cut_on ":"%char spec with
  | None => Ok us
  | Some (name, regions) =>
      match createUser h newID (mk name (split_on ","%char regions)) us with
      | (Ok _, us) => Ok us
      | (Err UserStore.ErrConflict, us) => Ok us
      | (Err e, _) => Err (failed e)
      end
  end.
Definition seedUser (tok : string) (regions : list string) : UserCreate := mkUserCreate "seed" tok regions UserEnabled.
Definition seedOIDCUser (uname : string) (regions : list string) : UserCreate := mkUserCreate uname "" regions UserEnabled.

Definition openHistory (o : options) (h : host) (t : Tracker S) : result fatal (Tracker S) :=
  let use hs := Ok (snd (Preload DefaultHistory (WithStore hs t))) in
  if decide (o_store o = "sqlite") then
    match h_historyDB h (orDefault (o_qosdb o) "qos.db") with Err e => Err (FOpenHistory e) | Ok hs => use hs end
  else if decide (o_store o = "file") then
    match h_historyFile h (orDefault (o_qosdb o) "qos-history.jsonl") with Err e => Err (FOpenHistory e) | Ok hs => use hs end
  else Ok t.

Definition openVerifier (o : options) (h : host) : result fatal (option Verifier) :=
  if bool_decide (o_oidcIssuer o ≠ "") && bool_decide (o_oidcAudience o ≠ "") then
    if decide (o_oidcJWKSURL o ≠ "") then Ok (Some (NewURLVerifier (o_oidcIssuer o) (o_oidcAudience o) (o_oidcJWKSURL o)))
    else if decide (o_oidcJWKSFile o ≠ "") then
      match h_readFile h (o_oidcJWKSFile o) with
      | Err e => Err (FJWKSFile e)
      | Ok jwks =>
          match NewStaticVerifier jwks_json (o_oidcIssuer o) (o_oidcAudience o) jwks with
          | Err e => Err (FVerifier e)
          | Ok v => Ok (Some v)
          end
      end
    else Err FNoJWKS
  else Ok None.

Definition openAdmins (o : options) (h : host) : result fatal admin_store :=
  if decide (o_store o = "sqlite") then
    match SqlAdmins.NewSQLite (h_adminDB h (orDefault (o_admindb o) "admins.db")) (h_adminSchema h) with
    | Err e => Err (FOpenAdmins e)
    | Ok d => Ok (SqliteAdmins d)
    end
  else if decide (o_store o = "file") then
    if decide (o_admindb o = "") then Err FNeedAdmindb
    else match AdminStore.NewFile (h_adminOS h) (o_admindb o) (h_adminFile h (o_admindb o)) with
         | Err e => Err (FOpenAdminFile e)
         | Ok t => Ok (TableAdmins t)
         end
  else Ok (TableAdmins AdminStore.New).

Definition seedAdmin (o : options) (h : host) (ad : admin_store) : result fatal admin_store :=
  if bool_decide (listAdmins ad = []) && bool_decide (o_adminUser o ≠ "") then
    match createAdmin h (o_adminUser o) (o_adminPass o) RoleAdmin ad with
    | (Err e, _) => Err (FSeedAdmin e)
    | (Ok _, ad) => Ok ad
    end
  else Ok ad.

(** How the admin server is served: over TLS only if both files are given. *)
Definition servesHTTPS (o : options) : bool := bool_decide (o_httpTLSCert o ≠ "") && bool_decide (o_httpTLSKey o ≠ "").

Definition serverTLS (o : options) (h : host) : result fatal (tlsConfig leaf cert) :=
  if bool_decide (o_tlsCA o ≠ "") && bool_decide (o_tlsCert o ≠ "") && bool_decide (o_tlsKey o ≠ "") then
    match ServerMTLSFromFiles x (h_readFile h (o_tlsCA o)) (h_readFile h (o_tlsCert o)) (h_readFile h (o_tlsKey o)) with
    | Err e => Err (FMTLS e)
    | Ok cfg => Ok cfg
    end
  else match ServerTLS (h_selfSigned h) with Err e => Err (FTLS e) | Ok cfg => Ok cfg end.

(** ** Main *)

Lemma users_permit us u region r : (r = authenticateUser u region us ∨ r = authorizeUser u region us) →
  ∀ v, r = Ok v → permits v region.
Proof.
  intros [->| ->] v Hv; destruct us as [t|s]; simpl in Hv.
  - by apply authenticate_permits in Hv.
  - unfold SqlUsers.AuthenticateForRegion in Hv. case_decide; [done|].
    destruct (QueryRow _ _ _ _ _) as [[w|]|]; [|done..]. by apply check_policy_spec in Hv as [-> ?].
  - by eapply authorize_sound.
  - unfold SqlUsers.AuthorizeUser in Hv. destruct (QueryRow _ _ _ _ _) as [[w|]|]; [|done..].
    by apply check_policy_spec in Hv as [-> ?].
Qed.

#[export] Instance store_UserRegistry : UserRegistry user_store := {
  reg_authenticate := authenticateUser;
  reg_authorize := authorizeUser;
  reg_authenticate_permits token region s u := users_permit s token region _ (or_introl eq_refl) u;
  reg_authorize_permits name region s u := users_permit s name region _ (or_intror eq_refl) u
}.

Record started := mkStarted {
  st_broker : broker (S := S) (P := Pool) (U := user_store);
  st_oidc : option Verifier;
  st_admins : admin_store;
  st_https : bool;
  st_tls : tlsConfig leaf cert
}.

Definition startup (o : options) (h : host) : result fatal started :=
  let? us := openUsers o h in
  let? us := seed h (h_seedID h) (o_seedUser o) seedUser FSeedUser us in
  let? us := seed h (h_seedOIDCID h) (o_seedOIDCUser o) seedOIDCUser FSeedOIDCUser us in
  let b := newBroker vpn_pool us (o_nodeToken o) in
  let? qos := openHistory o h (qos b) in
  let b := configure (mkSettings (LB.Parse (o_lb o)) (o_resumeTTL o) qos (o_turnSecret o) (o_turnURL o) (o_stunURL o)) b in
  let? v := openVerifier o h in
  let? ad := openAdmins o h in
  let? ad := seedAdmin o h ad in
  let? cfg := serverTLS o h in
  match h_listen h with
  | Some e => Err (FListen e)
  | None => Ok (mkStarted b v ad (servesHTTPS o) cfg)
  end.

Ltac started_step H := match type of H with
  | rbind ?r _ = Ok _ => let E := fresh "E" in destruct r eqn:E; simpl in H; [|discriminate H]
  end.

(** The steps of a startup that succeeded. *)
Lemma startup_steps o h st :
  startup o h = Ok st →
  ∃ us us1 us2 tracker ad,
    openUsers o h = Ok us ∧ seed h (h_seedID h) (o_seedUser o) seedUser FSeedUser us = Ok us1 ∧
    seed h (h_seedOIDCID h) (o_seedOIDCUser o) seedOIDCUser FSeedOIDCUser us1 = Ok us2 ∧
    openHistory o h (QoS.New DefaultHistory) = Ok tracker ∧
    st_broker st = br (initial (mkSettings (LB.Parse (o_lb o)) (o_resumeTTL o) tracker (o_turnSecret o) (o_turnURL o)
                                 (o_stunURL o)) vpn_pool us2 (o_nodeToken o)) ∧
    openVerifier o h = Ok (st_oidc st) ∧ openAdmins o h = Ok ad ∧ seedAdmin o h ad = Ok (st_admins st) ∧
    st_https st = servesHTTPS o ∧ serverTLS o h = Ok (st_tls st).
Proof.
  unfold startup. intros E. repeat started_step E. destruct (h_listen h); [done|]. injection E as <-.
  by eexists _, _, _, _, _.
Qed.

(** The broker runs as its flags say: if main gets to its accept loop, the broker is one of those
    whose invariants hold in every reachable state, with the strategy, resume window, node secret and
    TURN settings of the flags; ID tokens are verified exactly when issuer and audience are set, and
    against these; clients must present a certificate of the CA exactly when all three files are given;
    and unless the store is [sqlite] or [file] - any other name counts as in-memory - nothing is kept on
    disk. *)
Theorem startup_as_configured o h st :
  startup o h = Ok st →
  (∃ settings us, st_broker st = br (initial settings vpn_pool us (o_nodeToken o)) ∧
     set_lbStrategy settings = LB.Parse (o_lb o) ∧ set_resumeTTL settings = o_resumeTTL o ∧
     set_turnSecret settings = o_turnSecret o ∧ set_turnURL settings = o_turnURL o ∧ set_stunURL settings = o_stunURL o) ∧
  (is_Some (st_oidc st) ↔ o_oidcIssuer o ≠ "" ∧ o_oidcAudience o ≠ "") ∧
  (∀ v, st_oidc st = Some v → v_issuer v = o_oidcIssuer o ∧ v_audience v = o_oidcAudience o) ∧
  (t_RequireClientCert (st_tls st) = true ↔ o_tlsCA o ≠ "" ∧ o_tlsCert o ≠ "" ∧ o_tlsKey o ≠ "") ∧
  (st_https st = true ↔ o_httpTLSCert o ≠ "" ∧ o_httpTLSKey o ≠ "") ∧
  (o_store o ≠ "sqlite" → o_store o ≠ "file" →
     store (qos (st_broker st)) = None ∧ openUsers o h = Ok (TableUsers (UserStore.New (o_credPepper o))) ∧
     openAdmins o h = Ok (TableAdmins AdminStore.New)).
Proof.
  intros E. destruct (startup_steps _ _ _ E) as (us & us1 & us2 & tracker & ad & Hu & _ & _ & Hh & Hb & Hv & Ha & _ & Hs & Ht).
  split_and!.
  - by eexists _, _.
  - unfold openVerifier in Hv. destruct (bool_decide _ && _) eqn:Eo.
    + apply andb_true_iff in Eo as [?%bool_decide_eq_true ?%bool_decide_eq_true]. split; [done|]. intros _.
      repeat case_decide; repeat case_match; simplify_eq; by eexists.
    + injection Hv as <-. split; [by intros []|]. intros []. by rewrite !bool_decide_eq_true_2 in Eo.
  - intros v Hs'. rewrite Hs' in Hv. unfold openVerifier, NewStaticVerifier in Hv. repeat case_match; by simplify_eq.
  - unfold serverTLS in Ht. revert Ht. generalize (st_tls st). intros cfg Ht. destruct (bool_decide _ && _ && _) eqn:Eo.
    + rewrite !andb_true_iff, !bool_decide_eq_true in Eo. split; [naive_solver|]. intros _.
      unfold ServerMTLSFromFiles, readPEM, ServerMTLS in Ht. repeat case_match; simplify_eq.
      destruct (keys x _ _ _) as [[]|]; by simplify_eq/=.
    + unfold ServerTLS in Ht. destruct (h_selfSigned h); simplify_eq/=. split; [done|]. intros (? & ? & ?).
      by rewrite !bool_decide_eq_true_2 in Eo.
  - rewrite Hs. unfold servesHTTPS. by rewrite andb_true_iff, !bool_decide_eq_true.
  - intros N1 N2. unfold openUsers, openAdmins, openHistory in *. cbn zeta in Hh.
    repeat (case_decide; [done|]). split_and!; [|done..]. injection Hh as <-. by rewrite Hb.
Qed.
End main.
Arguments user_store : clear implicits.
Arguments admin_store : clear implicits.

(** ** A first start *)

(** Authorisation by name finds the record with that name. *)
Lemma authorize_named t id r region :
  wf t → user_record t id = Some r → UserStore.AuthorizeUser (u_Username (r_User r)) region t = check_policy (r_User r) region.
Proof.
  intros W Hr. unfold UserStore.AuthorizeUser.
  destruct (List.find _ _) as [r'|] eqn:E.
  - apply List.find_some in E as [Hin%list_elem_of_In Hn%bool_decide_eq_true].
    apply elem_of_records in Hin as [id' Hr']; [|done]. pose proof (wf_name t W _ _ _ _ Hr' Hr Hn). congruence.
  - exfalso. assert (r ∈ records t) as Hin%list_elem_of_In by (apply elem_of_records; eauto).
    pose proof (List.find_none _ _ E r Hin) as Hb. by apply bool_decide_eq_false in Hb.
Qed.

Lemma flush_error o t e t' : UserStore.flushLocked o t = (Some e, t') → ∃ msg, e = UserStore.ErrIO msg.
Proof. unfold UserStore.flushLocked. repeat case_match; intros [= <- <-]; eauto. Qed.

Lemma not_taken t name : wf t → (∀ i r, user_record t i = Some r → u_Username (r_User r) ≠ name) → username_taken t name = false.
Proof. intros W Hn. apply not_true_iff_false. rewrite username_taken_spec by done. naive_solver. Qed.

Lemma no_record t id : wf t → user_record t id = None → byID t !! id = None.
Proof.
  intros W Hn. unfold user_record in Hn. destruct (byID t !! id) eqn:E; [|done].
  destruct (wf_id t W _ _ E) as (r & Hr & _). simpl in Hn. congruence.
Qed.

Section first_start.
Context {S DU DA leaf cert : Type} `{HistoryStore S} `{UserDBLaws DU} `{AdminDBLaws DA}.
Context (Hrel : reliable DU) (Harel : admins_reliable DA).
Context (hmac : string → string → string) (Hmac : ∀ k c, c ≠ "" → hmac k c ≠ "").
Context (prf : string → list byte → list byte) (prf_size : ∀ key msg, length (prf key msg) = Z.to_nat PwHash.hashLen).
Context (json : list string → string) (regions_json : string → option (list string)).
Context (Format : Time → string) (Parse : string → option Time).
Context (jwks_json : list byte → option (list jwk)) (x : x509 leaf cert).
Notation host := (host (S := S) (DU := DU) (DA := DA) (leaf := leaf)).
Notation sim := (SqlUsers.sim json regions_json Format Parse).
Notation fair := (SqlUsers.fair hmac json regions_json Format Parse).

(** A store that answers as a table does. *)
Definition like (t : UserStore.table) (us : user_store DU) : Prop :=
  match us with TableUsers t' => t' = t ∧ wf t | SqliteUsers s => sim t s end.

Lemma like_wf t us : like t us → wf t.
Proof. destruct us; [by intros [_ ?]|by intros []]. Qed.

Lemma createUser_like h i inp t us :
  like t us → fair (SqlUsers.KCreate i (h_now h) inp) t →
  let '(r, t') := UserStore.Create hmac (h_userOS h) i (h_now h) inp t in
  let '(r', us') := createUser hmac json Format (h : host) i inp us in r' = r ∧ like t' us'.
Proof.
  intros L F. destruct us as [t'|s]; simpl.
  - destruct L as [-> W]. pose proof (Create_wf hmac (h_userOS h) i (h_now h) inp t W) as W'.
    destruct (UserStore.Create _ _ _ _ _ _) as [r t2]. split; [done|]. split; [done|]. apply W', F.
  - pose proof (SqlUsers.Create_sim Hrel hmac json regions_json Format Parse (h_userOS h) i (h_now h) inp t s L F) as Hc.
    unfold SqlUsers.table_call, SqlUsers.sql_call in Hc. destruct (UserStore.Create _ _ _ _ _ _), (SqlUsers.Create _ _ _ _ _ _ _).
    by destruct Hc as [[= ->] ?].
Qed.

Lemma authenticate_like tok region t us :
  like t us → authenticateUser hmac regions_json Parse tok region us = UserStore.AuthenticateForRegion hmac tok region t.
Proof.
  destruct us as [t'|s]; simpl; [by intros [-> _]|]. intros L.
  pose proof (SqlUsers.call_sim Hrel hmac Hmac json regions_json Format Parse (UserStore.mkOS (λ _, Err "") (λ _, Err "") None None None None)
    (SqlUsers.KAuthenticate tok region) t s L I) as [[= ->] _]. done.
Qed.
Lemma authorize_like name region t us :
  like t us → authorizeUser regions_json Parse name region us = UserStore.AuthorizeUser name region t.
Proof.
  destruct us as [t'|s]; simpl; [by intros [-> _]|]. intros L.
  pose proof (SqlUsers.call_sim Hrel hmac Hmac json regions_json Format Parse (UserStore.mkOS (λ _, Err "") (λ _, Err "") None None None None)
    (SqlUsers.KAuthorize name region) t s L I) as [[= ->] _]. done.
Qed.

(** A store without users. *)
Definition fresh_users (us : user_store DU) : Prop :=
  match us with TableUsers t => wf t ∧ byID t = ∅ | SqliteUsers s => rows_of (db s) = [] end.

Lemma fresh_like us : fresh_users us → ∃ t, like t us ∧ byID t = ∅.
Proof.
  destruct us as [t|s]; simpl; [naive_solver|]. intros Hd. exists (UserStore.New (sql_pepper s)). split; [|done].
  constructor; try done. intros w. rewrite Hd.
  split; [by intros ?%elem_of_nil|]. intros (? & ? & Hr & _). by unfold user_record in Hr.
Qed.

Lemma hash_record_empty t : wf t → hash_record t "" = None.
Proof. intros W. unfold hash_record. destruct (byHash t !! "") eqn:E; [|done]. by destruct (wf_hash t W _ _ E) as (? & _ & _ & ? & _). Qed.

(** What a seed leaves behind: the store with the new record. *)
Lemma seed_like (h : host) id spec mk failed name regions t us us' :
  let inp := mk name (split_on ","%char regions) in
  like t us → fair (SqlUsers.KCreate id (h_now h) inp) t → cut_on ":"%char spec = Some (name, regions) →
  username_taken t (uc_Username inp) = false →
  seed hmac json Format h id spec mk failed us = Ok us' →
  let r := created hmac id (h_now h) inp t in
  ∃ t', like t' us' ∧ pepper t' = pepper t ∧
    (∀ k, hash_record t' k = if decide (k = r_Hash r ∧ k ≠ "") then Some r else hash_record t k) ∧
    (∀ i, user_record t' i = if decide (i = id) then Some r else user_record t i).
Proof.
  intros inp L F Hc Hn Hs r. pose proof (like_wf _ _ L) as W. pose proof (createUser_like h id inp t us L F) as Hl.
  unfold seed in Hs. case_decide as E0; [by rewrite E0 in Hc|]. rewrite Hc in Hs. fold inp in Hs.
  rewrite Create_spec, Hn in Hl. fold r in Hl. pose proof (flushLocked_maps (h_userOS h) (load_record t r)) as (M1 & M2 & M3 & M4 & _).
  assert (pepper (load_record t r) = pepper t) as Hp by (unfold load_record; by case_decide).
  destruct (createUser _ _ _ h id inp us) as [a us2].
  destruct (UserStore.flushLocked (h_userOS h) (load_record t r)) as [[e|] t'] eqn:Ef; destruct Hl as [-> L']; simpl in *.
  - destruct (flush_error _ _ _ _ Ef) as [msg ->]. by simplify_eq.
  - injection Hs as ->. exists t'. split_and!; [done|by rewrite M4|..].
    + intros k. rewrite <- (load_record_hash hmac t r) by done. unfold hash_record. by rewrite M1, M3.
    + intros i. rewrite <- (load_record_user t r) by done. unfold user_record. by rewrite M1, M2.
Qed.

(** The seeded administrator can log in. *)
Lemma seedAdmin_verifies o (h : host) ad ad' :
  listAdmins ad = [] → o_adminUser o ≠ "" → seedAdmin prf Format o h ad = Ok ad' →
  verifyAdmin prf (o_adminUser o) (o_adminPass o) ad' = Ok (mkPublic (o_adminUser o) RoleAdmin).
Proof.
  intros Hl Hu Hs. unfold seedAdmin in Hs. rewrite !bool_decide_eq_true_2 in Hs by done. simpl in Hs.
  destruct ad as [t|d]; simpl in Hs.
  - unfold AdminStore.Create in Hs. destruct (PwHash.Hash prf (h_salt h) (o_adminPass o)) as [hash|] eqn:Eh; [|done].
    destruct (byU t !! o_adminUser o); [done|].
    set (t1 := t <| byU ::= _ |>) in Hs. pose proof (AdminStore.flushLocked_byU (h_adminOS h) t1) as Hf.
    destruct (AdminStore.flushLocked (h_adminOS h) t1) as [[e|] t2]; [done|]. injection Hs as <-. simpl in *.
    unfold AdminStore.Verify. rewrite Hf. simpl. rewrite lookup_insert_eq. simpl.
    by rewrite (PwHash.Hash_verifies prf prf_size _ _ _ Eh).
  - unfold SqlAdmins.Create in Hs. destruct (PwHash.Hash prf (h_salt h) (o_adminPass o)) as [hash|] eqn:Eh; [|done].
    set (w := SqlAdmins.mkRow _ _ _ _) in Hs. destruct (adb_Insert w d) as [[e|] d'] eqn:Ei; [done|]. injection Hs as <-. simpl.
    unfold SqlAdmins.Verify. destruct (proj2 Harel (o_adminUser o) d') as [ws Hw]. rewrite Hw.
    pose proof (Find_ok _ _ _ Hw) as Hp. rewrite (Insert_ok _ _ _ Ei), filter_app in Hp.
    assert (filter (λ w0, SqlAdmins.w_username w0 = o_adminUser o) (admins_of d) = []) as E0.
    { apply elem_of_nil_inv. intros w0 [Hn Hw0]%list_elem_of_filter. apply (Insert_unique _ _ _ Ei), list_elem_of_fmap.
      by exists w0. }
    rewrite E0 in Hp. rewrite filter_cons_True in Hp by done. apply Permutation_sym, Permutation_singleton_l in Hp as <-.
    simpl. by rewrite (PwHash.Hash_verifies prf prf_size _ _ _ Eh).
Qed.

(** C15. A first start leaves a usable broker, whatever store is chosen: on stores without users and
    accounts, once main serves, the token of [-seed-user] authenticates in exactly the regions listed
    with it (all of them for a star), the name of [-seed-oidc-user] is authorised in exactly its regions,
    and the administrator of the flags can log in. *)
Theorem first_start_is_usable o (h : host) st us ad tok regions uname regions' region :
  startup hmac prf json Format jwks_json x o h = Ok st →
  openUsers o h = Ok us → fresh_users us → openAdmins o h = Ok ad → listAdmins ad = [] → o_adminUser o ≠ "" →
  cut_on ":"%char (o_seedUser o) = Some (tok, regions) → tok ≠ "" →
  cut_on ":"%char (o_seedOIDCUser o) = Some (uname, regions') → uname ≠ "seed" → h_seedID h ≠ h_seedOIDCID h →
  storable_time Format Parse (h_now h) → storable_regions json regions_json (split_on ","%char regions) →
  storable_regions json regions_json (split_on ","%char regions') →
  let may rs := regionAllowed (split_on ","%char rs) region in
  let user id name rs := mkUser id name (split_on ","%char rs) UserEnabled 0 (h_now h) (h_now h) in
  authenticateUser hmac regions_json Parse tok region (users (st_broker st)) =
    (if may regions then Ok (user (h_seedID h) "seed" regions) else Err ErrRegionDenied) ∧
  authorizeUser regions_json Parse uname region (users (st_broker st)) =
    (if may regions' then Ok (user (h_seedOIDCID h) uname regions') else Err ErrRegionDenied) ∧
  verifyAdmin prf (o_adminUser o) (o_adminPass o) (st_admins st) = Ok (mkPublic (o_adminUser o) RoleAdmin).
Proof.
  intros E Hu Hf Ha Hla Hau Hc Htok Hc' Hun Hid Ht Hr Hr' may user.
  destruct (startup_steps _ _ _ _ _ _ _ _ _ E) as (us0 & us1 & us2 & tracker & ad0 & Hu0 & S1 & S2 & _ & Hb & _ & Ha0 & Sa & _).
  rewrite Hu in Hu0. injection Hu0 as <-. rewrite Ha in Ha0. injection Ha0 as <-.
  destruct (fresh_like _ Hf) as (t0 & L0 & Hempty). pose proof (like_wf _ _ L0) as W0.
  assert (∀ i, user_record t0 i = None) as N0 by (intros i; unfold user_record; by rewrite Hempty, lookup_empty).
  assert (∀ k, hash_record t0 k = None) as K0.
  { intros k. unfold hash_record. destruct (byHash t0 !! k) eqn:E1; [|done].
    destruct (wf_hash t0 W0 _ _ E1) as (? & _ & _ & _ & E2). by rewrite Hempty, lookup_empty in E2. }
  destruct (seed_like h (h_seedID h) (o_seedUser o) seedUser FSeedUser tok regions t0 us us1 L0) as (t1 & L1 & P1 & K1 & N1);
    [split_and!; [done..|by rewrite Hempty|apply K0]|exact Hc|apply not_taken; [done|]; intros i r; by rewrite N0|exact S1|].
  pose proof (like_wf _ _ L1) as W1.
  destruct (seed_like h (h_seedOIDCID h) (o_seedOIDCUser o) seedOIDCUser FSeedOIDCUser uname regions' t1 us1 us2 L1) as (t2 & L2 & P2 & K2 & N2).
  { split_and!; [done..| |by apply hash_record_empty]. apply no_record; [done|]. by rewrite N1, decide_False. }
  { exact Hc'. }
  { apply not_taken; [done|]. intros i r. rewrite N1. case_decide; [|by rewrite N0]. by intros [= <-]. }
  { exact S2. }
  pose proof (like_wf _ _ L2) as W2. assert (users (st_broker st) = us2) as -> by by rewrite Hb.
  split_and!; [| |by eapply seedAdmin_verifies].
  - rewrite (authenticate_like _ _ _ _ L2), authenticate_spec by done. fold (hash_record t2 (hashToken hmac t2 tok)).
    assert (hashToken hmac t2 tok = hashToken hmac t0 tok ∧ hashToken hmac t0 tok ≠ "") as [-> Hne].
    { unfold hashToken, hmacToken. rewrite P2, P1, decide_False by done. split; [done|by apply Hmac]. }
    rewrite K2, decide_False by (intros [E1 _]; by rewrite E1 in Hne). by rewrite K1, decide_True.
  - rewrite (authorize_like _ _ _ _ L2). pose proof (N2 (h_seedOIDCID h)) as N3. rewrite decide_True in N3 by done.
    exact (authorize_named t2 _ _ region W2 N3).
Qed.
End first_start.

(** ** A broker that starts on empty databases *)

Definition demo_options : options :=
  mkOptions ":4242" ":8080" "" "" "admin-secret" "admin" "admin" "" "node-secret" "round-robin" Hour "" "" "p" "sqlite"
    "tok:eu" "ann@example.org:us" "" "" "" "https://issuer" "revquic" "https://issuer/jwks" "" "" "" "".
Definition demo_host : host (S := list QoS.Event) (DU := list SqlUsers.row) (DA := list SqlAdmins.row) (leaf := unit) :=
  mkHost demo_os (λ _, None) (λ _, Ok []) (λ d, (None, d)) admin_os (λ _, None) (λ _, Ok []) (λ d, (None, d))
    (λ _, Ok []) (λ _, Ok []) (λ _, Err "no such file") "id-1" "id-2" 10 (Some [x01]) (Ok tt) None.
Notation demo_startup := (startup demo_hmac PwHash.demo_prf demo_json demo_format (λ _, None) demo_x509 demo_options demo_host).

Lemma demo_starts : is_ok demo_startup = true.
Proof. lazy -[PwHash.pbkdf2]. reflexivity. Qed.

Lemma startup_as_configured_witness :
  ∃ st, demo_startup = Ok st ∧ (is_Some (st_oidc st) ↔ "https://issuer" ≠ "" ∧ "revquic" ≠ "") ∧
    (t_RequireClientCert (st_tls st) = true ↔ "" ≠ "" ∧ "" ≠ "" ∧ "" ≠ "").
Proof.
  pose proof demo_starts as Hs. destruct demo_startup as [st|e] eqn:E; [|discriminate Hs]. exists st. split; [reflexivity|].
  destruct (startup_as_configured _ _ _ _ _ _ _ _ _ E) as (_ & H1 & _ & H2 & _). exact (conj H1 H2).
Defined.

Lemma first_start_is_usable_witness :
  ∃ st, demo_startup = Ok st ∧
    authenticateUser demo_hmac demo_regions demo_parse "tok" "eu" (users (st_broker st)) =
      Ok (mkUser "id-1" "seed" ["eu"] UserEnabled 0 10 10) ∧
    authorizeUser demo_regions demo_parse "ann@example.org" "eu" (users (st_broker st)) = Err ErrRegionDenied.
Proof.
  pose proof demo_starts as Hs. destruct demo_startup as [st|e] eqn:E; [|discriminate Hs]. exists st. split; [reflexivity|].
  destruct (first_start_is_usable list_reliable list_admins_reliable demo_hmac ltac:(by intros [] []) PwHash.demo_prf
      PwHash.demo_prf_size demo_json demo_regions demo_format demo_parse (λ _, None) demo_x509 demo_options demo_host st
      (SqliteUsers (mkSql [] "p")) (SqliteAdmins []) "tok" "eu" "ann@example.org" "us" "eu") as (H1 & H2 & _);
    [exact E|try (vm_compute; reflexivity); try (vm_compute; discriminate)..|exact (conj H1 H2)].
Defined.
