(* ===== verification/BrokerRun.v ===== *)
(** * cmd/revquic-broker: the command line, the accept loop and the shutdown

    [brokerMain] is main from its arguments to its loops: the flags, the configuration file, the log,
    and then [BrokerMain.startup]; [acceptLoop] is the loop that hands connections to goroutines
    ([Broker.handleConn]); [onSignal] is what the signal handler does. *)
From S2P Require Import Prelude GoTime Strs Netip Conf Flags Logx IPPool QoS UserStore SqlUsers AdminStore SqlAdmins Oidc Quicx Broker BrokerSys BrokerMain.

Open Scope string_scope.
Open Scope list_scope.
Open Scope Z_scope.

(** ** The flags *)

Section flags.
(** [Set] of the duration flag, and the value of its text. *)
Context (duration_set : string → string * option string) (duration_of : string → Duration).

Definition brokerFlags : FlagSet := list_to_map
  [("quic", string_flag ":4242"); ("config", string_flag ""); ("log-file", string_flag ""); ("log-type", string_flag "text");
   ("http", string_flag ":8080"); ("http-tls-cert", string_flag ""); ("http-tls-key", string_flag "");
   ("admin-token", string_flag "admin-secret"); ("admin-user", string_flag "admin"); ("admin-pass", string_flag "admin");
   ("admindb", string_flag ""); ("node-token", string_flag "node-secret"); ("lb", string_flag "least-conn");
   ("session-resume-ttl", mkFlag "1h0m0s" false duration_set); ("userdb", string_flag ""); ("qosdb", string_flag "");
   ("cred-pepper", string_flag "dev-pepper"); ("store", string_flag "mem"); ("seed-user", string_flag "");
   ("seed-oidc-user", string_flag ""); ("tls-ca", string_flag ""); ("tls-cert", string_flag ""); ("tls-key", string_flag "");
   ("oidc-issuer", string_flag ""); ("oidc-audience", string_flag ""); ("oidc-jwks-url", string_flag "");
   ("oidc-jwks-file", string_flag ""); ("turn-secret", string_flag ""); ("turn-url", string_flag ""); ("stun-url", string_flag "")].

Definition optionsOf (fs : FlagSet) : options :=
  mkOptions (str fs "quic") (str fs "http") (str fs "http-tls-cert") (str fs "http-tls-key")
    (str fs "admin-token") (str fs "admin-user") (str fs "admin-pass") (str fs "admindb")
    (str fs "node-token") (str fs "lb") (duration_of (str fs "session-resume-ttl"))
    (str fs "userdb") (str fs "qosdb") (str fs "cred-pepper") (str fs "store")
    (str fs "seed-user") (str fs "seed-oidc-user") (str fs "tls-ca") (str fs "tls-cert") (str fs "tls-key")
    (str fs "oidc-issuer") (str fs "oidc-audience") (str fs "oidc-jwks-url") (str fs "oidc-jwks-file")
    (str fs "turn-secret") (str fs "turn-url") (str fs "stun-url").

Inductive main_error := MUsage (e : flag_error) | MConfig | MLog | MFatal (f : fatal).

(** The options of a command line, with the file that [-config] names applied. *)
Definition commandLine (readFile : string → result string (list byte)) (openLog : string → option string) (args : list string)
  : result main_error options :=
  match parse args ∅ brokerFlags with
  | Err e => Err (MUsage e)
  | Ok (seen, fs) =>
      match (if decide (str fs "config" = "") then (None, fs) else ApplyFile (readFile (str fs "config")) seen fs) with
      | (Some _, _) => Err MConfig
      | (None, fs) =>
          match Setup openLog "broker" (str fs "log-file") (str fs "log-type") with
          | Err _ => Err MLog
          | Ok _ => Ok (optionsOf fs)
          end
      end
  end.

Lemma options_defaults : duration_of "1h0m0s" = Hour → optionsOf brokerFlags = defaults.
Proof. intros E. unfold optionsOf. vm_compute (str _ _). by rewrite E. Qed.
End flags.

(** ** main *)

Section main.
Context {S DU DA leaf cert : Type} `{HistoryStore S} `{UserDB DU} `{AdminDB DA}.
Context (hmac : string → string → string) (prf : string → list byte → list byte).
Context (json : list string → string) (Format : Time → string).
Context (jwks_json : list byte → option (list jwk)) (x : x509 leaf cert).
Context (duration_set : string → string * option string) (duration_of : string → Duration).
Context (openLog : string → option string).

Definition brokerMain (args : list string) (h : host) : result main_error (started (S := S) (DU := DU) (DA := DA)) :=
  let? o := commandLine duration_set duration_of (h_readFile h) openLog args in
  match startup hmac prf json Format jwks_json x o h with
  | Err f => Err (MFatal f)
  | Ok st => Ok st
  end.
End main.

(** ** The loops *)

(** [mustPool]: a pool that cannot be made is a panic ([None]). *)
Definition mustPool (parsePrefix : string → option Prefix) (parseAddr : string → option Addr) (cidr gateway : string) : option Pool :=
  match parsePrefix cidr with
  | Some pfx => Some (IPPool.New pfx [default AddrInvalid (parseAddr gateway)])
  | None => None
  end.

(** An error of Accept is logged, and the loop goes on. *)
Fixpoint acceptLoop {C E} (accepts : list (result E C)) : list C :=
  match accepts with
  | [] => []
  | Err _ :: accepts => acceptLoop accepts
  | Ok c :: accepts => c :: acceptLoop accepts
  end.

Inductive exit_action := CloseListener | Exit (code : Z).

(** SIGINT or SIGTERM: the history is flushed first, whatever its error. *)
Definition onSignal {S} `{HistoryStore S} (t : Tracker S) : Tracker S * list exit_action :=
  (snd (CloseStore t), [CloseListener; Exit 0]).

(** Every connection that is accepted is handled, whatever failures come between. *)
Lemma acceptLoop_handles_all {C E} (accepts : list (result E C)) c : c ∈ acceptLoop accepts ↔ Ok c ∈ accepts.
Proof.
  induction accepts as [|[c'|e] accepts IH]; simpl; [split; intros []%elem_of_nil|..].
  - rewrite !elem_of_cons, IH. naive_solver.
  - rewrite elem_of_cons, IH. naive_solver.
Qed.
