(* ===== verification/Telemetry.v ===== *)
(** * Package internal/telemetry: per-session reports

    [tick] is one iteration of [Run]'s loop: the two messages it writes and the sample it remembers.
    A [Time] counts nanoseconds since year 1, [UnixNano] since 1970. *)
From S2P Require Import Prelude Float64 GoTime Proto RateLimit DirectPath Session TurnCred.

Open Scope Z_scope.

Definition DefaultInterval : Duration := 5 * Second.

Definition UnixNano (t : Time) : Z := t - unixToInternal * Second.

Record Meta := mkMeta {
  me_Host : string;
  me_TunName : string;
  me_OS : string;
  me_UsingStun : bool;
  me_UsingTurn : bool;
  me_Downlink : bool;
  me_HostStat : option (f64 * f64 * f64)   (* what HostStat() returns, if it is set *)
}.

(** [RTT]: the last latency in milliseconds. *)
Notation RTT := Z (only parsing).

(** [Observe]: a pong that echoes no time is ignored; the division truncates towards zero. *)
Definition Observe (now : Time) (tsNanos : Z) (r : RTT) : RTT :=
  if tsNanos =? 0 then r else Z.quot (UnixNano now - tsNanos) 1000000.

(** A nil [RTT] reads as zero. *)
Definition Millis (r : option RTT) : Z := default 0 r.

Definition throughput (cur prev : Z) (dt : f64) : f64 :=
  if fleb dt f64_zero || (cur <? prev) then f64_zero else fdiv (f64_of_Z (u64 (cur - prev))) dt.

Definition interval_of (interval : Duration) : Duration := if interval <=? 0 then DefaultInterval else interval.

Section tick.
Context {Conn : Type}.

Definition tick (now : Time) (sid : Z) (sess : Session Conn) (meta : Meta) (rtt : option RTT)
    (lastBytes : Z) (last : Time) : list Control * Z * Time :=
  let ping := (control MsgPing) <| c_SessionID := sid |> <| c_TS := UnixNano now |> in
  let '(b, _, d) := Stats sess in
  let bps := throughput b lastBytes (Seconds (Sub now last)) in
  let pathKind := if IsDirect sess then "direct"%string else "relay"%string in
  let rep := (control MsgReport) <| c_SessionID := sid |> <| c_ThroughputBps := bps |> <| c_Drops := d |>
               <| c_Direct := IsDirect sess |> <| c_RTTms := Millis rtt |> <| c_Host := me_Host meta |>
               <| c_TunName := me_TunName meta |> <| c_PathKind := pathKind |>
               <| c_UsingStun := me_UsingStun meta |> <| c_UsingTurn := me_UsingTurn meta |> <| c_OS := me_OS meta |> in
  let rep := if me_Downlink meta then rep <| c_BytesDown := b |> else rep <| c_BytesUp := b |> in
  let rep := match me_HostStat meta with
             | Some (cpu, mem, disk) => rep <| c_CPUPct := cpu |> <| c_MemPct := mem |> <| c_DiskPct := disk |>
             | None => rep
             end in
  ([ping; rep], b, now).
End tick.
