(* ===== verification/Sysstat.v ===== *)
(** * internal/sysstat: utilization of the host (Linux)

    What the files of /proc hold and what [statfs] returns are arguments ([None] or [Err] when the call
    fails); the arithmetic is that of [uint64] and [float64]. *)
From S2P Require Import Prelude Float64 FloatTheory Strs Scanner.
From Stdlib Require Import Floats.SpecFloat.

Open Scope Z_scope.

Record Stat := mkStat { CPUPct : f64; MemPct : f64; DiskPct : f64 }.
Record Sampler := mkSampler { lastIdle : Z; lastTotal : Z }.

Definition hundred : f64 := f64_of_Z 100.
Definition one : f64 := f64_of_Z 1.

Definition clamp (v : f64) : f64 :=
  if fltb v f64_zero then f64_zero else if fgtb v hundred then hundred else v.

(** [clamp((1 - a/b) * 100)] *)
Definition used (a b : Z) : f64 := clamp (fmul (fsub one (fdiv (f64_of_Z a) (f64_of_Z b))) hundred).

Definition text (l : list byte) : string := String.string_of_list_byte l.

(** The sums of [readCPU] over the fields after the first, [i] being the index of the loop. *)
Fixpoint sum_fields (i : nat) (fs : list string) (idle total : Z) : Z * Z :=
  match fs with
  | [] => (idle, total)
  | f :: fs =>
      let v := ParseUint f in
      sum_fields (S i) fs (if bool_decide (i = 3%nat) || bool_decide (i = 4%nat) then u64 (idle + v) else idle) (u64 (total + v))
  end.

(** [readCPU]: idle and total time, from the first line of /proc/stat. *)
Definition readCPU (stat : option (list byte)) : option (Z * Z) :=
  match stat with
  | None => None
  | Some bs =>
      match fst (Scan MaxScanTokenSize bs) with
      | [] => None
      | l :: _ =>
          match Fields (text l) with
          | f0 :: fs =>
              if (Z.of_nat (length fs) + 1 <? 5) || negb (bool_decide (f0 = "cpu")) then None
              else Some (sum_fields 0 fs 0 0)
          | [] => None
          end
      end
  end.

(** One line of /proc/meminfo. *)
Definition mem_line (ma : Z * Z) (l : list byte) : Z * Z :=
  let '(memTotal, memAvail) := ma in
  match Fields (text l) with
  | f0 :: f1 :: _ =>
      if decide (f0 = "MemTotal:") then (ParseUint f1, memAvail)
      else if decide (f0 = "MemAvailable:") then (memTotal, ParseUint f1) else (memTotal, memAvail)
  | _ => (memTotal, memAvail)
  end.

Definition readMem (meminfo : option (list byte)) : f64 :=
  match meminfo with
  | None => f64_zero
  | Some bs =>
      let '(memTotal, memAvail) := foldl mem_line (0, 0) (fst (Scan MaxScanTokenSize bs)) in
      if memTotal =? 0 then f64_zero else used memAvail memTotal
  end.

(** [statfs]: blocks, available blocks and block size. *)
Definition readDisk (st : option (Z * Z * Z)) : f64 :=
  match st with
  | None => f64_zero
  | Some (blocks, bavail, bsize) =>
      let total := u64 (blocks * u64 bsize) in
      let free := u64 (bavail * u64 bsize) in
      if total =? 0 then f64_zero else used free total
  end.

(** The CPU part of [Sample]. *)
Definition cpu_sample (cpu : option (Z * Z)) (s : Sampler) : f64 * Sampler :=
  match cpu with
  | None => (f64_zero, s)
  | Some (idle, total) =>
      (if negb (lastTotal s =? 0) && (lastTotal s <? total) then
         let dTotal := u64 (total - lastTotal s) in
         let dIdle := u64 (idle - lastIdle s) in
         if fgtb (f64_of_Z dTotal) f64_zero then used dIdle dTotal else f64_zero
       else f64_zero,
       mkSampler idle total)
  end.

Definition Sample (stat meminfo : option (list byte)) (fs : option (Z * Z * Z)) (s : Sampler) : Stat * Sampler :=
  let '(cpu, s) := cpu_sample (readCPU stat) s in
  (mkStat cpu (readMem meminfo) (readDisk fs), s).

(** ** Percentages *)

(** A number from 0 to 100. *)
Definition percentage (v : f64) : Prop := f64_nan v = false ∧ fleb f64_zero v = true ∧ fleb v hundred = true.

Lemma percentage_zero : percentage f64_zero.
Proof. done. Qed.

Lemma clamp_percentage v : f64_nan v = false → percentage (clamp v).
Proof.
  intros Hv. unfold clamp. destruct (fltb v f64_zero) eqn:E1; [apply percentage_zero|].
  destruct (fgtb v hundred) eqn:E2; [done|]. unfold fgtb in E2.
  rewrite fltb_fgeb in E1, E2 by done. apply negb_false_iff in E1, E2. done.
Qed.

Lemma used_percentage a b : 0 < b < 2 ^ 64 → percentage (used a b).
Proof.
  intros Hb. destruct (f64_of_Z_pos b) as [Fb Pb]; [split; [lia|]; apply Z.lt_le_incl, (Z.lt_trans _ _ _ (proj2 Hb)); done|].
  assert (f64_nan (fdiv (f64_of_Z a) (f64_of_Z b)) = false) as Hq
    by (apply fdiv_not_nan; auto using f64_of_Z_not_nan with revquic).
  apply clamp_percentage, fmul_not_nan; try done; [auto with revquic|by apply fsub_not_nan].
Qed.

Lemma ParseUint_range s : 0 ≤ ParseUint s < 2 ^ 64.
Proof.
  assert (∀ s a, 0 ≤ a → string_forall is_digit s = true → 0 ≤ digits_val a s) as H.
  { clear. induction s as [|c s IH]; intros a Ha; simpl; [done|]. intros [Hc Hs]%andb_true_iff. apply IH; [|done].
    unfold is_digit in Hc. apply andb_true_iff in Hc as [Hc%Nat.leb_le _]. unfold digit_val. lia. }
  unfold ParseUint. case_decide; [lia|]. destruct (string_forall is_digit s) eqn:E; [|lia].
  specialize (H s 0 ltac:(lia) E). lia.
Qed.

Lemma u64_range z : 0 ≤ u64 z < 2 ^ 64.
Proof. apply Z.mod_pos_bound. done. Qed.

Lemma sum_fields_range i fs idle total :
  0 ≤ idle < 2 ^ 64 → 0 ≤ total < 2 ^ 64 →
  0 ≤ fst (sum_fields i fs idle total) < 2 ^ 64 ∧ 0 ≤ snd (sum_fields i fs idle total) < 2 ^ 64.
Proof.
  revert i idle total. induction fs as [|f fs IH]; intros i idle total Hi Ht; [done|]. cbn [sum_fields].
  apply IH; [|apply u64_range]. destruct (_ || _); [apply u64_range|done].
Qed.

Lemma readMem_percentage m : percentage (readMem m).
Proof.
  unfold readMem. destruct m as [bs|]; [|apply percentage_zero].
  assert (∀ ls ma, 0 ≤ fst ma < 2 ^ 64 → 0 ≤ fst (foldl mem_line ma ls) < 2 ^ 64) as H.
  { induction ls as [|l ls IH]; intros ma Hm; [done|]. cbn [foldl]. apply IH. unfold mem_line.
    destruct ma as [t a]. destruct (Fields (text l)) as [|f0 [|f1 fs]]; [done..|].
    case_decide; [apply ParseUint_range|]. by case_decide. }
  specialize (H (fst (Scan MaxScanTokenSize bs)) (0, 0) ltac:(done)).
  destruct (foldl mem_line (0, 0) _) as [t a]. cbn [fst] in H.
  destruct (Z.eqb_spec t 0); [apply percentage_zero|apply used_percentage; lia].
Qed.

Lemma readDisk_percentage st : percentage (readDisk st).
Proof.
  unfold readDisk. destruct st as [[[b a] z]|]; [|apply percentage_zero].
  pose proof (u64_range (b * u64 z)). destruct (Z.eqb_spec (u64 (b * u64 z)) 0); [apply percentage_zero|apply used_percentage; lia].
Qed.

(** The utilization figures are percentages: whatever the files of /proc and statfs hold, counters that
    wrap or run backwards included, every figure of every sample is a number - never NaN - from 0 to 100. *)
Lemma Sample_percentages stat meminfo fs s :
  let st := fst (Sample stat meminfo fs s) in percentage (CPUPct st) ∧ percentage (MemPct st) ∧ percentage (DiskPct st).
Proof.
  unfold Sample, cpu_sample. pose proof (readMem_percentage meminfo). pose proof (readDisk_percentage fs).
  destruct (readCPU stat) as [[idle total]|]; [|by split_and!].
  split_and!; [|done..]. cbn [fst CPUPct].
  destruct (negb _ && _); [|apply percentage_zero]. destruct (fgtb _ _) eqn:E; [|apply percentage_zero].
  apply used_percentage. pose proof (u64_range (total - lastTotal s)).
  destruct (decide (u64 (total - lastTotal s) = 0)) as [E0|]; [|lia]. by rewrite E0 in E.
Qed.

(** The first sample reports no CPU load. *)
Lemma first_sample_no_cpu stat meminfo fs s : lastTotal s = 0 → CPUPct (fst (Sample stat meminfo fs s)) = f64_zero.
Proof. intros Hs. unfold Sample, cpu_sample. destruct (readCPU stat) as [[idle total]|]; [|done]. simpl. by rewrite Hs. Qed.

(** ** Two samples of a busy host *)

Definition proc_stat (l : string) : option (list byte) := Some (String.list_byte_of_string l).

Example two_samples :
  let '(_, s) := Sample (proc_stat "cpu  10 0 10 70 10 0 0 0") None None (mkSampler 0 0) in
  let '(st, _) := Sample (proc_stat "cpu  50 0 20 110 20 0 0 0")
      (proc_stat "MemTotal:       1000 kB
MemFree:  10 kB
MemAvailable:    250 kB") (Some (100, 40, 4096)) s in
  (f64_trunc (CPUPct st), f64_trunc (MemPct st), f64_trunc (DiskPct st)) = (50, 75, 60).
Proof. vm_compute. reflexivity. Qed.
