(* ===== verification/Exit.v ===== *)
(** * cmd/revquic-exit: the exit node

    The exit's maps hold pointers to [exitSession] objects, which the goroutine of a direct path keeps
    using after the maps dropped them: sessions live in a heap.  A connection is a number; the world
    of [SendDatagram] is the list of datagrams handed to connections.  [TUN] output is returned by the
    functions that write to the device.  [parse6] is [netip.ParseAddr] on IPv6 text. *)
From S2P Require Import Prelude Float64 Strs GoTime Netip Proto RateLimit DirectPath Session Telemetry.
From Stdlib Require Import Strings.Ascii.

Open Scope Z_scope.

Notation conn := positive (only parsing).

Record exitSession := mkES {
  es_sess : Session.Session conn;
  es_incoming : list (list byte);     (* the buffered channel of ICE signals, capacity 64 *)
  es_clientIP : string;
  es_stun : string; es_turn : string; es_turnUser : string; es_turnPass : string;
  es_rtt : Z;
  es_startedAt : Time;
  es_suspended : bool;
  es_suspendedAt : Time;
  es_bytesUp : Z;
  es_bpsUp : f64;
  es_bpsDown : f64
}.
#[export] Instance exitSession_eta : Eta exitSession :=
  λ s, mkES (es_sess s) (es_incoming s) (es_clientIP s) (es_stun s) (es_turn s) (es_turnUser s) (es_turnPass s)
         (es_rtt s) (es_startedAt s) (es_suspended s) (es_suspendedAt s) (es_bytesUp s) (es_bpsUp s) (es_bpsDown s).

Record exit := mkExit {
  e_conn : option conn;
  e_nodeID : string; e_displayName : string; e_region : string;
  e_direct : bool;
  e_directMode : string;
  e_stun : string; e_turn : string; e_turnUser : string; e_turnPass : string;
  e_rateBytes : f64;
  e_reportInterval : Duration;
  e_heap : gmap positive exitSession;
  e_sessions : gmap Z positive;
  e_byIP : gmap Addr Z
}.
#[export] Instance exit_eta : Eta exit :=
  λ e, mkExit (e_conn e) (e_nodeID e) (e_displayName e) (e_region e) (e_direct e) (e_directMode e) (e_stun e) (e_turn e)
         (e_turnUser e) (e_turnPass e) (e_rateBytes e) (e_reportInterval e) (e_heap e) (e_sessions e) (e_byIP e).

Section exit.
Context (parse6 : string → option Addr).
(** [json.Unmarshal] of an ICE signal: the decoded payload. *)
Context (unmarshalSignal : list byte → option (list byte)).

(** ** Packets *)

(** Byte [i] of a packet. *)
Definition byte_at (pkt : list byte) (i : nat) : Z := from_option b2z 0 (pkt !! i).

Definition is_ipv4 (pkt : list byte) : bool :=
  negb (bool_decide (length pkt < 20)%nat) && (Z.shiftr (byte_at pkt 0) 4 =? 4).

Definition ipv4Dst (pkt : list byte) : option Addr :=
  if is_ipv4 pkt then Some (AddrFrom4 (byte_at pkt 16) (byte_at pkt 17) (byte_at pkt 18) (byte_at pkt 19)) else None.

Definition ipv4Src (pkt : list byte) : option Addr :=
  if is_ipv4 pkt then Some (AddrFrom4 (byte_at pkt 12) (byte_at pkt 13) (byte_at pkt 14) (byte_at pkt 15)) else None.

(** [src.String()] of an address built by [AddrFrom4]. *)
Definition addr4_string (a : Addr) : string := match a with Addr4 z => String4 z | _ => "" end.

Definition relayEncode (sid : Z) : list byte → list byte := EncodeDatagram sid.

Definition orStr (a b : string) : string := if decide (a = "") then b else a.

Definition splitCSV (s : string) : list string := if decide (s = "") then [] else split_on ","%char s.

(** ** Sessions *)

Definition get (e : exit) (sid : Z) : option (positive * exitSession) :=
  l ← e_sessions e !! sid; es ← e_heap e !! l; Some (l, es).

Definition put (l : positive) (es : exitSession) (e : exit) : exit := e <| e_heap ::= <[l := es]> |>.

(** A new session on the relay path of the current broker connection. *)
Definition newExitSession (now : Time) (msg : Control) (e : exit) : option exitSession :=
  let sess := Session.New (Conn := conn) (c_SessionID msg) in
  match StartRelay (mkPath (e_conn e) (relayEncode (c_SessionID msg))) sess with
  | (Some _, _) => None
  | (None, sess) =>
      let sess := when (fgtb (e_rateBytes e) f64_zero)
                    (SetRateLimit (e_rateBytes e) (fmul (e_rateBytes e) (f64_of_Z 2))) sess in
      Some (mkES sess [] (c_ClientIP msg) (c_StunURL msg) (c_TurnURL msg) (c_TurnUser msg) (c_TurnPass msg)
              0 now false 0 0 f64_zero f64_zero)
  end.

(** [addSession]; the goroutines it starts (reports, direct path) are [tick] and the operations of the
    direct path below. *)
Definition addSession (now : Time) (msg : Control) (e : exit) : exit :=
  match ParseAddr parse6 (c_ClientIP msg) with
  | None => e
  | Some ip =>
      match get e (c_SessionID msg) with
      | Some (l, es) => put l (es <| es_suspended := false |>) e
      | None =>
          match newExitSession now msg e with
          | None => e
          | Some es =>
              let l := fresh (dom (e_heap e)) in
              put l es e <| e_sessions ::= <[c_SessionID msg := l]> |> <| e_byIP ::= <[ip := c_SessionID msg]> |>
          end
      end
  end.

Definition removeSession (sid : Z) (e : exit) : exit :=
  let es := get e sid in
  let e := e <| e_sessions ::= delete sid |> in
  match es with
  | Some (_, es) =>
      match ParseAddr parse6 (es_clientIP es) with
      | Some ip => e <| e_byIP ::= delete ip |>
      | None => e
      end
  | None => e
  end.

(** One message of [controlLoop]. *)
Definition controlMessage (now : Time) (msg : Control) (e : exit) : exit :=
  match c_Type msg with
  | MsgSessionStart => addSession now msg e
  | MsgSessionSuspend =>
      match get e (c_SessionID msg) with
      | Some (l, es) => put l (es <| es_suspended := true |> <| es_suspendedAt := now |>) e
      | None => e
      end
  | MsgSessionEnd => removeSession (c_SessionID msg) e
  | MsgPong =>
      match get e (c_SessionID msg) with
      | Some (l, es) => put l (es <| es_rtt ::= Observe now (c_TS msg) |>) e
      | None => e
      end
  | MsgSignal =>
      match get e (c_SessionID msg) with
      | Some (l, es) =>
          match unmarshalSignal (c_Signal msg) with
          | Some s => if decide (length (es_incoming es) < 64)%nat
                      then put l (es <| es_incoming ::= λ q, q ++ [s] |>) e else e
          | None => e
          end
      | None => e
      end
  | _ => e
  end.

(** [serve]: a new broker connection, and its end. *)
Definition serveBegin (c : conn) (e : exit) : exit :=
  e <| e_conn := Some c |> <| e_sessions := ∅ |> <| e_byIP := ∅ |>.
Definition serveEnd (e : exit) : exit := e <| e_sessions := ∅ |> <| e_byIP := ∅ |>.

(** ** The data plane *)

(** [writeInbound]: the packets written to the TUN device. *)
Definition writeInbound (l : positive) (pkt : list byte) (e : exit) : exit * list (list byte) :=
  match e_heap e !! l with
  | None => (e, [])
  | Some es =>
      match ipv4Src pkt with
      | None => (e, [])
      | Some src =>
          if decide (addr4_string src = es_clientIP es)
          then (put l (es <| es_bytesUp ::= λ x, u64 (x + Z.of_nat (length pkt)) |>) e, [pkt])
          else (e, [])
      end
  end.

(** One datagram of [datagramToTun]. *)
Definition datagramToTun (dg : list byte) (e : exit) : exit * list (list byte) :=
  match DecodeDatagram dg with
  | Err _ => (e, [])
  | Ok (sid, pkt) =>
      match get e sid with
      | Some (l, _) => writeInbound l pkt e
      | None => (e, [])
      end
  end.

Section send.
Context {World SendErr : Type} (SendDatagram : conn → list byte → World → option SendErr * World).

(** One packet of [tunToDatagram]. *)
Definition tunToDatagram (now : Time) (pkt : list byte) (e : exit) (w : World) : exit * World :=
  match ipv4Dst pkt with
  | None => (e, w)
  | Some dst =>
      match e_byIP e !! dst ≫= get e with
      | None => (e, w)
      | Some (l, es) =>
          let '(_, sess, w) := Send SendDatagram pkt now (es_sess es) w in
          (put l (es <| es_sess := sess |>) e, w)
      end
  end.
End send.

(** ** The direct path of a session ([runDirect]), between its calls to ICE *)

Definition on_session (f : Session.Session conn → Session.Session conn) (l : positive) (e : exit) : exit :=
  e <| e_heap ::= alter (λ es : exitSession, es <| es_sess ::= f |>) l |>.

Definition directBegin (l : positive) (e : exit) : exit := on_session (λ s, snd (BeginChecks s)) l e.
Definition directFailed (l : positive) (e : exit) : exit := on_session (λ s, snd (ChecksFailed s)) l e.
Definition directUp (qc : conn) (l : positive) (e : exit) : exit :=
  on_session (λ s, snd (UpgradeDirect (mkPath (Some qc) Identity) s)) l e.
(** The direct connection died; nothing happens when the broker connection is gone ([ctx.Err()]). *)
Definition directLost (ctxDone : bool) (sid : Z) (l : positive) (e : exit) : exit :=
  if ctxDone then e else on_session (λ s, snd (FallbackRelay (mkPath (e_conn e) (relayEncode sid)) s)) l e.

(** ** Identity *)

(** ASCII part of [strings.ToLower]. *)
Definition to_lower (c : Ascii.ascii) : Ascii.ascii :=
  let n := Ascii.N_of_ascii c in
  if ((65 <=? n) && (n <=? 90))%N then Ascii.ascii_of_N (n + 32) else c.

Definition is_slug_char (c : Ascii.ascii) : bool :=
  let n := Ascii.N_of_ascii c in
  (((97 <=? n) && (n <=? 122)) || ((48 <=? n) && (n <=? 57)))%N.

(** The loop of [slugify]: what has been written, reversed, and whether it ends in a hyphen. *)
Fixpoint slug_loop (s : string) (acc : list Ascii.ascii) (prevHyphen : bool) : list Ascii.ascii :=
  match s with
  | EmptyString => acc
  | String c s =>
      let c := to_lower c in
      if is_slug_char c then slug_loop s (c :: acc) false
      else if negb prevHyphen && negb (bool_decide (acc = [])) then slug_loop s ("-"%char :: acc) true
      else slug_loop s acc prevHyphen
  end.

(** Drop hyphens at the head. *)
Fixpoint trim_hyphens (l : list Ascii.ascii) : list Ascii.ascii :=
  match l with
  | c :: l' => if Ascii.eqb c "-"%char then trim_hyphens l' else l
  | [] => []
  end.

Definition slugify (name : string) : string :=
  String.string_of_list_ascii (trim_hyphens (reverse (trim_hyphens (slug_loop (TrimSpace name) [] false)))).

(** [randSuffix] from what [rand.Intn(9000)] returned. *)
Definition randSuffix (n : Z) : string := itoa (1000 + n).

Definition deriveNodeID (nodeID name : string) (n : Z) : string :=
  let s := TrimSpace nodeID in
  if decide (s = "") then
    if decide (slugify name = "") then "exit-" +:+ randSuffix n else slugify name +:+ "-" +:+ randSuffix n
  else s.

(** ** The status page *)

Definition half : f64 := fdiv (f64_of_Z 1) (f64_of_Z 2).

Definition ewma (old sample : f64) : f64 :=
  if feqb old f64_zero then sample else fadd (fmul half old) (fmul half sample).

(** One session of one tick of [sampleThroughput]; [p] is the previous sample (zeros if none). *)
Definition sample_session (p : Z * Z) (es : exitSession) : exitSession * (Z * Z) :=
  let '(down, _, _) := Stats (es_sess es) in
  let up := es_bytesUp es in
  if (fst p =? 0) && (snd p =? 0) then (es, (up, down))
  else
    let dt := Seconds (2 * Second) in
    let upBps := fdiv (f64_of_Z (u64 (up - fst p))) dt in
    let downBps := fdiv (f64_of_Z (u64 (down - snd p))) dt in
    (es <| es_bpsUp ::= λ o, ewma o upBps |> <| es_bpsDown ::= λ o, ewma o downBps |>, (up, down)).

(** One tick of [sampleThroughput]: every session held, and the samples of those only. *)
Definition sampleThroughput (last : gmap Z (Z * Z)) (e : exit) : gmap Z (Z * Z) * exit :=
  foldl (λ '(last', e) '(sid, l),
           match e_heap e !! l with
           | Some es => let '(es, p) := sample_session (default (0, 0) (last !! sid)) es in
                        (<[sid := p]> last', put l es e)
           | None => (last', e)
           end) (∅, e) (map_to_list (e_sessions e)).

Record statusSession := mkStatusSession {
  vs_SessionID : Z; vs_ClientIP : string; vs_Mode : string; vs_State : string; vs_LatencyMs : Z;
  vs_BytesUp : Z; vs_BytesDown : Z; vs_BpsUp : f64; vs_BpsDown : f64; vs_UsingTurn : bool; vs_DurationSec : Z
}.

Record statusInfo := mkStatusInfo {
  vi_NodeID : string; vi_Name : string; vi_Region : string; vi_OS : string;
  vi_Clients : Z; vi_Parked : Z; vi_BpsUp : f64; vi_BpsDown : f64
}.

Definition status_session (now : Time) (p : Z * exitSession) : statusSession :=
  let '(sid, es) := p in
  let '(down, _, _) := Stats (es_sess es) in
  mkStatusSession sid (es_clientIP es) (if IsDirect (es_sess es) then "direct" else "relay")
    (if es_suspended es then "parked" else "active") (es_rtt es) (es_bytesUp es) down (es_bpsUp es) (es_bpsDown es)
    (negb (bool_decide (es_turn es = ""))) (f64_trunc (Seconds (Sub now (es_startedAt es)))).

Definition live (e : exit) : list (Z * exitSession) :=
  omap (λ kl, es ← e_heap e !! kl.2; Some (kl.1, es)) (map_to_list (e_sessions e)).

Definition sid_le (a b : statusSession) : Prop := vs_SessionID a ≤ vs_SessionID b.
#[export] Instance sid_le_dec a b : base.Decision (sid_le a b).
Proof. unfold sid_le. apply _. Defined.

Definition statusViews (os : string) (now : Time) (e : exit) : statusInfo * list statusSession :=
  let ss := live e in
  let parked := Z.of_nat (length (filter (λ p : Z * exitSession, es_suspended p.2 = true) ss)) in
  let tot (f : exitSession → f64) := foldl (λ acc p, fadd acc (f p.2)) f64_zero ss in
  (mkStatusInfo (e_nodeID e) (e_displayName e) (e_region e) os (Z.of_nat (length ss) - parked) parked
     (tot es_bpsUp) (tot es_bpsDown),
   merge_sort sid_le (status_session now <$> ss)).
End exit.
