(* ===== verification/ExitProps.v ===== *)
(** * What the exit node guarantees

    The maps of the exit stay consistent under every operation ([estep]); from it follow the
    anti-spoofing of packets from clients and the routing of packets to clients. *)
From S2P Require Import Prelude Float64 Strs GoTime Netip Proto RateLimit DirectPath Session Telemetry Exit.

Open Scope Z_scope.

Lemma get_Some e sid l es : get e sid = Some (l, es) ↔ e_sessions e !! sid = Some l ∧ e_heap e !! l = Some es.
Proof.
  unfold get. destruct (e_sessions e !! sid) as [l'|]; simpl; [|naive_solver].
  destruct (e_heap e !! l') as [es'|] eqn:E; simpl; naive_solver.
Qed.

Section props.
Context (parse6 : string → option Addr) (unmarshalSignal : list byte → option (list byte)).
Context {World SendErr : Type} (SendDatagram : positive → list byte → World → option SendErr * World).

(** Every operation of the exit on its state; a single critical section of a session's method, too. *)
Inductive estep : exit → exit → Prop :=
| es_serve c e : estep e (serveBegin c e)
| es_serve_end e : estep e (serveEnd e)
| es_control now msg e : estep e (controlMessage parse6 unmarshalSignal now msg e)
| es_relay_in dg e : estep e (fst (datagramToTun dg e))
| es_direct_in l pkt e : estep e (fst (writeInbound l pkt e))
| es_tun now pkt e w : estep e (fst (tunToDatagram SendDatagram now pkt e w))
| es_begin l e : estep e (directBegin l e)
| es_failed l e : estep e (directFailed l e)
| es_up qc l e : estep e (directUp qc l e)
| es_lost gone sid l e : estep e (directLost gone sid l e)
| es_act b l e : estep e (on_session (λ s, from_option fst s (act b s)) l e)
| es_sample l p es e : e_heap e !! l = Some es → estep e (put l (fst (sample_session p es)) e).

(** A fresh exit: no session yet. *)
Definition idle (e : exit) : Prop := e_heap e = ∅ ∧ e_sessions e = ∅ ∧ e_byIP e = ∅.

(** A session object belongs to session [sid] and to the address [ip]. *)
Definition belongs (es : exitSession) (sid : Z) (ip : Addr) : Prop :=
  ID (es_sess es) = sid ∧ ParseAddr parse6 (es_clientIP es) = Some ip.

Record einv (e : exit) : Prop := {
  ei_sess : ∀ sid l, e_sessions e !! sid = Some l → ∃ es ip, e_heap e !! l = Some es ∧ belongs es sid ip;
  ei_ip : ∀ ip sid, e_byIP e !! ip = Some sid →
    ∃ l es, e_sessions e !! sid = Some l ∧ e_heap e !! l = Some es ∧ belongs es sid ip
}.

Lemma idle_einv e : idle e → einv e.
Proof. intros (E1 & E2 & E3). constructor; rewrite ?E2, ?E3; intros *; by rewrite lookup_empty. Qed.

(** ** Operations that keep the maps and who the sessions belong to *)

Definition keeps (e e' : exit) : Prop :=
  e_sessions e' = e_sessions e ∧ e_byIP e' = e_byIP e ∧
  ∀ l es, e_heap e !! l = Some es → ∃ es', e_heap e' !! l = Some es' ∧
    ID (es_sess es') = ID (es_sess es) ∧ es_clientIP es' = es_clientIP es.

Lemma keeps_refl e : keeps e e.
Proof. split_and!; eauto. Qed.

Lemma keeps_einv e e' : keeps e e' → einv e → einv e'.
Proof.
  intros (E1 & E2 & Hh) [I1 I2]. constructor; rewrite ?E1, ?E2.
  - intros sid l (es & ip & Hl & Hid & Hip)%I1. destruct (Hh _ _ Hl) as (es' & Hl' & Eid & Eip).
    exists es', ip. unfold belongs. rewrite Eid, Eip. done.
  - intros ip sid (l & es & Hs & Hl & Hid & Hip)%I2. destruct (Hh _ _ Hl) as (es' & Hl' & Eid & Eip).
    exists l, es'. unfold belongs. rewrite Eid, Eip. done.
Qed.

Lemma put_keeps l es es' e :
  e_heap e !! l = Some es → ID (es_sess es') = ID (es_sess es) → es_clientIP es' = es_clientIP es →
  keeps e (put l es' e).
Proof.
  intros Hl Hid Hip. split_and!; [done..|]. intros l' es0 Hl'. simpl.
  destruct (decide (l' = l)) as [->|]; [rewrite lookup_insert_eq; simplify_eq|rewrite lookup_insert_ne by done]; eauto.
Qed.

Lemma on_session_keeps f l e : (∀ s, ID (f s) = ID s) → keeps e (on_session f l e).
Proof.
  intros Hf. split_and!; [done..|]. intros l' es Hl'. simpl. destruct (decide (l' = l)) as [->|].
  - rewrite lookup_alter_eq, Hl'. simpl. eexists. split; [done|]. simpl. by rewrite Hf.
  - rewrite lookup_alter_ne by done. eauto.
Qed.

Lemma fire_ID ev (s : Session.Session positive) : ID (snd (fire ev s)) = ID s.
Proof. unfold fire. by destruct (Fire (m s) ev) as [[] ?]. Qed.

Lemma run_ID b (s : Session.Session positive) : ID (snd (Session.run b s)) = ID s.
Proof.
  revert s. induction b as [err|ev k IH|p k IH]; intros s; simpl; [done| |by rewrite IH].
  pose proof (fire_ID ev s) as E. destruct (fire ev s) as [err s']. by rewrite IH.
Qed.

Lemma act_ID b (s : Session.Session positive) : ID (from_option fst s (act b s)) = ID s.
Proof.
  destruct b as [err|ev k|p k]; simpl; [done| |done]. pose proof (fire_ID ev s) as E. by destruct (fire ev s).
Qed.

Lemma writeInbound_keeps l pkt e : keeps e (fst (writeInbound l pkt e)).
Proof.
  unfold writeInbound. destruct (e_heap e !! l) as [es|] eqn:E; [|apply keeps_refl].
  destruct (ipv4Src pkt); [|apply keeps_refl]. case_decide; [by apply (put_keeps _ es)|apply keeps_refl].
Qed.

Lemma tunToDatagram_keeps now pkt e w : keeps e (fst (tunToDatagram SendDatagram now pkt e w)).
Proof.
  unfold tunToDatagram. destruct (ipv4Dst pkt); [|apply keeps_refl].
  destruct (_ ≫= _) as [[l es]|] eqn:E; [|apply keeps_refl].
  destruct (e_byIP e !! a) as [sid|]; [|done]. simpl in E. apply get_Some in E as [_ Hl].
  pose proof (send_keeps_path SendDatagram pkt now (es_sess es) w) as Hk.
  destruct (Send _ _ _ _ _) as [[? s'] ?]. destruct Hk as (_ & _ & Hid). by apply (put_keeps _ es).
Qed.

(** ** Operations on the maps *)

Lemma newExitSession_belongs now msg e es ip :
  newExitSession now msg e = Some es → ParseAddr parse6 (c_ClientIP msg) = Some ip → belongs es (c_SessionID msg) ip.
Proof.
  unfold newExitSession. simpl. unfold when. destruct (fgtb _ _); intros [= <-] Hip; done.
Qed.

Lemma addSession_einv now msg e : einv e → einv (addSession parse6 now msg e).
Proof.
  intros I. unfold addSession. destruct (ParseAddr _ _) as [ip|] eqn:Eip; [|done].
  destruct (get e (c_SessionID msg)) as [[l es]|] eqn:Eg.
  { apply get_Some in Eg as [_ Hl]. eapply keeps_einv; [|done]. by apply (put_keeps _ es). }
  destruct (newExitSession now msg e) as [es|] eqn:En; [|done].
  assert (e_sessions e !! c_SessionID msg = None) as Hnone.
  { destruct (e_sessions e !! c_SessionID msg) as [l|] eqn:E; [|done].
    destruct (ei_sess e I _ _ E) as (es' & ? & Hl & _). unfold get in Eg. rewrite E in Eg. simpl in Eg.
    by rewrite Hl in Eg. }
  pose proof (newExitSession_belongs _ _ _ _ _ En Eip) as Hb.
  set (l := fresh (dom (e_heap e))). assert (e_heap e !! l = None) as Hf by (apply not_elem_of_dom, is_fresh).
  destruct I as [I1 I2]. constructor; simpl.
  - intros sid l' [[<- <-]|[_ Hl]]%lookup_insert_Some; [exists es, ip; by rewrite lookup_insert_eq|].
    destruct (I1 _ _ Hl) as (es' & ip' & Hl' & ?). exists es', ip'. rewrite lookup_insert_ne; [done|congruence].
  - intros ip' sid [[<- <-]|[_ Hi]]%lookup_insert_Some; [exists l, es; by rewrite !lookup_insert_eq|].
    destruct (I2 _ _ Hi) as (l' & es' & Hs & Hl' & ?). exists l', es'.
    rewrite !lookup_insert_ne by congruence. done.
Qed.

Lemma removeSession_einv sid e : einv e → einv (removeSession parse6 sid e).
Proof.
  intros [I1 I2]. unfold removeSession. destruct (get e sid) as [[l es]|] eqn:Eg.
  - apply get_Some in Eg as [Hs Hl]. destruct (I1 _ _ Hs) as (es' & ip & Hl' & Hid & Hip). simplify_eq.
    rewrite Hip. constructor; simpl.
    + intros sid' l' [_ Hl']%lookup_delete_Some. eauto.
    + intros ip' sid' [Hne Hi]%lookup_delete_Some. destruct (I2 _ _ Hi) as (l' & es2 & Hs' & Hl2 & Hid2 & Hip2).
      exists l', es2. rewrite lookup_delete_ne; [done|]. intros E. simplify_eq. congruence.
  - constructor; simpl; [intros sid' l' [_ Hl']%lookup_delete_Some; eauto|].
    intros ip' sid' Hi. destruct (I2 _ _ Hi) as (l' & es2 & Hs' & Hl2 & Hb). exists l', es2.
    rewrite lookup_delete_ne; [done|]. intros ->. assert (get e sid' = Some (l', es2)) by (by apply get_Some). congruence.
Qed.

Lemma controlMessage_einv now msg e : einv e → einv (controlMessage parse6 unmarshalSignal now msg e).
Proof.
  intros I. unfold controlMessage.
  destruct (c_Type msg); try done; [by apply addSession_einv|by apply removeSession_einv| | |].
  all: destruct (get e (c_SessionID msg)) as [[l es]|] eqn:Eg; [|done]; apply get_Some in Eg as [_ Hl].
  - eapply keeps_einv; [|done]. by apply (put_keeps _ es).
  - destruct (unmarshalSignal _); [|done]. case_decide; [|done]. eapply keeps_einv; [|done]. by apply (put_keeps _ es).
  - eapply keeps_einv; [|done]. by apply (put_keeps _ es).
Qed.

Lemma estep_einv e e' : estep e e' → einv e → einv e'.
Proof.
  intros [] I; 
    try (eapply keeps_einv; [|done]; apply on_session_keeps; intros ?;
         first [apply run_ID|apply act_ID]; fail).
  - constructor; simpl; intros *; by rewrite lookup_empty.
  - constructor; simpl; intros *; by rewrite lookup_empty.
  - by apply controlMessage_einv.
  - unfold datagramToTun. destruct (DecodeDatagram dg) as [[sid pkt]|]; [|done].
    destruct (get e0 sid) as [[l ?]|]; [|done]. eapply keeps_einv; [apply writeInbound_keeps|done].
  - eapply keeps_einv; [apply writeInbound_keeps|done].
  - eapply keeps_einv; [apply tunToDatagram_keeps|done].
  - unfold directLost. destruct gone; [done|]. eapply keeps_einv; [|done]. apply on_session_keeps.
    intros s. apply run_ID.
  - eapply keeps_einv; [|done]. apply (put_keeps _ es); [done|..]; unfold sample_session; simpl; by destruct (_ && _).
Qed.

Lemma estep_reach e e' : rtc estep e e' → einv e → einv e'.
Proof. induction 1; eauto using estep_einv. Qed.

(** A tick of [sampleThroughput] is a sequence of such steps. *)
Lemma sampleThroughput_steps last e : rtc estep e (snd (sampleThroughput last e)).
Proof.
  unfold sampleThroughput. generalize (∅ : gmap Z (Z * Z)) as last'.
  generalize (map_to_list (e_sessions e)) as ls. intros ls. revert e.
  induction ls as [|[sid l] ls IH]; intros e' last'; simpl; [apply rtc_refl|].
  destruct (e_heap e' !! l) as [es|] eqn:E; [|apply IH].
  pose proof (es_sample l (default (0, 0) (last !! sid)) es e' E) as Hs.
  destruct (sample_session _ es) as [es' p]. eapply rtc_l; [exact Hs|apply IH].
Qed.

(** ** Addresses of packets *)

Lemma byte_at_range pkt i : 0 ≤ byte_at pkt i < 256.
Proof. unfold byte_at. destruct (pkt !! i); simpl; [apply b2z_range|lia]. Qed.

(** The source of a packet is an IPv4 address, whose text parses back to it. *)
Lemma ipv4Src_Addr4 pkt src : ipv4Src pkt = Some src → ∃ z, src = Addr4 z ∧ 0 ≤ z < 2 ^ 32.
Proof.
  unfold ipv4Src. destruct (is_ipv4 pkt); [|done]. intros [= <-]. unfold AddrFrom4.
  pose proof (byte_at_range pkt 12). pose proof (byte_at_range pkt 13).
  pose proof (byte_at_range pkt 14). pose proof (byte_at_range pkt 15).
  eexists. split; [done|]. lia.
Qed.

(** A datagram of a session with address [z]: passed and counted if the packet comes from [z]. *)
Lemma datagramToTun_eq dg e sid pkt l es z :
  DecodeDatagram dg = Ok (sid, pkt) → get e sid = Some (l, es) → 0 ≤ z < 2 ^ 32 → es_clientIP es = String4 z →
  datagramToTun dg e =
  if decide (ipv4Src pkt = Some (Addr4 z))
  then (put l (es <| es_bytesUp ::= λ x, u64 (x + Z.of_nat (length pkt)) |>) e, [pkt]) else (e, []).
Proof.
  intros Hdec Eg Hz Hip. unfold datagramToTun. rewrite Hdec, Eg.
  pose proof (proj1 (get_Some _ _ _ _) Eg) as [_ Hl]. unfold writeInbound. rewrite Hl.
  destruct (ipv4Src pkt) as [src|] eqn:Es; [|by rewrite decide_False].
  destruct (ipv4Src_Addr4 _ _ Es) as (z' & -> & Hz').
  change (addr4_string (Addr4 z')) with (String4 z'). rewrite Hip.
  destruct (decide (z' = z)) as [->|Hne]; [by rewrite !decide_True|].
  rewrite !decide_False; [done|congruence|]. intros E. apply Hne. by apply String4_inj.
Qed.

Lemma datagramToTun_out dg e sid pkt l es z :
  DecodeDatagram dg = Ok (sid, pkt) → get e sid = Some (l, es) → 0 ≤ z < 2 ^ 32 → es_clientIP es = String4 z →
  snd (datagramToTun dg e) = if decide (ipv4Src pkt = Some (Addr4 z)) then [pkt] else [].
Proof. intros. rewrite (datagramToTun_eq dg e sid pkt l es z) by done. by case_decide. Qed.

(** ** Properties *)

(** C4. A client cannot send as another: what a datagram from the broker makes the exit write to the
    TUN device is at most its packet, and only if the packet is IPv4 with the very address assigned to
    the session that the datagram names; a session whose address is [z] passes exactly the IPv4
    packets from [z], and counts them. *)
Theorem no_spoofed_source dg e e' out :
  datagramToTun dg e = (e', out) →
  (∀ p, p ∈ out → ∃ sid l es src, DecodeDatagram dg = Ok (sid, p) ∧ get e sid = Some (l, es) ∧
     ipv4Src p = Some src ∧ ParseAddr parse6 (es_clientIP es) = Some src) ∧
  (∀ sid pkt l es z, DecodeDatagram dg = Ok (sid, pkt) → get e sid = Some (l, es) →
     0 ≤ z < 2 ^ 32 → es_clientIP es = String4 z →
     if decide (ipv4Src pkt = Some (Addr4 z))
     then out = [pkt] ∧ ∃ es', e_heap e' !! l = Some es' ∧
            es_bytesUp es' = u64 (es_bytesUp es + Z.of_nat (length pkt))
     else out = [] ∧ e' = e).
Proof.
  intros Hd. split.
  - intros p Hp. unfold datagramToTun in Hd. destruct (DecodeDatagram dg) as [[sid pkt]|]; [|apply pair_equal_spec in Hd as [_ <-]; by apply elem_of_nil in Hp].
    destruct (get e sid) as [[l es]|] eqn:Eg; [|apply pair_equal_spec in Hd as [_ <-]; by apply elem_of_nil in Hp].
    pose proof (proj1 (get_Some _ _ _ _) Eg) as [_ Hl]. unfold writeInbound in Hd. rewrite Hl in Hd.
    destruct (ipv4Src pkt) as [src|] eqn:Es; [|apply pair_equal_spec in Hd as [_ <-]; by apply elem_of_nil in Hp].
    case_decide as Hip; apply pair_equal_spec in Hd as [_ <-]; [|by apply elem_of_nil in Hp].
    apply list_elem_of_singleton in Hp as ->. exists sid, l, es, src. split_and!; try done.
    destruct (ipv4Src_Addr4 _ _ Es) as (z & -> & Hz). rewrite <- Hip. by apply ParseAddr_String4.
  - intros sid pkt l es z Hdec Eg Hz Hip. rewrite (datagramToTun_eq dg e sid pkt l es z) in Hd by done.
    case_decide; apply pair_equal_spec in Hd as [<- <-]; [|done].
    split; [done|]. eexists. split; [apply lookup_insert_eq|done].
Qed.

(** C10. Replies reach their client: in every reachable state of the exit, every route leads to a
    session, so a packet from the TUN device is dropped only if it is not IPv4 or its destination has
    no route; any other packet is handed to [Send] of a session that the exit holds under its own id
    and whose address is the packet's destination. *)
Theorem replies_reach_their_client e0 e now pkt w :
  idle e0 → rtc estep e0 e →
  match ipv4Dst pkt ≫= λ dst, e_byIP e !! dst with
  | None => tunToDatagram SendDatagram now pkt e w = (e, w)
  | Some sid =>
      ∃ l es, get e sid = Some (l, es) ∧ ID (es_sess es) = sid ∧
        ParseAddr parse6 (es_clientIP es) = ipv4Dst pkt ∧
        let '(_, sess, w') := Send SendDatagram pkt now (es_sess es) w in
        tunToDatagram SendDatagram now pkt e w = (put l (es <| es_sess := sess |>) e, w')
  end.
Proof.
  intros Hi Hst. pose proof (estep_reach _ _ Hst (idle_einv _ Hi)) as [I1 I2].
  unfold tunToDatagram. destruct (ipv4Dst pkt) as [dst|]; [|done]. simpl.
  destruct (e_byIP e !! dst) as [sid|] eqn:Eb; [|done]. simpl.
  destruct (I2 _ _ Eb) as (l & es & Hs & Hl & Hid & Hip).
  assert (get e sid = Some (l, es)) as Eg by (by apply get_Some). rewrite Eg.
  exists l, es. split_and!; try done. by destruct (Send _ _ _ _ _) as [[? sess] w'].
Qed.

(** A client that was suspended and comes back keeps its session on the exit: the restart of a
    session the exit still holds changes nothing but the suspended flag, so its path, counters and
    routing survive. *)
Theorem restart_keeps_session now1 now2 m1 m2 e l es ip :
  c_Type m1 = MsgSessionSuspend → c_Type m2 = MsgSessionStart → c_SessionID m2 = c_SessionID m1 →
  ParseAddr parse6 (c_ClientIP m2) = Some ip → get e (c_SessionID m1) = Some (l, es) →
  controlMessage parse6 unmarshalSignal now2 m2 (controlMessage parse6 unmarshalSignal now1 m1 e)
  = put l (es <| es_suspended := false |> <| es_suspendedAt := now1 |>) e.
Proof.
  intros T1 T2 Hsid Hip Hg. unfold controlMessage at 2. rewrite T1, Hg. unfold controlMessage. rewrite T2.
  unfold addSession. rewrite Hip, Hsid. apply get_Some in Hg as [Hs Hl].
  unfold get. simpl. rewrite Hs. simpl. rewrite lookup_insert_eq. simpl.
  unfold put. simpl. by rewrite insert_insert_eq.
Qed.

(** An end that arrives late takes the route of the next client: if a new session was started on
    an address before the end of the old session with that address arrives, the end removes the new
    session's route, so replies to the new client are dropped although its session is up. *)
Theorem late_end_drops_route now m1 m2 e l es ip w pkt :
  c_Type m1 = MsgSessionStart → c_Type m2 = MsgSessionEnd →
  get e (c_SessionID m2) = Some (l, es) → ParseAddr parse6 (es_clientIP es) = Some ip →
  ParseAddr parse6 (c_ClientIP m1) = Some ip → e_sessions e !! c_SessionID m1 = None →
  ipv4Dst pkt = Some ip →
  let e' := controlMessage parse6 unmarshalSignal now m2 (controlMessage parse6 unmarshalSignal now m1 e) in
  (∃ es', get e' (c_SessionID m1) = Some (fresh (dom (e_heap e)), es') ∧ es_clientIP es' = c_ClientIP m1) ∧
  tunToDatagram SendDatagram now pkt e' w = (e', w).
Proof.
  intros T1 T2 Hg Hip Hip1 Hnew Hdst e'.
  pose proof (proj1 (get_Some _ _ _ _) Hg) as [Hs Hl].
  assert (c_SessionID m1 ≠ c_SessionID m2) as Hne by congruence.
  set (l1 := fresh (dom (e_heap e))). assert (l1 ≠ l) as Hnl.
  { intros E. assert (l1 ∉ dom (e_heap e)) as Hf by apply is_fresh. apply Hf. rewrite E. by apply elem_of_dom. }
  destruct (newExitSession now m1 e) as [es1|] eqn:En.
  2: { unfold newExitSession in En. simpl in En. unfold when in En. by destruct (fgtb _ _). }
  set (e1 := put l1 es1 e <| e_sessions ::= <[c_SessionID m1:=l1]> |> <| e_byIP ::= <[ip:=c_SessionID m1]> |>).
  assert (controlMessage parse6 unmarshalSignal now m1 e = e1) as Hm1.
  { unfold controlMessage, addSession. rewrite T1, Hip1.
    assert (get e (c_SessionID m1) = None) as -> by (unfold get; by rewrite Hnew). by rewrite En. }
  assert (get e1 (c_SessionID m2) = Some (l, es)) as Hg2.
  { apply get_Some. simpl. by rewrite !lookup_insert_ne. }
  assert (e' = e1 <| e_sessions ::= delete (c_SessionID m2) |> <| e_byIP ::= delete ip |>) as ->.
  { unfold e'. rewrite Hm1. unfold controlMessage, removeSession. by rewrite T2, Hg2, Hip. }
  split.
  - exists es1. split; [apply get_Some; simpl; by rewrite lookup_delete_ne, !lookup_insert_eq|].
    unfold newExitSession in En. simpl in En. unfold when in En. by destruct (fgtb _ _); simplify_eq.
  - unfold tunToDatagram. rewrite Hdst. simpl. by rewrite lookup_delete_eq.
Qed.
End props.

(** ** A concrete exit *)

Definition demo_exit : exit :=
  mkExit None "exit-a" "" "eu" false "any" "" "" "" "" f64_zero (5 * Second) ∅ ∅ ∅.

Definition no6 (s : string) : option Addr := None.
Definition no_signal (b : list byte) : option (list byte) := None.

Definition start_msg (sid : Z) (ip : string) : Control :=
  (control MsgSessionStart) <| c_SessionID := sid |> <| c_ClientIP := ip |>.

Definition exit1 : exit :=
  controlMessage no6 no_signal 10 (start_msg 1 "10.99.0.2") (serveBegin 9 demo_exit).

(** A 20-byte IPv4 header from 10.99.0.2 to 10.99.0.2. *)
Definition packet : list byte :=
  [x45; x00; x00; x14; x00; x00; x00; x00; x40; x11; x00; x00; x0a; x63; x00; x02; x0a; x63; x00; x02].

Notation exit_send := (log_send 1200).
Definition conn_send (c : positive) (d : list byte) (w : list (nat * list byte)) := exit_send (Pos.to_nat c) d w.

Lemma no_spoofed_source_witness :
  let '(e', out) := datagramToTun (EncodeDatagram 1 packet) exit1 in
  (∀ p, p ∈ out → ∃ sid l es src, DecodeDatagram (EncodeDatagram 1 packet) = Ok (sid, p) ∧
     get exit1 sid = Some (l, es) ∧ ipv4Src p = Some src ∧ ParseAddr no6 (es_clientIP es) = Some src) ∧
  (∀ sid pkt l es z, DecodeDatagram (EncodeDatagram 1 packet) = Ok (sid, pkt) → get exit1 sid = Some (l, es) →
     0 ≤ z < 2 ^ 32 → es_clientIP es = String4 z →
     if decide (ipv4Src pkt = Some (Addr4 z))
     then out = [pkt] ∧ ∃ es', e_heap e' !! l = Some es' ∧
            es_bytesUp es' = u64 (es_bytesUp es + Z.of_nat (length pkt))
     else out = [] ∧ e' = exit1).
Proof.
  destruct (datagramToTun (EncodeDatagram 1 packet) exit1) as [e' out] eqn:E.
  exact (no_spoofed_source no6 (EncodeDatagram 1 packet) exit1 e' out E).
Defined.

Lemma exit1_reached : rtc (estep no6 no_signal conn_send) demo_exit exit1.
Proof.
  eapply rtc_l; [apply (es_serve no6 no_signal conn_send 9)|].
  eapply rtc_l; [apply (es_control no6 no_signal conn_send 10 (start_msg 1 "10.99.0.2"))|]. apply rtc_refl.
Qed.

Lemma demo_exit_idle : idle demo_exit.
Proof. done. Qed.

Lemma replies_reach_their_client_witness :
  match ipv4Dst packet ≫= λ dst, e_byIP exit1 !! dst with
  | None => tunToDatagram conn_send 20 packet exit1 [] = (exit1, [])
  | Some sid =>
      ∃ l es, get exit1 sid = Some (l, es) ∧ ID (es_sess es) = sid ∧
        ParseAddr no6 (es_clientIP es) = ipv4Dst packet ∧
        let '(_, sess, w') := Send conn_send packet 20 (es_sess es) [] in
        tunToDatagram conn_send 20 packet exit1 [] = (put l (es <| es_sess := sess |>) exit1, w')
  end.
Proof.
  exact (replies_reach_their_client no6 no_signal conn_send demo_exit exit1 20 packet [] demo_exit_idle exit1_reached).
Defined.

Example reply_is_sent :
  snd (tunToDatagram conn_send 20 packet exit1 []) = [(9%nat, EncodeDatagram 1 packet)].
Proof. vm_compute. reflexivity. Qed.

Definition suspend_msg (sid : Z) : Control := (control MsgSessionSuspend) <| c_SessionID := sid |>.
Definition end_msg (sid : Z) : Control := (control MsgSessionEnd) <| c_SessionID := sid |>.

Definition es1 : exitSession :=
  mkES (snd (StartRelay (mkPath (Some 9%positive) (relayEncode 1)) (Session.New 1))) [] "10.99.0.2" "" "" "" ""
    0 10 false 0 0 f64_zero f64_zero.

Lemma restart_keeps_session_witness :
  controlMessage no6 no_signal 30 (start_msg 1 "10.99.0.2") (controlMessage no6 no_signal 20 (suspend_msg 1) exit1)
  = put 1 (es1 <| es_suspended := false |> <| es_suspendedAt := 20 |>) exit1.
Proof.
  apply (restart_keeps_session no6 no_signal 20 30 (suspend_msg 1) (start_msg 1 "10.99.0.2") exit1 1 es1
           (AddrFrom4 10 99 0 2)); vm_compute; reflexivity.
Defined.

Lemma late_end_drops_route_witness :
  let e' := controlMessage no6 no_signal 20 (end_msg 1)
              (controlMessage no6 no_signal 20 (start_msg 2 "10.99.0.2") exit1) in
  (∃ es', get e' (c_SessionID (start_msg 2 "10.99.0.2")) = Some (fresh (dom (e_heap exit1)), es') ∧
          es_clientIP es' = c_ClientIP (start_msg 2 "10.99.0.2")) ∧
  tunToDatagram conn_send 20 packet e' [] = (e', []).
Proof.
  apply (late_end_drops_route no6 no_signal conn_send 20 (start_msg 2 "10.99.0.2") (end_msg 1) exit1 1 es1
           (AddrFrom4 10 99 0 2) [] packet); vm_compute; reflexivity.
Defined.
