(* ===== verification/ExitMain.v ===== *)
(** * cmd/revquic-exit: starting up, registering and reconnecting

    [exitMain] is main on Linux up to its loop: the flags, TLS, the host's network in the order main
    sets it up, and the exit it serves with.  Of the loop, [dialRegister] connects and registers,
    [reconnect] is one round with the backoff it keeps.  The answers of the machine and of the network
    are arguments. *)
From S2P Require Import Prelude Float64 Strs GoTime Netip Conf Flags Logx Quicx Netcfg NetLinux Proto IPPool LB RateLimit DirectPath Session AdminAPI UserStore QoS TurnCred Broker Telemetry Exit ExitProps.

Open Scope Z_scope.

(** ** The network of the host *)

(** [log.Fatalf] on the first step that fails: [Err] with its prefix. *)
Definition setupNetwork {H} (run : list string → H → option string * H) (ip_forward : option string)
    (tun gwIP uplink : string) (isolate : bool) (h : H) : result string H :=
  match AddrUp run tun gwIP SafeTunnelMTU h with
  | (Some e, _) => Err ("addr: " +:+ e)
  | (None, h) =>
      match EnableForwarding run ip_forward h with
      | (Some e, _) => Err ("forwarding: " +:+ e)
      | (None, h) =>
          match Masquerade run "10.99.0.0/24" uplink h with
          | (Some e, _) => Err ("masquerade: " +:+ e)
          | (None, h) =>
              if isolate then
                match Isolate run "10.99.0.0/24" h with
                | (Some e, _) => Err ("isolate: " +:+ e)
                | (None, h) => Ok h
                end
              else Ok h
          end
      end
  end.

(** ** The start of main *)

Section start.
(** [Set] of the numeric flags, and the values of their texts. *)
Context (int_set float_set duration_set : string → string * option string).
Context (float_of : string → f64) (duration_of : string → Duration).

Definition exitFlags : FlagSet := list_to_map
  [("broker", string_flag "localhost:4242"); ("config", string_flag ""); ("log-file", string_flag ""); ("log-type", string_flag "text");
   ("nodeId", string_flag ""); ("name", string_flag ""); ("status-addr", string_flag "127.0.0.1:8085"); ("region", string_flag "us-west");
   ("capacity", mkFlag "0" false int_set); ("uplink", string_flag "eth0"); ("gw", string_flag "10.99.0.1/24");
   ("token", string_flag "node-secret"); ("isolate", bool_flag true); ("rate-bytes", mkFlag "0" false float_set);
   ("report-interval", mkFlag "5s" false duration_set); ("direct", bool_flag false); ("direct-mode", string_flag "any");
   ("ice-keepalive", mkFlag "1s" false duration_set); ("stun", string_flag ""); ("turn", string_flag "");
   ("turn-user", string_flag ""); ("turn-pass", string_flag ""); ("tls-ca", string_flag ""); ("tls-cert", string_flag "");
   ("tls-key", string_flag ""); ("tls-server-name", string_flag "broker")]%string.

(** The exit of the flags; [n] is the random number of its id. *)
Definition newExit (fs : FlagSet) (n : Z) : exit :=
  mkExit None (deriveNodeID (str fs "nodeId") (str fs "name") n) (str fs "name") (str fs "region") (is_set fs "direct")
    (str fs "direct-mode") (str fs "stun") (str fs "turn") (str fs "turn-user") (str fs "turn-pass")
    (float_of (str fs "rate-bytes")) (duration_of (str fs "report-interval")) ∅ ∅ ∅.

Definition mtls (fs : FlagSet) : bool :=
  bool_decide (str fs "tls-ca" ≠ ""%string) && bool_decide (str fs "tls-cert" ≠ ""%string) && bool_decide (str fs "tls-key" ≠ ""%string).

Definition statusAddr (fs : FlagSet) : option string :=
  let sa := TrimSpace (str fs "status-addr") in
  if bool_decide (sa = ""%string) || bool_decide (sa = "off"%string) then None else Some sa.

Context {H leaf cert : Type} (run : list string → H → option string * H) (x : x509 leaf cert).
(** The machine: files, the log, the TUN device's name, the forwarding switch, a made certificate. *)
Context (readFile : string → result string (list byte)) (openLog : string → option string).
Context (tun : result string string) (ip_forward : option string) (selfSigned : result string leaf).

Record exitStarted := mkExitStarted {
  x_flags : FlagSet;
  x_exit : exit;
  x_brokerTLS : tlsConfig leaf cert;
  x_directServerTLS : tlsConfig leaf cert;
  x_statusAddr : option string;
  x_host : H
}.

Definition exitTLS {T} (fs : FlagSet) (build : result string (list byte) → result string (list byte) → result string (list byte) → result quicx_error T)
  (other : result quicx_error T) (msg msg' : string) : result string T :=
  if mtls fs then
    match build (readFile (str fs "tls-ca")) (readFile (str fs "tls-cert")) (readFile (str fs "tls-key")) with
    | Err _ => Err msg
    | Ok cfg => Ok cfg
    end
  else match other with Err _ => Err msg' | Ok cfg => Ok cfg end.

Definition exitMain (args : list string) (n : Z) (h : H) : result string exitStarted :=
  match parse args ∅ exitFlags with
  | Err _ => Err "usage"%string
  | Ok (seen, fs) =>
      match (if decide (str fs "config" = ""%string) then (None, fs) else ApplyFile (readFile (str fs "config")) seen fs) with
      | (Some _, _) => Err "config"%string
      | (None, fs) =>
          match Setup openLog "exit" (str fs "log-file") (str fs "log-type") with
          | Err _ => Err "log"%string
          | Ok _ =>
              let? brokerTLS := exitTLS fs (λ ca c k, ClientMTLSFromFiles x ca c k (str fs "tls-server-name")) (Ok ClientTLS) "mTLS" "" in
              let? name := tun in
              let? h := setupNetwork run ip_forward name (str fs "gw") (str fs "uplink") (is_set fs "isolate") h in
              let? directTLS := exitTLS fs (ServerMTLSFromFiles x) (ServerTLS selfSigned) "direct mTLS" "direct tls" in
              Ok (mkExitStarted fs (newExit fs n) brokerTLS directTLS (statusAddr fs) h)
          end
      end
  end.
End start.

(** ** Registering *)

Definition registerMessage (nodeID name region token : string) (capacity : Z) (os : string) : Control :=
  (control MsgRegister) <| c_NodeID := nodeID |> <| c_Name := name |> <| c_Region := region |> <| c_Token := token |>
    <| c_Capacity := capacity |> <| c_OS := os |>.

(** [dialRegister]: what dialing, opening the stream, writing and reading return; the answer is read and
    ignored. *)
Definition dialRegister (dial : result string positive) (opened written : option string) (answer : result string Control)
  : result string positive :=
  match dial with
  | Err e => Err e
  | Ok conn =>
      match opened with
      | Some e => Err e
      | None =>
          match written with
          | Some e => Err e
          | None => match answer with Err e => Err e | Ok _ => Ok conn end
          end
      end
  end.

(** One round of the loop: sleep for the backoff, or serve the connection; and the new backoff. *)
Inductive round := RSleep (d : Duration) | RServe (conn : positive).

Definition reconnect (r : result string positive) (backoff : Duration) : round * Duration :=
  match r with
  | Err _ => (RSleep backoff, let b := backoff * 2 in if 15 * Second <? b then 15 * Second else b)
  | Ok conn => (RServe conn, Second)
  end.

Fixpoint rounds (rs : list (result string positive)) (backoff : Duration) : list round :=
  match rs with
  | [] => []
  | r :: rs => let '(rd, backoff) := reconnect r backoff in rd :: rounds rs backoff
  end.

(** The status sent to the broker, if there is a connection. *)
Definition nodeStatus (cpu mem disk : f64) : Control :=
  (control MsgNodeStatus) <| c_CPUPct := cpu |> <| c_MemPct := mem |> <| c_DiskPct := disk |>.

(** The action on a confirmed signal: the broker connection, if any, is closed with code 0. *)
Definition exitShutdown (e : exit) : list (positive * Z * string) :=
  match e_conn e with Some c => [(c, 0, "exit shutting down"%string)] | None => [] end.

(** ** The status page *)

(** An answer of the local web server: the status as JSON, the page, or not found. *)
Inductive statusResponse := SJson (info : statusInfo) (sessions : list statusSession) | SHtml | SNotFound.

(** The multiplexer: the longest matching pattern, ["/"] matching everything. *)
Definition statusHandler (os : string) (now : Time) (path : string) (e : exit) : statusResponse :=
  if decide (path = "/api/status"%string) then let '(info, sessions) := statusViews os now e in SJson info sessions
  else if decide (path = "/"%string) then SHtml else SNotFound.

(** ** The backoff *)

(** The failures since the last connection, or since the start. *)
Fixpoint failures (rs : list (result string positive)) (n : nat) : nat :=
  match rs with
  | [] => n
  | Ok _ :: rs => failures rs 0
  | Err _ :: rs => failures rs (S n)
  end.

Lemma rounds_schedule rs n i r :
  rs !! i = Some r →
  rounds rs (Z.min (2 ^ Z.of_nat n) 15 * Second) !! i =
  Some match r with
       | Ok conn => RServe conn
       | Err _ => RSleep (Z.min (2 ^ Z.of_nat (failures (take i rs) n)) 15 * Second)
       end.
Proof.
  revert n i. induction rs as [|r0 rs IH]; intros n i Hi; [done|]. simpl.
  destruct r0 as [c|e]; simpl; destruct i as [|i]; simpl in *; try (by injection Hi as <-).
  - change Second with (Z.min (2 ^ Z.of_nat 0) 15 * Second) at 1. by apply IH.
  - replace (if 15 * Second <? Z.min (2 ^ Z.of_nat n) 15 * Second * 2 then 15 * Second
      else Z.min (2 ^ Z.of_nat n) 15 * Second * 2) with (Z.min (2 ^ Z.of_nat (S n)) 15 * Second); [by apply IH|].
    rewrite Nat2Z.inj_succ, Z.pow_succ_r by lia. unfold Second.
    destruct (Z.ltb_spec (15 * 1000000000) (Z.min (2 ^ Z.of_nat n) 15 * 1000000000 * 2)); lia.
Qed.

(** ** Properties *)

Lemma isolated_network {H} `{IpHost H} ip_forward tun gwIP uplink (h h' : H) :
  setupNetwork NetLinux.run ip_forward tun gwIP uplink true h = Ok h' →
  ∃ accepts, forward h' =
    reverse (drop_rule "10.99.0.0/24" <$> "10.99.0.0/24"%string :: private_ranges) ++ forward h ++ accepts ∧
    length accepts = 2%nat.
Proof.
  unfold setupNetwork. intros E. destruct (AddrUp NetLinux.run tun gwIP SafeTunnelMTU h) as [[e|] h1] eqn:E1; [done|].
  destruct (EnableForwarding NetLinux.run ip_forward h1) as [[e|] h2] eqn:E2; [done|].
  destruct (Masquerade NetLinux.run "10.99.0.0/24" uplink h2) as [[e|] h3] eqn:E3; [done|].
  destruct (Isolate NetLinux.run "10.99.0.0/24" h3) as [[e|] h4] eqn:E4; [done|]. injection E as <-.
  rewrite <- (AddrUp_forward _ _ _ _ _ _ E1), <- (EnableForwarding_forward _ _ _ _ E2).
  by apply (isolation_rules _ _ _ _ _ E3).
Qed.

(** C23. Tenant isolation is the default and takes precedence: unless the command line mentions
    [-isolate], an exit without a configuration file that gets to its loop has put rules at the front
    of the host's FORWARD chain that drop what clients send to each other and to every private range,
    before any rule that was there and before the rules that accept the uplink's traffic; and it
    starts without sessions, in a state from which its invariants hold. *)
Theorem exit_isolates_clients {H leaf cert} `{IpHost H} int_set float_set duration_set float_of duration_of
    (x : x509 leaf cert) readFile openLog tun ip_forward selfSigned args seen fs n (h : H) st :
  parse args ∅ (exitFlags int_set float_set duration_set) = Ok (seen, fs) → "isolate"%string ∉ seen → "config"%string ∉ seen →
  exitMain int_set float_set duration_set float_of duration_of NetLinux.run x readFile openLog tun ip_forward selfSigned
    args n h = Ok st →
  (∃ accepts, forward (x_host st) =
    reverse (drop_rule "10.99.0.0/24" <$> "10.99.0.0/24"%string :: private_ranges) ++ forward h ++ accepts ∧
    length accepts = 2%nat) ∧
  idle (x_exit st).
Proof.
  intros Hp Hi Hc E. destruct (parse_frame _ _ _ _ _ _ Hp Hi) as [_ Fi]. destruct (parse_frame _ _ _ _ _ _ Hp Hc) as [_ Fc].
  unfold exitMain in E. rewrite Hp in E.
  assert (str fs "config" = ""%string) as Ec by (unfold str; by rewrite Fc). rewrite decide_True in E by done.
  destruct (Setup _ _ _ _); [|done]. destruct (exitTLS _ _ _ _ _ _); [|done]. destruct tun as [name|]; [|done]. simpl in E.
  assert (is_set fs "isolate" = true) as Ei by (unfold is_set, str; by rewrite Fi). rewrite Ei in E.
  destruct (setupNetwork _ _ _ _ _ _ h) as [h'|] eqn:Es; [|done]. simpl in E.
  destruct (exitTLS _ _ _ _ _ _); [|done]. injection E as <-. split; [by eapply isolated_network|done].
Qed.

Definition no_set (s : string) : string * option string := (s, None).

Notation demo_args := ["-region"; "eu"; "--direct"]%string.
Notation demo_main := (exitMain no_set no_set no_set (λ _, f64_zero) (λ _, 0) NetLinux.run demo_x509 (λ _, Err "no file"%string)
  (λ _, None) (Ok "tun0"%string) (Some "0"%string) (Ok tt) demo_args 7 demo_host).
Definition mentions (k : string) (r : result flag_error (gset string * FlagSet)) : bool :=
  match r with Ok (seen, _) => bool_decide (k ∈ seen) | Err _ => true end.

Lemma demo_main_runs : is_ok demo_main = true.
Proof. vm_compute. reflexivity. Qed.
Lemma demo_args_plain :
  mentions "isolate" (parse demo_args ∅ (exitFlags no_set no_set no_set)) = false ∧
  mentions "config" (parse demo_args ∅ (exitFlags no_set no_set no_set)) = false.
Proof. split; vm_compute; reflexivity. Qed.

Lemma exit_isolates_clients_witness :
  ∃ st, demo_main = Ok st ∧
  (∃ accepts, forward (x_host st) =
    reverse (drop_rule "10.99.0.0/24" <$> "10.99.0.0/24"%string :: private_ranges) ++ forward demo_host ++ accepts ∧
    length accepts = 2%nat) ∧ idle (x_exit st).
Proof.
  pose proof demo_main_runs as Hr. destruct demo_main as [st|e] eqn:Em; [|discriminate Hr]. exists st. split; [reflexivity|].
  destruct demo_args_plain as [H1 H2]. destruct (parse _ _ _) as [[seen fs]|e] eqn:E in H1, H2; [|discriminate H1].
  apply bool_decide_eq_false in H1, H2.
  exact (exit_isolates_clients _ _ _ _ _ _ _ _ _ _ _ _ seen fs _ _ st E H1 H2 Em).
Defined.

(** The exit backs off: in the loop of main the wait after a failure to reach the broker is
    min(2^k, 15) seconds, k being the number of failures since the exit was last registered or
    started; a registration is served at once. *)
Theorem exit_backoff rs i r :
  rs !! i = Some r →
  rounds rs Second !! i =
  Some match r with
       | Ok conn => RServe conn
       | Err _ => RSleep (Z.min (2 ^ Z.of_nat (failures (take i rs) 0)) 15 * Second)
       end.
Proof. intros Hi. change Second with (Z.min (2 ^ Z.of_nat 0) 15 * Second) at 1. by apply rounds_schedule. Qed.

Lemma exit_backoff_witness :
  let rs := [Err "down"; Err "down"; Ok 7%positive; Err "down"]%string in
  rounds rs Second !! 1%nat = Some (RSleep (Z.min (2 ^ Z.of_nat (failures (take 1 rs) 0)) 15 * Second)).
Proof. by apply (exit_backoff [Err "down"; Err "down"; Ok 7%positive; Err "down"]%string 1 (Err "down"%string)). Defined.

Section rejected.
Context {S P U : Type} `{HistoryStore S} `{AddressPool P} `{UserRegistry U}.

(** A rejected exit takes itself for registered: to a registration with the wrong token the broker
    answers with an error and registers nothing, but the exit reads any answer as an acceptance and
    serves the connection. *)
Theorem rejected_exit_serves remoteAddr now c conn nodeID name region token capacity os (b : broker (S := S) (P := P) (U := U)) backoff :
  token ≠ nodeSecret b →
  let '(l, b', outs) := registerExit remoteAddr now c (registerMessage nodeID name region token capacity os) b in
  l = None ∧ b' = b ∧ outs = [OCtrl c (error_msg "bad node token")] ∧
  fst (reconnect (dialRegister (Ok conn) None None (Ok (error_msg "bad node token"))) backoff) = RServe conn.
Proof. intros Ht. unfold registerExit. cbn [c_Token registerMessage]. by rewrite bool_decide_eq_false_2. Qed.
End rejected.
