(* ===== verification/Client.v ===== *)
(** * cmd/revquic-client: the client

    [client] is what main shares between its goroutines and the calls of [runConnection]: the current
    session, the connection the signal handler closes, the routes and the reconnect loop's variables.
    A call of [runConnection] owns a [link]; links stay in a map, since the goroutine of a direct path
    may use its session after the call has returned.  That goroutine moves the session by the critical
    sections of its methods, so the TUN pump can run in between.  Commands to the host's network configuration are
    returned; [routeOK] is whether the default route could be set, and [unmarshalSignal] decodes an ICE
    signal. *)
From S2P Require Import Prelude Float64 Strs GoTime Netip Codec Proto RateLimit DirectPath Session Telemetry.
From Stdlib Require Import Strings.Ascii.

Open Scope Z_scope.

Notation conn := positive (only parsing).

Record runParams := mkParams {
  p_region : string; p_token : string; p_exitID : string; p_name : string; p_resumeKey : string;
  p_full : bool; p_brokerIP : string; p_gw : string; p_dev : string;
  p_direct : bool; p_directMode : string;
  p_stun : string; p_turn : string; p_turnUser : string; p_turnPass : string;
  p_rateBytes : f64; p_reportInterval : Duration;
  p_tunName : string; p_host : string; p_os : string
}.

(** Where the goroutine [runDirect] of a connection is: before its checks, in the ICE negotiation, in
    the call of [UpgradeDirect] with [b] left of it, receiving on the direct path, in the call of
    [FallbackRelay], or over (or never started). *)
Inductive phase :=
| Starting | Negotiating | Upgrading (b : prog conn) | Receiving | FallingBack (b : prog conn) | Over.

(** One broker connection with its session. *)
Record link := mkLink {
  ln_sid : Z;
  ln_sess : Session.Session conn;
  ln_relay : Path conn;
  ln_incoming : list (list byte);      (* the buffered channel of ICE signals, capacity 64 *)
  ln_rtt : Z;
  ln_direct : phase
}.
#[export] Instance link_eta : Eta link :=
  λ l, mkLink (ln_sid l) (ln_sess l) (ln_relay l) (ln_incoming l) (ln_rtt l) (ln_direct l).

Record client := mkClient {
  c_links : gmap conn link;
  c_curSess : option conn;             (* the link whose session the TUN pump uses *)
  c_box : option conn;                 (* [connBox] *)
  c_routesUp : bool;
  c_shuttingDown : bool;
  c_backoff : Duration;
  c_first : bool
}.
#[export] Instance client_eta : Eta client :=
  λ c, mkClient (c_links c) (c_curSess c) (c_box c) (c_routesUp c) (c_shuttingDown c) (c_backoff c) (c_first c).

(** The variables of main before its reconnect loop. *)
Definition startup : client := mkClient ∅ None None false false Second true.

Definition relayEncode (sid : Z) : list byte → list byte := EncodeDatagram sid.
(** [newResumeKey] from what [rand.Read] returned. *)
Definition newResumeKey (random : option (list byte)) : string := match random with Some b => hex b | None => "" end.

Definition splitCSV (s : string) : list string := if decide (s = "") then [] else split_on ","%char s.
Definition orStr (a b : string) : string := if decide (a = "") then b else a.

(** ** Connecting *)

Definition connectMessage (p : runParams) : Control :=
  (control MsgConnect) <| c_RequestedRegion := p_region p |> <| c_Token := p_token p |>
    <| c_RequestedExit := p_exitID p |> <| c_Name := p_name p |> <| c_ResumeKey := p_resumeKey p |>.

(** What is asked of the host. *)
Inductive netcfg :=
| AddrUp (ifName cidr : string) (mtu : Z)
| AddHostRoute (ip gw dev : string)
| SetDefaultRoute (ifName : string)
| SpawnSupervisor (ifName brokerIP gw dev : string) (full : bool).

Inductive started := Refused (msg : string) | Died | Running (c : client).

Definition tunnelMTU (m : Z) : Z := if (m =? 0) || (SafeTunnelMTU <? m) then SafeTunnelMTU else m.

(** The session of a new connection. *)
Definition newLink (p : runParams) (cn : conn) (sid : Z) : link :=
  let relayPath := mkPath (Some cn) (relayEncode sid) in
  let sess := snd (StartRelay relayPath (Session.New sid)) in
  let sess := when (fgtb (p_rateBytes p) f64_zero)
                (SetRateLimit (p_rateBytes p) (fmul (p_rateBytes p) (f64_of_Z 2))) sess in
  mkLink sid sess relayPath [] 0 (if p_direct p then Starting else Over).

(** The full tunnel's routes, once. *)
Definition routes (p : runParams) : list netcfg :=
  (if bool_decide (p_brokerIP p = "") || bool_decide (p_gw p = "") || bool_decide (p_dev p = "") then []
   else [AddHostRoute (p_brokerIP p) (p_gw p) (p_dev p)]) ++ [SetDefaultRoute (p_tunName p)].

(** [runConnection] from the broker's answer [resp] on connection [cn] to the start of its loops. *)
Definition runConnection (routeOK : bool) (p : runParams) (cn : conn) (resp : Control) (c : client)
  : started * list netcfg :=
  match c_Type resp with
  | MsgConnectOK =>
      let up := AddrUp (p_tunName p) (c_ClientIP resp +:+ "/24") (tunnelMTU (c_MTU resp)) in
      let full := p_full p && negb (c_routesUp c) in
      if full && negb routeOK then (Died, up :: routes p)
      else
        let c := when full (λ c, c <| c_routesUp := true |>) c in
        (Running (c <| c_links ::= <[cn := newLink p cn (c_SessionID resp)]> |>
                    <| c_curSess := Some cn |> <| c_box := Some cn |>),
         up :: (if full then routes p ++ [SpawnSupervisor (p_tunName p) (p_brokerIP p) (p_gw p) (p_dev p) (p_full p)]
                else []))
  | _ => (Refused (c_Error resp), [])
  end.

(** The metadata of the reports ([telemetry.Meta]). *)
Definition reportMeta (p : runParams) (resp : Control) (hostStat : f64 * f64 * f64) : Meta :=
  mkMeta (p_host p) (p_tunName p) (p_os p)
    (p_direct p && negb (bool_decide (orStr (c_StunURL resp) (p_stun p) = "")))
    (p_direct p && negb (bool_decide (orStr (c_TurnURL resp) (p_turn p) = "")))
    false (Some hostStat).

(** ** The loops *)

(** One message of the control reader: [Some msg] ends the connection with [noExitErr]. *)
Definition controlMessage (unmarshalSignal : list byte → option (list byte)) (now : Time) (cn : conn) (m : Control) (c : client)
  : option string * client :=
  match c_Type m with
  | MsgSignal =>
      match unmarshalSignal (c_Signal m) with
      | Some s =>
          (None, c <| c_links ::= alter (λ l : link, if decide (length (ln_incoming l) < 64)%nat
                                                     then l <| ln_incoming ::= λ q, q ++ [s] |> else l) cn |>)
      | None => (None, c)
      end
  | MsgError => (Some (c_Error m), c)
  | MsgPong => (None, c <| c_links ::= alter (λ l : link, l <| ln_rtt ::= Observe now (c_TS m) |>) cn |>)
  | _ => (None, c)
  end.

(** The packets written to the TUN device for a datagram from the broker. *)
Definition relayInbound (dg : list byte) : list (list byte) :=
  match DecodeDatagram dg with Ok (_, pkt) => [pkt] | Err _ => [] end.

Section send.
Context {World SendErr : Type} (SendDatagram : conn → list byte → World → option SendErr * World).

(** One packet of the TUN pump. *)
Definition tunPump (now : Time) (pkt : list byte) (c : client) (w : World) : client * World :=
  match c_curSess c ≫= λ cn, l ← c_links c !! cn; Some (cn, l) with
  | None => (c, w)
  | Some (cn, l) =>
      let '(_, sess, w) := Send SendDatagram pkt now (ln_sess l) w in
      (c <| c_links ::= <[cn := l <| ln_sess := sess |>]> |>, w)
  end.
End send.

(** ** The direct path ([runDirect]), between its calls to ICE *)

(** [sess.BeginChecks] *)
Definition directBegin (l : link) : link :=
  match BeginChecks (ln_sess l) with
  | (None, s) => l <| ln_sess := s |> <| ln_direct := Negotiating |>
  | (Some _, s) => l <| ln_sess := s |> <| ln_direct := Over |>
  end.

(** [icewire.Negotiate] has returned a connection, or an error. *)
Definition directNegotiated (qc : option conn) (l : link) : link :=
  match qc with
  | None => l <| ln_sess ::= λ s, snd (ChecksFailed s) |> <| ln_direct := Over |>
  | Some qc => l <| ln_direct := Upgrading (UpgradeDirect_body (mkPath (Some qc) Identity)) |>
  end.

(** The next critical section of [UpgradeDirect], or its return. *)
Definition directUpgrade (b : prog conn) (l : link) : link :=
  match act b (ln_sess l), b with
  | Some (s, b), _ => l <| ln_sess := s |> <| ln_direct := Upgrading b |>
  | None, Return None => l <| ln_direct := Receiving |>
  | None, _ => l <| ln_direct := Over |>
  end.

(** [qc.ReceiveDatagram] has returned a datagram, written to the TUN device, or an error. *)
Definition directReceived (dg : option (list byte)) (l : link) : link * list (list byte) :=
  match dg with
  | Some dg => (l, [dg])
  | None => (l <| ln_direct := FallingBack (FallbackRelay_body (ln_relay l)) |>, [])
  end.

(** The next critical section of [FallbackRelay], or its return. *)
Definition directFallback (b : prog conn) (l : link) : link :=
  match act b (ln_sess l) with
  | Some (s, b) => l <| ln_sess := s |> <| ln_direct := FallingBack b |>
  | None => l <| ln_direct := Over |>
  end.

(** What [runDirect] does next: [ICE] is what the ICE library gave it - it may fail to make an agent -
    or [Continue], the next step of the session's method it is in. *)
Inductive ICE := AgentFailed | Began | Negotiated (qc : option conn) | Received (dg : option (list byte)) | Continue.

Definition runDirect (i : ICE) (l : link) : link * list (list byte) :=
  match ln_direct l, i with
  | Starting, AgentFailed => (l <| ln_direct := Over |>, [])
  | Starting, Began => (directBegin l, [])
  | Negotiating, Negotiated qc => (directNegotiated qc l, [])
  | Upgrading b, Continue => (directUpgrade b l, [])
  | Receiving, Received dg => directReceived dg l
  | FallingBack b, Continue => (directFallback b l, [])
  | _, _ => (l, [])
  end.

(** ** Ending and reconnecting *)

(** [connBox.closeCode]: the connection to close. *)
Definition closeCode (code : Z) (reason : string) (c : client) : list (conn * Z * string) :=
  match c_box c with Some cn => [(cn, code, reason)] | None => [] end.

(** The exit function given to the signal handler. *)
Definition onExit (c : client) : client * list (conn * Z * string) :=
  (c <| c_shuttingDown := true |>, closeCode CloseClientShutdown "client shutting down" c).

(** One round of the watchdog: the connection is closed if the clock jumped. *)
Definition watchdog (last now : Time) (c : client) : list (conn * Z * string) :=
  if 10 * Second <? Sub now last then closeCode 0 "wake-reconnect" c else [].

Inductive next := Quit | Fatal (msg : string) | Sleep (d : Duration) (c : client).

(** The reconnect loop after [runConnection] has returned; [noExit] is the message of a [noExitErr]. *)
Definition connectionDown (noExit : option string) (c : client) : next :=
  let c := c <| c_curSess := None |> in
  if c_shuttingDown c then Quit
  else match noExit, c_first c with
  | Some msg, true => Fatal msg
  | _, _ =>
      let c := c <| c_first := false |> in
      let b := c_backoff c in
      let b' := if b <? 15 * Second then Z.min (b * 2) (15 * Second) else b in
      Sleep b (c <| c_backoff := b' |>)
  end.

(** ** Everything that happens to a client

    One connection at a time: a new one is made when the last has ended. *)

Section steps.
Context {World SendErr : Type} (SendDatagram : conn → list byte → World → option SendErr * World).
Context (unmarshalSignal : list byte → option (list byte)) (p : runParams).

(** A step, with the time for which the reconnect loop sleeps in it. *)
Inductive step : client * World → list Duration → client * World → Prop :=
| step_connect routeOK cn resp c c' cfg w :
    c_curSess c = None → c_links c !! cn = None →
    runConnection routeOK p cn resp c = (Running c', cfg) → step (c, w) [] (c', w)
| step_control now cn m c c' r w :
    c_curSess c = Some cn → controlMessage unmarshalSignal now cn m c = (r, c') → step (c, w) [] (c', w)
| step_pump now pkt c w : step (c, w) [] (tunPump SendDatagram now pkt c w)
| step_direct i cn l c w :
    c_links c !! cn = Some l → step (c, w) [] (c <| c_links ::= <[cn := fst (runDirect i l)]> |>, w)
| step_signal cn l s q c w :
    c_links c !! cn = Some l → ln_direct l = Negotiating → ln_incoming l = s :: q →
    step (c, w) [] (c <| c_links ::= <[cn := l <| ln_incoming := q |>]> |>, w)
| step_exit c w : step (c, w) [] (fst (onExit c), w)
| step_down e d c c' w : connectionDown e c = Sleep d c' → step (c, w) [d] (c', w).

Inductive run (s : client * World) : list Duration → client * World → Prop :=
| run_refl : run s [] s
| run_step ds s1 d s2 : run s ds s1 → step s1 d s2 → run s (ds ++ d) s2.

(** *** What holds of every client *)

Definition direct_path (q : conn) : Path conn := mkPath (Some q) Identity.

(** The path of a session: the relay of its connection, but raw packets on a direct connection while
    [runDirect] receives from it; in between, the state changes before the path does. *)
Definition link_ok (cn : conn) (l : link) : Prop :=
  let relaying := Session.path (ln_sess l) = ln_relay l in
  let direct := ∃ qc, Session.path (ln_sess l) = direct_path qc in
  ln_relay l = mkPath (Some cn) (relayEncode (ln_sid l)) ∧
  match ln_direct l with
  | Starting | Over => m (ln_sess l) = StateRelaying ∧ relaying
  | Negotiating => m (ln_sess l) = StateChecking ∧ relaying
  | Upgrading b =>
      (∃ qc, b = UpgradeDirect_body (direct_path qc) ∧ m (ln_sess l) = StateChecking ∧ relaying) ∨
      (∃ qc, b = Installing (direct_path qc) (Return None) ∧ m (ln_sess l) = StateDirect ∧ relaying) ∨
      (b = Return None ∧ m (ln_sess l) = StateDirect ∧ direct)
  | Receiving => m (ln_sess l) = StateDirect ∧ direct
  | FallingBack b =>
      (b = FallbackRelay_body (ln_relay l) ∧ m (ln_sess l) = StateDirect ∧ direct) ∨
      (b = Installing (ln_relay l) (Return None) ∧ m (ln_sess l) = StateRelaying ∧ direct) ∨
      (b = Return None ∧ m (ln_sess l) = StateRelaying ∧ relaying)
  end.

(** The [n]-th sleep of the reconnect loop. *)
Definition schedule (n : nat) : Duration := Z.min (2 ^ Z.of_nat n) 15 * Second.

Definition client_ok (ds : list Duration) (c : client) : Prop :=
  map_Forall link_ok (c_links c) ∧ (∀ cn, c_curSess c = Some cn → is_Some (c_links c !! cn)) ∧
  ds = schedule <$> seq 0 (length ds) ∧ c_backoff c = schedule (length ds) ∧ c_first c = bool_decide (ds = []).

Lemma newLink_ok cn sid : link_ok cn (newLink p cn sid).
Proof.
  split; [done|]. unfold newLink. simpl. rewrite !(when_proj m), !(when_proj Session.path) by done.
  by destruct (p_direct p).
Qed.

Lemma directUpgrade_ok b cn l :
  ln_direct l = Upgrading b → link_ok cn l → link_ok cn (directUpgrade b l).
Proof.
  unfold link_ok. intros E [Hr Hl]. split; [|rewrite E in Hl].
  { unfold directUpgrade. by destruct (act b (ln_sess l)) as [[]|], b as [[]| |]. }
  unfold directUpgrade. destruct Hl as [(qc & -> & Hm & Hp)|[(qc & -> & Hm & Hp)|(-> & Hm & Hp)]]; simpl; [|eauto 8..].
  unfold fire, Fire. rewrite Hm. simpl. eauto 8.
Qed.

Lemma directFallback_ok b cn l :
  ln_direct l = FallingBack b → link_ok cn l → link_ok cn (directFallback b l).
Proof.
  unfold link_ok. intros E [Hr Hl]. split; [|rewrite E in Hl].
  { unfold directFallback. by destruct (act b (ln_sess l)) as [[]|]. }
  unfold directFallback. destruct Hl as [(-> & Hm & Hp)|[(-> & Hm & Hp)|(-> & Hm & Hp)]]; simpl; [|eauto 8..].
  unfold fire, Fire. rewrite Hm. simpl. eauto 8.
Qed.

Lemma runDirect_ok i cn l : link_ok cn l → link_ok cn (fst (runDirect i l)).
Proof.
  intros Hok. unfold runDirect.
  destruct (ln_direct l) as [| |b| |b|] eqn:E, i as [| |[qc|]|[dg|]|]; simpl; try done;
    [| | | |by apply directUpgrade_ok| |by apply directFallback_ok].
  all: unfold link_ok in *; destruct Hok as [Hr Hl]; rewrite E in Hl; destruct Hl as [Hm Hp]; split.
  all: unfold directBegin, directNegotiated, BeginChecks, ChecksFailed; simpl; unfold fire, Fire;
    rewrite ?Hm; simpl; eauto 6.
Qed.

Lemma schedule_next n :
  (if schedule n <? 15 * Second then Z.min (schedule n * 2) (15 * Second) else schedule n) = schedule (S n).
Proof.
  unfold schedule, Second. rewrite Nat2Z.inj_succ, Z.pow_succ_r by lia.
  destruct (Z.ltb_spec (Z.min (2 ^ Z.of_nat n) 15 * 1000000000) (15 * 1000000000)); lia.
Qed.

Lemma connectionDown_Sleep e d c c' :
  connectionDown e c = Sleep d c' →
  d = c_backoff c ∧ c' = c <| c_curSess := None |> <| c_first := false |>
    <| c_backoff := if c_backoff c <? 15 * Second then Z.min (c_backoff c * 2) (15 * Second) else c_backoff c |>.
Proof.
  unfold connectionDown. simpl. destruct (c_shuttingDown c); [done|].
  destruct e; [destruct (c_first c); [done|]|]; by intros [= <- <-].
Qed.

Lemma links_insert ds c cn l : link_ok cn l → client_ok ds c → client_ok ds (c <| c_links ::= <[cn := l]> |>).
Proof.
  intros Hl (Hf & Hc & Hd). split_and!; simpl; [by apply map_Forall_insert_2| |apply Hd..].
  intros cn' E. destruct (Hc cn' E) as [l' El]. destruct (decide (cn = cn')) as [->|];
    [by rewrite lookup_insert_eq|by rewrite lookup_insert_ne].
Qed.

Lemma links_alter ds c cn f :
  (∀ l, link_ok cn l → link_ok cn (f l)) → client_ok ds c → client_ok ds (c <| c_links ::= alter f cn |>).
Proof.
  intros Hf Hc. destruct (c_links c !! cn) as [l|] eqn:E.
  - assert (alter f cn (c_links c) = <[cn := f l]> (c_links c)) as Ha.
    { apply map_eq. intros i. destruct (decide (i = cn)) as [->|];
        [by rewrite lookup_alter_eq, lookup_insert_eq, E|by rewrite lookup_alter_ne, lookup_insert_ne]. }
    cbn. rewrite Ha. apply (links_insert ds c cn (f l)); [|done]. by apply Hf, Hc.
  - assert (alter f cn (c_links c) = c_links c) as Ha.
    { apply map_eq. intros i. destruct (decide (i = cn)) as [->|]; [by rewrite lookup_alter_eq, E|by rewrite lookup_alter_ne]. }
    cbn. rewrite Ha. by destruct c.
Qed.

Lemma Send_link_ok pkt now cn l w :
  link_ok cn l → link_ok cn (l <| ln_sess := (Send SendDatagram pkt now (ln_sess l) w).1.2 |>).
Proof.
  intros [Hr Hl]. pose proof (send_keeps_path SendDatagram pkt now (ln_sess l) w) as H.
  destruct (Send _ _ _ _ _) as [[e s'] w']. destruct H as (Em & Ep & _). split; [done|]. cbn. by rewrite Em, Ep.
Qed.

Lemma step_ok ds c w d c' w' : step (c, w) d (c', w') → client_ok ds c → client_ok (ds ++ d) c'.
Proof.
  intros Hs Hc. inversion Hs as [routeOK cn resp c0 c1 cfg w0 Hn Hl Hr|now cn msg c0 c1 r w0 Hcn Hm
    |now pkt c0 w0 Hp|i cn l c0 w0 Hl|cn l sg q c0 w0 Hl Hd Hq|c0 w0|e dd c0 c1 w0 Hd]; clear Hs; subst; rewrite ?app_nil_r.
  - unfold runConnection in Hr. destruct (c_Type resp); try done. destruct (_ && negb routeOK); [done|].
    apply pair_equal_spec in Hr as [[= <-] _]. set (c1 := when _ _ c).
    assert (client_ok ds c1) as H1 by (unfold c1, when; destruct (_ && _); [|done]; by destruct Hc as (?&?&?)).
    apply (links_insert ds c1 cn _ (newLink_ok cn (c_SessionID resp))) in H1 as (Hf & _ & Hd).
    split_and!; [exact Hf| |apply Hd..]. intros cn' [= <-]. simpl. by rewrite lookup_insert_eq.
  - unfold controlMessage in Hm. destruct (c_Type msg); try (apply pair_equal_spec in Hm as [_ <-]; done).
    + destruct (unmarshalSignal _); apply pair_equal_spec in Hm as [_ <-]; [|done].
      apply links_alter; [|done]. intros l0 [??]. by case_decide.
    + apply pair_equal_spec in Hm as [_ <-]. by apply links_alter.
  - match goal with H : context [tunPump] |- _ => rename H into Hp end. unfold tunPump in Hp. destruct (_ ≫= _) as [[cn l]|] eqn:E; [|by injection Hp as -> ->].
    apply bind_Some in E as (cn' & _ & (l' & Hl & [= <- <-])%bind_Some).
    pose proof (Send_link_ok pkt now cn' l' w) as Hk. destruct (Send _ _ _ _ _) as [[e s'] w1].
    injection Hp as <- _. apply links_insert; [|done]. by apply Hk, Hc.
  - apply links_insert; [|done]. by apply runDirect_ok, Hc.
  - apply links_insert; [|done]. apply (proj1 Hc _ _ Hl).
  - done.
  - destruct Hc as (Hf & _ & Hds & Hb & _). apply connectionDown_Sleep in Hd as [-> ->].
    unfold client_ok. simpl. rewrite length_app, Nat.add_comm, seq_S, fmap_app, <- Hds, Hb. simpl.
    split_and!; try done; [apply schedule_next|]. symmetry. apply bool_decide_eq_false_2. by destruct ds.
Qed.

Lemma run_ok w0 ds s : run (startup, w0) ds s → client_ok ds s.1.
Proof.
  induction 1 as [|ds [c1 w1] d [c2 w2] _ IH Hs]; [by split_and!|].
  by eapply step_ok.
Qed.

(** Where a packet of the session goes, and how it is framed. *)
Lemma link_path cn l :
  link_ok cn l →
  ∃ to enc, Session.path (ln_sess l) = mkPath (Some to) enc ∧
    match ln_direct l with
    | Receiving => m (ln_sess l) = StateDirect ∧ enc = Identity
    | Upgrading _ | FallingBack _ => to = cn ∧ enc = EncodeDatagram (ln_sid l) ∨ enc = Identity
    | _ => to = cn ∧ enc = EncodeDatagram (ln_sid l) ∧ IsDirect (ln_sess l) = false
    end.
Proof.
  unfold link_ok, IsDirect. intros [Hr Hd]. rewrite Hr in Hd.
  destruct (ln_direct l) as [| |b| |b|].
  1, 2, 6: destruct Hd as [-> ->]; by eexists _, _.
  2: destruct Hd as [? [qc ->]]; by eexists _, _.
  all: destruct Hd as [Hd|[Hd|Hd]]; destruct_and?; naive_solver.
Qed.

(** ** Properties *)

(** C22. The client never loses its path: in every reachable state - the moments between the two
    critical sections of [UpgradeDirect] and of [FallbackRelay] included - the current session sends each
    packet either in the framing of its broker connection to that connection, or raw on the direct
    connection it was upgraded to, the latter only while that connection is being received from or
    the path is being exchanged; so the TUN pump never finds a session without a path, and a packet for which the limiter has tokens
    is handed to that connection, whose result alone decides whether it is counted. *)
Theorem client_keeps_a_path ds c w0 w cn :
  run (startup, w0) ds (c, w) → c_curSess c = Some cn →
  ∃ l to enc, c_links c !! cn = Some l ∧
    match ln_direct l with
    | Receiving => m (ln_sess l) = StateDirect ∧ enc = Identity
    | Upgrading _ | FallingBack _ => to = cn ∧ enc = EncodeDatagram (ln_sid l) ∨ enc = Identity
    | _ => to = cn ∧ enc = EncodeDatagram (ln_sid l) ∧ IsDirect (ln_sess l) = false
    end ∧
    ∀ now pkt, fst (Allow (limiter (ln_sess l)) now (Z.of_nat (length pkt))) = true →
      snd (tunPump SendDatagram now pkt c w) = snd (SendDatagram to (enc pkt) w).
Proof.
  intros (Hf & Hc & _)%run_ok Hcn. simpl in Hf, Hc. destruct (Hc cn Hcn) as [l Hl].
  destruct (link_path cn l (Hf _ _ Hl)) as (to & enc & Hp & Hw).
  exists l, to, enc. split_and!; [done..|]. intros now pkt Ha.
  unfold tunPump. rewrite Hcn. simpl. rewrite Hl. simpl. unfold Send. rewrite Hp. simpl.
  destruct (Allow _ _ _) as [ok lim]. simpl in Ha. subst ok. simpl. rewrite Hp. simpl.
  by destruct (SendDatagram _ _ _) as [[]].
Qed.

(** The reconnect schedule: the [n]-th sleep of the reconnect loop lasts min(2^n, 15) seconds,
    whatever happened to the connections in between (a successful connection does not reset it); and
    a broker error is fatal exactly until the first sleep, a session that was established before it
    included. *)
Theorem reconnect_schedule ds c w0 w :
  run (startup, w0) ds (c, w) →
  ds = (λ n : nat, Z.min (2 ^ Z.of_nat n) 15 * Second) <$> seq 0 (length ds) ∧
  (c_shuttingDown c = false → ∀ msg, connectionDown (Some msg) c = Fatal msg ↔ ds = []).
Proof.
  intros (_ & _ & Hds & _ & Hf)%run_ok. split; [exact Hds|]. intros Hsh msg.
  unfold connectionDown. simpl in *. rewrite Hsh, Hf. by destruct ds.
Qed.
End steps.

(** ** A concrete run: a session is upgraded to a direct path and back, and then refused *)

Definition demo_params : runParams :=
  mkParams "eu" "tok" "" "laptop" "k" false "" "" "" true "auto" "" "" "" "" f64_zero 0 "tun0" "host" "linux/amd64".
Definition connect_ok (sid : Z) : Control :=
  (control MsgConnectOK) <| c_SessionID := sid |> <| c_ClientIP := "10.99.0.2" |>.
Definition sent (to : conn) (dg : list byte) (w : list (conn * list byte)) : option unit * list (conn * list byte) :=
  (None, w ++ [(to, dg)]).

Definition after_connect : client := match runConnection true demo_params 7 (connect_ok 5) startup with (Running c, _) => c | _ => startup end.
Definition direct_step (i : ICE) (c : client) : client :=
  match c_links c !! 7%positive with Some l => c <| c_links ::= <[7%positive := fst (runDirect i l)]> |> | None => c end.
(** The three steps of a method that succeeds: [Fire], [setPath] and the return. *)
Definition method_steps (c : client) : client := direct_step Continue (direct_step Continue (direct_step Continue c)).
Definition after_upgrade : client := method_steps (direct_step (Negotiated (Some 8%positive)) (direct_step Began after_connect)).
Definition after_loss : client := method_steps (direct_step (Received None) after_upgrade).
Definition after_down : client := match connectionDown None after_loss with Sleep _ c => c | _ => startup end.

(** One step of the run, found by its kind; the direct path's by evaluation. *)
Ltac by_direct i := eapply (run_step _ _ _ _ [] _ []); [|by eapply (step_direct _ _ _ i 7%positive)].

Lemma demo_run : run sent Some demo_params (startup, []) [] (after_upgrade, []).
Proof.
  do 3 by_direct Continue. by_direct (Negotiated (Some 8%positive)). by_direct Began. eapply (run_step _ _ _ _ [] _ []); [apply run_refl|].
  by eapply (step_connect _ _ _ true 7%positive (connect_ok 5)).
Qed.

Lemma demo_run_down : run sent Some demo_params (startup, []) [Second] (after_down, []).
Proof.
  eapply (run_step _ _ _ _ [] _ [Second]); [|apply (step_down _ _ _ None _ after_loss); vm_compute; reflexivity].
  do 3 by_direct Continue. by_direct (Received None). apply demo_run.
Qed.

Lemma client_keeps_a_path_witness :
  ∃ l to enc, c_links after_upgrade !! 7%positive = Some l ∧
    match ln_direct l with
    | Receiving => m (ln_sess l) = StateDirect ∧ enc = Identity
    | Upgrading _ | FallingBack _ => to = 7%positive ∧ enc = EncodeDatagram (ln_sid l) ∨ enc = Identity
    | _ => to = 7%positive ∧ enc = EncodeDatagram (ln_sid l) ∧ IsDirect (ln_sess l) = false
    end ∧
    ∀ now pkt, fst (Allow (limiter (ln_sess l)) now (Z.of_nat (length pkt))) = true →
      snd (tunPump sent now pkt after_upgrade []) = snd (sent to (enc pkt) []).
Proof. by apply (client_keeps_a_path _ _ _ _ _ _ _ _ demo_run). Defined.

Lemma reconnect_schedule_witness :
  [Second] = (λ n : nat, Z.min (2 ^ Z.of_nat n) 15 * Second) <$> seq 0 (length [Second]) ∧
  (c_shuttingDown after_down = false → ∀ msg, connectionDown (Some msg) after_down = Fatal msg ↔ [Second] = []).
Proof. apply (reconnect_schedule _ _ _ _ _ _ _ demo_run_down). Defined.

(** The packets of the pump go to the broker before the upgrade, to the peer during it, and to the
    broker again after the direct path is lost. *)
Example demo_packets :
  (fst <$> snd (tunPump sent 100 [x45] after_connect []), fst <$> snd (tunPump sent 100 [x45] after_upgrade []),
   fst <$> snd (tunPump sent 100 [x45] after_loss []), fst <$> snd (tunPump sent 100 [x45] after_down [])) =
  ([7%positive], [8%positive], [7%positive], []).
Proof. vm_compute. reflexivity. Qed.
