(* ===== verification/ClientMain.v ===== *)
(** * cmd/revquic-client: the command line, the list of exits and the cleanup supervisor

    [clientMain] is main up to the point where it does one of its jobs: supervise, list the exits, or
    run the tunnel.  The supervisor is a second process of the same program, so its work is the
    composition of the arguments [spawnSupervisor] gives it, the parsing of these arguments, and
    [superviseAndCleanup]. *)
From S2P Require Import Prelude Float64 GoTime Strs Proto Conf Flags Logx Quicx Netcfg NetLinux Client.
From Stdlib Require Import Strings.Ascii.

Open Scope string_scope.
Open Scope list_scope.
Open Scope Z_scope.

Section flags.
(** [Set] of the duration flags and of the float flag. *)
Context (duration_set float_set : string → string * option string).

Definition clientFlags : FlagSet := list_to_map
  [("broker", string_flag "localhost:4242"); ("region", string_flag "us-west"); ("full", bool_flag false);
   ("broker-ip", string_flag ""); ("gw", string_flag ""); ("gw-dev", string_flag ""); ("token", string_flag "alice-token");
   ("direct", bool_flag false); ("exit", string_flag ""); ("name", string_flag ""); ("socks", string_flag "");
   ("list-exits", bool_flag false); ("direct-mode", string_flag "any"); ("ice-keepalive", mkFlag "1s" false duration_set);
   ("stun", string_flag ""); ("turn", string_flag ""); ("turn-user", string_flag ""); ("turn-pass", string_flag "");
   ("supervise", bool_flag false); ("clean-if", string_flag ""); ("tls-ca", string_flag ""); ("tls-cert", string_flag "");
   ("tls-key", string_flag ""); ("tls-server-name", string_flag "broker"); ("rate-bytes", mkFlag "0" false float_set);
   ("report-interval", mkFlag "5s" false duration_set); ("config", string_flag ""); ("log-file", string_flag "");
   ("log-type", string_flag "text")].

(** ** What main does *)

Inductive action {leaf cert : Type} :=
| BadUsage (e : flag_error)
| Fatal (msg : string)
| Supervises (ifName brokerIP gw dev : string) (full : bool)
| Lists (brokerAddr region token : string) (brokerTLS : tlsConfig leaf cert)
| Runs (fs : FlagSet) (brokerTLS directTLS : tlsConfig leaf cert).
Arguments action : clear implicits.

Context {leaf cert : Type} (x : x509 leaf cert).
(** The machine: files, and what opening a log file returns. *)
Context (readFile : string → result string (list byte)) (openLog : string → option string).

(** The configurations for the broker and for the direct path. *)
Definition clientTLS (fs : FlagSet) : result string (tlsConfig leaf cert * tlsConfig leaf cert) :=
  let ca := str fs "tls-ca" in let cert := str fs "tls-cert" in let key := str fs "tls-key" in
  if bool_decide (ca ≠ "") && bool_decide (cert ≠ "") && bool_decide (key ≠ "") then
    match ClientMTLSFromFiles x (readFile ca) (readFile cert) (readFile key) (str fs "tls-server-name") with
    | Err _ => Err "mTLS"
    | Ok mtls =>
        match ClientMTLSNoSNIFromFiles x (readFile ca) (readFile cert) (readFile key) with
        | Err _ => Err "direct mTLS"
        | Ok dt => Ok (mtls, dt)
        end
    end
  else Ok (ClientTLS, ClientTLS).

Definition clientMain (args : list string) : action leaf cert :=
  match parse args ∅ clientFlags with
  | Err e => BadUsage e
  | Ok (seen, fs) =>
      match (if decide (str fs "config" = "") then (None, fs) else ApplyFile (readFile (str fs "config")) seen fs) with
      | (Some _, _) => Fatal "config"
      | (None, fs) =>
          match Setup openLog "client" (str fs "log-file") (str fs "log-type") with
          | Err _ => Fatal "log"
          | Ok _ =>
              if is_set fs "full" && bool_decide (str fs "socks" ≠ "") then Fatal "-full and -socks are mutually exclusive"
              else if is_set fs "supervise" then
                Supervises (str fs "clean-if") (str fs "broker-ip") (str fs "gw") (str fs "gw-dev") (is_set fs "full")
              else match clientTLS fs with
              | Err e => Fatal e
              | Ok (brokerTLS, directTLS) =>
                  if is_set fs "list-exits" then Lists (str fs "broker") (str fs "region") (str fs "token") brokerTLS
                  else Runs fs brokerTLS directTLS
              end
          end
      end
  end.

(** ** -list-exits *)

Definition listRequest (region token : string) : Control :=
  (control MsgConnect) <| c_RequestedRegion := region |> <| c_Token := token |> <| c_ListExits := true |>.

(** [%-30s] *)
Fixpoint spaces (n : nat) : string := match n with O => "" | S n => String " " (spaces n) end.
Definition pad30 (s : string) : string := s +:+ spaces (30 - String.length s).

Definition exitLine (e : ExitInfo) : string :=
  let label := if decide (ei_Name e = "") then ei_NodeID e else ei_Name e +:+ " (" +:+ ei_NodeID e +:+ ")" in
  "  " +:+ pad30 label +:+ "  users=" +:+ itoa (ei_ActiveUsers e) +:+ "/" +:+ itoa (ei_Capacity e) +:+ "  system=" +:+ ei_System e.

(** What is printed for the broker's answer; [Err] is a fatal error.  [quoted] is [%q]. *)
Definition listRegionExits (quoted : string → string) (region : string) (resp : Control) : result string (list string) :=
  match c_Type resp with
  | MsgConnectOK =>
      match c_ExitList resp with
      | [] => Ok ["no exits available in region " +:+ quoted region]
      | es => Ok (["exits in region " +:+ quoted region +:+ ":"] ++ (exitLine <$> es) ++
                  ["select one with: -exit <nodeId>   (omit -exit for automatic load-balancing)"])
      end
  | _ => Err ("broker: " +:+ c_Error resp)
  end.
End flags.
Arguments action : clear implicits.

(** ** The supervisor *)

(** The arguments of the child; on Windows there is none. *)
Definition spawnSupervisor (windows : bool) (ifName brokerIP gw dev : string) (full : bool) (logFile logType : string)
  : option (list string) :=
  if windows then None
  else Some ["-supervise"; "-clean-if"; ifName; "-broker-ip"; brokerIP; "-gw"; gw; "-gw-dev"; dev;
             "-full=" +:+ bool_text full; "-log-file"; logFile; "-log-type"; logType].

(** What happens to the child: it reads from the pipe, which fails when the parent is gone; or it gets a
    signal that the terminal sends - it is in the process group of its parent and handles none, so the
    signal ends or stops it. *)
Inductive child_event := PipeRead (failed : bool) | TerminalSignal.
Inductive child := ChildWaits | ChildCleaned | ChildGone.

Fixpoint superviseAndCleanup {H} (cleanup : H → H) (evs : list child_event) (h : H) : child * H :=
  match evs with
  | [] => (ChildWaits, h)
  | PipeRead false :: evs => superviseAndCleanup cleanup evs h
  | PipeRead true :: _ => (ChildCleaned, cleanup h)
  | TerminalSignal :: _ => (ChildGone, h)
  end.

Section supervisor.
Context (duration_set float_set : string → string * option string) {leaf cert : Type} (x : x509 leaf cert).
Context (readFile : string → result string (list byte)) (openLog : string → option string).
Notation clientMain := (clientMain duration_set float_set x readFile openLog).

(** The child parses its arguments back, whatever the values are. *)
Lemma supervisor_args ifName brokerIP gw dev full logFile logType args :
  spawnSupervisor false ifName brokerIP gw dev full logFile logType = Some args → is_ok (Setup openLog "client" logFile logType) = true →
  clientMain args = Supervises ifName brokerIP gw dev full.
Proof.
  intros [= <-] Hl. unfold ClientMain.clientMain.
  rewrite (parse_bool _ "supervise" false true); [|right; split; reflexivity|reflexivity].
  rewrite (parse_string _ "clean-if" "") by done.
  rewrite (parse_string _ "broker-ip" "") by done. rewrite (parse_string _ "gw" "") by done.
  rewrite (parse_string _ "gw-dev" "") by done. rewrite (parse_bool _ "full" false full); [|left; destruct full; reflexivity|reflexivity].
  rewrite (parse_string _ "log-file" "") by done. rewrite (parse_string _ "log-type" "text") by done.
  cbn [parse]. set (fs := <["log-type" := _]> _).
  assert (str fs "config" = "") as -> by done. rewrite decide_True by done.
  assert (str fs "log-file" = logFile) as -> by done. assert (str fs "log-type" = logType) as -> by done.
  destruct (Setup openLog "client" logFile logType); [|done]. assert (str fs "socks" = "") as -> by done. assert (bool_decide ("" ≠ "") = false) as -> by done.
  rewrite andb_false_r.
   assert (is_set fs "supervise" = true) as -> by done. assert (is_set fs "full" = full) as -> by (by destruct full). done.
Qed.

(** The commands of the client on a Linux host, with their errors. *)
Definition perform {H} `{IpHost H} (c : Client.netcfg) (h : H) : option string * H :=
  match c with
  | Client.AddrUp ifName cidr mtu => NetLinux.AddrUp NetLinux.run ifName cidr mtu h
  | Client.AddHostRoute ip gw dev => NetLinux.AddHostRoute NetLinux.run ip gw dev h
  | Client.SetDefaultRoute ifName => NetLinux.SetDefaultRoute NetLinux.run ifName h
  | SpawnSupervisor _ _ _ _ _ => (None, h)
  end.

Fixpoint performAll {H} `{IpHost H} (cmds : list Client.netcfg) (h : H) : list (option string) * H :=
  match cmds with
  | [] => ([], h)
  | c :: cmds => let '(e, h) := perform c h in let '(es, h) := performAll cmds h in (e :: es, h)
  end.

(** A client with a full tunnel that has connected: its commands, each of which succeeded - but for
    the first, whose failure is tolerated - on a host whose default route went through the gateway,
    that had no route of its own to the broker and none through the TUN device. *)
Definition tunnelled {H} `{IpHost H} (p : runParams) (cn : positive) (resp : Control) (c : client) (cmds : list netcfg) (h h1 : H) : Prop :=
  (∃ c', runConnection true p cn resp c = (Running c', cmds)) ∧ p_full p = true ∧ c_routesUp c = false ∧
  p_brokerIP p ≠ "" ∧ p_gw p ≠ "" ∧ p_dev p ≠ "" ∧
  (∃ e es, performAll cmds h = (e :: es, h1) ∧ Forall (λ e, e = None) es) ∧
  route h "default" = Some ["via"; p_gw p; "dev"; p_dev p] ∧ route h (p_brokerIP p +:+ "/32") = None ∧
  ∀ k, via_dev (p_tunName p) (route h k) = false.

Lemma tunnelled_routes {H} `{IpHost H} p cn resp c cmds (h h1 : H) :
  tunnelled p cn resp c cmds h h1 →
  (∃ up, cmds = up :: routes p ++ [SpawnSupervisor (p_tunName p) (p_brokerIP p) (p_gw p) (p_dev p) true]) ∧
  route h1 "default" = Some ["dev"; p_tunName p] ∧
  ∀ (early : bool) h2,
    runAll NetLinux.run (undo (p_brokerIP p) (p_gw p) (p_dev p)) (if early then h1 else tun_closed (p_tunName p) h1) = (None, h2) →
    Cleanup NetLinux.run (p_tunName p) (p_brokerIP p) (p_gw p) (p_dev p) true (if early then h1 else tun_closed (p_tunName p) h1) = h2 ∧
    ∀ k, route (if early then tun_closed (p_tunName p) h2 else h2) k = route h k.
Proof.
  intros ((c' & Hc) & Hfull & Hup & Hb & Hg & Hd & (e & es & Hp & Hes) & Hdef & Hnew & Hno).
  unfold runConnection in Hc. rewrite Hfull, Hup in Hc.
  destruct (c_Type resp); try discriminate Hc. cbn [andb negb when] in Hc. apply pair_equal_spec in Hc as [_ <-].
  split; [by eexists|]. unfold routes in Hp. rewrite !bool_decide_eq_false_2 in Hp by done. simpl in Hp.
  pose proof (AddrUp_added (p_tunName p) (c_ClientIP resp +:+ "/24") (tunnelMTU (c_MTU resp)) h) as Hadd.
  destruct (NetLinux.AddrUp _ _ _ _ h) as [e0 h0]. simpl in Hadd.
  destruct (NetLinux.AddHostRoute _ _ _ _ h0) as [e1 ha] eqn:E1. destruct (NetLinux.SetDefaultRoute _ _ ha) as [e2 hb] eqn:E2.
  injection Hp as <- <- <-. rewrite !Forall_cons in Hes. destruct Hes as (-> & -> & _).
  destruct (cleanup_restores_routes (p_tunName p) (p_brokerIP p) (p_gw p) (p_dev p) h h0 ha hb) as (R1 & _ & R2); done.
Qed.

(** C24. A client that dies leaves the host's routes as they were, unless a signal of the terminal takes
    its supervisor along: when a client with a full tunnel has connected ([tunnelled]) its routes lead
    through the tunnel, and it starts a child whose command line, whatever the values in it, is parsed
    back to the very parameters of the tunnel; the child waits as long as the pipe to its parent is open,
    and once it is not, whether the kernel removes the parent's device before the cleanup or after, the
    commands of the cleanup, if they succeed, give every destination the route it had. *)
Theorem supervisor_restores_routes {H} `{IpHost H} p cn resp c cmds logFile logType (h h1 : H) :
  tunnelled p cn resp c cmds h h1 → is_ok (Setup openLog "client" logFile logType) = true →
  let tun := p_tunName p in
  ∃ up ifName brokerIP gw dev full args,
    cmds = up :: routes p ++ [SpawnSupervisor ifName brokerIP gw dev full] ∧
    route h1 "default" = Some ["dev"; tun] ∧
    spawnSupervisor false ifName brokerIP gw dev full logFile logType = Some args ∧
    clientMain args = Supervises ifName brokerIP gw dev full ∧
    ∀ (early : bool) evs,
      let h' := if early then h1 else tun_closed tun h1 in
      match superviseAndCleanup (Cleanup NetLinux.run ifName brokerIP gw dev full) evs h' with
      | (ChildWaits, h2) => Forall (λ e, e = PipeRead false) evs ∧ h2 = h'
      | (ChildCleaned, h2) => fst (runAll NetLinux.run (undo brokerIP gw dev) h') = None →
                              ∀ k, route (if early then tun_closed tun h2 else h2) k = route h k
      | (ChildGone, h2) => TerminalSignal ∈ evs ∧ h2 = h'
      end.
Proof.
  intros Ht Hl tun. destruct (tunnelled_routes _ _ _ _ _ _ _ Ht) as ([up ->] & Hr & Hu).
  eexists up, _, _, _, _, _, _. do 3 (split; [done|]). split; [by apply (supervisor_args _ _ _ _ _ logFile logType)|].
  intros early evs h'. induction evs as [|[[]|] evs IH]; cbn [superviseAndCleanup].
  - done.
  - destruct (runAll _ _ h') as [e h2] eqn:E. cbn [fst]. intros ->. destruct (Hu early h2 E) as [HC Hk].
    change (Cleanup NetLinux.run (p_tunName p) (p_brokerIP p) (p_gw p) (p_dev p) true h' = h2) in HC. rewrite HC. exact Hk.
  - destruct (superviseAndCleanup _ evs h') as [[] h2]; [|done|].
    + destruct IH as [IH ->]. split; [by constructor|done].
    + destruct IH as [IH ->]. split; [by right|done].
  - split; [by left|done].
Qed.

(** Ctrl-C in a terminal is such a signal: it ends the child at its first press, before the client asks
    for a second one and exits without a cleanup of its own, so that the host is left without a
    default route. *)
Theorem interrupt_loses_default_route {H} `{IpHost H} p cn resp c cmds (h h1 : H) cleanup evs :
  tunnelled p cn resp c cmds h h1 →
  let '(st, h2) := superviseAndCleanup cleanup (TerminalSignal :: evs) (tun_closed (p_tunName p) h1) in
  st = ChildGone ∧ route h2 "default" = None.
Proof.
  intros Ht. destruct (tunnelled_routes _ _ _ _ _ _ _ Ht) as (_ & Hr & _). simpl. split; [done|].
  rewrite tun_closed_route, Hr. simpl. by rewrite bool_decide_eq_true_2.
Qed.
End supervisor.

(** ** A tunnel on a small host *)

Definition tunnel_params : runParams :=
  mkParams "eu" "tok" "" "" "key" true "203.0.113.5" "192.168.1.1" "eth0" false "any" "" "" "" "" f64_zero 0 "tun0" "laptop" "linux".
Definition connected : Control := (control MsgConnectOK) <| c_SessionID := 7 |> <| c_ClientIP := "10.99.0.2" |>.
Definition no_set (s : string) : string * option string := (s, None).

Definition tunnel_cmds : list netcfg := snd (runConnection true tunnel_params 1 connected startup).
Definition tunnel_host : host := snd (performAll tunnel_cmds demo_host).

Lemma demo_tunnelled : tunnelled tunnel_params 1 connected startup tunnel_cmds demo_host tunnel_host.
Proof.
  split_and!; try done.
  - eexists. vm_compute. reflexivity.
  - eexists _, _. split; [vm_compute; reflexivity|]. by repeat constructor.
  - apply demo_no_tun.
Qed.

Lemma supervisor_restores_routes_witness :
  ∃ up ifName brokerIP gw dev full args,
    tunnel_cmds = up :: routes tunnel_params ++ [SpawnSupervisor ifName brokerIP gw dev full] ∧
    route tunnel_host "default" = Some ["dev"; "tun0"] ∧
    spawnSupervisor false ifName brokerIP gw dev full "" "text" = Some args ∧
    clientMain no_set no_set demo_x509 (λ _, Err "no file") (λ _, None) args = Supervises ifName brokerIP gw dev full ∧
    ∀ (early : bool) evs,
      let h' := if early then tunnel_host else tun_closed "tun0" tunnel_host in
      match superviseAndCleanup (Cleanup NetLinux.run ifName brokerIP gw dev full) evs h' with
      | (ChildWaits, h2) => Forall (λ e, e = PipeRead false) evs ∧ h2 = h'
      | (ChildCleaned, h2) => fst (runAll NetLinux.run (undo brokerIP gw dev) h') = None →
                              ∀ k, route (if early then tun_closed "tun0" h2 else h2) k = route demo_host k
      | (ChildGone, h2) => TerminalSignal ∈ evs ∧ h2 = h'
      end.
Proof.
  exact (supervisor_restores_routes no_set no_set demo_x509 (λ _, Err "no file") (λ _, None) tunnel_params 1 connected startup
    tunnel_cmds "" "text" demo_host tunnel_host demo_tunnelled eq_refl).
Defined.

(** There the cleanup succeeds, and the routes are those of before. *)
Example demo_cleanup :
  fst (runAll NetLinux.run (undo "203.0.113.5" "192.168.1.1" "eth0") (tun_closed "tun0" tunnel_host)) = None ∧
  snd (superviseAndCleanup (Cleanup NetLinux.run "tun0" "203.0.113.5" "192.168.1.1" "eth0" true)
    [PipeRead false; PipeRead true] (tun_closed "tun0" tunnel_host)) = demo_host.
Proof. split; vm_compute; reflexivity. Qed.

Lemma interrupt_loses_default_route_witness :
  let '(st, h2) := superviseAndCleanup (Cleanup NetLinux.run "tun0" "203.0.113.5" "192.168.1.1" "eth0" true) [TerminalSignal; PipeRead true]
                     (tun_closed "tun0" tunnel_host) in
  st = ChildGone ∧ route h2 "default" = None.
Proof.
  exact (interrupt_loses_default_route _ 1 _ _ _ _ _
    (Cleanup NetLinux.run "tun0" "203.0.113.5" "192.168.1.1" "eth0" true) [PipeRead true] demo_tunnelled).
Defined.

Example usage_errors :
  clientMain no_set no_set demo_x509 (λ _, Err "no file") (λ _, None) ["-full"; "-socks"; "127.0.0.1:1080"]
    = Fatal "-full and -socks are mutually exclusive" ∧
  clientMain no_set no_set demo_x509 (λ _, Err "no file") (λ _, None) ["--region=eu"; "-list-exits"; "-bogus"]
    = BadUsage (ENotDefined "bogus") ∧
  clientMain no_set no_set demo_x509 (λ _, Err "no file") (λ _, None) ["--region=eu"; "-list-exits"]
    = Lists "localhost:4242" "eu" "alice-token" ClientTLS.
Proof. by vm_compute. Qed.
