(* ===== verification/ClientRun.v ===== *)
(** * cmd/revquic-client: the tunnel from the command line on

    What main does once it runs the tunnel ([ClientMain.Runs]): it opens the device, starts the proxy,
    puts together the parameters of its connections, and in each round of the reconnect loop dials the
    broker, opens the control stream, and sends its request. *)
From S2P Require Import Prelude Float64 GoTime Strs Conf Flags Quicx SocksServer Proto Client ClientMain.

Open Scope string_scope.
Open Scope list_scope.
Open Scope Z_scope.

(** ** The device and the proxy *)

(** The name of the device, and the server of [-socks]. *)
Definition startTunnel (fs : FlagSet) (tun : result string string) (newSocks : string → string → result string SocksServer.Server)
  : result string (string * option SocksServer.Server) :=
  match tun with
  | Err e => Err ("tun: " +:+ e)
  | Ok name =>
      if decide (str fs "socks" = "") then Ok (name, None)
      else match newSocks (str fs "socks") name with
           | Err e => Err ("socks: " +:+ e)
           | Ok srv => Ok (name, Some srv)
           end
  end.

(** The parameters of every connection; [float_of] and [duration_of] are the values of flags. *)
Definition runParamsOf (float_of : string → f64) (duration_of : string → Duration) (fs : FlagSet) (random : option (list byte))
    (tunName host os : string) : runParams :=
  mkParams (str fs "region") (str fs "token") (str fs "exit") (str fs "name") (newResumeKey random)
    (is_set fs "full") (str fs "broker-ip") (str fs "gw") (str fs "gw-dev")
    (is_set fs "direct") (str fs "direct-mode") (str fs "stun") (str fs "turn") (str fs "turn-user") (str fs "turn-pass")
    (float_of (str fs "rate-bytes")) (duration_of (str fs "report-interval")) tunName host os.

(** ** One round of the reconnect loop *)

(** What QUIC and the stream return: the connection, and the errors of opening, writing and reading. *)
Record attempt := mkAttempt {
  at_dial : result string positive;
  at_open : option string;
  at_write : option string;
  at_answer : result string Control
}.

(** The beginning of [runConnection]: a connection with its answer, or the cause of the failure. *)
Definition openConnection (a : attempt) : result string (positive * Control) :=
  match at_dial a with
  | Err e => Err e
  | Ok cn =>
      match at_open a with
      | Some e => Err e
      | None =>
          match at_write a with
          | Some e => Err e
          | None => match at_answer a with Err e => Err e | Ok resp => Ok (cn, resp) end
          end
      end
  end.

(** [CloseWithError] of the deferred call, when [runConnection] returns after it has dialled. *)
Definition closesOnReturn (a : attempt) : list positive := match at_dial a with Ok cn => [cn] | Err _ => [] end.

Inductive round :=
| Connected (c : client)                    (* the loops of the connection run *)
| Down (n : next) (closed : list positive)  (* [runConnection] has returned *)
| Exits.                                    (* the default route could not be set *)

Definition connectOnce (routeOK : bool) (p : runParams) (a : attempt) (c : client) : round * list netcfg :=
  match openConnection a with
  | Err _ => (Down (connectionDown None c) (closesOnReturn a), [])
  | Ok (cn, resp) =>
      match runConnection routeOK p cn resp c with
      | (Refused msg, cmds) => (Down (connectionDown (Some msg) c) [cn], cmds)
      | (Died, cmds) => (Exits, cmds)
      | (Running c, cmds) => (Connected c, cmds)
      end
  end.

(** ** Properties *)

Lemma runConnection_refused routeOK p cn resp c msg cmds :
  runConnection routeOK p cn resp c = (Refused msg, cmds) → cmds = [] ∧ c_Type resp ≠ MsgConnectOK ∧ msg = c_Error resp.
Proof. unfold runConnection. intros E. repeat case_match; simplify_eq; done. Qed.

Lemma connectionDown_cases e c :
  connectionDown e c = Quit ∧ c_shuttingDown c = true ∨
  (∃ msg, connectionDown e c = Client.Fatal msg ∧ e = Some msg ∧ c_first c = true) ∨
  ∃ c', connectionDown e c = Sleep (c_backoff c) c' ∧ c_links c' = c_links c ∧ c_routesUp c' = c_routesUp c ∧ c_curSess c' = None.
Proof. unfold connectionDown. simpl. repeat case_match; eauto 10. Qed.

(** A connection attempt that fails leaves the machine as it was: unless the broker accepted the
    client the host's network is not touched, the connection that was dialled is closed again and no
    session is current; the client then waits for its backoff and tries again, unless it is shutting
    down or the broker refused it with a message before any wait: an error of the transport is never
    fatal. *)
Theorem failed_attempt_is_harmless routeOK p a c n closed cmds :
  connectOnce routeOK p a c = (Down n closed, cmds) →
  cmds = [] ∧ closed = closesOnReturn a ∧ (∀ cn resp, openConnection a = Ok (cn, resp) → c_Type resp ≠ MsgConnectOK) ∧
  (n = Quit ∧ c_shuttingDown c = true ∨
   (∃ cn resp, n = Client.Fatal (c_Error resp) ∧ openConnection a = Ok (cn, resp) ∧ c_first c = true) ∨
   ∃ c', n = Sleep (c_backoff c) c' ∧ c_links c' = c_links c ∧ c_routesUp c' = c_routesUp c ∧ c_curSess c' = None).
Proof.
  unfold connectOnce. destruct (openConnection a) as [[cn resp]|e] eqn:Eo.
  - destruct (runConnection routeOK p cn resp c) as [[msg| |c'] cs] eqn:Er; intros [= <- <- <-].
    destruct (runConnection_refused _ _ _ _ _ _ _ Er) as (-> & Hr & ->). split; [done|]. split.
    { unfold openConnection, closesOnReturn in *. repeat case_match; by simplify_eq. }
    split; [by intros ? ? [= <- <-]|].
    destruct (connectionDown_cases (Some (c_Error resp)) c) as [[-> ?]|[(msg & -> & [= <-] & ?)|?]]; eauto 10.
  - intros [= <- <- <-]. split; [done|]. split; [done|]. split; [done|].
    destruct (connectionDown_cases None c) as [[-> ?]|[(msg & _ & ? & _)|?]]; [by left|done|by right; right].
Qed.

Lemma failed_attempt_is_harmless_witness :
  let a := mkAttempt (Ok 7%positive) None None (Ok ((control MsgError) <| c_Error := "no exit" |>)) in
  let r := connectOnce true demo_params a startup in
  snd r = [] ∧ fst r = Down (Client.Fatal "no exit") [7%positive].
Proof.
  intros a r. split; [|reflexivity].
  exact (proj1 (failed_attempt_is_harmless true demo_params a startup (Client.Fatal "no exit") [7%positive] (snd r) eq_refl)).
Defined.

(** The proxy and the full tunnel exclude each other, and the sockets of the proxy - on macOS and Windows
    those for IPv4, and for IPv6 if the system takes the option - are bound to the device of the tunnel. *)
Theorem proxy_without_full_tunnel {leaf cert} duration_set float_set (x : x509 leaf cert) readFile openLog args fs tls1 tls2
    sys byName listen tun name srv :
  clientMain duration_set float_set x readFile openLog args = Runs fs tls1 tls2 →
  startTunnel fs tun (New (bindControl sys byName) listen) = Ok (name, Some srv) →
  is_set fs "full" = false ∧ tun = Ok name ∧
  ∀ s opts, fst (sv_dialer srv) s = (None, opts) →
    sys = Linux ∨ sk_family s = IPv4 ∨ takes_ipv6 sys byName name s → ∃ o, o ∈ opts ∧ binds sys byName name (sk_family s) o.
Proof.
  intros Hm Hs. unfold startTunnel in Hs. destruct tun as [n|]; [|done]. case_decide as Hsk; [done|].
  unfold New in Hs. destruct (bindControl sys byName n) as [ctrl|] eqn:Eb; [|done]. simpl in Hs.
  destruct (listen (str fs "socks")); [|done]. simplify_eq/=. split_and!; [|done|].
  - unfold clientMain in Hm. repeat case_match; simplify_eq; destruct (is_set fs "full"); try done;
      by match goal with H : true && bool_decide _ = false |- _ => rewrite bool_decide_true in H end.
  - intros s opts Hc. by apply (bindControl_binds _ _ _ _ _ _ Eb Hc).
Qed.
