(* ===== verification/HostStats.v ===== *)
(** * The host statistics of client and exit

    Both programs sample the host's CPU, memory and disk use in a goroutine: the client stores the last
    sample, which its session reports carry ([hostStat]); the exit sends each to the broker.  The
    sampler of internal/sysstat has two implementations, by build: the one for Linux ([Sysstat]) and one
    that returns zeros; [HostSampler] are the operations the programs use, and what is reported is
    proved for both. *)
From S2P Require Import Prelude Float64 GoTime Proto Session Telemetry Sysstat ExitMain Client.

Open Scope Z_scope.

(** A sampler of state [S] that looks at the host, [I]. *)
Class HostSampler (S I : Type) := { new_sampler : S; sample : I → S → Stat * S }.

(** sysstat_linux.go: /proc/stat, /proc/meminfo, and statfs of the root. *)
Definition linuxSample (i : option (list byte) * option (list byte) * option (Z * Z * Z)) (s : Sampler) : Stat * Sampler :=
  let '(stat, meminfo, fs) := i in Sysstat.Sample stat meminfo fs s.

#[export] Instance linux_sampler : HostSampler Sampler (option (list byte) * option (list byte) * option (Z * Z * Z)) := {
  new_sampler := mkSampler 0 0;
  sample := linuxSample
}.

(** sysstat_other.go *)
Definition otherSample (s : unit) : Stat := mkStat f64_zero f64_zero f64_zero.

#[export] Instance other_sampler : HostSampler unit unit := {
  new_sampler := tt;
  sample i s := (otherSample s, s)
}.

Section sampling.
Context {S I : Type} `{HostSampler S I}.

(** ** The client's goroutine *)

Record hostStats := mkHostStats { hs_sampler : S; hs_stored : f64 * f64 * f64 }.

(** The sampler is primed before the first stored sample; until then the stored values are zeros. *)
Definition startSampling (prime : I) : hostStats := mkHostStats (snd (sample prime new_sampler)) (f64_zero, f64_zero, f64_zero).

(** One round of the loop. *)
Definition sampleHost (h : hostStats) (i : I) : hostStats :=
  let '(st, s) := sample i (hs_sampler h) in mkHostStats s (CPUPct st, MemPct st, DiskPct st).

(** The closure given to the reports. *)
Definition hostStat (h : hostStats) : f64 * f64 * f64 := hs_stored h.

(** ** The exit's goroutine *)

(** Its ticks, each with whether there is a connection to the broker: the messages it writes. *)
Fixpoint reportHost (ticks : list (I * bool)) (s : S) : list Control :=
  match ticks with
  | [] => []
  | (i, connected) :: ticks =>
      let '(st, s) := sample i s in
      (if connected then [nodeStatus (CPUPct st) (MemPct st) (DiskPct st)] else []) ++ reportHost ticks s
  end.

(** Nothing is reported unless the interval is positive. *)
Definition exitReporter (reportInterval : Duration) (prime : I) (ticks : list (I * bool)) : list Control :=
  if 0 <? reportInterval then reportHost ticks (snd (sample prime new_sampler)) else [].

(** ** Properties *)

Definition host_percentages (m : Control) : Prop :=
  percentage (c_CPUPct m) ∧ percentage (c_MemPct m) ∧ percentage (c_DiskPct m).

(** Every report of a client and every status of an exit with this sampler carries percentages,
    whatever the host showed when the sampler was primed and at each later sample. *)
Definition reports_percentages : Prop :=
  ∀ prime obs ticks reportInterval now sid (sess : Session.Session positive) p resp rtt lastBytes last,
  Forall host_percentages (exitReporter reportInterval prime ticks) ∧
  let meta := reportMeta p resp (hostStat (foldl sampleHost (startSampling prime) obs)) in
  Forall (λ m, c_Type m = MsgReport → host_percentages m) (fst (fst (tick now sid sess meta rtt lastBytes last))).

Hypothesis sample_percentages : ∀ i s,
  let st := fst (sample i s) in percentage (CPUPct st) ∧ percentage (MemPct st) ∧ percentage (DiskPct st).

Lemma stored_percentages prime obs :
  let '(cpu, mem, disk) := hostStat (foldl sampleHost (startSampling prime) obs) in
  percentage cpu ∧ percentage mem ∧ percentage disk.
Proof.
  assert (∀ h, (let '(cpu, mem, disk) := hostStat h in percentage cpu ∧ percentage mem ∧ percentage disk) →
    let '(cpu, mem, disk) := hostStat (foldl sampleHost h obs) in percentage cpu ∧ percentage mem ∧ percentage disk) as Hs.
  { induction obs as [|i obs IH]; intros h Hh; [done|]. apply IH. unfold sampleHost.
    pose proof (sample_percentages i (hs_sampler h)) as Hp. destruct (sample i (hs_sampler h)) as [st s]. done. }
  by apply Hs.
Qed.

Lemma reportHost_percentages ticks s : Forall host_percentages (reportHost ticks s).
Proof.
  revert s. induction ticks as [|[i b] ticks IH]; intros s; simpl; [constructor|].
  pose proof (sample_percentages i s) as Hp. destruct (sample i s) as [st s']. apply Forall_app. split; [|apply IH].
  destruct b; repeat constructor; apply Hp.
Qed.

Lemma sampler_reports : reports_percentages.
Proof.
  intros prime obs ticks reportInterval now sid sess p resp rtt lastBytes last. split.
  - unfold exitReporter. destruct (0 <? reportInterval); [apply reportHost_percentages|constructor].
  - pose proof (stored_percentages prime obs) as Hp. destruct (hostStat _) as [[cpu mem] disk].
    unfold tick. destruct (Stats sess) as [[b pk] d]. cbn [fst]. apply Forall_cons. split; [done|].
    apply Forall_cons. split; [|constructor]. by intros _.
Qed.
End sampling.

(** C40. What the dashboard shows of a host are percentages: with the sampler of Linux, whatever
    /proc/stat, /proc/meminfo and statfs hold - missing, malformed, or with counters that wrap or run
    backwards - and with the one of the other systems, however often the host was sampled - never yet,
    too - each report of a client and each status of an exit carries CPU, memory and disk use that are
    numbers from 0 to 100, never NaN. *)
Theorem reported_host_use :
  @reports_percentages Sampler (option (list byte) * option (list byte) * option (Z * Z * Z)) linux_sampler ∧
  @reports_percentages unit unit other_sampler.
Proof.
  split; apply sampler_reports.
  - intros [[stat meminfo] fs] s. apply Sample_percentages.
  - by repeat split.
Qed.

(** A Linux client before and after its first stored sample. *)
Example linux_samples :
  let i l := (proc_stat l, None, Some (100, 40, 4096)) in
  let h := startSampling (i "cpu  10 0 10 70 10 0 0 0") in
  hostStat h = (f64_zero, f64_zero, f64_zero) ∧
  (let '(cpu, mem, disk) := hostStat (sampleHost h (i "cpu  50 0 20 110 20 0 0 0")) in (f64_trunc cpu, f64_trunc mem, f64_trunc disk))
  = (50, 0, 60).
Proof. split; vm_compute; reflexivity. Qed.
