(* ===== verification/EndToEnd.v ===== *)
(** * A packet through client, broker and exit

    The three programs composed: the session the broker admits, the control messages with which it
    starts the session on the exit and answers the client, the connection the client then runs, and
    the relay of datagrams between the two connections. *)
From S2P Require Import Prelude Float64 Strs GoTime Netip Proto IPPool LB RateLimit DirectPath Session AdminAPI UserStore QoS TurnCred Client Broker BrokerSys BrokerProps Telemetry Exit ExitProps.

Open Scope Z_scope.

Section endtoend.
Context {S P U : Type} `{HistoryStore S} `{AddressPool P} `{UserRegistry U}.
Context (mac : string → string → string).
Context (parse6 : string → option Addr) (unmarshalSignal : list byte → option (list byte)).
Context {World SendErr : Type} (SendDatagram : positive → list byte → World → option SendErr * World).
Notation broker := (broker (S := S) (P := P) (U := U)).

(** ** The parts *)

(** What the relay of the broker does with an encoded packet of a live session. *)
Lemma relay_peer now c sid pkt s (b : broker) :
  0 ≤ sid < 2 ^ 64 → live_session b sid = Some s →
  snd (relayDatagram now c (EncodeDatagram sid pkt) b) =
  (λ peer, ODatagram peer (EncodeDatagram sid pkt)) <$>
    option_list (if decide (s_exitConn s = Some c) then s_clientConn s else s_exitConn s).
Proof.
  intros Hsid Hs. unfold relayDatagram. rewrite DecodeDatagram_EncodeDatagram by done. rewrite Hs. simpl.
  destruct (decide (s_exitConn s = Some c)) as [E|E];
    [rewrite (bool_decide_eq_true_2 _ E); by destruct (s_clientConn s)
    |rewrite (bool_decide_eq_false_2 _ E); by destruct (s_exitConn s)].
Qed.

(** The session the broker admits: bound to the client and to the exit, under a fresh 64-bit id. *)
Lemma admitted now c msg user le ls ex s (b b1 : broker) :
  admitSession now c msg user le b = (Ok ls, b1) → exit_heap b !! le = Some ex →
  session_heap b1 !! ls = Some s →
  0 ≤ s_id s < 2 ^ 64 ∧ live_session b1 (s_id s) = Some s ∧ s_clientConn s = Some c ∧
  s_exitConn s = Some (ex_conn ex) ∧ s_clientIP s = addr_string (s_clientAddr s) ∧
  exit_conn b1 le = [ex_conn ex].
Proof.
  unfold admitSession, nextSessionID, allocateAddr. cbv zeta.
  change (ipPool (b <| nextSession := _ |>)) with (ipPool b).
  destruct (pool_allocate _) as [[a pool]|]; [|by intros [? _]%pair_equal_spec].
  unfold publishSession, reportConnect. simpl. intros Ha Hex Hs. rewrite Hex in Ha. simpl in Ha. rewrite lookup_insert_eq in Ha.
  apply pair_equal_spec in Ha as [[= <-] <-]. simpl in Hs. rewrite lookup_insert_eq in Hs. injection Hs as <-.
  split_and!; try (by apply Z.mod_pos_bound); try done.
  - unfold live_session. simpl. by rewrite lookup_insert_eq; simpl; rewrite lookup_insert_eq.
  - unfold exit_conn. simpl. by rewrite lookup_alter_eq, Hex.
Qed.

(** The session a start message creates on the exit. *)
Lemma exit_started now m e ip :
  c_Type m = MsgSessionStart → ParseAddr parse6 (c_ClientIP m) = Some ip → e_sessions e !! c_SessionID m = None →
  fgtb (e_rateBytes e) f64_zero = false →
  let e1 := Exit.controlMessage parse6 unmarshalSignal now m e in
  ∃ l es, get e1 (c_SessionID m) = Some (l, es) ∧ e_byIP e1 !! ip = Some (c_SessionID m) ∧
    es_clientIP es = c_ClientIP m ∧ Session.path (es_sess es) = mkPath (e_conn e) (EncodeDatagram (c_SessionID m)) ∧
    limiter (es_sess es) = None.
Proof.
  intros T Hip Hnew Hr e1. unfold e1, Exit.controlMessage, addSession. rewrite T, Hip.
  assert (get e (c_SessionID m) = None) as -> by (unfold get; by rewrite Hnew).
  unfold newExitSession. rewrite Hr. simpl. eexists _, _.
  split; [apply get_Some; simpl; by rewrite !lookup_insert_eq|]. simpl. by rewrite lookup_insert_eq.
Qed.

(** The connection a client runs on the broker's answer. *)
Lemma client_running routeOK p cn resp cl :
  c_Type resp = MsgConnectOK → p_full p = false ∨ routeOK = true → fgtb (p_rateBytes p) f64_zero = false →
  ∃ cl1 cfg, runConnection routeOK p cn resp cl =
      (Running cl1, AddrUp (p_tunName p) (c_ClientIP resp +:+ "/24") (tunnelMTU (c_MTU resp)) :: cfg) ∧
    c_curSess cl1 = Some cn ∧ ∃ l, c_links cl1 !! cn = Some l ∧ limiter (ln_sess l) = None ∧
      Session.path (ln_sess l) = mkPath (Some cn) (EncodeDatagram (c_SessionID resp)).
Proof.
  intros T Hf Hr. unfold runConnection. rewrite T.
  assert (p_full p && negb (c_routesUp cl) && negb routeOK = false) as ->.
  { destruct Hf as [-> | ->]; [done|]. apply andb_false_r. }
  eexists _, _. split; [done|]. split; [done|]. eexists. split; [simpl; by rewrite lookup_insert_eq|].
  unfold newLink. by rewrite Hr.
Qed.

(** One packet of that connection's pump: without a limiter it is sent, encoded. *)
Lemma pump_sends (SendC : positive → list byte → World → option SendErr * World) now pkt cl cn l enc w :
  c_curSess cl = Some cn → c_links cl !! cn = Some l → limiter (ln_sess l) = None →
  Session.path (ln_sess l) = mkPath (Some cn) enc →
  snd (tunPump SendC now pkt cl w) = snd (SendC cn (enc pkt) w).
Proof.
  intros Hc Hl Hlim Hp. unfold tunPump. rewrite Hc. simpl. rewrite Hl. simpl. unfold Send.
  rewrite Hp, Hlim. simpl. rewrite Hp. simpl. by destruct (SendC _ _ _) as [[]].
Qed.

(** The start messages of a session carry its id and address. *)
Lemma session_start_fields ty now (b : broker) s :
  let m := session_start mac ty now b s in c_Type m = ty ∧ c_SessionID m = s_id s ∧ c_ClientIP m = s_clientIP s.
Proof. unfold session_start. case_decide; [done|]. by destruct (Credentials _ _ _ _ _). Qed.

(** ** The composition *)

(** C3. Packets cross the relay unchanged, and only with the client's own address: after the broker
    admits a client to an exit, the exit has processed the start message and the client the answer
    that the broker sends them, the client has configured the assigned address; a packet of the
    client's TUN device is sent to the broker as one datagram, which the broker forwards to the exit,
    which writes exactly this packet to its TUN device if the source is the assigned address, and
    nothing otherwise; and a packet from the exit's TUN device to that address is sent to the broker
    as one datagram, which the broker forwards to this client's connection, where exactly this packet
    is written to the TUN device. *)
Theorem packets_cross_the_relay (SendC : positive → list byte → World → option SendErr * World) now now' now2 c msg user le ls ex s z xe (b b1 : broker) e routeOK p cn cl :
  admitSession now c msg user le b = (Ok ls, b1) → exit_heap b !! le = Some ex → c ≠ ex_conn ex →
  session_heap b1 !! ls = Some s → s_clientAddr s = Addr4 z → 0 ≤ z < 2 ^ 32 →
  e_conn e = Some xe → e_sessions e !! s_id s = None → fgtb (e_rateBytes e) f64_zero = false →
  p_full p = false ∨ routeOK = true → fgtb (p_rateBytes p) f64_zero = false →
  let '(ok, b2, outs) := startSession mac now false c ls le b1 in
  ok = true ∧ ∃ m mc cl1 cfg mtu, OCtrl (ex_conn ex) m ∈ outs ∧ OCtrl c mc ∈ outs ∧
  runConnection routeOK p cn mc cl = (Running cl1, AddrUp (p_tunName p) (addr_string (Addr4 z) +:+ "/24") mtu :: cfg) ∧
  let e1 := Exit.controlMessage parse6 unmarshalSignal now' m e in
  (∀ pkt w, ∃ d d', snd (tunPump SendC now2 pkt cl1 w) = snd (SendC cn d w) ∧
     snd (relayDatagram now2 c d b2) = [ODatagram (ex_conn ex) d'] ∧
     snd (datagramToTun d' e1) = if decide (ipv4Src pkt = Some (Addr4 z)) then [pkt] else []) ∧
  (∀ pkt w, ipv4Dst pkt = Some (Addr4 z) → ∃ d d',
     snd (tunToDatagram SendDatagram now2 pkt e1 w) = snd (SendDatagram xe d w) ∧
     snd (relayDatagram now2 (ex_conn ex) d b2) = [ODatagram c d'] ∧ relayInbound d' = [pkt]).
Proof.
  intros Ha Hex Hne Hs Hz Hr Hc Hnew Hrate Hroute Hcrate. unfold startSession. rewrite Hs.
  destruct (admitted _ _ _ _ _ _ _ _ _ _ Ha Hex Hs) as (Hsid & Hlive & Hcc & Hec & Hip & Hconn).
  rewrite Hconn. split; [done|].
  set (m := session_start mac MsgSessionStart now b1 s). set (mc := session_start mac MsgConnectOK now b1 s).
  destruct (session_start_fields MsgSessionStart now b1 s) as (T & Hm & Hmip). fold m in T, Hm, Hmip.
  destruct (session_start_fields MsgConnectOK now b1 s) as (Tc & Hmc & Hmcip). fold mc in Tc, Hmc, Hmcip.
  destruct (client_running routeOK p cn mc cl Tc Hroute Hcrate) as (cl1 & cfg & Hrun & Hcur & lk & Hlk & Hklim & Hkp).
  rewrite Hmcip, Hip, Hz in Hrun. rewrite Hz in Hip. rewrite Hmc in Hkp.
  exists m, mc, cl1, cfg, (tunnelMTU (c_MTU mc)). split_and!; [by left|by right; left|exact Hrun|..].
  all: simpl in Hip;
    assert (ParseAddr parse6 (c_ClientIP m) = Some (Addr4 z)) as Hpa by (rewrite Hmip, Hip; by apply ParseAddr_String4);
    set (e1 := Exit.controlMessage parse6 unmarshalSignal now' m e);
    destruct (exit_started now' m e _ T Hpa ltac:(by rewrite Hm) Hrate)
      as (l & es & Hg & Hby & Hes & Hpath & Hlim);
    fold e1 in Hg, Hby; rewrite Hm in Hg, Hby, Hpath; intros pkt w;
    pose proof (DecodeDatagram_EncodeDatagram (s_id s) pkt Hsid) as Hdec.
  - exists (EncodeDatagram (s_id s) pkt), (EncodeDatagram (s_id s) pkt).
    rewrite (relay_peer _ _ _ _ _ _ Hsid Hlive), Hec, decide_False by congruence.
    split_and!; [exact (pump_sends SendC _ _ _ _ _ _ _ Hcur Hlk Hklim Hkp)|done|].
    apply (datagramToTun_out _ _ (s_id s) pkt l es z); try done. by rewrite Hes, Hmip.
  - intros Hd. exists (EncodeDatagram (s_id s) pkt), (EncodeDatagram (s_id s) pkt).
    split_and!; [| |unfold relayInbound; by rewrite Hdec].
    + unfold tunToDatagram. rewrite Hd. simpl. rewrite Hby. simpl. rewrite Hg. unfold Send.
      rewrite Hpath, Hlim, Hc. simpl. rewrite Hpath. simpl. by destruct (SendDatagram _ _ _) as [[]].
    + by rewrite (relay_peer _ _ _ _ _ _ Hsid Hlive), Hec, decide_True, Hcc.
Qed.
End endtoend.

(** ** A concrete run: one client on the exit of the demo broker *)

Definition demo_mac (secret user : string) : string := user.
#[local] Instance e2e_registry : UserRegistry table := table_UserRegistry demo_hmac.
Definition idle_exit : exit := serveBegin 9 demo_exit.
Definition exit_a0 : exitNode := exit_a <| ex_active := 0 |>.

Lemma packets_cross_the_relay_witness :
  let z := ((10 * 256 + 99) * 256 + 0) * 256 + 2 in
  let '(ok, b2, outs) := startSession demo_mac 200 false 11 1 1 db2 in
  ok = true ∧ ∃ m mc cl1 cfg mtu, OCtrl (ex_conn exit_a0) m ∈ outs ∧ OCtrl 11%positive mc ∈ outs ∧
  runConnection true demo_params 3 mc startup = (Running cl1, AddrUp "tun0" (addr_string (Addr4 z) +:+ "/24") mtu :: cfg) ∧
  let e1 := Exit.controlMessage no6 no_signal 210 m idle_exit in
  (∀ pkt w, ∃ d d', snd (tunPump conn_send 220 pkt cl1 w) = snd (conn_send 3 d w) ∧
     snd (relayDatagram 220 11 d b2) = [ODatagram (ex_conn exit_a0) d'] ∧
     snd (datagramToTun d' e1) = if decide (ipv4Src pkt = Some (Addr4 z)) then [pkt] else []) ∧
  (∀ pkt w, ipv4Dst pkt = Some (Addr4 z) → ∃ d d',
     snd (tunToDatagram conn_send 220 pkt e1 w) = snd (conn_send 9 d w) ∧
     snd (relayDatagram 220 (ex_conn exit_a0) d b2) = [ODatagram 11%positive d'] ∧ relayInbound d' = [pkt]).
Proof.
  apply (packets_cross_the_relay demo_mac no6 no_signal conn_send conn_send 200 210 220 11 (client_msg "tok-a" "k") alice
           1 1 exit_a0 sess_a (((10 * 256 + 99) * 256 + 0) * 256 + 2) 9 db1 db2 idle_exit true demo_params 3 startup);
    try by_computation; [done|lia|by left].
Defined.
