(* ===== verification/Direct.v ===== *)
(** * The direct path of cmd/revquic-client and cmd/revquic-exit, from end to end

    [runDirect] of both programs, composed of what the other files model: the agent of [Pion] made from
    the settings, the negotiation of [Ice], and the session's steps of [Client] and [Exit].  The signals
    received are arguments, as in [Ice]. *)
From S2P Require Import Prelude Strs GoTime Proto Float64 DirectPath Session Ice Pion Client Exit.

Open Scope Z_scope.

Section direct.
Context {P C : Type} `{PionLaws P C} (q : quic_env).

(** ** The agents *)

(** The broker's STUN and TURN servers come before those of the command line. *)
Definition client_agent (iceKA : Duration) (p : runParams) (resp : Control) : PionConfig :=
  mkPionConfig RoleControlling
    (Client.splitCSV (Client.orStr (Proto.c_StunURL resp) (p_stun p)))
    (Client.splitCSV (Client.orStr (Proto.c_TurnURL resp) (p_turn p)))
    (Client.orStr (Proto.c_TurnUser resp) (p_turnUser p)) (Client.orStr (Proto.c_TurnPass resp) (p_turnPass p))
    iceKA 0 0 false false.

Definition exit_agent (iceKA : Duration) (e : exit) (es : exitSession) : PionConfig :=
  mkPionConfig RoleControlled
    (Exit.splitCSV (Exit.orStr (es_stun es) (e_stun e))) (Exit.splitCSV (Exit.orStr (es_turn es) (e_turn e)))
    (Exit.orStr (es_turnUser es) (e_turnUser e)) (Exit.orStr (es_turnPass es) (e_turnPass e))
    iceKA 0 0 false false.

(** ** [runDirect], to the end of the negotiation *)

(** The steps of [UpgradeDirect]: its two critical sections and its return. *)
Definition upgrade_steps (l : link) : link :=
  let step l := fst (Client.runDirect Continue l) in step (step (step l)).

Definition client_direct (iceKA : Duration) (p : runParams) (resp : Control) (sendErr : option string) (sigs during late : list Signal)
    (timedOut : bool) (pcSeq : Z) (l : link) : list Signal * link :=
  match NewPionAgent (client_agent iceKA p resp) with
  | Err _ => ([], fst (Client.runDirect AgentFailed l))
  | Ok a =>
      let l := fst (Client.runDirect Began l) in
      match ln_direct l with
      | Negotiating =>
          let '(out, o) := Negotiate q sendErr RoleControlling "1" sigs during late timedOut (bool_decide (p_directMode p = "p2p-only")) pcSeq a in
          (out, match o with
                | Done (Ok qc) _ _ => upgrade_steps (fst (Client.runDirect (Negotiated (Some qc)) l))
                | Done (Err _) _ _ => fst (Client.runDirect (Negotiated None) l)
                | _ => l
                end)
      | _ => ([], l)
      end
  end.

Definition exit_direct (iceKA : Duration) (sid : Z) (loc : positive) (sendErr : option string) (sigs during late : list Signal)
    (cancelled : bool) (pcSeq : Z) (e : exit) : list Signal * exit :=
  match e_heap e !! loc with
  | None => ([], e)
  | Some es =>
      match NewPionAgent (exit_agent iceKA e es) with
      | Err _ => ([], e)
      | Ok a =>
          let begun := BeginChecks (es_sess es) in
          let e := Exit.directBegin loc e in
          match begun with
          | (Some _, _) => ([], e)
          | (None, _) =>
              let '(out, o) := Negotiate q sendErr RoleControlled (itoa sid) sigs during late cancelled (bool_decide (e_directMode e = "p2p-only")) pcSeq a in
              (out, match o with
                    | Done (Ok qc) _ _ => Exit.directUp qc loc e
                    | Done (Err _) _ _ => Exit.directFailed loc e
                    | _ => e
                    end)
          end
      end
  end.

(** ** Properties *)

(** The session runs on its relay and has not tried a direct path yet. *)
Definition on_relay (relay : Path positive) (s : Session.Session positive) : Prop := m s = StateRelaying ∧ Session.path s = relay.

(** The session runs on a connection that an agent of the settings [cfg] negotiated - in peer-to-peer
    mode not over a pair with a relayed end. *)
Definition on_direct (cfg : PionConfig) (p2pOnly : bool) (s : Session.Session positive) : Prop :=
  ∃ a0 sendErr sid sigs during late cancelled pcSeq out qc cl (a : pionAgent P),
    NewPionAgent cfg = Ok a0 ∧
    Negotiate q sendErr (pcf_Role cfg) sid sigs during late cancelled p2pOnly pcSeq a0 = (out, Done (Ok qc) cl a) ∧
    m s = StateDirect ∧ Session.path s = mkPath (Some qc) Identity ∧
    (p2pOnly = true → ∀ l r, GetSelectedCandidatePair (pa_agent a) = Ok (Some (l, r)) → c_Type l ≠ TypeRelay ∧ c_Type r ≠ TypeRelay).

Lemma upgraded cfg p2pOnly a0 sendErr sid sigs during late cancelled pcSeq out qc cl (a : pionAgent P) s :
  NewPionAgent cfg = Ok a0 →
  Negotiate q sendErr (pcf_Role cfg) sid sigs during late cancelled p2pOnly pcSeq a0 = (out, Done (Ok qc) cl a) →
  m s = StateDirect → Session.path s = mkPath (Some qc) Identity → on_direct cfg p2pOnly s.
Proof.
  intros Ha En Hm Hp. exists a0, sendErr, sid, sigs, during, late, cancelled, pcSeq, out, qc, cl, a. split_and!; [done..|].
  intros -> l r. apply pair_not_relayed. by eapply negotiate_p2p.
Qed.

Lemma client_attempt iceKA p resp sendErr sigs during late stop pcSeq l :
  ln_direct l = Starting → on_relay (ln_relay l) (ln_sess l) →
  let '(_, l') := client_direct iceKA p resp sendErr sigs during late stop pcSeq l in
  Session.path (ln_sess l') = ln_relay l ∨
  on_direct (client_agent iceKA p resp) (bool_decide (p_directMode p = "p2p-only")) (ln_sess l') ∧ ln_direct l' = Receiving.
Proof.
  intros Hs [Hm Hp]. unfold client_direct. destruct (NewPionAgent _) as [a0|] eqn:Ha.
  2: { left. unfold Client.runDirect. by rewrite Hs. }
  assert (fst (Client.runDirect Began l) = l <| ln_sess ::= λ s, s <| m := StateChecking |> |> <| ln_direct := Negotiating |>) as ->.
  { unfold Client.runDirect. rewrite Hs. simpl. unfold Client.directBegin, BeginChecks. simpl. unfold fire. by rewrite Hm. }
  cbn [ln_direct].
  destruct (Negotiate _ _ _ _ _ _ _ _ _ _ _) as [out o] eqn:En. destruct o as [| |[qc|err] cl a]; [by left..| |].
  - right. split; [|done]. by eapply upgraded.
  - by left.
Qed.

Lemma exit_attempt iceKA sendErr sigs during late stop pcSeq sid loc e es relay :
  e_heap e !! loc = Some es → on_relay relay (es_sess es) →
  let '(_, e') := exit_direct iceKA sid loc sendErr sigs during late stop pcSeq e in
  ∃ es', e_heap e' !! loc = Some es' ∧
    (Session.path (es_sess es') = relay ∨
     on_direct (exit_agent iceKA e es) (bool_decide (e_directMode e = "p2p-only")) (es_sess es')).
Proof.
  intros Hes [Hm Hp]. unfold exit_direct. rewrite Hes. destruct (NewPionAgent _) as [a0|] eqn:Ha.
  2: { exists es. auto. }
  assert (BeginChecks (es_sess es) = (None, (es_sess es) <| m := StateChecking |>)) as Hb.
  { unfold BeginChecks. simpl. unfold fire. by rewrite Hm. }
  rewrite Hb.
  assert (e_heap (Exit.directBegin loc e) !! loc = Some (es <| es_sess ::= λ s, s <| m := StateChecking |> |>)) as He.
  { unfold Exit.directBegin, on_session. simpl. rewrite lookup_alter_eq, Hes. simpl. by rewrite Hb. }
  destruct (Negotiate _ _ _ _ _ _ _ _ _ _ _) as [out o] eqn:En. destruct o as [| |[qc|err] cl a]; [by eexists; split; [exact He|left]..| |].
  all: unfold Exit.directUp, Exit.directFailed, on_session at 1; cbn [e_heap]; eexists;
    (split; [etrans; [apply lookup_alter_eq|]; by rewrite He|]); simpl.
  - right. by eapply upgraded.
  - by left.
Qed.

(** C21. A direct path is only ever an improvement: whatever the broker's and the user's settings, the
    signals of the peer and the failures of agent, library and QUIC, the attempt of the client and that
    of the exit leave the session with a path to send on - the relay it had, or the negotiated
    connection, in which case an agent with the configured servers negotiated it, and in peer-to-peer
    mode not over a TURN relay. *)
Theorem direct_attempt_is_safe iceKA p resp sendErr sigs during late stop pcSeq :
  (∀ l, ln_direct l = Starting → on_relay (ln_relay l) (ln_sess l) →
     let '(_, l') := client_direct iceKA p resp sendErr sigs during late stop pcSeq l in
     Session.path (ln_sess l') = ln_relay l ∨
     on_direct (client_agent iceKA p resp) (bool_decide (p_directMode p = "p2p-only")) (ln_sess l') ∧ ln_direct l' = Receiving) ∧
  (∀ sid loc e es relay, e_heap e !! loc = Some es → on_relay relay (es_sess es) →
     let '(_, e') := exit_direct iceKA sid loc sendErr sigs during late stop pcSeq e in
     ∃ es', e_heap e' !! loc = Some es' ∧
       (Session.path (es_sess es') = relay ∨
        on_direct (exit_agent iceKA e es) (bool_decide (e_directMode e = "p2p-only")) (es_sess es'))).
Proof.
  split; intros.
  - by apply client_attempt.
  - by apply exit_attempt.
Qed.
End direct.

(** ** A client that upgrades, and one whose servers are misspelt *)

#[local] Existing Instances demo_pion demo_pion_laws.

Definition p2p_params (stun : string) : runParams :=
  mkParams "eu" "tok" "" "laptop" "k" false "" "" "" true "p2p-only" stun "" "" "" f64_zero 0 "tun0" "host" "linux/amd64".
Definition demo_link : link := newLink (p2p_params "") 7 5.
Definition demo_peer : list Signal := peer_stream "5" (mkCredentials "a" "x") demo_found.

Example demo_upgrade :
  ln_direct (snd (client_direct dial_ok 0 (p2p_params "stun:b") (control MsgConnectOK) None demo_peer [] [] false 0 demo_link)) = Receiving.
Proof. reflexivity. Qed.

Example misspelt_stays_on_relay :
  ln_direct (snd (client_direct dial_ok 0 (p2p_params "stun:b,c") (control MsgConnectOK) None demo_peer [] [] false 0 demo_link)) = Over.
Proof. reflexivity. Qed.

Lemma direct_attempt_is_safe_witness :
  let '(_, l') := client_direct dial_ok 0 (p2p_params "stun:b") (control MsgConnectOK) None demo_peer [] [] false 0 demo_link in
  Session.path (ln_sess l') = ln_relay demo_link ∨
  on_direct dial_ok (client_agent 0 (p2p_params "stun:b") (control MsgConnectOK)) true (ln_sess l') ∧ ln_direct l' = Receiving.
Proof.
  by apply (proj1 (direct_attempt_is_safe dial_ok 0 (p2p_params "stun:b") (control MsgConnectOK) None demo_peer [] [] false 0)).
Defined.
